(* ===== verification/_CoqProject ===== *)
-Q . S2P
Prelude.v
CLib.v
Types.v
Elf.v
Symbols.v
Format.v
Meta.v
Resolve.v
Hwt.v
Trace.v
CallTree.v
Profile.v
Dwarf.v
Options.v
Collapsed.v
Callers.v
Packets.v
Image.v
Snapshot.v
Kept.v
Decode.v
Commands.v
Session.v
Sim.v
Witness.v
