(* ===== verification/Prelude.v ===== *)
(** * bsdtrace: a verified model

    ** The program

    bsdtrace (src/Sources/bsdtrace) traces a FreeBSD process with Intel PT
    through the hwt(4) devices and decodes the trace.  [exec] forks a stopped
    child and traces it, [trace] attaches to a process, [decode] replays a
    saved trace, [list] shows what the system offers.  A tracing command
    allocates a context in the kernel (hwt.c), configures and starts it, polls
    its records into a trace state and a sidecar file (trace.c, meta.c), stops,
    drains, chooses how much of the PT buffer to keep, saves it and decodes it
    with libipt against an image built from the recorded binaries (decode.c,
    elf.c, symbols.c).  The decode lists instructions or feeds one of five
    recorders: profile, call tree, collapsed stacks, speedscope, callers.

    ** Files

    - CLib: digits, printf and scanf conversions, strtol, strlcpy, strtok and
      qsort of the C library, as far as the code uses them.
    - Types: bsdtrace.h (records, formats, image sections, constants).
    - Elf: elf.c.  Load addresses, which sections count, ranges of code.
    - Symbols: symbols.c.  The symbol table: growth, sorting, lookup.
    - Format: format.c.  Records as text and as JSON in a fixed buffer.
    - Meta: meta.c.  The sidecar's writer and readers.
    - Resolve: resolve.c.  Range specifications, symbols, slides, mappings.
    - Hwt: hwt.c.  The context and every call on the devices.
    - Trace: trace.c, first part.  The trace state and the post-stop drain.
    - CallTree, Profile, Collapsed, Callers: the recorders of decode.c.
    - Dwarf: dwarf.c.  The line cache.
    - Options: getopt, the option switches of exec, trace and list, sizes.
    - Packets: the packet listing of decode.c.
    - Image: the libipt image and symbols of a decode.
    - Snapshot: trace.c, second part.  What is kept, saved and decoded.
    - Kept: a frame rule for the functions of Hwt, Trace and Snapshot.
    - Decode: the instruction loop, its recorders and reports, the probe.
    - Commands: cmd_list.c and cmd_decode.c.
    - Session: cmd_exec.c, cmd_trace.c and the main of bsdtrace.c.
    - Sim: a simulated system, an instance of every interface.
    - Witness: the theorems applied to concrete data.

    Definitions keep the names of the C functions.  A loop is a Fixpoint of
    its own name ([range_loop] of build_bin_ranges, [exec_step] of cmd_exec);
    a C struct is a record, an update of some of its fields a [set_]/[with_]
    function.  A NULL or -1 result is [None] or a code, as in the source.

    ** State and effects

    [mem] is the heap: a counter for new blocks and the outcomes of the
    allocations to come, so a theorem holds for every pattern of failures
    unless it assumes [mem_ok], that none fails.  Where the code uses an
    allocation unchecked (the call tree's stack, the reports' arrays [arr] and
    copies, the arguments of -F and -T) a failure is a crash, the result
    [None] of a function that otherwise gives a value and the memory left.
    The contents of blocks are
    values, except for the call tree (a heap of arrays that realloc moves,
    into which the stack points).  The kernel is threaded as a state.
    Machine integers are [Z] reduced by [u8], [u32], [u64], [i32], [i64] where
    the C types reduce them; counters of events are unbounded.

    ** Interfaces

    What is outside the repository is a class, with the documented behaviour
    the code relies on as a class of laws, and an instance in Sim:
    [Kernel] with [KernelLaws] (descriptors), [WriteLaws] (write makes
    progress), [RecordQueue] (records are delivered once); [Files] with
    [FileLaws] and [Reading] with [ReadingLaws] (stdio and files);
    [Processes] with [ProcessLaws] (children, configuration; a failed wait
    reaps nothing), [ChildWaits] (a wait without flags for one's own child
    does not fail) and [TargetExits] (the target exits after finitely many
    polls); [SysInfo], [HostInfo] and [ProcInfo] (sysctl); [LibElf],
    [LibDwarf]; libipt's [PtImage] (which may refuse a segment),
    [PtInsnDecoder] with [InsnLaws] and [PtPacketDecoder] with [PacketLaws]
    (each call consumes the buffer).  Inside the program, trace.c is verified
    against [Decoder] and [DecoderLaws], which Decode implements; the profile
    against [DwarfLines], which Dwarf implements; sorting against [QSort].

    ** What is shown

    - Replay: with memory, a saved trace decodes offline with the images,
      thread, timing and filter of the live decode, for a session without -K
      whose paths the sidecar can carry (Commands.decode_replays, over the
      round trips of Meta).
    - Sessions: with memory, and in the formats other than collapsed and
      speedscope (whose recorder can write past its buffer), exec and trace
      end on every path if the target exits after finitely many polls, give
      back descriptors, reap the child (exec; its wait must not fail) and
      never start an unconfigured context (Session.cmd_exec_clean,
      cmd_trace_clean; Hwt.session_no_leak; Trace.drain_terminates); decode
      ends, under the same conditions on memory and format
      (Commands.cmd_decode_ends); the configuration is the one asked for
      (Session.config_of_options).
    - Decoding: the loop ends, and each output is what the instruction stream
      implies: the tree of the calls, the counters of the profile (over runs
      without gaps whose instructions have symbols), one stack for each
      return (while depth, texts and table fit), the lines, the summary; the
      probe meets the decode's run, every failure is classified (Decode).
    - Recorders: the call tree refines an abstract shadow stack and never
      follows a dangling pointer, its set-up crashes exactly without memory
      (CallTree), profile, stacks and callers count exactly (Profile,
      Collapsed, Callers).
    - Packets: each line is the one a table of names and fields gives
      (Packets).
    - Images and symbols: the ranges the profile uses are the segments
      libipt is given (Image), lookups are right after sorting (Symbols).
    - Bounds: JSON lines fit their buffer (Format), arrays their capacity
      (Elf, Trace), the stack text only when it is short (Collapsed).
    - Files: a snapshot is written in full, or its failure is that of a call
      (Hwt).
    - Command lines: every setting is read from the option that asks for it,
      what goes on is valid, and only a failed allocation crashes (Options).
    - Lines: the nearest row, and a cache that cannot be seen (Dwarf).

    ** Fuel

    Where recursion is not structural a function takes fuel and answers
    [None] without it; a theorem shows enough.  getopt's loop gets one more
    than the characters it scans; write_loop one more than the bytes; the
    units of a file one more than their number; libipt's loops what is left
    of the buffer; the drain 41 turns per pending record and 41 more; the
    session loops 6 per poll or record left and 6 more.

    ** Not modelled

    - What is printed on stderr (diagnostics, usage, summaries as text; the
      summary's counters are modelled).
    - The child's side of fork beyond its arguments, signal delivery at
      arbitrary points (only the flag its handler sets), and time other than
      as the clock's answers.
    - free(): blocks are never reused, so a leak is not visible (the call
      tree's arrays apart, which are freed and checked).
    - bsdtrace_ptwrite.h (inline assembly for traced programs), the Swift
      code, D profiles, kernel patches and tests around the C program.
    - libdwarf's errors while iterating units, which end the iteration as
      its end does.
*)

(** Shared base: automation, memory, machine integers, lists and strings. *)

From Stdlib Require Import ZArith Lia Ascii String.
From stdpp Require Import base list strings sets gmap sorting.

#[global] Open Scope Z_scope.

(** * Automation *)

Create HintDb bsdtrace.

(** Splits every [if] of the goal on the boolean it tests, keeping the fact
    as a proposition where [Z] comparisons are concerned. *)
Ltac case_bool :=
  match goal with
  | |- context [if ?b then _ else _] =>
      match type of b with bool => let E := fresh "E" in destruct b eqn:E end
  end.

Ltac case_bool_in H :=
  match type of H with
  | context [if ?b then _ else _] =>
      match type of b with bool => let E := fresh "E" in destruct b eqn:E end
  end.

(** Turns boolean comparison facts of the context into propositions. *)
Ltac to_prop :=
  repeat match goal with
  | H : (_ && _)%bool = true |- _ => apply andb_true_iff in H as [? ?]
  | H : (_ || _)%bool = false |- _ => apply orb_false_iff in H as [? ?]
  | H : negb _ = true |- _ => apply negb_true_iff in H
  | H : negb _ = false |- _ => apply negb_false_iff in H
  | H : (_ <? _) = true |- _ => apply Z.ltb_lt in H
  | H : (_ <? _) = false |- _ => apply Z.ltb_ge in H
  | H : (_ <=? _) = true |- _ => apply Z.leb_le in H
  | H : (_ <=? _) = false |- _ => apply Z.leb_gt in H
  | H : (_ =? _) = true |- _ => apply Z.eqb_eq in H
  | H : (_ =? _) = false |- _ => apply Z.eqb_neq in H
  | H : String.eqb _ _ = true |- _ => apply String.eqb_eq in H
  | H : String.eqb _ _ = false |- _ => apply String.eqb_neq in H
  | H : Nat.eqb _ _ = true |- _ => apply Nat.eqb_eq in H
  | H : Nat.eqb _ _ = false |- _ => apply Nat.eqb_neq in H
  end.

(** The usual way to finish a case analysis on comparisons. *)
Ltac split_cases := repeat case_bool; to_prop; simplify_eq/=; try lia; auto.

(** * Machine integers *)

Abbreviation two32 := 4294967296 (only parsing).
Abbreviation two63 := 9223372036854775808 (only parsing).
Abbreviation two64 := 18446744073709551616 (only parsing).

Definition u8 (x : Z) : Z := x mod 256.
Definition u32 (x : Z) : Z := x mod two32.
Definition u64 (x : Z) : Z := x mod two64.
Definition i32 (x : Z) : Z := (x + 2147483648) mod two32 - 2147483648.
Definition i64 (x : Z) : Z := (x + two63) mod two64 - two63.

Definition is_u64 (x : Z) : Prop := 0 <= x < two64.
Definition is_i32 (x : Z) : Prop := -2147483648 <= x < 2147483648.

Lemma u64_small x : is_u64 x -> u64 x = x.
Proof. intros ?. by apply Z.mod_small. Qed.

Lemma u64_range x : is_u64 (u64 x).
Proof. by apply Z.mod_pos_bound. Qed.

Lemma i32_small x : is_i32 x -> i32 x = x.
Proof. unfold is_i32, i32. intros ?. rewrite Z.mod_small; lia. Qed.

Lemma i64_eqm x : exists k, i64 x = x + k * two64.
Proof.
  unfold i64. exists (- ((x + two63) / two64)).
  pose proof (Z.div_mod (x + two63) two64). lia.
Qed.

(** A signed 64-bit intermediate does not change an unsigned 64-bit sum. *)
Lemma u64_add_i64 a x : u64 (a + i64 x) = u64 (a + x).
Proof.
  unfold u64. destruct (i64_eqm x) as [k ->].
  rewrite Z.add_assoc. apply Z_mod_plus_full.
Qed.

Lemma u64_add_u64 a x : u64 (u64 a + x) = u64 (a + x).
Proof. unfold u64. by rewrite Zplus_mod_idemp_l. Qed.

#[export] Hint Resolve u64_range : bsdtrace.

(** [trunc_page] of <machine/param.h>: clear the low twelve bits. *)
Definition PAGE_SIZE : Z := 4096.
Definition trunc_page (x : Z) : Z := Z.land x (Z.lnot (PAGE_SIZE - 1)).

Lemma trunc_page_spec x : trunc_page x = x - x mod PAGE_SIZE.
Proof.
  unfold trunc_page, PAGE_SIZE. rewrite <- Z.ldiff_land.
  change (4096 - 1) with (Z.ones 12).
  rewrite Z.ldiff_ones_r, Z.shiftl_mul_pow2, Z.shiftr_div_pow2 by lia.
  change (2 ^ 12) with 4096.
  pose proof (Z.div_mod x 4096). lia.
Qed.

(** * Dynamic memory

    A [char *] is a location with the characters stored there: the code
    compares some names by pointer and some by contents.  [mem] gives the
    next fresh location and the outcomes of the coming allocations; once the
    list is used up every allocation succeeds. *)

Record cstr := CStr { loc : nat; chars : string }.

Record mem := Mem { next_loc : nat; outcomes : list bool }.

Definition malloc (m : mem) : option nat * mem :=
  match outcomes m with
  | false :: o => (None, Mem (next_loc m) o)
  | _ :: o => (Some (next_loc m), Mem (S (next_loc m)) o)
  | [] => (Some (next_loc m), Mem (S (next_loc m)) [])
  end.

Definition strdup (s : string) (m : mem) : option cstr * mem :=
  let '(r, m) := malloc m in ((fun l => CStr l s) <$> r, m).

Definition ptr_eqb (p q : cstr) : bool := (loc p =? loc q)%nat.

(** No allocation fails from here on. *)
Definition mem_ok (m : mem) : Prop := Forall (fun b => b = true) (outcomes m).

Lemma malloc_spec m r m' :
  malloc m = (r, m') ->
  (r = None /\ next_loc m' = next_loc m) \/
  (r = Some (next_loc m) /\ next_loc m' = S (next_loc m)).
Proof. unfold malloc. destruct (outcomes m) as [|[] ?]; intros [= <- <-]; auto. Qed.

Lemma malloc_ok m :
  mem_ok m -> exists m', malloc m = (Some (next_loc m), m') /\
    next_loc m' = S (next_loc m) /\ mem_ok m'.
Proof.
  unfold mem_ok, malloc. intros H.
  destruct (outcomes m) as [|b o] eqn:E; [eauto|].
  inversion H; subst. eexists. split_and!; eauto.
Qed.

Lemma malloc_mono m r m' : malloc m = (r, m') -> (next_loc m <= next_loc m')%nat.
Proof. intros [[-> ->]|[-> ->]]%malloc_spec; lia. Qed.

Lemma strdup_spec s m r m' :
  strdup s m = (r, m') ->
  (r = None /\ next_loc m' = next_loc m) \/
  (r = Some (CStr (next_loc m) s) /\ next_loc m' = S (next_loc m)).
Proof.
  unfold strdup. destruct (malloc m) as [r0 m0] eqn:E. intros [= <- <-].
  apply malloc_spec in E as [[-> ->]|[-> ->]]; auto.
Qed.

Lemma strdup_ok s m :
  mem_ok m -> exists m', strdup s m = (Some (CStr (next_loc m) s), m') /\
    next_loc m' = S (next_loc m) /\ mem_ok m'.
Proof.
  intros (m' & E & ? & ?)%malloc_ok. exists m'. unfold strdup. by rewrite E.
Qed.

(** * Growing arrays

    Every table of the program doubles its capacity when full: [grow] is the
    new capacity and tells whether an allocation is needed. *)
Definition grow (init cap : Z) : Z := if cap =? 0 then init else cap * 2.

Lemma grow_gt init cap : 0 < init -> 0 <= cap -> cap < grow init cap.
Proof. unfold grow. intros. case_bool; to_prop; lia. Qed.

(** ** Unchecked allocations

    Some functions use what an allocation gave them without looking: they end
    with [None], a crash, when it fails.  [allocates m Q r] says that of the
    result [r]: it satisfies [Q] if there is one and memory stays available
    if it was, and there is one unless memory ran out. *)
Definition allocates {A} (m : mem) (Q : A -> Prop) (r : option (A * mem)) : Prop :=
  match r with
  | Some (a, m') => Q a /\ (mem_ok m -> mem_ok m')
  | None => ~ mem_ok m
  end.

Lemma allocates_ret {A} m (Q : A -> Prop) a : Q a -> allocates m Q (Some (a, m)).
Proof. by split. Qed.

Lemma allocates_bind {A B} m (Q : A -> Prop) (R : B -> Prop) r (k : A * mem -> option (B * mem)) :
  allocates m Q r -> (forall a m', Q a -> allocates m' R (k (a, m'))) -> allocates m R (r ≫= k).
Proof.
  intros Hr Hk. destruct r as [[a m1]|]; [|done]. destruct Hr as [Ha Hm]. cbn [mbind option_bind].
  specialize (Hk a m1 Ha). unfold allocates in *. destruct (k (a, m1)) as [[b m2]|]; naive_solver.
Qed.

Lemma allocates_impl {A} m (Q R : A -> Prop) r :
  allocates m Q r -> (forall a, Q a -> R a) -> allocates m R r.
Proof. intros Hr HQ. destruct r as [[a m1]|]; [|done]. destruct Hr. split; auto. Qed.

Lemma allocates_and {A} m (Q R : A -> Prop) r :
  allocates m Q r -> allocates m R r -> allocates m (fun a => Q a /\ R a) r.
Proof. destruct r as [[a m1]|]; [|done]. intros [? ?] [? ?]. by split. Qed.

Lemma allocates_ok {A} m (Q : A -> Prop) r :
  allocates m Q r -> mem_ok m -> exists a m', r = Some (a, m') /\ Q a /\ mem_ok m'.
Proof. intros Hr Hm. destruct r as [[a m1]|]; [|by destruct Hr]. destruct Hr as [? ?]. exists a, m1. auto. Qed.

(** An array with its capacity, which grows when an element is stored behind
    the last: [None] is the store through the null pointer of a failed
    realloc. *)
Record arr (A : Type) := Arr { items : list A; room : Z }.
#[global] Arguments Arr {A} _ _.
#[global] Arguments items {A} _.
#[global] Arguments room {A} _.

Definition no_items {A} : arr A := Arr [] 0.

Definition arr_reserve {A} (init : Z) (a : arr A) (m : mem) : option (arr A * mem) :=
  if room a <=? Z.of_nat (length (items a)) then
    let '(r, m) := malloc m in
    match r with
    | None => None
    | Some _ => Some (Arr (items a) (grow init (room a)), m)
    end
  else Some (a, m).

Definition arr_push {A} (init : Z) (x : A) (a : arr A) (m : mem) : option (arr A * mem) :=
  '(a, m) ← arr_reserve init a m; Some (Arr (items a ++ [x]) (room a), m).

Lemma malloc_allocates m :
  match malloc m with
  | (Some _, m') => mem_ok m -> mem_ok m'
  | (None, _) => ~ mem_ok m
  end.
Proof. unfold malloc, mem_ok. destruct (outcomes m) as [|[] o]; simpl; rewrite ?Forall_cons; naive_solver. Qed.

Lemma arr_reserve_allocates {A} init (a : arr A) m :
  allocates m (fun a' => items a' = items a) (arr_reserve init a m).
Proof.
  unfold arr_reserve. case_bool; [|by apply allocates_ret].
  pose proof (malloc_allocates m). by destruct (malloc m) as [[b|] m1].
Qed.

Lemma arr_push_allocates {A} init (x : A) a m :
  allocates m (fun a' => items a' = items a ++ [x]) (arr_push init x a m).
Proof.
  unfold arr_push. eapply allocates_bind; [apply arr_reserve_allocates|]. intros a' m' E.
  apply allocates_ret. cbn. by rewrite E.
Qed.

(** * Lists *)

(** The elements that pass a test that may crash. *)
Fixpoint filter_opt {A} (P : A -> option bool) (l : list A) : option (list A) :=
  match l with
  | [] => Some []
  | x :: l => b ← P x; rest ← filter_opt P l; Some (if (b : bool) then x :: rest else rest)
  end.

Lemma filter_opt_total {A} (P : A -> option bool) l : (forall x, is_Some (P x)) -> is_Some (filter_opt P l).
Proof.
  intros HP. induction l as [|x l [k Hk]]; [by eexists|]. cbn [filter_opt].
  destruct (HP x) as [b ->]. rewrite Hk. by eexists.
Qed.

(** Index of the first element that passes the test (a [for] loop that
    breaks). *)
Fixpoint find_index {A} (f : A -> bool) (l : list A) : option nat :=
  match l with
  | [] => None
  | x :: l => if f x then Some 0%nat else S <$> find_index f l
  end.

Lemma find_index_Some {A} (f : A -> bool) l i :
  find_index f l = Some i ->
  exists x, l !! i = Some x /\ f x = true /\
    forall j y, (j < i)%nat -> l !! j = Some y -> f y = false.
Proof.
  revert i. induction l as [|a l IH]; intros i H; [done|]. simpl in H.
  destruct (f a) eqn:Ea; [injection H as <-; exists a; split_and!; auto; lia|].
  destruct (find_index f l) as [k|]; [|done]. injection H as <-.
  destruct (IH k eq_refl) as (x & ? & ? & Hlt). exists x. split_and!; auto.
  intros [|j] y ? Hy; [by injection Hy as <-|]. apply (Hlt j); [lia|done].
Qed.

Lemma find_index_None {A} (f : A -> bool) l :
  find_index f l = None <-> forall x, x ∈ l -> f x = false.
Proof.
  induction l as [|a l IH]; simpl; [split; [by intros _ x ?%elem_of_nil|done]|].
  destruct (f a) eqn:Ea.
  - split; [done|]. intros H. rewrite (H a) in Ea; [done|constructor].
  - rewrite fmap_None, IH. setoid_rewrite elem_of_cons. clear IH. naive_solver.
Qed.

Lemma StronglySorted_index {A} (R : A -> A -> Prop) l i j x y :
  StronglySorted R l -> l !! i = Some x -> l !! j = Some y -> (i < j)%nat -> R x y.
Proof.
  intros Hs. revert i j. induction Hs as [|a l Hs IH Hall]; intros i j Hi Hj Hlt; [done|].
  destruct j as [|j]; [lia|]. simpl in Hj. destruct i as [|i].
  - injection Hi as ->. rewrite Forall_forall in Hall.
    by eapply Hall, list_elem_of_lookup_2.
  - simpl in Hi. apply (IH i j); auto. lia.
Qed.

(** ** Tables searched by key

    The first element with a key: how the program finds an entry in each of
    its tables. *)
Section by_key.
Context {A K : Type} {HK : EqDecision K} (key_of : A -> K).

Definition lookup_by (k : K) (l : list A) : option A :=
  List.find (fun x => bool_decide (key_of x = k)) l.

Lemma lookup_by_None k l : lookup_by k l = None <-> forall x, x ∈ l -> key_of x <> k.
Proof.
  unfold lookup_by. induction l as [|a l IH]; simpl; [split; [by intros _ x ?%elem_of_nil|done]|].
  case_bool_decide as Ha.
  - split; [done|]. intros H. destruct (H a); [constructor|done].
  - rewrite IH. setoid_rewrite elem_of_cons. clear IH. naive_solver.
Qed.

Lemma lookup_by_Some k l x : lookup_by k l = Some x -> x ∈ l /\ key_of x = k.
Proof.
  intros [Hin Hk]%List.find_some. apply bool_decide_eq_true in Hk.
  split; [by apply list_elem_of_In|done].
Qed.

(** Changing the first element with its key changes what that key finds. *)
Lemma lookup_by_alter u i l x k :
  (forall y, key_of (u y) = key_of y) -> l !! i = Some x ->
  (forall j y, (j < i)%nat -> l !! j = Some y -> key_of y <> key_of x) ->
  lookup_by k (alter u i l) = if decide (k = key_of x) then Some (u x) else lookup_by k l.
Proof.
  intros Hu. revert i. induction l as [|a l IH]; intros i Hi Hlt; [done|]. destruct i as [|i].
  - injection Hi as ->. unfold lookup_by. simpl. rewrite Hu. case_decide as E.
    + subst. by rewrite bool_decide_eq_true_2.
    + rewrite bool_decide_eq_false_2 by congruence. done.
  - pose proof (Hlt 0%nat a ltac:(lia) eq_refl) as Ha. cbn [alter list_alter].
    unfold lookup_by in IH |- *. simpl. case_bool_decide as E.
    + rewrite decide_False by congruence. done.
    + apply IH; [done|]. intros j y Hj Hy. by apply (Hlt (S j)); [lia|].
Qed.

(** So does replacing it by one with the same key. *)
Lemma lookup_by_insert i l x y k :
  l !! i = Some x -> key_of y = key_of x ->
  (forall j z, (j < i)%nat -> l !! j = Some z -> key_of z <> key_of x) ->
  lookup_by k (<[i:=y]> l) = if decide (k = key_of x) then Some y else lookup_by k l.
Proof.
  unfold lookup_by. intros Hi Hy. revert i Hi. induction l as [|a l IH]; intros i Hi Hlt; [done|].
  destruct i as [|i].
  - injection Hi as ->. cbn [insert list_insert List.find]. rewrite Hy. case_decide as E.
    + subst. by rewrite bool_decide_eq_true_2.
    + rewrite bool_decide_eq_false_2 by congruence. done.
  - pose proof (Hlt 0%nat a ltac:(lia) eq_refl) as Ha. cbn [insert list_insert List.find].
    case_bool_decide as E.
    + rewrite decide_False by congruence. done.
    + apply IH; [done|]. intros j z Hj Hz. by apply (Hlt (S j)); [lia|].
Qed.

Lemma lookup_by_first l i x :
  l !! i = Some x -> (forall j y, (j < i)%nat -> l !! j = Some y -> key_of y <> key_of x) ->
  lookup_by (key_of x) l = Some x.
Proof.
  unfold lookup_by. revert i. induction l as [|a l IH]; intros [|i] Hi Hlt; try done.
  - injection Hi as ->. simpl. by rewrite bool_decide_eq_true_2.
  - simpl. rewrite bool_decide_eq_false_2 by (by apply (Hlt 0%nat); [lia|]).
    apply (IH i); [done|]. intros j y Hj Hy. by apply (Hlt (S j)); [lia|].
Qed.

Lemma lookup_by_snoc l x k :
  lookup_by (key_of x) l = None ->
  lookup_by k (l ++ [x]) = if decide (k = key_of x) then Some x else lookup_by k l.
Proof.
  unfold lookup_by. induction l as [|a l IH]; intros H; simpl in *.
  - case_bool_decide; case_decide; congruence.
  - case_bool_decide as Ha; [done|]. rewrite IH by done.
    case_bool_decide as Hk; [|done]. rewrite decide_False by congruence. done.
Qed.
End by_key.

(** Sum of a measure over a list. *)
Fixpoint sum_on {A} (f : A -> Z) (l : list A) : Z :=
  match l with [] => 0 | x :: l => f x + sum_on f l end.

Lemma sum_on_app {A} (f : A -> Z) l k : sum_on f (l ++ k) = sum_on f l + sum_on f k.
Proof. induction l; simpl; lia. Qed.

Lemma sum_on_insert {A} (f : A -> Z) (l : list A) i x y :
  l !! i = Some x -> sum_on f (<[i:=y]> l) = sum_on f l - f x + f y.
Proof.
  revert i. induction l as [|a l IH]; intros [|i] H; try done.
  - injection H as ->. simpl. lia.
  - change (f a + sum_on f (<[i:=y]> l) = f a + sum_on f l - f x + f y).
    rewrite (IH i) by done. lia.
Qed.

Lemma sum_on_nonneg {A} (f : A -> Z) l : (forall x, 0 <= f x) -> 0 <= sum_on f l.
Proof. intros H. induction l as [|x l IH]; simpl; [lia|]. pose proof (H x). lia. Qed.

(** * Double quotes

    JSON templates are written with a single quote where the C format has a
    double quote. *)
Definition dquote : ascii := "034"%char.

Fixpoint dq (s : string) : string :=
  match s with
  | EmptyString => EmptyString
  | String c s => String (if Ascii.eqb c "'" then dquote else c) (dq s)
  end.

(** * Strings *)

#[global] Arguments String.append !_ _ : simpl nomatch.

Lemma str_app_assoc (a b c : string) : a +:+ (b +:+ c) = (a +:+ b) +:+ c.
Proof. induction a; simpl; congruence. Qed.

Lemma str_app_nil_r (a : string) : a +:+ EmptyString = a.
Proof. induction a; simpl; congruence. Qed.

Lemma str_length_app a b :
  String.length (a +:+ b) = (String.length a + String.length b)%nat.
Proof. induction a; simpl; congruence. Qed.

Fixpoint str_take (n : nat) (s : string) : string :=
  match n, s with
  | S n, String c s => String c (str_take n s)
  | _, _ => EmptyString
  end.

Fixpoint str_drop (n : nat) (s : string) : string :=
  match n, s with
  | S n, String _ s => str_drop n s
  | _, _ => s
  end.

Fixpoint str_forall (f : ascii -> bool) (s : string) : bool :=
  match s with
  | EmptyString => true
  | String c s => f c && str_forall f s
  end.

Lemma str_take_length n s : String.length (str_take n s) = Nat.min n (String.length s).
Proof. revert s. induction n; intros [|c s]; simpl; auto. Qed.

Lemma str_take_all n s : (String.length s <= n)%nat -> str_take n s = s.
Proof.
  revert n. induction s; intros [|n] H; simpl in *; try done; [lia|].
  rewrite IHs; [done|lia].
Qed.

Lemma str_take_app s k : str_take (String.length s) (s +:+ k) = s.
Proof. induction s; simpl; [by destruct k|congruence]. Qed.

Lemma str_drop_app s k : str_drop (String.length s) (s +:+ k) = k.
Proof. induction s; simpl; [by destruct k|done]. Qed.

Lemma str_take_drop n s : str_take n s +:+ str_drop n s = s.
Proof. revert s. induction n; intros [|c s]; simpl; try done. by rewrite IHn. Qed.

Lemma str_forall_app f a b :
  str_forall f (a +:+ b) = (str_forall f a && str_forall f b)%bool.
Proof. induction a; simpl; [done|]. rewrite IHa. by destruct (f a). Qed.

Lemma str_forall_take f n s : str_forall f s = true -> str_forall f (str_take n s) = true.
Proof.
  revert s. induction n; intros [|c s]; simpl; try done.
  intros [-> ?]%andb_true_iff. by rewrite IHn.
Qed.
