(* ===== verification/CLib.v ===== *)
(** The part of the C library the program relies on: number formatting and
    scanning ([printf], [sscanf], [strtol]), string functions ([strlcpy],
    [strrchr], [strtok_r], [basename]) and [qsort] as an interface. *)

From Stdlib Require Import ZArith Lia Ascii String.
From stdpp Require Import base list strings sets gmap sorting.
From S2P Require Import Prelude.

(** * Digits *)

Fixpoint digits_aux (fuel : nat) (b n : Z) (acc : list Z) : list Z :=
  match fuel with
  | O => acc
  | S f => let acc := (n mod b) :: acc in
      if n / b =? 0 then acc else digits_aux f b (n / b) acc
  end.

(** Most significant digit first; [0] has one digit. *)
Definition digits (b n : Z) : list Z := digits_aux (S (Z.to_nat (Z.log2 n))) b n [].

Definition undigits (b : Z) (a : Z) (l : list Z) : Z := fold_left (fun a d => a * b + d) l a.

Lemma undigits_app b a l k : undigits b a (l ++ k) = undigits b (undigits b a l) k.
Proof. apply fold_left_app. Qed.

Lemma digits_aux_spec f b n acc :
  2 <= b -> 0 <= n < 2 ^ Z.of_nat f ->
  exists l, digits_aux f b n acc = l ++ acc /\ undigits b 0 l = n /\
    Forall (fun d => 0 <= d < b) l /\ (f <> 0%nat -> l <> []).
Proof.
  revert n acc. induction f as [|f IH]; intros n acc Hb Hn.
  - exists []. split_and!; auto. simpl. change (2 ^ Z.of_nat 0) with 1 in Hn. lia.
  - pose proof (Z.mod_pos_bound n b ltac:(lia)).
    pose proof (Z.div_mod n b ltac:(lia)) as Hdm. simpl.
    case_bool; to_prop.
    + exists [n mod b]. split_and!; auto. simpl. rewrite E, Z.mul_0_r in Hdm. lia.
    + destruct (IH (n / b) (n mod b :: acc) Hb) as (l & -> & Hv & Hf & _).
      { split; [apply Z.div_pos; lia|]. rewrite Nat2Z.inj_succ, Z.pow_succ_r in Hn by lia.
        apply Z.div_lt_upper_bound; nia. }
      exists (l ++ [n mod b]). rewrite <- app_assoc. split_and!; auto.
      * rewrite undigits_app, Hv. simpl. lia.
      * apply Forall_app; auto.
      * intros _. by destruct l.
Qed.

Lemma digits_spec b n :
  2 <= b -> 0 <= n ->
  undigits b 0 (digits b n) = n /\ Forall (fun d => 0 <= d < b) (digits b n) /\
  digits b n <> [].
Proof.
  intros Hb Hn.
  destruct (digits_aux_spec (S (Z.to_nat (Z.log2 n))) b n [] Hb) as (l & E & ? & ? & ?).
  { split; [done|]. rewrite Nat2Z.inj_succ, Z2Nat.id by apply Z.log2_nonneg.
    destruct (decide (n = 0)) as [->|]; [by vm_compute|]. apply Z.log2_spec. lia. }
  unfold digits. rewrite E, app_nil_r. auto.
Qed.

Definition digit_char (d : Z) : ascii :=
  ascii_of_nat (Z.to_nat (if d <? 10 then 48 + d else 87 + d)).

(** Value of a digit in a base up to 16. *)
Definition digit_val (b : Z) (c : ascii) : option Z :=
  let n := Z.of_nat (nat_of_ascii c) in
  let v := if (48 <=? n) && (n <=? 57) then n - 48
           else if (97 <=? n) && (n <=? 102) then n - 87
           else if (65 <=? n) && (n <=? 70) then n - 55 else b in
  if v <? b then Some v else None.

Fixpoint string_of_digits (l : list Z) : string :=
  match l with [] => EmptyString | d :: l => String (digit_char d) (string_of_digits l) end.

Lemma digit_val_char b d : b <= 16 -> 0 <= d < b -> digit_val b (digit_char d) = Some d.
Proof.
  intros Hb Hd. unfold digit_val, digit_char.
  rewrite nat_ascii_embedding by (case_bool; to_prop; lia).
  rewrite Z2Nat.id by (case_bool; to_prop; lia).
  destruct (d <? 10) eqn:E; to_prop.
  - replace ((48 <=? 48 + d) && (48 + d <=? 57))%bool with true by lia.
    replace (48 + d - 48) with d by lia. replace (d <? b) with true by lia. done.
  - replace ((48 <=? 87 + d) && (87 + d <=? 57))%bool with false by lia.
    replace ((97 <=? 87 + d) && (87 + d <=? 102))%bool with true by lia.
    replace (87 + d - 87) with d by lia. replace (d <? b) with true by lia. done.
Qed.

(** [%lu]/[%u] and [%lx]/[%x] on a non-negative value, [%d] on any value. *)
Definition fmt_u (n : Z) : string := string_of_digits (digits 10 n).
Definition fmt_x (n : Z) : string := string_of_digits (digits 16 n).
Definition fmt_d (n : Z) : string :=
  if n <? 0 then String "-" (fmt_u (- n)) else fmt_u n.

(** Minimum field width with zero padding ([%0<w>x], [%0<w>d]). *)
Fixpoint zeros (n : nat) : string :=
  match n with O => EmptyString | S n => String "0" (zeros n) end.
Definition pad0 (w : nat) (s : string) : string := zeros (w - String.length s) +:+ s.

(** Minimum field width with blanks on the right ([%-<w>s]). *)
Fixpoint blanks (n : nat) : string :=
  match n with O => EmptyString | S n => String " " (blanks n) end.
Definition padr (w : nat) (s : string) : string := s +:+ blanks (w - String.length s).

(** * Scanning numbers *)

Definition is_space (c : ascii) : bool :=
  let n := nat_of_ascii c in ((n =? 32) || ((9 <=? n) && (n <=? 13)))%nat.

Fixpoint skip_space (s : string) : string :=
  match s with
  | String c s' => if is_space c then skip_space s' else s
  | EmptyString => EmptyString
  end.

(** Value of the longest run of digits, [None] when there is none. *)
Fixpoint scan_digits (b a : Z) (some : bool) (s : string) : option (Z * string) :=
  match s with
  | String c s' =>
      match digit_val b c with
      | Some d => scan_digits b (a * b + d) true s'
      | None => if some then Some (a, s) else None
      end
  | EmptyString => if some then Some (a, s) else None
  end.

Definition scan_sign (s : string) : bool * string :=
  match s with
  | String c s' =>
      if Ascii.eqb c "-" then (true, s') else if Ascii.eqb c "+" then (false, s') else (false, s)
  | EmptyString => (false, s)
  end.

(** In base 16 a prefix 0x followed by a digit is part of the number. *)
Definition skip_0x (b : Z) (s : string) : string :=
  match s with
  | String z (String x ((String d _) as r)) =>
      if (b =? 16) && Ascii.eqb z "0" && (Ascii.eqb x "x" || Ascii.eqb x "X") &&
         (match digit_val 16 d with Some _ => true | None => false end)
      then r else s
  | _ => s
  end.

(** Sign, magnitude and rest of an integer in base [b]. *)
Definition scan_int (b : Z) (s : string) : option (bool * Z * string) :=
  let '(neg, s) := scan_sign (skip_space s) in
  (fun '(v, r) => (neg, v, r)) <$> scan_digits b 0 false (skip_0x b s).

(** Saturation of [strtoumax] and [strtoimax]. *)
Definition sat_u64 (neg : bool) (v : Z) : Z :=
  if two64 <=? v then two64 - 1 else if neg then u64 (- v) else v.
Definition sat_i64 (neg : bool) (v : Z) : Z :=
  if neg then Z.max (- two63) (- v) else Z.min (two63 - 1) v.

(** [strtol(s, &end, 10)]: value and the text at [end]. *)
Definition strtol (s : string) : Z * string :=
  match scan_int 10 s with
  | Some (neg, v, r) => (sat_i64 neg v, r)
  | None => (0, s)
  end.

Definition atoi (s : string) : Z := i32 (strtol s).1.

(** * sscanf *)

Inductive conv :=
  | Lit (s : string)          (* text matched exactly *)
  | NotQuote (width : nat)    (* %<width>[^ and a double quote ] *)
  | LX                        (* %lx *)
  | D                         (* %d *)
  | SkipD                     (* %*d *)
  | U                         (* %u *)
  | SkipU.                    (* %*u *)

Inductive sval := VStr (s : string) | VInt (z : Z).

Fixpoint scan_lit (p s : string) : option string :=
  match p, s with
  | EmptyString, _ => Some s
  | String a p, String b s => if Ascii.eqb a b then scan_lit p s else None
  | _, _ => None
  end.

(** Longest prefix of at most [w] characters without a double quote. *)
Fixpoint span_not_quote (w : nat) (s : string) : string * string :=
  match w, s with
  | S w, String c s' =>
      if Ascii.eqb c dquote then (EmptyString, s)
      else let '(a, r) := span_not_quote w s' in (String c a, r)
  | _, _ => (EmptyString, s)
  end.

(** One conversion: the values it assigns and the rest of the input. *)
Definition scan_conv (c : conv) (s : string) : option (list sval * string) :=
  match c with
  | Lit p => (fun r => ([], r)) <$> scan_lit p s
  | NotQuote w =>
      match span_not_quote w s with
      | (EmptyString, _) => None
      | (a, r) => Some ([VStr a], r)
      end
  | LX => (fun '(n, v, r) => ([VInt (sat_u64 n v)], r)) <$> scan_int 16 s
  | D => (fun '(n, v, r) => ([VInt (i32 (sat_i64 n v))], r)) <$> scan_int 10 s
  | SkipD => (fun '(_, r) => ([], r)) <$> scan_int 10 s
  | U => (fun '(n, v, r) => ([VInt (u32 (sat_u64 n v))], r)) <$> scan_int 10 s
  | SkipU => (fun '(_, r) => ([], r)) <$> scan_int 10 s
  end.

(** The values assigned before the first failure; the result of the call is
    their number (or EOF, which no caller distinguishes from 0). *)
Fixpoint sscanf (fmt : list conv) (s : string) : list sval :=
  match fmt with
  | [] => []
  | c :: fmt =>
      match scan_conv c s with
      | Some (vs, r) => vs ++ sscanf fmt r
      | None => []
      end
  end.

(** * Scanning back what was printed *)

(** The text after a number does not prolong it. *)
Definition num_end (b : Z) (r : string) : Prop :=
  match r with
  | EmptyString => True
  | String c _ => digit_val b c = None /\ c <> "x"%char /\ c <> "X"%char
  end.

Lemma scan_digits_print b a some l r :
  b <= 16 -> Forall (fun d => 0 <= d < b) l -> num_end b r ->
  l <> [] \/ some = true ->
  scan_digits b a some (string_of_digits l +:+ r) = Some (undigits b a l, r).
Proof.
  intros Hb Hl Hr. revert a some. induction Hl as [|d l Hd Hl IH]; intros a some Hs.
  - destruct Hs as [Hs| ->]; [done|]. destruct r as [|c r]; [done|].
    destruct Hr as [Hr _]. simpl. by rewrite Hr.
  - simpl. rewrite digit_val_char by done. by apply IH; right.
Qed.

Lemma digit_char_range d :
  0 <= d < 16 ->
  let n := nat_of_ascii (digit_char d) in
  (48 <= n <= 57 \/ 97 <= n <= 102)%nat.
Proof.
  intros Hd. unfold digit_char. rewrite nat_ascii_embedding by (case_bool; to_prop; lia).
  case_bool; to_prop; lia.
Qed.

(** A printed number starts with neither a blank, a sign nor an "0x". *)
Lemma scan_int_print b l r :
  b <= 16 -> Forall (fun d => 0 <= d < b) l -> l <> [] -> num_end b r ->
  scan_int b (string_of_digits l +:+ r) = Some (false, undigits b 0 l, r).
Proof.
  intros Hb Hl Hne Hr. unfold scan_int.
  destruct l as [|d l]; [done|]. inversion Hl as [|? ? Hd Hl']; subst.
  pose proof (digit_char_range d ltac:(lia)) as Hc. cbn zeta in Hc.
  assert (Hsp : is_space (digit_char d) = false).
  { unfold is_space. apply orb_false_iff; split; [apply Nat.eqb_neq; lia|].
    apply andb_false_iff; right; apply Nat.leb_gt; lia. }
  simpl. rewrite Hsp. simpl.
  destruct (Ascii.eqb_spec (digit_char d) "-") as [Hx|_]; [rewrite Hx in Hc; vm_compute in Hc; lia|].
  destruct (Ascii.eqb_spec (digit_char d) "+") as [Hx|_]; [rewrite Hx in Hc; vm_compute in Hc; lia|].
  replace (skip_0x b _) with (string_of_digits (d :: l) +:+ r).
  { rewrite scan_digits_print by auto. done. }
  symmetry. simpl. destruct l as [|d' l]; simpl.
  - destruct r as [|c r]; [done|]. destruct Hr as (_ & Hx & HX). simpl.
    destruct r as [|c' r]; [done|].
    destruct (Ascii.eqb_spec c "x"); [done|]. destruct (Ascii.eqb_spec c "X"); [done|].
    by rewrite andb_false_r.
  - inversion Hl' as [|? ? Hd' _]; subst.
    pose proof (digit_char_range d' ltac:(lia)) as Hc'. cbn zeta in Hc'.
    destruct (string_of_digits l +:+ r) as [|c' r'] eqn:E; [done|].
    destruct (Ascii.eqb_spec (digit_char d') "x") as [Hx|_]; [rewrite Hx in Hc'; vm_compute in Hc'; lia|].
    destruct (Ascii.eqb_spec (digit_char d') "X") as [Hx|_]; [rewrite Hx in Hc'; vm_compute in Hc'; lia|].
    by rewrite andb_false_r.
Qed.

Lemma scan_int_fmt_x n r :
  0 <= n -> num_end 16 r -> scan_int 16 (fmt_x n +:+ r) = Some (false, n, r).
Proof.
  intros Hn Hr. destruct (digits_spec 16 n) as (Hv & Hf & Hne); [lia|done|].
  unfold fmt_x. rewrite scan_int_print by (auto; lia). by rewrite Hv.
Qed.

Lemma scan_int_fmt_u n r :
  0 <= n -> num_end 10 r -> scan_int 10 (fmt_u n +:+ r) = Some (false, n, r).
Proof.
  intros Hn Hr. destruct (digits_spec 10 n) as (Hv & Hf & Hne); [lia|done|].
  unfold fmt_u. rewrite scan_int_print by (auto; lia). by rewrite Hv.
Qed.

Lemma scan_int_fmt_d n r :
  num_end 10 r -> scan_int 10 (fmt_d n +:+ r) = Some (n <? 0, Z.abs n, r).
Proof.
  intros Hr. unfold fmt_d. case_bool; to_prop.
  - destruct (digits_spec 10 (- n)) as (Hv & Hf & Hne); [lia|lia|].
    unfold scan_int, fmt_u. simpl.
    replace (skip_0x 10 _) with (string_of_digits (digits 10 (- n)) +:+ r).
    { rewrite scan_digits_print by (auto; lia). simpl. rewrite Hv. repeat f_equal. lia. }
    destruct (string_of_digits _ +:+ r) as [|c [|c' [|c2 ?]]]; done.
  - rewrite scan_int_fmt_u by auto. repeat f_equal. lia.
Qed.

Lemma sat_u64_small v : is_u64 v -> sat_u64 false v = v.
Proof. unfold is_u64, sat_u64. intros. case_bool; to_prop; lia. Qed.

Lemma sat_i64_abs v : is_i32 v -> sat_i64 (v <? 0) (Z.abs v) = v.
Proof. unfold is_i32, sat_i64. intros. case_bool; to_prop; lia. Qed.

Lemma scan_lit_app p r : scan_lit p (p +:+ r) = Some r.
Proof. induction p; simpl; [done|]. by rewrite Ascii.eqb_refl. Qed.

Definition no_dquote (s : string) : bool := str_forall (fun c => negb (Ascii.eqb c dquote)) s.

Lemma span_not_quote_app w s r :
  (String.length s <= w)%nat -> no_dquote s = true ->
  span_not_quote w (s +:+ String dquote r) = (s, String dquote r).
Proof.
  revert w. induction s as [|c s IH]; intros w Hw Hq; simpl in *.
  - by destruct w.
  - destruct w as [|w]; [lia|]. apply andb_true_iff in Hq as [Hc Hq].
    apply negb_true_iff in Hc. simpl. rewrite Hc.
    rewrite IH by (auto; lia). done.
Qed.

(** * Strings *)

(** [strlcpy] into a buffer of [size] bytes. *)
Definition strlcpy (size : nat) (s : string) : string := str_take (size - 1) s.

(** Text after the last [c] ([strrchr(s, c) + 1]). *)
Fixpoint after_last (c : ascii) (s : string) : option string :=
  match s with
  | EmptyString => None
  | String a s' =>
      match after_last c s' with
      | Some r => Some r
      | None => if Ascii.eqb a c then Some s' else None
      end
  end.

(** Tokens of [strtok_r] with one separator: the non-empty fields. *)
Fixpoint strtok_aux (c : ascii) (cur : string) (s : string) : list string :=
  match s with
  | EmptyString => match cur with EmptyString => [] | _ => [cur] end
  | String a s' =>
      if Ascii.eqb a c
      then match cur with
           | EmptyString => strtok_aux c EmptyString s'
           | _ => cur :: strtok_aux c EmptyString s'
           end
      else strtok_aux c (cur +:+ String a EmptyString) s'
  end.
Definition strtok (c : ascii) (s : string) : list string := strtok_aux c EmptyString s.

(** [basename(3)]. *)
Fixpoint strip_slashes (s : string) : string :=
  match s with
  | EmptyString => EmptyString
  | String a s' =>
      match strip_slashes s' with
      | EmptyString => if Ascii.eqb a "/" then EmptyString else String a EmptyString
      | r => String a r
      end
  end.
Definition basename (s : string) : string :=
  match s, strip_slashes s with
  | EmptyString, _ => "."
  | _, EmptyString => "/"
  | _, r => default r (after_last "/" r)
  end.

(** * qsort

    The order of elements that compare equal is unspecified in C, so [qsort]
    is an interface: a permutation of its input, ordered when the comparison
    is a total preorder. *)

Definition cmp_preorder {A} (cmp : A -> A -> Z) : Prop :=
  (forall a b, cmp a b <= 0 \/ cmp b a <= 0) /\
  (forall a b c, cmp a b <= 0 -> cmp b c <= 0 -> cmp a c <= 0).

Class QSort := {
  qsort : forall {A}, (A -> A -> Z) -> list A -> list A;
  qsort_perm : forall {A} (cmp : A -> A -> Z) l, qsort cmp l ≡ₚ l;
  qsort_sorted : forall {A} (cmp : A -> A -> Z) l, cmp_preorder cmp ->
    StronglySorted (fun a b => cmp a b <= 0) (qsort cmp l);
}.

(** One implementation, so that the theorems over the interface can be used
    on concrete data. *)
Definition qsort_merge {A} (cmp : A -> A -> Z) (l : list A) : list A :=
  @merge_sort A (fun a b => cmp a b <= 0) (fun a b => Z_le_dec (cmp a b) 0) l.

Lemma qsort_merge_sorted {A} (cmp : A -> A -> Z) l :
  cmp_preorder cmp -> StronglySorted (fun a b => cmp a b <= 0) (qsort_merge cmp l).
Proof.
  intros [Ht Htr]. apply StronglySorted_merge_sort; [exact Htr|exact Ht].
Qed.

#[export] Instance merge_qsort : QSort := {
  qsort := @qsort_merge;
  qsort_perm := fun A cmp l => @merge_sort_Permutation A _ _ l;
  qsort_sorted := @qsort_merge_sorted;
}.
