(* ===== verification/Types.v ===== *)
(** Data shared by the components, from bsdtrace.h: HWT records, image
    sections, binary ranges, output formats, and the fixed buffer sizes. *)

From Stdlib Require Import ZArith Lia Ascii String.
From stdpp Require Import base list strings sets gmap sorting.
From S2P Require Import Prelude CLib.

Definition MAXPATHLEN : nat := 1024.
Definition MAX_THREADS : Z := 64.
Definition MAX_BIN_RANGES : Z := 256.
Definition RANGE_SPEC_SYMLEN : nat := 256.

(** [enum hwt_record_type] of <sys/hwt.h>; a value the program does not
    know is kept as it is. *)
Inductive hwt_record_type :=
  | HWT_RECORD_MMAP
  | HWT_RECORD_MUNMAP
  | HWT_RECORD_EXECUTABLE
  | HWT_RECORD_KERNEL
  | HWT_RECORD_THREAD_CREATE
  | HWT_RECORD_THREAD_SET_NAME
  | HWT_RECORD_BUFFER
  | HWT_RECORD_OVERFLOW
  | HWT_RECORD_OTHER (v : Z).

#[export] Instance hwt_record_type_eq_dec : EqDecision hwt_record_type.
Proof. solve_decision. Defined.

Definition type_eqb (a b : hwt_record_type) : bool := bool_decide (a = b).

Lemma type_eqb_eq a b : type_eqb a b = true <-> a = b.
Proof. apply bool_decide_eq_true. Qed.

Inductive bsdtrace_fmt :=
  | FMT_TEXT | FMT_JSON | FMT_PROFILE | FMT_TREE
  | FMT_COLLAPSED | FMT_SPEEDSCOPE | FMT_CALLERS.

#[export] Instance bsdtrace_fmt_eq_dec : EqDecision bsdtrace_fmt.
Proof. solve_decision. Defined.

(** [struct bsdtrace_record]. *)
Record bsdtrace_record := {
  r_type : hwt_record_type;
  r_fullpath : string;
  r_addr : Z;
  r_baseaddr : Z;
  r_buf_id : Z;
  r_curpage : Z;
  r_offset : Z;
  r_thread_id : Z;
}.

(** [struct pt_image_info]. *)
Record pt_image_info := {
  path : string;
  load_addr : Z;
  base_addr : Z;
  type : hwt_record_type;
}.

#[export] Instance pt_image_info_eq_dec : EqDecision pt_image_info.
Proof. solve_decision. Defined.

(** [struct bin_range]. *)
Record bin_range := {
  name : string;
  lo : Z;
  hi : Z;
  base : Z;
}.

(** [struct sym_entry]; [name] and [binary] are heap strings. *)
Record sym_entry := {
  s_addr : Z;
  s_size : Z;
  s_slide : Z;
  s_name : cstr;
  s_binary : cstr;
}.

(** A record whose numeric fields fit their C types. *)
Record record_wf (r : bsdtrace_record) : Prop := {
  wf_addr : is_u64 (r_addr r);
  wf_base : is_u64 (r_baseaddr r);
  wf_page : is_i32 (r_curpage r);
  wf_offset : is_u64 (r_offset r);
  wf_tid : is_i32 (r_thread_id r);
}.

(** [enum pt_insn_class] of libipt, as far as the code tells the classes
    apart; [ptic_error] has the value zero. *)
Inductive pt_insn_class :=
  | ptic_error | ptic_other | ptic_call | ptic_return | ptic_jump | ptic_cond_jump
  | ptic_far_call | ptic_far_return | ptic_far_jump | ptic_ptwrite.

#[export] Instance pt_insn_class_eq_dec : EqDecision pt_insn_class.
Proof. solve_decision. Defined.

Definition is_call (c : pt_insn_class) : bool :=
  match c with ptic_call | ptic_far_call => true | _ => false end.

Definition is_return (c : pt_insn_class) : bool :=
  match c with ptic_return | ptic_far_return => true | _ => false end.

(** One decoded instruction as the recorders receive it: the symbol that
    covers it, its address and class, and the time. *)
Record insn_event := {
  ev_sym : option sym_entry; ev_ip : Z; ev_class : pt_insn_class; ev_tsc : Z }.
