(* ===== verification/Elf.v ===== *)
(** elf.c: which image sections to decode with, where they are loaded, their
    executable segments, and the address ranges of the binaries.

    libelf and the file system are outside the repository: [LibElf] is what
    the code observes of them (a file's bytes, and the program headers,
    sections and symbols libelf returns for it; [None] where a libelf call
    fails).  Files are assumed not to change while a trace is decoded. *)

From Stdlib Require Import ZArith Lia Ascii String.
From stdpp Require Import base list strings sets gmap sorting.
From S2P Require Import Prelude CLib Types.

Definition PT_LOAD : Z := 1.
Definition PT_INTERP : Z := 3.
Definition PF_X : Z := 1.
Definition SHT_NULL : Z := 0.
Definition SHT_SYMTAB : Z := 2.
Definition SHT_DYNSYM : Z := 11.
Definition STT_FUNC : Z := 2.
Definition ET_DYN : Z := 3.

Record GElf_Phdr := {
  p_type : Z; p_flags : Z; p_offset : Z; p_vaddr : Z; p_filesz : Z }.

Record GElf_Shdr := { sh_type : Z; sh_entsize : Z; sh_link : Z }.

Record GElf_Sym := { st_name : Z; st_info : Z; st_value : Z; st_size : Z }.

(** One [Elf_Data] buffer: its size and the outcome of [gelf_getsym] for
    each index. *)
Record Elf_Data := { d_size : Z; d_getsym : nat -> option GElf_Sym }.

Record Elf_Scn := { scn_shdr : option GElf_Shdr; scn_data : list Elf_Data }.

Record Elf := {
  elf_phdrs : option (list (option GElf_Phdr));  (* elf_getphdrnum, gelf_getphdr *)
  elf_scns : list Elf_Scn;                       (* elf_nextscn *)
  elf_strptr : Z -> Z -> option string;          (* section, offset *)
  elf_etype : option Z;                          (* gelf_getehdr *)
}.

Record file := { f_bytes : string; f_elf : option Elf }.

Class LibElf := {
  elf_version_ok : bool;             (* elf_version(EV_CURRENT) != EV_NONE *)
  open_file : string -> option file; (* open(path, O_RDONLY) *)
}.

(** libipt's image: the outcome of [pt_image_add_file] is its own. *)
Class PtImage := {
  pt_image : Type;
  pt_image_empty : pt_image;
  pt_image_add_file : pt_image -> string -> Z -> Z -> Z -> Z * pt_image;
}.

(** [open] followed by [elf_begin]. *)
Definition open_elf `{LibElf} (p : string) : option Elf :=
  match open_file p with Some f => f_elf f | None => None end.

(** * Helpers *)

Definition is_user_addr (addr : Z) : bool :=
  if addr =? 0 then false
  else if 140737488355328 <=? addr then false
  else true.

(** The test for an executable segment shared by the loops below. *)
Definition exec_segment (ph : GElf_Phdr) : bool :=
  (p_type ph =? PT_LOAD) && negb (Z.land (p_flags ph) PF_X =? 0) &&
  negb (p_filesz ph =? 0).

Fixpoint first_load (phs : list (option GElf_Phdr)) : option Z :=
  match phs with
  | [] => None
  | None :: phs => first_load phs
  | Some ph :: phs => if p_type ph =? PT_LOAD then Some (p_vaddr ph) else first_load phs
  end.

Definition elf_base_vaddr (elf : Elf) : option Z :=
  match elf_phdrs elf with
  | None => None
  | Some phs => first_load phs
  end.

Fixpoint exec_map_loop (phs : list (option GElf_Phdr)) (found : bool) (best : Z) : bool * Z :=
  match phs with
  | [] => (found, best)
  | None :: phs => exec_map_loop phs found best
  | Some ph :: phs =>
      if negb (exec_segment ph) then exec_map_loop phs found best
      else if negb found || (trunc_page (p_vaddr ph) <? best)
      then exec_map_loop phs true (trunc_page (p_vaddr ph))
      else exec_map_loop phs found best
  end.

Definition elf_exec_map_vaddr (elf : Elf) : option Z :=
  match elf_phdrs elf with
  | None => None
  | Some phs =>
      let '(found, best) := exec_map_loop phs false 0 in
      if found then Some best else None
  end.

Fixpoint preferred_symtab_loop (scns : list Elf_Scn) (have_dynsym : Z) : Z :=
  match scns with
  | [] => have_dynsym
  | scn :: scns =>
      match scn_shdr scn with
      | None => preferred_symtab_loop scns have_dynsym
      | Some sh =>
          if sh_type sh =? SHT_SYMTAB then SHT_SYMTAB
          else preferred_symtab_loop scns
                 (if sh_type sh =? SHT_DYNSYM then SHT_DYNSYM else have_dynsym)
      end
  end.

Definition elf_preferred_symtab_type (elf : Elf) : Z :=
  preferred_symtab_loop (elf_scns elf) SHT_NULL.

Definition elf_effective_load_addr (elf : Elf) (ty : hwt_record_type)
    (record_addr : Z) : option Z :=
  match elf_base_vaddr elf with
  | None => None
  | Some base_vaddr =>
      match ty with
      | HWT_RECORD_EXECUTABLE =>
          if record_addr =? 0 then Some base_vaddr
          else Some (u64 (base_vaddr + record_addr))
      | HWT_RECORD_MMAP =>
          match elf_exec_map_vaddr elf with
          | None => None
          | Some exec_map_vaddr =>
              if record_addr <? exec_map_vaddr then None
              else Some (u64 (base_vaddr + (record_addr - exec_map_vaddr)))
          end
      | _ => Some record_addr
      end
  end.

(** * Section selection *)

Definition same_path (a b : pt_image_info) : bool := String.eqb (path a) (path b).
Definition has_type (t : hwt_record_type) (s : pt_image_info) : bool := type_eqb (type s) t.

(** The last loop of the MMAP case: whether some other MMAP of the same path
    takes precedence over [sec], which is at index [idx]; [i] is the index of
    the head of the list. *)
Fixpoint mmap_shadowed (l : list pt_image_info) (i idx : nat) (sec : pt_image_info) : bool :=
  match l with
  | [] => false
  | s :: l =>
      if ((i =? idx)%nat || negb (has_type HWT_RECORD_MMAP s)) then mmap_shadowed l (S i) idx sec
      else if negb (same_path s sec) then mmap_shadowed l (S i) idx sec
      else if load_addr s <? load_addr sec then true
      else if (load_addr s =? load_addr sec) && (i <? idx)%nat then true
      else mmap_shadowed l (S i) idx sec
  end.

Definition section_should_use (sections : list pt_image_info) (idx : nat) : bool :=
  match sections !! idx with
  | None => false
  | Some sec =>
      if String.eqb (path sec) EmptyString then false
      else match type sec with
      | HWT_RECORD_EXECUTABLE =>
          negb (existsb (fun s => has_type HWT_RECORD_EXECUTABLE s && same_path s sec)
                  (take idx sections))
      | HWT_RECORD_MMAP =>
          if existsb (fun s => has_type HWT_RECORD_EXECUTABLE s && same_path s sec) sections
          then false
          else negb (mmap_shadowed sections 0 idx sec)
      | _ => true
      end
  end.

(** * Segments of the libipt image *)

Section Image.
Context `{LibElf} `{PtImage}.

Fixpoint add_segments (phs : list (option GElf_Phdr)) (p : string) (slide : Z)
  (image : pt_image) (added : Z) : Z * pt_image :=
match phs with
| [] => (added, image)
| None :: phs => add_segments phs p slide image added
| Some ph :: phs =>
    if negb (exec_segment ph) then add_segments phs p slide image added
    else
      let runtime_vaddr := u64 (p_vaddr ph + slide) in
      let '(err, image) := pt_image_add_file image p (p_offset ph) (p_filesz ph) runtime_vaddr in
      add_segments phs p slide image (if 0 <=? err then added + 1 else added)
end.

Definition add_elf_to_image (image : pt_image) (p : string) (load : Z) : Z * pt_image :=
if negb elf_version_ok then (0, image)
else match open_elf p with
| None => (0, image)
| Some elf =>
    match elf_base_vaddr elf with
    | None => (0, image)
    | Some base_vaddr =>
        let slide := i64 (load - base_vaddr) in
        match elf_phdrs elf with
        | None => (0, image)
        | Some phs => add_segments phs p slide image 0
        end
    end
end.

(** A C string starts at the beginning of a buffer and ends at its NUL. *)
Fixpoint until_nul (s : string) : string :=
match s with
| EmptyString => EmptyString
| String c s => if Ascii.eqb c zero then EmptyString else String c (until_nul s)
end.

Fixpoint interp_loop (phs : list (option GElf_Phdr)) (bytes : string) (interpsz : Z)
  : option string :=
match phs with
| [] => None
| None :: phs => interp_loop phs bytes interpsz
| Some ph :: phs =>
    if negb (p_type ph =? PT_INTERP) then interp_loop phs bytes interpsz
    else if (p_filesz ph =? 0) || (interpsz <=? p_filesz ph) then None
    else if i64 (p_offset ph) <? 0 then None
    else
      let got := str_take (Z.to_nat (p_filesz ph)) (str_drop (Z.to_nat (p_offset ph)) bytes) in
      if negb (Z.of_nat (String.length got) =? p_filesz ph) then None
      else Some (until_nul got)
end.

Definition elf_get_interp (p : string) (interpsz : Z) : option string :=
if negb elf_version_ok then None
else match open_file p with
| None => None
| Some f =>
    match f_elf f with
    | None => None
    | Some elf =>
        match elf_phdrs elf with
        | None => None
        | Some phs => interp_loop phs (f_bytes f) interpsz
        end
    end
end.

(** * Binary ranges *)

(** The segment loop of [build_bin_ranges]; [nm] makes the range's name (the
  main binary's copy of the path may fail to be allocated). *)
Fixpoint range_loop (phs : list (option GElf_Phdr)) (nm : mem -> option string * mem)
  (slide b : Z) (maxranges : Z) (ranges : list bin_range) (m : mem) : list bin_range * mem :=
match phs with
| [] => (ranges, m)
| oph :: phs =>
    if maxranges <=? Z.of_nat (length ranges) then (ranges, m)
    else match oph with
    | None => range_loop phs nm slide b maxranges ranges m
    | Some ph =>
        if negb (exec_segment ph) then range_loop phs nm slide b maxranges ranges m
        else
          let '(on, m) := nm m in
          match on with
          | None => range_loop phs nm slide b maxranges ranges m
          | Some n =>
              let r := {| name := n; lo := u64 (p_vaddr ph + slide);
                          hi := u64 (u64 (p_vaddr ph + slide) + p_filesz ph); base := b |} in
              range_loop phs nm slide b maxranges (ranges ++ [r]) m
          end
    end
end.

Definition path_name (p : string) (m : mem) : option string * mem :=
let '(c, m) := strdup p m in ((fun c => strlcpy 64 (basename (chars c))) <$> c, m).

Definition interp_name (m : mem) : option string * mem := (Some "ld-elf.so.1", m).

Definition has_interp_mmap (sections : list pt_image_info) (interp : string) : bool :=
existsb (fun s => has_type HWT_RECORD_MMAP s && String.eqb (path s) interp) sections.

(** The EXEC part of one iteration: the ranges of the dynamic linker, unless
  it has an MMAP section of its own. *)
Definition interp_ranges (sections : list pt_image_info) (sec : pt_image_info)
  (load : Z) (maxranges : Z) (ranges : list bin_range) (m : mem) : list bin_range * mem :=
if has_type HWT_RECORD_EXECUTABLE sec && is_user_addr (base_addr sec) &&
   negb (base_addr sec =? load)
then match elf_get_interp (path sec) (Z.of_nat MAXPATHLEN) with
| None => (ranges, m)
| Some interp =>
    if has_interp_mmap sections interp then (ranges, m)
    else match open_elf interp with
    | None => (ranges, m)
    | Some elf2 =>
        match elf_base_vaddr elf2, elf_phdrs elf2 with
        | Some interp_base, Some phs =>
            range_loop phs interp_name (i64 (base_addr sec - interp_base))
              (base_addr sec) maxranges ranges m
        | _, _ => (ranges, m)
        end
    end
end
else (ranges, m).

Definition section_ranges (sections : list pt_image_info) (i : nat) (maxranges : Z)
  (ranges : list bin_range) (m : mem) : list bin_range * mem :=
if negb (section_should_use sections i) then (ranges, m)
else match sections !! i with
| None => (ranges, m)
| Some sec =>
    match open_elf (path sec) with
    | None => (ranges, m)
    | Some elf =>
        match elf_base_vaddr elf, elf_effective_load_addr elf (type sec) (load_addr sec) with
        | Some base_vaddr, Some load =>
            let slide := i64 (load - base_vaddr) in
            let '(ranges, m) :=
              match elf_phdrs elf with
              | Some phs => range_loop phs (path_name (path sec)) slide load maxranges ranges m
              | None => (ranges, m)
              end in
            interp_ranges sections sec load maxranges ranges m
        | _, _ => (ranges, m)
        end
    end
end.

Fixpoint bin_ranges_loop (sections : list pt_image_info) (idxs : list nat) (maxranges : Z)
  (ranges : list bin_range) (m : mem) : list bin_range * mem :=
match idxs with
| [] => (ranges, m)
| i :: idxs =>
    if maxranges <=? Z.of_nat (length ranges) then (ranges, m)
    else let '(ranges, m) := section_ranges sections i maxranges ranges m in
         bin_ranges_loop sections idxs maxranges ranges m
end.

Definition build_bin_ranges (sections : list pt_image_info) (maxranges : Z) (m : mem)
  : list bin_range * mem :=
if negb elf_version_ok then ([], m)
else bin_ranges_loop sections (seq 0 (length sections)) maxranges [] m.

End Image.

(** Name of the first range that holds [ip], with the offset in it. *)
Fixpoint find_binary_for_ip (ranges : list bin_range) (ip : Z) : option (string * Z) :=
  match ranges with
  | [] => None
  | r :: ranges =>
      if (lo r <=? ip) && (ip <? hi r) then Some (name r, u64 (ip - lo r))
      else find_binary_for_ip ranges ip
  end.

(** * Properties *)

(** The executable segments libelf can read, in file order: what each of the
    loops above goes through. *)
Fixpoint exec_segments (phs : list (option GElf_Phdr)) : list GElf_Phdr :=
  match phs with
  | [] => []
  | None :: phs => exec_segments phs
  | Some ph :: phs => if exec_segment ph then ph :: exec_segments phs else exec_segments phs
  end.

Lemma exec_map_loop_spec phs found best :
  (exec_map_loop phs found best).1 = found || negb (bool_decide (exec_segments phs = [])) /\
  (found = true \/ exec_segments phs <> [] ->
   let r := (exec_map_loop phs found best).2 in
   (found = true -> r <= best) /\
   (forall ph, ph ∈ exec_segments phs -> r <= trunc_page (p_vaddr ph)) /\
   ((found = true /\ r = best) \/ exists ph, ph ∈ exec_segments phs /\ r = trunc_page (p_vaddr ph))).
Proof.
  revert found best. induction phs as [|[ph|] phs IH]; intros found best.
  - simpl. split; [by rewrite orb_false_r|]. intros [->|?]; [|done]. split_and!; [lia|by intros ? ?%elem_of_nil|auto].
  - simpl. destruct (exec_segment ph) eqn:E; simpl; [|apply IH].
    destruct (negb found || (trunc_page (p_vaddr ph) <? best)) eqn:C.
    + destruct (IH true (trunc_page (p_vaddr ph))) as [H1 H2]. split.
      { rewrite H1. by rewrite orb_true_r. }
      intros _. destruct H2 as (Hle & Hall & Hex); [auto|]. cbn zeta. specialize (Hle eq_refl).
      split_and!.
      * intros ->. simpl in C. to_prop. lia.
      * intros ph' [->|?]%elem_of_cons; auto.
      * right. destruct Hex as [[_ ->]|(ph' & ? & ?)]; [exists ph|exists ph']; split; auto; constructor; auto.
    + apply orb_false_iff in C as [C1 C2]. to_prop. subst.
      destruct (IH true best) as [H1 H2]. split; [by rewrite H1|].
      intros _. destruct H2 as (Hle & Hall & Hex); [auto|]. specialize (Hle eq_refl).
      split_and!; [auto| |].
      * intros ph' [->|?]%elem_of_cons; [lia|auto].
      * destruct Hex as [?|(ph' & ? & ?)]; [by left|right; exists ph'; split; auto; by constructor].
  - apply IH.
Qed.

(** The address MMAP records are matched against is the lowest page of an
    executable segment. *)
Theorem elf_exec_map_vaddr_min elf phs :
  elf_phdrs elf = Some phs ->
  match elf_exec_map_vaddr elf with
  | Some v => (exists ph, ph ∈ exec_segments phs /\ v = trunc_page (p_vaddr ph)) /\
              forall ph, ph ∈ exec_segments phs -> v <= trunc_page (p_vaddr ph)
  | None => exec_segments phs = []
  end.
Proof.
  intros Hp. unfold elf_exec_map_vaddr. rewrite Hp.
  destruct (exec_map_loop_spec phs false 0) as [H1 H2].
  destruct (exec_map_loop phs false 0) as [[] best]; simpl in *.
  - symmetry in H1. apply negb_true_iff, bool_decide_eq_false in H1.
    destruct H2 as (_ & Hall & [[? _]|Hex]); [by right|done|]. done.
  - symmetry in H1. by apply negb_false_iff, bool_decide_eq_true in H1.
Qed.

(** ** Load addresses *)

(** Where a section's slide puts a file address. *)
Definition relocate (load base_vaddr vaddr : Z) : Z := u64 (vaddr + i64 (load - base_vaddr)).

Lemma relocate_shift load base_vaddr vaddr :
  relocate load base_vaddr vaddr = u64 (load + (vaddr - base_vaddr)).
Proof. unfold relocate. rewrite u64_add_i64. f_equal. lia. Qed.

(** C35: An MMAP record gives the runtime address of the executable segment; the
    load address derived from it puts that segment at the recorded address,
    and every other segment at its file distance from it. *)
Theorem mmap_load_addr_correct elf record_addr load b v :
  is_u64 record_addr ->
  elf_base_vaddr elf = Some b -> elf_exec_map_vaddr elf = Some v ->
  elf_effective_load_addr elf HWT_RECORD_MMAP record_addr = Some load ->
  relocate load b v = record_addr /\
  forall ph_vaddr, relocate load b ph_vaddr = u64 (record_addr + (ph_vaddr - v)).
Proof.
  intros Hr Hb Hv. unfold elf_effective_load_addr. rewrite Hb, Hv.
  case_bool; [done|]. intros [= <-].
  assert (forall w, relocate (u64 (b + (record_addr - v))) b w = u64 (record_addr + (w - v))) as Hw.
  { intros w. rewrite relocate_shift, u64_add_u64. f_equal. lia. }
  split; [|done]. rewrite Hw, Z.sub_diag, Z.add_0_r. by apply u64_small.
Qed.

(** ** Section selection *)

(** Either no index below [n] satisfies [P], or one minimises [f], the first
    of those with the least value. *)
Lemma argmin_index (P : nat -> Prop) `{forall i, Decision (P i)} (f : nat -> Z) n :
  (forall i, (i < n)%nat -> ~ P i) \/
  exists i, (i < n)%nat /\ P i /\
    forall j, (j < n)%nat -> P j -> f i < f j \/ (f i = f j /\ (i <= j)%nat).
Proof.
  assert (Hlast : forall j m, (j < S m)%nat -> j = m \/ (j < m)%nat) by lia.
  induction n as [|n [Hno|(k & Hk & Pk & Hmin)]]; [left; lia| |].
  - destruct (decide (P n)) as [Pn|Pn].
    + right. exists n. split_and!; [lia|done|].
      intros j [->|Hj]%Hlast Pj; [lia|by destruct (Hno j)].
    + left. intros j [->|Hj]%Hlast; auto.
  - right. destruct (decide (P n /\ f n < f k)) as [[Pn Hlt]|Hn].
    + exists n. split_and!; [lia|done|].
      intros j [->|Hj]%Hlast Pj; [lia|]. destruct (Hmin j Hj Pj); lia.
    + exists k. split_and!; [lia|done|]. intros j [->|Hj]%Hlast Pj; [|auto].
      destruct (decide (f n < f k)); [by destruct Hn|lia].
Qed.

(** [s], at index [k], takes precedence over the MMAP [sec] at index [idx]. *)
Definition shadows (sec : pt_image_info) (idx k : nat) (s : pt_image_info) : Prop :=
  k <> idx /\ type s = HWT_RECORD_MMAP /\ path s = path sec /\
  (load_addr s < load_addr sec \/ (load_addr s = load_addr sec /\ (k < idx)%nat)).

#[local] Instance shadows_dec sec idx k s : Decision (shadows sec idx k s).
Proof. unfold shadows. apply _. Defined.

Lemma mmap_shadowed_cons s l i idx sec :
  mmap_shadowed (s :: l) i idx sec =
  bool_decide (shadows sec idx i s) || mmap_shadowed l (S i) idx sec.
Proof.
  simpl. unfold has_type, same_path, type_eqb.
  destruct (decide (shadows sec idx i s)) as [Hs|Hs];
    [rewrite (bool_decide_eq_true_2 _ Hs)|rewrite (bool_decide_eq_false_2 _ Hs)].
  - destruct Hs as (Hi & Ht & Hp & Hl).
    rewrite (bool_decide_eq_true_2 _ Ht), Hp, String.eqb_refl.
    destruct (Nat.eqb_spec i idx); [done|]. simpl. split_cases.
    destruct (Z.eqb_spec (load_addr s) (load_addr sec)), (Nat.ltb_spec i idx); simpl in *; lia.
  - simpl. destruct (Nat.eqb_spec i idx); [done|].
    case_bool_decide; [|done]. simpl.
    destruct (String.eqb_spec (path s) (path sec)); [|done]. simpl.
    destruct (Z.ltb_spec (load_addr s) (load_addr sec)); [by destruct Hs; repeat split; auto|].
    destruct (Z.eqb_spec (load_addr s) (load_addr sec)); [|done].
    destruct (Nat.ltb_spec i idx); [by destruct Hs; repeat split; auto|done].
Qed.

Lemma mmap_shadowed_spec l i idx sec :
  mmap_shadowed l i idx sec = true <->
  exists k s, l !! k = Some s /\ shadows sec idx (i + k) s.
Proof.
  revert i. induction l as [|s l IH]; intros i.
  { split; [done|]. by intros (k & s & ? & _). }
  rewrite mmap_shadowed_cons, orb_true_iff, bool_decide_eq_true, IH. split.
  - intros [Hs|(k & s' & Hl & Hs)].
    + exists 0%nat, s. by rewrite Nat.add_0_r.
    + exists (S k), s'. by rewrite Nat.add_succ_r.
  - intros ([|k] & s' & Hl & Hs).
    + injection Hl as <-. rewrite Nat.add_0_r in Hs. by left.
    + right. exists k, s'. by rewrite Nat.add_succ_r in Hs.
Qed.

Lemma existsb_exec l p :
  existsb (fun s => has_type HWT_RECORD_EXECUTABLE s && String.eqb (path s) p) l = true <->
  exists k s, l !! k = Some s /\ type s = HWT_RECORD_EXECUTABLE /\ path s = p.
Proof.
  unfold has_type. rewrite existsb_exists. split.
  - intros (s & [k ?]%list_elem_of_In%list_elem_of_lookup & [Ht Hp]%andb_true_iff).
    apply type_eqb_eq in Ht. to_prop. eauto.
  - intros (k & s & Hl & Ht & Hp). exists s. split.
    { by eapply list_elem_of_In, list_elem_of_lookup_2. }
    rewrite Hp, String.eqb_refl, andb_true_r. by apply type_eqb_eq.
Qed.

(** The section at [i] has type [t] and path [p]. *)
Definition typed_at (sections : list pt_image_info) (t : hwt_record_type) (p : string)
    (i : nat) : Prop :=
  match sections !! i with Some s => type s = t /\ path s = p | None => False end.

#[local] Instance typed_at_dec sections t p i : Decision (typed_at sections t p i).
Proof. unfold typed_at. destruct (sections !! i); apply _. Defined.

Definition load_at (sections : list pt_image_info) (i : nat) : Z :=
  match sections !! i with Some s => load_addr s | None => 0 end.

Lemma typed_at_lt sections t p i : typed_at sections t p i -> (i < length sections)%nat.
Proof. unfold typed_at. destruct (sections !! i) eqn:E; [|done]. by apply lookup_lt_Some in E. Qed.

Lemma existsb_typed sections n p :
  existsb (fun s => has_type HWT_RECORD_EXECUTABLE s && String.eqb (path s) p) (take n sections)
    = true <->
  exists k, (k < n)%nat /\ typed_at sections HWT_RECORD_EXECUTABLE p k.
Proof.
  rewrite existsb_exec. unfold typed_at. split.
  - intros (k & s & Hl & ? & ?). apply lookup_take_Some in Hl as [Hl Hk].
    exists k. rewrite Hl. auto.
  - intros (k & Hk & Ht). destruct (sections !! k) as [s|] eqn:E; [|done].
    exists k, s. rewrite lookup_take_lt by done. naive_solver.
Qed.

Lemma should_use_exec sections p i :
  p <> EmptyString -> typed_at sections HWT_RECORD_EXECUTABLE p i ->
  section_should_use sections i = true <->
  forall k, (k < i)%nat -> ~ typed_at sections HWT_RECORD_EXECUTABLE p k.
Proof.
  intros Hp Ht. assert (exists s, sections !! i = Some s /\ type s = HWT_RECORD_EXECUTABLE /\
    path s = p) as (s & E & Et & Ep).
  { unfold typed_at in Ht. destruct (sections !! i); naive_solver. }
  unfold section_should_use. rewrite E, Et, Ep. unfold same_path. rewrite Ep.
  destruct (String.eqb_spec p EmptyString); [done|].
  pose proof (existsb_typed sections i p) as Hx.
  destruct (existsb _ _); simpl; split; try done.
  - intros Hall. destruct Hx as [Hx _]. destruct (Hx eq_refl) as (k & ? & ?). by destruct (Hall k).
  - intros _ k Hk Hk'. destruct Hx as [_ Hx]. discriminate Hx. eauto.
Qed.

Lemma should_use_mmap sections p i :
  p <> EmptyString -> typed_at sections HWT_RECORD_MMAP p i ->
  section_should_use sections i = true <->
  (forall k, ~ typed_at sections HWT_RECORD_EXECUTABLE p k) /\
  (forall k, k <> i -> typed_at sections HWT_RECORD_MMAP p k ->
     load_at sections i < load_at sections k \/
     (load_at sections i = load_at sections k /\ (i <= k)%nat)).
Proof.
  intros Hp Ht. assert (exists s, sections !! i = Some s /\ type s = HWT_RECORD_MMAP /\
    path s = p) as (s & E & Et & Ep).
  { unfold typed_at in Ht. destruct (sections !! i); naive_solver. }
  unfold section_should_use. rewrite E, Et, Ep. unfold same_path. rewrite Ep.
  destruct (String.eqb_spec p EmptyString); [done|].
  pose proof (existsb_typed sections (length sections) p) as Hx. rewrite take_ge in Hx by done.
  destruct (existsb _ _).
  { split; [done|]. intros [Hno _]. destruct Hx as [Hx _].
    destruct (Hx eq_refl) as (k & _ & Hk). by destruct (Hno k). }
  pose proof (mmap_shadowed_spec sections 0 i s) as Hm. unfold shadows in Hm. rewrite Ep in Hm.
  unfold load_at. rewrite E. unfold typed_at.
  destruct (mmap_shadowed _ _ _ _); simpl; split; try done.
  - intros [_ Hall]. destruct Hm as [Hm _]. destruct (Hm eq_refl) as (k & s' & El & Hk & ? & ? & Hd).
    specialize (Hall k ltac:(lia)). rewrite El in Hall. specialize (Hall ltac:(auto)). lia.
  - intros _. split.
    + intros k Hk. destruct Hx as [_ Hx]. discriminate Hx. exists k.
      split; [by eapply typed_at_lt|done].
    + intros k Hk Hk'. destruct (sections !! k) as [s'|] eqn:El; [|done]. destruct Hk' as [? ?].
      destruct (decide (load_addr s < load_addr s')); [by left|].
      destruct (decide (load_addr s = load_addr s' /\ (i <= k)%nat)); [by right|].
      destruct Hm as [_ Hm]. discriminate Hm. exists k, s'. split_and!; auto. lia.
Qed.

(** An EXEC or MMAP section of the path at [i]. *)
Definition image_at (sections : list pt_image_info) (p : string) (i : nat) : Prop :=
  typed_at sections HWT_RECORD_EXECUTABLE p i \/ typed_at sections HWT_RECORD_MMAP p i.

Lemma typed_at_fun sections t t' p p' i :
  typed_at sections t p i -> typed_at sections t' p' i -> t = t' /\ p = p'.
Proof. unfold typed_at. destruct (sections !! i); naive_solver. Qed.

(** C34: Whatever records were collected, every binary is decoded from exactly one
    of its sections: the first EXEC when there is one, else the MMAP with the
    lowest address. *)
Theorem section_should_use_unique sections p i0 :
  p <> EmptyString -> image_at sections p i0 ->
  exists i, image_at sections p i /\ section_should_use sections i = true /\
    (forall j, image_at sections p j -> section_should_use sections j = true -> j = i) /\
    (typed_at sections HWT_RECORD_EXECUTABLE p i ->
     forall j, typed_at sections HWT_RECORD_EXECUTABLE p j -> (i <= j)%nat) /\
    (typed_at sections HWT_RECORD_MMAP p i ->
     forall j, image_at sections p j ->
       typed_at sections HWT_RECORD_MMAP p j /\ load_at sections i <= load_at sections j).
Proof.
  intros Hp H0.
  destruct (argmin_index (typed_at sections HWT_RECORD_EXECUTABLE p) (fun _ => 0)
              (length sections)) as [Hno|(i & Hi & Pi & Hmin)].
  - assert (Hnoexec : forall k, ~ typed_at sections HWT_RECORD_EXECUTABLE p k).
    { intros k Hk. apply (Hno k); [by eapply typed_at_lt|done]. }
    assert (Hmm : forall k, image_at sections p k -> typed_at sections HWT_RECORD_MMAP p k).
    { intros k [Hk|Hk]; [by destruct (Hnoexec k)|done]. }
    destruct (argmin_index (typed_at sections HWT_RECORD_MMAP p) (load_at sections)
                (length sections)) as [Hno'|(i & Hi & Pi & Hmin)].
    { destruct (Hno' i0); [by eapply typed_at_lt, Hmm|auto]. }
    exists i. split_and!.
    + by right.
    + apply (should_use_mmap sections p); auto. split; [done|].
      intros k _ Hk. apply Hmin; [by eapply typed_at_lt|done].
    + intros j Hj%Hmm Hu. apply (should_use_mmap sections p) in Hu as [_ Hu]; auto.
      destruct (decide (j = i)); [done|].
      destruct (Hmin j (typed_at_lt _ _ _ _ Hj) Hj), (Hu i ltac:(done) Pi); lia.
    + intros Pe. by destruct (Hnoexec i).
    + intros _ j Hj%Hmm. split; [done|].
      destruct (Hmin j (typed_at_lt _ _ _ _ Hj) Hj); lia.
  - exists i. split_and!.
    + by left.
    + apply (should_use_exec sections p); auto. intros k Hk Pk.
      destruct (Hmin k ltac:(lia) Pk); lia.
    + intros j [Pj|Pj] Hu.
      * pose proof (proj1 (should_use_exec sections p j Hp Pj) Hu) as Hfirst.
        destruct (Hmin j (typed_at_lt _ _ _ _ Pj) Pj) as [?|[_ ?]]; [lia|].
        destruct (decide (j = i)); [done|]. by destruct (Hfirst i ltac:(lia)).
      * apply (should_use_mmap sections p) in Hu as [Hu _]; auto. by destruct (Hu i).
    + intros _ j Pj. destruct (Hmin j (typed_at_lt _ _ _ _ Pj) Pj); lia.
    + intros Pm. by destruct (typed_at_fun _ _ _ _ _ _ Pi Pm).
Qed.

(** ** Ranges *)

(** An address is attributed to the first range that contains it, with its
    offset in it; to none only when no range does. *)
Theorem find_binary_spec ranges ip :
  match find_binary_for_ip ranges ip with
  | Some (n, off) => exists i r, ranges !! i = Some r /\ n = name r /\ off = u64 (ip - lo r) /\
      lo r <= ip < hi r /\
      forall j r', (j < i)%nat -> ranges !! j = Some r' -> ~ lo r' <= ip < hi r'
  | None => forall r, r ∈ ranges -> ~ lo r <= ip < hi r
  end.
Proof.
  induction ranges as [|r ranges IH]; simpl; [intros r Hr; by apply elem_of_nil in Hr|].
  destruct (decide (lo r <= ip < hi r)) as [Hin|Hout].
  - replace ((lo r <=? ip) && (ip <? hi r))%bool with true by lia.
    exists 0%nat, r. split_and!; auto; lia.
  - replace ((lo r <=? ip) && (ip <? hi r))%bool with false by lia.
    destruct (find_binary_for_ip ranges ip) as [[n off]|].
    + destruct IH as (i & r0 & Hi & Hn & Ho & [Hl Hh] & Hlt). exists (S i), r0. split_and!; auto.
      intros j r' Hj Hr'. destruct j as [|j]; [by injection Hr' as <-|].
      apply (Hlt j); [lia|done].
    + intros r' Hr'. apply elem_of_cons in Hr' as [->|Hr']; auto.
Qed.

(** The range of one executable segment. *)
Definition seg_range (n : string) (slide b : Z) (ph : GElf_Phdr) : bin_range :=
  {| name := n; lo := u64 (p_vaddr ph + slide);
     hi := u64 (u64 (p_vaddr ph + slide) + p_filesz ph); base := b |}.

(** A name maker that yields [n] whenever memory is available. *)
Definition names (nm : mem -> option string * mem) (n : string) : Prop :=
  (forall m m' n', nm m = (Some n', m') -> n' = n) /\
  (forall m, mem_ok m -> exists m', nm m = (Some n, m') /\ mem_ok m').

Lemma path_name_names p : names (path_name p) (strlcpy 64 (basename p)).
Proof.
  unfold path_name. split.
  - intros m m' n'. destruct (strdup p m) as [r m0] eqn:E.
    apply strdup_spec in E as [[-> _]|[-> _]]; by intros [= <- <-].
  - intros m (m' & E & _ & ?)%(strdup_ok p). rewrite E. eauto.
Qed.

Lemma interp_name_names : names interp_name "ld-elf.so.1".
Proof. split; [by intros ? ? ? [= <- _]|]. intros m ?. by exists m. Qed.

#[export] Hint Resolve path_name_names interp_name_names : bsdtrace.

(** Under any allocator: the loop appends ranges of executable segments and
    never exceeds the array. *)
Lemma range_loop_sound phs nm n slide b maxr ranges m :
  names nm n -> Z.of_nat (length ranges) <= maxr ->
  exists l, (range_loop phs nm slide b maxr ranges m).1 = ranges ++ l /\
    Z.of_nat (length (ranges ++ l)) <= maxr /\
    forall r, r ∈ l -> exists ph, ph ∈ exec_segments phs /\ r = seg_range n slide b ph.
Proof.
  intros [Hn _]. revert ranges m. induction phs as [|oph phs IH]; intros ranges m Hlen.
  { exists []. rewrite app_nil_r. split_and!; auto. by intros r ?%elem_of_nil. }
  simpl. case_bool; to_prop.
  { exists []. rewrite app_nil_r. split_and!; auto. by intros r ?%elem_of_nil. }
  destruct oph as [ph|]; [|by apply IH].
  destruct (exec_segment ph) eqn:Ex; simpl; [|by apply IH].
  destruct (nm m) as [[n'|] m'] eqn:Em.
  - apply Hn in Em as ->.
    destruct (IH (ranges ++ [seg_range n slide b ph]) m') as (l & El & ? & Hl).
    { rewrite length_app. simpl. lia. }
    exists (seg_range n slide b ph :: l).
    replace (ranges ++ seg_range n slide b ph :: l) with ((ranges ++ [seg_range n slide b ph]) ++ l)
      by (by rewrite <- app_assoc).
    split_and!; auto.
    intros r Hr. apply elem_of_cons in Hr as [->|Hr].
    + exists ph. split; [constructor|done].
    + destruct (Hl r Hr) as (ph' & ? & ?). exists ph'. split; [by constructor|done].
  - destruct (IH ranges m' Hlen) as (l & ? & ? & Hl). exists l. split_and!; auto.
    intros r Hr.
    destruct (Hl r Hr) as (ph' & ? & ?). exists ph'. split; [by constructor|done].
Qed.

(** With memory and room, the ranges are exactly those of the segments. *)
Lemma range_loop_complete phs nm n slide b maxr ranges m :
  names nm n -> mem_ok m ->
  Z.of_nat (length ranges + length (exec_segments phs)) <= maxr ->
  (range_loop phs nm slide b maxr ranges m).1 =
    ranges ++ map (seg_range n slide b) (exec_segments phs).
Proof.
  intros [_ Hn]. revert ranges m. induction phs as [|oph phs IH]; intros ranges m Hm Hlen.
  { symmetry. apply app_nil_r. }
  simpl in *.
  destruct oph as [ph|]; [destruct (exec_segment ph) eqn:Ex|]; rewrite ?Ex in *; simpl in *.
  - case_bool; to_prop; [lia|]. destruct (Hn m Hm) as (m' & -> & Hm').
    rewrite IH; [by rewrite <- app_assoc|done|]. rewrite length_app. simpl. lia.
  - case_bool; to_prop; [|by apply IH]. simpl.
    destruct (exec_segments phs) as [|? ?] eqn:En; simpl in *; [|lia]. by rewrite app_nil_r.
  - case_bool; to_prop; [|by apply IH]. simpl.
    destruct (exec_segments phs) as [|? ?] eqn:En; simpl in *; [|lia]. by rewrite app_nil_r.
Qed.

Section Ranges.
Context `{LibElf}.

(** Where a range of the table comes from: an executable segment of a
  section's file, or of the interpreter its PT_INTERP names. *)
Definition range_source (sections : list pt_image_info) (r : bin_range) : Prop :=
exists s elf phs ph n slide b,
  s ∈ sections /\
  (open_elf (path s) = Some elf \/
   exists interp, elf_get_interp (path s) (Z.of_nat MAXPATHLEN) = Some interp /\
     open_elf interp = Some elf) /\
  elf_phdrs elf = Some phs /\ ph ∈ exec_segments phs /\ r = seg_range n slide b ph.

Definition ranges_ok (sections : list pt_image_info) (maxr : Z) (rs : list bin_range) : Prop :=
Z.of_nat (length rs) <= maxr /\ Forall (range_source sections) rs.

Lemma range_loop_ok sections s elf phs nm n slide b maxr ranges m :
names nm n -> s ∈ sections ->
(open_elf (path s) = Some elf \/
 exists interp, elf_get_interp (path s) (Z.of_nat MAXPATHLEN) = Some interp /\
   open_elf interp = Some elf) ->
elf_phdrs elf = Some phs -> ranges_ok sections maxr ranges ->
ranges_ok sections maxr (range_loop phs nm slide b maxr ranges m).1.
Proof.
intros Hnm Hs He Hp [Hlen Hall].
destruct (range_loop_sound phs nm n slide b maxr ranges m Hnm Hlen) as (l & -> & ? & Hl).
split; [done|]. apply Forall_app. split; [done|]. apply Forall_forall.
intros r (ph & ? & ->)%Hl. exists s, elf, phs, ph, n, slide, b. auto.
Qed.

Lemma interp_ranges_ok sections sec load maxr ranges m :
sec ∈ sections -> ranges_ok sections maxr ranges ->
ranges_ok sections maxr (interp_ranges sections sec load maxr ranges m).1.
Proof.
intros Hs Hr. unfold interp_ranges. repeat case_match; simplify_eq/=; auto.
eapply range_loop_ok; eauto with bsdtrace.
Qed.

Lemma section_ranges_ok sections i maxr ranges m :
ranges_ok sections maxr ranges ->
ranges_ok sections maxr (section_ranges sections i maxr ranges m).1.
Proof.
intros Hr. unfold section_ranges. case_bool; [done|].
destruct (sections !! i) as [sec|] eqn:Es; [|done]. apply list_elem_of_lookup_2 in Es.
destruct (open_elf (path sec)) as [elf|] eqn:Eo; [|done].
destruct (elf_base_vaddr elf); [|done]. destruct (elf_effective_load_addr _ _ _); [|done].
cbn zeta. match goal with |- context [let '(_, _) := ?X in _] =>
  assert (Hx : ranges_ok sections maxr X.1); [|destruct X; by apply interp_ranges_ok] end.
destruct (elf_phdrs elf) eqn:Ep; [|done]. eapply range_loop_ok; eauto with bsdtrace.
Qed.

(** C33: The table of binary ranges stays within the array the caller passes and
  holds only executable segments of the recorded binaries, whatever the
  files contain and whichever allocations fail. *)
Theorem build_bin_ranges_ok sections maxr m :
0 <= maxr -> ranges_ok sections maxr (build_bin_ranges sections maxr m).1.
Proof.
intros Hm. unfold build_bin_ranges. case_bool; [by split|].
assert (Hloop : forall idxs ranges m, ranges_ok sections maxr ranges ->
  ranges_ok sections maxr (bin_ranges_loop sections idxs maxr ranges m).1).
{ clear. induction idxs as [|i idxs IH]; intros ranges m Hr; [done|]. simpl.
  case_bool; [done|]. pose proof (section_ranges_ok sections i maxr ranges m Hr) as Hr'.
  destruct (section_ranges _ _ _ _ _). by apply IH. }
apply Hloop. by split.
Qed.
End Ranges.

(** ** The decoder's image *)

Section adds.
Context `{PtImage}.

(** A segment as libipt is given it: file, offset, size and address. *)
Definition segment : Type := string * Z * Z * Z.

Definition image_add (im : pt_image) '((p, off, size, v) : segment) : Z * pt_image :=
  pt_image_add_file im p off size v.

(** Segments added one after the other, whatever libipt makes of each, and
    how many of them it accepts. *)
Definition image_adds (im : pt_image) (segs : list segment) : pt_image :=
  foldl (fun im s => (image_add im s).2) im segs.

Fixpoint accepted (im : pt_image) (segs : list segment) : Z :=
  match segs with
  | [] => 0
  | s :: segs => (if 0 <=? (image_add im s).1 then 1 else 0) + accepted (image_add im s).2 segs
  end.

Lemma image_adds_app im l1 l2 : image_adds im (l1 ++ l2) = image_adds (image_adds im l1) l2.
Proof. apply foldl_app. Qed.

Lemma accepted_app im l1 l2 :
  accepted im (l1 ++ l2) = accepted im l1 + accepted (image_adds im l1) l2.
Proof. revert im. induction l1 as [|s l1 IH]; intros im; [done|]. cbn [app accepted image_adds foldl]. rewrite IH. unfold image_adds. lia. Qed.

Lemma add_segments_adds phs p slide im added :
  let segs := map (fun ph => (p, p_offset ph, p_filesz ph, u64 (p_vaddr ph + slide))) (exec_segments phs) in
  add_segments phs p slide im added = (added + accepted im segs, image_adds im segs).
Proof.
  cbn zeta. revert im added. induction phs as [|[ph|] phs IH]; intros im added; [by rewrite Z.add_0_r| |apply IH].
  cbn [add_segments exec_segments]. destruct (exec_segment ph); cbn [negb]; [|apply IH].
  cbn [map accepted image_adds foldl image_add].
  destruct (pt_image_add_file im p (p_offset ph) (p_filesz ph) (u64 (p_vaddr ph + slide))) as [err im1].
  cbn [fst snd]. rewrite IH. f_equal. case_bool; lia.
Qed.
End adds.
