(* ===== verification/Symbols.v ===== *)
(** symbols.c: the symbol table that maps runtime addresses to functions.
    Entries are filled from ELF symbol sections, sorted once, and looked up
    by binary search. *)

From Stdlib Require Import ZArith Lia Ascii String.
From stdpp Require Import base list strings sets gmap sorting.
From S2P Require Import Prelude CLib Types Elf.

Definition SYM_INIT_CAP : Z := 256.

(** [struct sym_table]; [count] is the length of [entries]. *)
Record sym_table := { entries : list sym_entry; capacity : Z }.

Definition sym_table_init : sym_table := {| entries := []; capacity := 0 |}.

(** Room for one more entry: the capacity check with its [realloc]. *)
Definition sym_table_reserve (st : sym_table) (m : mem) : option sym_table * mem :=
  if capacity st <=? Z.of_nat (length (entries st)) then
    let '(p, m) := malloc m in
    match p with
    | None => (None, m)
    | Some _ => (Some {| entries := entries st; capacity := grow SYM_INIT_CAP (capacity st) |}, m)
    end
  else (Some st, m).

(** Filling the new entry; both strings are duplicated before the test. *)
Definition sym_table_store (st : sym_table) (addr size : Z) (nm binary : string)
    (slide : Z) (m : mem) : sym_table * mem :=
  let '(pn, m) := strdup nm m in
  let '(pb, m) := strdup binary m in
  match pn, pb with
  | Some pn, Some pb =>
      ({| entries := entries st ++ [{| s_addr := addr; s_size := size; s_slide := slide;
                                       s_name := pn; s_binary := pb |}];
          capacity := capacity st |}, m)
  | _, _ => (st, m)
  end.

Definition sym_table_add (st : sym_table) (addr size : Z) (nm : option string)
    (binary : string) (slide : Z) (m : mem) : sym_table * mem :=
  match nm with
  | None | Some EmptyString => (st, m)
  | Some nm =>
      let '(ost, m) := sym_table_reserve st m in
      match ost with
      | None => (st, m)
      | Some st => sym_table_store st addr size nm binary slide m
      end
  end.

Definition GELF_ST_TYPE (info : Z) : Z := Z.land info 15.

(** One symbol of [sym_table_add_elf]. *)
Definition add_symbol (elf : Elf) (link : Z) (bn : string) (slide : Z)
    (osym : option GElf_Sym) (st : sym_table) (m : mem) : sym_table * mem :=
  match osym with
  | None => (st, m)
  | Some sym =>
      if negb (GELF_ST_TYPE (st_info sym) =? STT_FUNC) then (st, m)
      else if st_value sym =? 0 then (st, m)
      else sym_table_add st (u64 (st_value sym + slide)) (st_size sym)
             (elf_strptr elf link (st_name sym)) bn slide m
  end.

(** The symbols of one data buffer: [d_size / sh_entsize] of them. *)
Definition data_symbols (sh : GElf_Shdr) (d : Elf_Data) : list (option GElf_Sym) :=
  map (d_getsym d) (seq 0 (Z.to_nat (d_size d / sh_entsize sh))).

(** The symbols of a section of the wanted type, all its buffers in turn. *)
Definition section_symbols (ty : Z) (scn : Elf_Scn) : list (Z * option GElf_Sym) :=
  match scn_shdr scn with
  | None => []
  | Some sh =>
      if negb (sh_type sh =? ty) then []
      else if sh_entsize sh =? 0 then []
      else map (pair (sh_link sh)) (concat (map (data_symbols sh) (scn_data scn)))
  end.

Fixpoint add_sections (elf : Elf) (bn : string) (slide : Z)
    (syms : list (Z * option GElf_Sym)) (st : sym_table) (m : mem) : sym_table * mem :=
  match syms with
  | [] => (st, m)
  | (link, s) :: syms =>
      let '(st, m) := add_symbol elf link bn slide s st m in
      add_sections elf bn slide syms st m
  end.

Definition sym_table_add_elf `{LibElf} (st : sym_table) (p : string) (slide : Z) (m : mem)
    : sym_table * mem :=
  if negb elf_version_ok then (st, m)
  else match open_elf p with
  | None => (st, m)
  | Some elf =>
      let '(pathcopy, m) := strdup p m in
      match pathcopy with
      | None => (st, m)
      | Some pathcopy =>
          let bn := basename (chars pathcopy) in
          let symtab_type := elf_preferred_symtab_type elf in
          add_sections elf bn slide
            (concat (map (section_symbols symtab_type) (elf_scns elf))) st m
      end
  end.

Definition sym_entry_cmp (sa sb : sym_entry) : Z :=
  if s_addr sa <? s_addr sb then -1
  else if s_addr sb <? s_addr sa then 1
  else 0.

Definition sym_table_sort `{QSort} (st : sym_table) : sym_table :=
  if 1 <? Z.of_nat (length (entries st))
  then {| entries := qsort sym_entry_cmp (entries st); capacity := capacity st |}
  else st.

(** The search loop; [None] is a read outside the table or no fuel left,
    neither of which happens ([lookup_loop_total]). *)
Fixpoint lookup_loop (fuel : nat) (es : list sym_entry) (ip lo hi best : Z) : option Z :=
  match fuel with
  | O => None
  | S fuel =>
      if lo <=? hi then
        let mid := lo + (hi - lo) / 2 in
        match es !! Z.to_nat mid with
        | None => None
        | Some e =>
            if s_addr e <=? ip then lookup_loop fuel es ip (mid + 1) hi mid
            else lookup_loop fuel es ip lo (mid - 1) best
        end
      else Some best
  end.

(** The size test after the search. *)
Definition covers (e : sym_entry) (ip : Z) : bool :=
  if 0 <? s_size e then negb (u64 (s_addr e + s_size e) <=? ip)
  else negb (4096 <? u64 (ip - s_addr e)).

Definition sym_table_lookup (st : sym_table) (ip : Z) : option sym_entry :=
  let n := length (entries st) in
  if Z.of_nat n =? 0 then None
  else match lookup_loop (S n) (entries st) ip 0 (Z.of_nat n - 1) (-1) with
  | None => None
  | Some best =>
      if best <? 0 then None
      else match entries st !! Z.to_nat best with
      | None => None
      | Some e => if covers e ip then Some e else None
      end
  end.

Definition sym_table_free (_ : sym_table) : sym_table := sym_table_init.

(** * Properties *)

(** ** Lookup *)

Definition addr_sorted (es : list sym_entry) : Prop :=
  StronglySorted (fun a b => s_addr a <= s_addr b) es.

(** What the search computes, by a scan of the whole table: the last entry
    that starts at or below [ip]. *)
Fixpoint last_below (es : list sym_entry) (ip : Z) (best : option sym_entry) : option sym_entry :=
  match es with
  | [] => best
  | e :: es => last_below es ip (if s_addr e <=? ip then Some e else best)
  end.

Definition lookup_linear (es : list sym_entry) (ip : Z) : option sym_entry :=
  match last_below es ip None with
  | Some e => if covers e ip then Some e else None
  | None => None
  end.

(** The search terminates with an index of the table (or -1), sorted or not. *)
Lemma lookup_loop_total fuel es ip lo hi best :
  0 <= lo -> hi < Z.of_nat (length es) -> -1 <= best < Z.of_nat (length es) ->
  (0 < fuel)%nat -> hi - lo + 1 < Z.of_nat fuel ->
  exists b, lookup_loop fuel es ip lo hi best = Some b /\ -1 <= b < Z.of_nat (length es).
Proof.
  revert lo hi best. induction fuel as [|fuel IH]; intros lo hi best Hlo Hhi Hb H0 Hf; [lia|].
  simpl. case_bool; to_prop; [|eauto].
  assert (lo <= lo + (hi - lo) / 2 <= hi) by (Z.to_euclidean_division_equations; lia).
  destruct (lookup_lt_is_Some_2 es (Z.to_nat (lo + (hi - lo) / 2))) as [e ->]; [lia|].
  case_bool; apply IH; lia.
Qed.

(** In a sorted table the entries at or below [ip] are a prefix. *)
Lemma sorted_prefix es ip :
  addr_sorted es ->
  exists k, (k <= length es)%nat /\
    forall i e, es !! i = Some e -> (s_addr e <= ip <-> (i < k)%nat).
Proof.
  induction 1 as [|e es Hs IH Hall].
  - exists 0%nat. split; [done|]. by intros i e.
  - destruct (decide (s_addr e <= ip)) as [Hle|Hgt].
    + destruct IH as (k & Hk & IH). exists (S k). split; [simpl; lia|].
      intros [|i] e' He; simpl in He; [injection He as <-; lia|]. rewrite (IH i e' He). lia.
    + exists 0%nat. split; [lia|]. intros [|i] e' He; simpl in He; [injection He as <-; lia|].
      rewrite Forall_forall in Hall.
      specialize (Hall e' (list_elem_of_lookup_2 _ _ _ He)). lia.
Qed.

Lemma lookup_loop_sorted k fuel es ip lo hi best b :
  (forall i e, es !! i = Some e -> (s_addr e <= ip <-> (i < k)%nat)) ->
  0 <= lo <= Z.of_nat k -> Z.of_nat k <= hi + 1 -> best = lo - 1 ->
  lookup_loop fuel es ip lo hi best = Some b -> b = Z.of_nat k - 1.
Proof.
  intros Hk. revert lo hi best. induction fuel as [|fuel IH]; intros lo hi best Hlo Hhi -> H;
    [done|]. simpl in H. case_bool_in H; to_prop; [|injection H as <-; lia].
  destruct (es !! Z.to_nat (lo + (hi - lo) / 2)) as [e|] eqn:He; [|done].
  apply Hk in He. assert (lo <= lo + (hi - lo) / 2 <= hi) by (Z.to_euclidean_division_equations; lia).
  case_bool_in H; to_prop; (eapply IH in H; [done|lia..]).
Qed.

Lemma last_below_prefix k es ip best :
  (k <= length es)%nat -> (forall i e, es !! i = Some e -> (s_addr e <= ip <-> (i < k)%nat)) ->
  last_below es ip best = match k with O => best | S k => es !! k end.
Proof.
  revert k best. induction es as [|e es IH]; intros k best Hlen Hk; simpl in *.
  { by replace k with 0%nat by lia. }
  pose proof (Hk 0%nat e eq_refl) as H0.
  rewrite (IH (pred k)); [|lia|].
  - destruct k as [|[|k]]; simpl; [|by replace (s_addr e <=? ip) with true by lia|done].
    by replace (s_addr e <=? ip) with false by lia.
  - intros i e' He. rewrite (Hk (S i) e' He). lia.
Qed.

(** On a sorted table the binary search finds what a full scan finds. *)
Lemma sym_table_lookup_linear st ip :
  addr_sorted (entries st) -> sym_table_lookup st ip = lookup_linear (entries st) ip.
Proof.
  intros Hs. destruct (sorted_prefix _ ip Hs) as (k & Hlen & Hk).
  unfold sym_table_lookup, lookup_linear. rewrite (last_below_prefix k) by done.
  case_bool; to_prop; [by replace k with 0%nat by lia|].
  destruct (lookup_loop_total (S (length (entries st))) (entries st) ip 0
    (Z.of_nat (length (entries st)) - 1) (-1)) as (b & Hb & Hr); [lia..|]. rewrite Hb.
  apply (lookup_loop_sorted k) in Hb as ->; [|done|lia|lia|lia].
  destruct k as [|k]; [done|]. case_bool; to_prop; [lia|].
  by replace (Z.to_nat (Z.of_nat (S k) - 1)) with k by lia.
Qed.

(** Which entry that is. *)
Lemma last_below_spec es ip best e :
  last_below es ip best = Some e ->
  (exists i, es !! i = Some e /\ s_addr e <= ip /\
     forall j e', (i < j)%nat -> es !! j = Some e' -> ip < s_addr e') \/
  (best = Some e /\ forall e', e' ∈ es -> ip < s_addr e').
Proof.
  revert best. induction es as [|a es IH]; intros best H; simpl in *.
  { right. split; [done|]. intros e' He. by apply elem_of_nil in He. }
  apply IH in H as [(i & Hi & Hle & Hlt)|[H Hall]].
  - left. exists (S i). split_and!; auto. intros [|j] e' Hj He; [lia|]. apply (Hlt j); [lia|done].
  - case_bool_in H; to_prop.
    + injection H as ->. left. exists 0%nat. split_and!; auto. intros [|j] e' Hj He; [lia|].
      by eapply Hall, list_elem_of_lookup_2.
    + right. split; [done|]. intros e' He. apply elem_of_cons in He as [->|He]; auto.
Qed.

(** [e] is the function the address [ip] falls in or after: no other starts
    between its start and [ip]. *)
Definition nearest (es : list sym_entry) (ip : Z) (e : sym_entry) : Prop :=
  e ∈ es /\ s_addr e <= ip /\ forall e', e' ∈ es -> ~ (s_addr e < s_addr e' <= ip).

Lemma last_below_none es ip : last_below es ip None = None -> forall e, e ∈ es -> ip < s_addr e.
Proof.
  assert (Hs : forall l b, last_below l ip (Some b) <> None).
  { induction l as [|a l IH]; intros b; simpl; [done|]. case_bool; apply IH. }
  induction es as [|a es IH]; simpl; intros H e He; [by apply elem_of_nil in He|].
  case_bool_in H; to_prop; [by destruct (Hs es a)|].
  apply elem_of_cons in He as [->|He]; auto.
Qed.

Lemma sym_table_lookup_spec st ip :
  addr_sorted (entries st) ->
  match sym_table_lookup st ip with
  | Some e => nearest (entries st) ip e /\ covers e ip = true
  | None => (forall e, e ∈ entries st -> ip < s_addr e) \/
            exists e, nearest (entries st) ip e /\ covers e ip = false
  end.
Proof.
  intros Hs. rewrite sym_table_lookup_linear by done. unfold lookup_linear.
  destruct (last_below _ _ _) as [e0|] eqn:E; [|left; by apply last_below_none].
  assert (Hn : nearest (entries st) ip e0).
  { apply last_below_spec in E as [(i & Hi & Hle & Hlt)|[? _]]; [|done].
    split_and!; [by eapply list_elem_of_lookup_2|done|].
    intros e' [j Hj]%list_elem_of_lookup [H1 H2].
    destruct (decide (i < j)%nat) as [Hij|Hij]; [specialize (Hlt j e' Hij Hj); lia|].
    destruct (decide (j = i)) as [->|Hne]; [rewrite Hi in Hj; injection Hj as ->; lia|].
    pose proof (StronglySorted_index _ _ j i e' e0 Hs Hj Hi ltac:(lia)). simpl in *. lia. }
  case_bool; [done|]. right. by exists e0.
Qed.

(** ** Sorting *)

Lemma sym_entry_cmp_le a b : sym_entry_cmp a b <= 0 <-> s_addr a <= s_addr b.
Proof. unfold sym_entry_cmp. repeat case_bool; to_prop; lia. Qed.

Lemma sym_entry_cmp_preorder : cmp_preorder sym_entry_cmp.
Proof. split; intros; rewrite !sym_entry_cmp_le in *; lia. Qed.

Section Sort.
Context `{QSort}.

Lemma sym_table_sort_perm st : entries (sym_table_sort st) ≡ₚ entries st.
Proof. unfold sym_table_sort. case_bool; [|done]. apply qsort_perm. Qed.

Lemma sym_table_sort_sorted st : addr_sorted (entries (sym_table_sort st)).
Proof.
unfold sym_table_sort, addr_sorted. case_bool; to_prop; simpl.
- pose proof (qsort_sorted sym_entry_cmp (entries st) sym_entry_cmp_preorder) as Hs.
  induction Hs as [|a l Hs IH Ha]; constructor; [done|].
  eapply Forall_impl; [exact Ha|]. intros b. apply sym_entry_cmp_le.
- destruct (entries st) as [|a [|b l]]; [constructor|by repeat constructor|simpl in *; lia].
Qed.

(** C26: Whatever was added to the table, a lookup after the sort finds the
    nearest function that starts at or before the address, when it extends to
    the address; it finds nothing only when there is none or it ends
    before. *)
Theorem sym_lookup_after_sort st ip :
  match sym_table_lookup (sym_table_sort st) ip with
  | Some e => nearest (entries st) ip e /\ covers e ip = true
  | None => (forall e, e ∈ entries st -> ip < s_addr e) \/
            exists e, nearest (entries st) ip e /\ covers e ip = false
  end.
Proof.
  pose proof (sym_table_lookup_spec (sym_table_sort st) ip (sym_table_sort_sorted st)) as Hlk.
  assert (Hn : forall e, nearest (entries (sym_table_sort st)) ip e -> nearest (entries st) ip e).
  { intros e. unfold nearest. by setoid_rewrite sym_table_sort_perm. }
  destruct (sym_table_lookup _ ip) as [e|]; [naive_solver|].
  destruct Hlk as [Hlk|(e & He & Hc)]; [left|right; eauto].
  intros e He. apply Hlk. by rewrite sym_table_sort_perm.
Qed.
End Sort.

(** ** Building the table *)

(** The table respects its capacity and no two of its strings share a
    location, so that names can be compared by pointer. *)
Definition entry_locs (e : sym_entry) : list nat := [loc (s_name e); loc (s_binary e)].

Record sym_table_wf (st : sym_table) (m : mem) : Prop := {
  wf_capacity : Z.of_nat (length (entries st)) <= capacity st;
  wf_fresh : Forall (fun l => (l < next_loc m)%nat) (concat (map entry_locs (entries st)));
  wf_distinct : NoDup (concat (map entry_locs (entries st)));
}.

Lemma sym_table_wf_mem st m m' :
  (next_loc m <= next_loc m')%nat -> sym_table_wf st m -> sym_table_wf st m'.
Proof. intros Hm [? Hf ?]. split; auto. eapply Forall_impl; [exact Hf|]. simpl. lia. Qed.

(** At most one entry was added at the end. *)
Definition extends (st st' : sym_table) : Prop :=
  exists l, entries st' = entries st ++ l /\ (length l <= 1)%nat.

Lemma extends_refl st : extends st st.
Proof. exists []. rewrite app_nil_r. split; [done|simpl; lia]. Qed.

Lemma sym_table_store_wf st addr size nm bn slide m :
  sym_table_wf st m -> Z.of_nat (length (entries st)) < capacity st ->
  let '(st', m') := sym_table_store st addr size nm bn slide m in
  sym_table_wf st' m' /\ extends st st'.
Proof.
  intros [Hc Hf Hd] Hlt. unfold sym_table_store.
  destruct (strdup nm m) as [pn m2] eqn:E1, (strdup bn m2) as [pb m3] eqn:E2.
  apply strdup_spec in E1 as [[-> Hm2]|[-> Hm2]], E2 as [[-> Hm3]|[-> Hm3]].
  1,2,3: split; [apply (sym_table_wf_mem st m); [lia|by split]|apply extends_refl].
  split; [|eexists; split; [reflexivity|simpl; lia]].
  split; simpl; rewrite ?length_app, ?map_app, ?concat_app; simpl; [lia| |].
  - apply Forall_app; split; [eapply Forall_impl; [exact Hf|simpl; lia]|].
    repeat constructor; simpl; lia.
  - rewrite Forall_forall in Hf. apply NoDup_app. split_and!; [done| |].
    + intros x Hx%Hf Hin. rewrite !elem_of_cons, elem_of_nil in Hin. simpl in *. lia.
    + constructor; [rewrite !elem_of_cons, elem_of_nil; simpl; lia|].
      constructor; [apply not_elem_of_nil|constructor].
Qed.

(** The invariant holds under every allocator behaviour, and an addition
    that runs out of memory leaves the entries as they were. *)
Theorem sym_table_add_wf st addr size nm bn slide m :
  sym_table_wf st m ->
  let '(st', m') := sym_table_add st addr size nm bn slide m in
  sym_table_wf st' m' /\ extends st st'.
Proof.
  intros Hwf. pose proof (extends_refl st). unfold sym_table_add, sym_table_reserve.
  destruct nm as [[|c nm]|]; auto. case_bool; to_prop; [|by apply sym_table_store_wf].
  destruct (malloc m) as [[p|] m1] eqn:E1; apply malloc_mono in E1;
    [|split; [by eapply sym_table_wf_mem|done]].
  destruct Hwf as [Hc Hf Hd]. pose proof (grow_gt SYM_INIT_CAP (capacity st) ltac:(done) ltac:(lia)).
  apply (sym_table_store_wf {| entries := entries st; capacity := grow SYM_INIT_CAP (capacity st) |});
    simpl; [|lia].
  split; simpl; [lia| |done]. eapply Forall_impl; [exact Hf|]. simpl. lia.
Qed.

(** ** Loading a file's symbols *)

(** The function symbols a section list contributes, as (value, size, name). *)
Definition func_symbol (elf : Elf) (ls : Z * option GElf_Sym) : list (Z * Z * string) :=
  match ls with
  | (link, Some sym) =>
      if (GELF_ST_TYPE (st_info sym) =? STT_FUNC) && negb (st_value sym =? 0)
      then match elf_strptr elf link (st_name sym) with
           | Some (String c n) => [(st_value sym, st_size sym, String c n)]
           | _ => []
           end
      else []
  | (_, None) => []
  end.

Definition entry_view (e : sym_entry) : Z * Z * Z * string * string :=
  (s_addr e, s_size e, s_slide e, chars (s_name e), chars (s_binary e)).

Definition symbol_view (slide : Z) (bn : string) (s : Z * Z * string) : Z * Z * Z * string * string :=
  let '(v, sz, n) := s in (u64 (v + slide), sz, slide, n, bn).

Lemma sym_table_add_ok st addr size c nm bn slide m :
  mem_ok m -> exists st' m', sym_table_add st addr size (Some (String c nm)) bn slide m = (st', m') /\
    mem_ok m' /\
    map entry_view (entries st') = map entry_view (entries st) ++ [(addr, size, slide, String c nm, bn)].
Proof.
  intros Hm. unfold sym_table_add, sym_table_reserve, sym_table_store.
  assert (Hgo : forall es cap m, mem_ok m -> exists st' m',
    sym_table_store {| entries := es; capacity := cap |} addr size (String c nm) bn slide m = (st', m') /\
    mem_ok m' /\
    map entry_view (entries st') = map entry_view es ++ [(addr, size, slide, String c nm, bn)]).
  { clear. intros es cap m Hm. unfold sym_table_store.
    destruct (strdup_ok (String c nm) m Hm) as (m1 & -> & _ & Hm1).
    destruct (strdup_ok bn m1 Hm1) as (m2 & -> & _ & Hm2).
    eexists _, m2. split_and!; [done|done|]. simpl. by rewrite map_app. }
  destruct st as [es cap]. simpl. case_bool.
  - destruct (malloc_ok m Hm) as (m1 & -> & _ & Hm1). by apply Hgo.
  - by apply Hgo.
Qed.

(** With memory, loading a file adds exactly the named functions of its
    preferred symbol table, in order, moved by the slide. *)
Theorem sym_table_add_elf_complete `{LibElf} st p elf slide m :
  elf_version_ok = true -> open_elf p = Some elf -> mem_ok m ->
  map entry_view (entries (sym_table_add_elf st p slide m).1) =
  map entry_view (entries st) ++
  map (symbol_view slide (basename p))
    (concat (map (func_symbol elf)
       (concat (map (section_symbols (elf_preferred_symtab_type elf)) (elf_scns elf))))).
Proof.
  intros Hv Ho Hm. unfold sym_table_add_elf. rewrite Hv, Ho. simpl.
  destruct (strdup_ok p m Hm) as (m1 & -> & _ & Hm1). simpl.
  generalize (concat (map (section_symbols (elf_preferred_symtab_type elf)) (elf_scns elf))).
  clear Hm Ho Hv. intros syms. revert st m1 Hm1. induction syms as [|[link os] syms IH]; intros st m1 Hm1.
  { simpl. by rewrite app_nil_r. }
  assert (Hskip : map entry_view (entries (add_sections elf (basename p) slide syms st m1).1) =
    map entry_view (entries st) ++ map (symbol_view slide (basename p))
      (concat (map (func_symbol elf) syms))) by auto.
  simpl. unfold add_symbol. destruct os as [sym|]; [|done].
  destruct (GELF_ST_TYPE (st_info sym) =? STT_FUNC); simpl; [|done].
  destruct (st_value sym =? 0); simpl; [done|].
  destruct (elf_strptr elf link (st_name sym)) as [[|c nm]|]; [done| |done].
  destruct (sym_table_add_ok st (u64 (st_value sym + slide)) (st_size sym) c nm (basename p) slide m1 Hm1)
    as (st' & m' & -> & Hm' & Hent).
  rewrite IH by done. rewrite Hent, <- app_assoc. done.
Qed.
