(* ===== verification/Format.v ===== *)
(** format.c: JSON escaping and the text and JSON renderings of an HWT
    record.  A renderer's result is what it writes on stdout. *)

From Stdlib Require Import ZArith Lia Ascii String.
From stdpp Require Import base list strings sets gmap sorting.
From S2P Require Import Prelude CLib Types.

Definition backslash : ascii := "092"%char.
Definition nl : string := String "010"%char EmptyString.

(** * JSON escaping *)

(** The text one byte of a string becomes. *)
Definition esc_char (c : ascii) : string :=
  let n := nat_of_ascii c in
  let two d := String backslash (String d EmptyString) in
  if (n =? 34)%nat then two dquote
  else if (n =? 92)%nat then two backslash
  else if (n =? 8)%nat then two "b"%char
  else if (n =? 12)%nat then two "f"%char
  else if (n =? 10)%nat then two "n"%char
  else if (n =? 13)%nat then two "r"%char
  else if (n =? 9)%nat then two "t"%char
  else if (n <? 32)%nat then String backslash (String "u" (pad0 4 (fmt_x (Z.of_nat n))))
  else String c EmptyString.

Fixpoint json_escape_loop (dstlen pos : nat) (src : string) : string :=
  match src with
  | EmptyString => EmptyString
  | String c src =>
      if (pos + 7 <? dstlen)%nat
      then esc_char c +:+ json_escape_loop dstlen (pos + String.length (esc_char c)) src
      else EmptyString
  end.

(** The bytes before the terminating NUL; the result of the call is their
    number. *)
Definition json_escape (dstlen : nat) (src : string) : string := json_escape_loop dstlen 0 src.

Fixpoint json_chars (s : string) : string :=
  match s with
  | EmptyString => EmptyString
  | String c s => esc_char c +:+ json_chars s
  end.

Definition json_string (s : string) : string :=
  String dquote EmptyString +:+ json_chars s +:+ String dquote EmptyString.

Definition record_type_name (t : hwt_record_type) : string :=
  match t with
  | HWT_RECORD_MMAP => "mmap"
  | HWT_RECORD_MUNMAP => "munmap"
  | HWT_RECORD_EXECUTABLE => "executable"
  | HWT_RECORD_KERNEL => "kernel"
  | HWT_RECORD_THREAD_CREATE => "thread_create"
  | HWT_RECORD_THREAD_SET_NAME => "thread_set_name"
  | HWT_RECORD_BUFFER => "buffer"
  | HWT_RECORD_OVERFLOW => "overflow"
  | HWT_RECORD_OTHER _ => "unknown"
  end.

(** * Timestamps *)

(** The fields of [struct tm] after [gmtime_r], and the nanoseconds. *)
Record tm := {
  tm_year : Z; tm_mon : Z; tm_mday : Z; tm_hour : Z; tm_min : Z; tm_sec : Z; tv_nsec : Z }.

Definition tm_wf (t : tm) : Prop :=
  is_i32 (tm_year t + 1900) /\ is_i32 (tm_mon t + 1) /\ is_i32 (tm_mday t) /\
  is_i32 (tm_hour t) /\ is_i32 (tm_min t) /\ is_i32 (tm_sec t).

Definition print_timestamp (t : tm) : string :=
  pad0 2 (fmt_d (tm_hour t)) +:+ ":" +:+ pad0 2 (fmt_d (tm_min t)) +:+ ":" +:+
  pad0 2 (fmt_d (tm_sec t)) +:+ "." +:+ pad0 6 (fmt_d (Z.quot (tv_nsec t) 1000)).

Definition print_iso8601 (t : tm) : string :=
  pad0 4 (fmt_d (tm_year t + 1900)) +:+ "-" +:+ pad0 2 (fmt_d (tm_mon t + 1)) +:+ "-" +:+
  pad0 2 (fmt_d (tm_mday t)) +:+ "T" +:+ pad0 2 (fmt_d (tm_hour t)) +:+ ":" +:+
  pad0 2 (fmt_d (tm_min t)) +:+ ":" +:+ pad0 2 (fmt_d (tm_sec t)) +:+ "Z".

(** * Text output *)

Definition or_else (s d : string) : string :=
  match s with EmptyString => d | _ => s end.

Definition hex (n : Z) : string := "0x" +:+ fmt_x n.

Definition record_text_body (rec : bsdtrace_record) (pid : Z) : string :=
  match r_type rec with
  | HWT_RECORD_EXECUTABLE =>
      "  EXEC  pid=" +:+ fmt_d pid +:+ "  " +:+ or_else (r_fullpath rec) "<unknown>" +:+
      "  addr=" +:+ hex (r_addr rec) +:+ "  base=" +:+ hex (r_baseaddr rec) +:+ nl
  | HWT_RECORD_MMAP =>
      "  MMAP  pid=" +:+ fmt_d pid +:+ "  " +:+ or_else (r_fullpath rec) "<anon>" +:+
      "  addr=" +:+ hex (r_addr rec) +:+ "  base=" +:+ hex (r_baseaddr rec) +:+ nl
  | HWT_RECORD_MUNMAP =>
      "  MUNMAP  pid=" +:+ fmt_d pid +:+
      (if r_addr rec =? 0 then EmptyString else "  addr=" +:+ hex (r_addr rec)) +:+ nl
  | HWT_RECORD_KERNEL =>
      "  KERNEL  " +:+ or_else (r_fullpath rec) "<kernel>" +:+
      "  addr=" +:+ hex (r_addr rec) +:+ "  base=" +:+ hex (r_baseaddr rec) +:+ nl
  | HWT_RECORD_THREAD_CREATE =>
      "  THREAD_CREATE  pid=" +:+ fmt_d pid +:+ "  tid=" +:+ fmt_d (r_thread_id rec) +:+ nl
  | HWT_RECORD_THREAD_SET_NAME =>
      "  THREAD_NAME  pid=" +:+ fmt_d pid +:+ "  tid=" +:+ fmt_d (r_thread_id rec) +:+ nl
  | HWT_RECORD_BUFFER =>
      "  BUFFER  buf_id=" +:+ fmt_d (r_buf_id rec) +:+ "  page=" +:+ fmt_d (r_curpage rec) +:+
      "  offset=" +:+ hex (r_offset rec) +:+ nl
  | HWT_RECORD_OVERFLOW =>
      "  OVERFLOW  pid=" +:+ fmt_d pid +:+ "  buf_id=" +:+ fmt_d (r_buf_id rec) +:+
      "  page=" +:+ fmt_d (r_curpage rec) +:+ "  offset=" +:+ hex (r_offset rec) +:+ nl
  | HWT_RECORD_OTHER v => "  UNKNOWN  type=" +:+ fmt_d v +:+ nl
  end.

Definition fmt_record_text (t : tm) (rec : bsdtrace_record) (pid : Z) : string :=
  print_timestamp t +:+ record_text_body rec pid.

(** * JSON output *)

(** A line buffer: the text stored and the running sum of [snprintf]'s
    results.  Appending at or past the end of the array is an error (the
    remaining size would wrap around); within it the text is truncated to
    what fits with its NUL. *)
Definition LINE_SIZE : nat := 4096.

Record linebuf := { text : string; pos : nat }.

Definition snprintf_at (b : linebuf) (s : string) : option linebuf :=
  if (LINE_SIZE <=? pos b)%nat then None
  else Some {| text := text b +:+ str_take (LINE_SIZE - pos b - 1) s;
               pos := pos b + String.length s |}.

Definition json_head (t : tm) (rec : bsdtrace_record) (pid : Z) : string :=
  dq "{'timestamp':'" +:+ print_iso8601 t +:+ dq "','kind':'" +:+ record_type_name (r_type rec) +:+
  dq "','pid':" +:+ fmt_d pid.

Definition json_path (rec : bsdtrace_record) : string :=
  dq ",'path':'" +:+ json_escape (MAXPATHLEN * 2) (r_fullpath rec) +:+ dq "'".

Definition json_addrs (rec : bsdtrace_record) : string :=
  dq ",'address':'" +:+ hex (r_addr rec) +:+ dq "','base_address':'" +:+
  hex (r_baseaddr rec) +:+ dq "'".

Definition json_buffer (rec : bsdtrace_record) : string :=
  dq ",'buf_id':" +:+ fmt_d (r_buf_id rec) +:+ dq ",'page':" +:+ fmt_d (r_curpage rec) +:+
  dq ",'offset':" +:+ fmt_u (r_offset rec).

Definition fmt_record_json (t : tm) (rec : bsdtrace_record) (pid : Z) : option string :=
  b ← snprintf_at {| text := EmptyString; pos := 0 |} (json_head t rec pid);
  b ← match r_type rec with
      | HWT_RECORD_MMAP | HWT_RECORD_EXECUTABLE | HWT_RECORD_KERNEL =>
          b ← (if String.eqb (r_fullpath rec) EmptyString then Some b
               else snprintf_at b (json_path rec));
          snprintf_at b (json_addrs rec)
      | HWT_RECORD_MUNMAP =>
          if r_addr rec =? 0 then Some b
          else snprintf_at b (dq ",'address':'" +:+ hex (r_addr rec) +:+ dq "'")
      | HWT_RECORD_THREAD_CREATE | HWT_RECORD_THREAD_SET_NAME =>
          snprintf_at b (dq ",'thread_id':" +:+ fmt_d (r_thread_id rec))
      | HWT_RECORD_BUFFER => snprintf_at b (json_buffer rec)
      | HWT_RECORD_OVERFLOW => snprintf_at b (json_buffer rec)
      | HWT_RECORD_OTHER _ => Some b
      end;
  b ← snprintf_at b ("}" +:+ nl);
  Some (text b).

(** * Properties *)

(** ** Reading an escaped string back

    The specification side: the inverse of the escapes, refusing a raw
    control character, a raw quote or an unknown escape. *)
Fixpoint json_unescape (s : string) : option string :=
  match s with
  | EmptyString => Some EmptyString
  | String c s =>
      if Ascii.eqb c backslash then
        match s with
        | String k s' =>
            if Ascii.eqb k "u" then
              match s' with
              | String a (String b (String x (String y s''))) =>
                  match scan_digits 16 0 false (String a (String b (String x (String y EmptyString)))) with
                  | Some (v, EmptyString) =>
                      String (ascii_of_nat (Z.to_nat v)) <$> json_unescape s''
                  | _ => None
                  end
              | _ => None
              end
            else match (if Ascii.eqb k dquote then Some dquote
                        else if Ascii.eqb k backslash then Some backslash
                        else if Ascii.eqb k "b" then Some "008"%char
                        else if Ascii.eqb k "f" then Some "012"%char
                        else if Ascii.eqb k "n" then Some "010"%char
                        else if Ascii.eqb k "r" then Some "013"%char
                        else if Ascii.eqb k "t" then Some "009"%char
                        else None) with
                 | Some d => String d <$> json_unescape s'
                 | None => None
                 end
        | EmptyString => None
        end
      else if Ascii.eqb c dquote then None
      else if (nat_of_ascii c <? 32)%nat then None
      else String c <$> json_unescape s
  end.

(** Every byte is read back, checked on all 256 of them. *)
Lemma json_unescape_char c r :
  json_unescape (esc_char c +:+ r) = String c <$> json_unescape r.
Proof.
  destruct c as [[] [] [] [] [] [] [] []];
    cbv -[json_unescape fmap option_fmap]; simpl; reflexivity.
Qed.

Lemma esc_char_length c : (1 <= String.length (esc_char c) <= 6)%nat.
Proof. destruct c as [[] [] [] [] [] [] [] []]; vm_compute; lia. Qed.

Lemma json_escape_loop_bound dstlen p src :
  (p < dstlen)%nat -> (p + String.length (json_escape_loop dstlen p src) < dstlen)%nat.
Proof.
  revert p. induction src as [|c src IH]; intros p Hp; simpl; [lia|].
  destruct (Nat.ltb_spec (p + 7) dstlen); simpl; [|lia].
  rewrite str_length_app. pose proof (esc_char_length c).
  specialize (IH (p + String.length (esc_char c))%nat). lia.
Qed.

Lemma json_escape_loop_prefix dstlen p src :
  exists n, json_unescape (json_escape_loop dstlen p src) = Some (str_take n src).
Proof.
  revert p. induction src as [|c src IH]; intros p; simpl; [by exists 0%nat|].
  case_bool; [|by exists 0%nat].
  destruct (IH (p + String.length (esc_char c))%nat) as [n Hn].
  exists (S n). by rewrite json_unescape_char, Hn.
Qed.

Lemma json_escape_loop_full dstlen p src :
  (p + String.length (json_chars src) + 7 <= dstlen)%nat ->
  json_escape_loop dstlen p src = json_chars src.
Proof.
  revert p. induction src as [|c src IH]; intros p Hp; simpl in *; [done|].
  rewrite str_length_app in Hp. pose proof (esc_char_length c).
  destruct (Nat.ltb_spec (p + 7) dstlen); [|lia]. rewrite IH by lia. done.
Qed.

Lemma json_chars_length s : (String.length (json_chars s) <= 6 * String.length s)%nat.
Proof.
  induction s as [|c s IH]; simpl; [lia|]. rewrite str_length_app.
  pose proof (esc_char_length c). lia.
Qed.

Lemma json_chars_unescape s : json_unescape (json_chars s) = Some s.
Proof. induction s as [|c s IH]; [done|]. simpl. by rewrite json_unescape_char, IH. Qed.

(** C32: Escaping never overruns the buffer and never cuts an escape in two: what
    it wrote reads back as an initial part of the source, and as all of it
    when the escaped text leaves seven bytes of the buffer free. *)
Theorem json_escape_sound dstlen src :
  (0 < dstlen)%nat ->
  (String.length (json_escape dstlen src) < dstlen)%nat /\
  (exists n, json_unescape (json_escape dstlen src) = Some (str_take n src)) /\
  ((String.length (json_chars src) + 7 <= dstlen)%nat ->
   json_unescape (json_escape dstlen src) = Some src).
Proof.
  intros H. split_and!; [by apply (json_escape_loop_bound dstlen 0)|apply json_escape_loop_prefix|].
  intros Hl. unfold json_escape. rewrite json_escape_loop_full by done. apply json_chars_unescape.
Qed.

(** The two escapers agree, and a source whose worst-case expansion fits is
    read back whole. *)
Theorem json_escape_string_agree dstlen src :
  (6 * String.length src + 7 <= dstlen)%nat ->
  json_string src = String dquote EmptyString +:+ json_escape dstlen src +:+ String dquote EmptyString /\
  json_unescape (json_escape dstlen src) = Some src.
Proof.
  intros H. pose proof (json_chars_length src). unfold json_string, json_escape.
  rewrite json_escape_loop_full by lia. split; [done|apply json_chars_unescape].
Qed.

(** ** The JSON line fits its buffer *)

(** Two hexadecimal digits a byte, three decimal digits a byte. *)
Lemma digits_aux_length f b n acc k :
  2 <= b -> 0 <= n < b ^ Z.of_nat k -> (1 <= k)%nat ->
  (length (digits_aux f b n acc) <= k + length acc)%nat.
Proof.
  intros Hb. revert n acc k. induction f as [|f IH]; intros n acc k Hn Hk; simpl; [lia|].
  case_bool; to_prop; [simpl; lia|].
  destruct k as [|[|k]]; [lia| |].
  - change (Z.of_nat 1) with 1 in Hn. rewrite Z.pow_1_r in Hn.
    rewrite Z.div_small in E by lia. lia.
  - etrans; [apply (IH (n / b) (n mod b :: acc) (S k)); [|lia]|simpl; lia].
    split; [apply Z.div_pos; lia|]. apply Z.div_lt_upper_bound; [lia|].
    rewrite <- Z.pow_succ_r by lia. replace (Z.succ (Z.of_nat (S k))) with (Z.of_nat (S (S k))) by lia. lia.
Qed.

Lemma string_of_digits_length l : String.length (string_of_digits l) = length l.
Proof. induction l; simpl; congruence. Qed.

Lemma fmt_x_length n : is_u64 n -> (String.length (fmt_x n) <= 16)%nat.
Proof.
  intros Hn. unfold fmt_x, digits. rewrite string_of_digits_length.
  etrans; [apply (digits_aux_length _ 16 n [] 16); [lia| |lia]|simpl; lia].
  unfold is_u64 in Hn. change (16 ^ Z.of_nat 16) with two64. lia.
Qed.

Lemma fmt_u_length n : is_u64 n -> (String.length (fmt_u n) <= 20)%nat.
Proof.
  intros Hn. unfold fmt_u, digits. rewrite string_of_digits_length.
  etrans; [apply (digits_aux_length _ 10 n [] 20); [lia| |lia]|simpl; lia].
  unfold is_u64 in Hn. change (10 ^ Z.of_nat 20) with 100000000000000000000. lia.
Qed.

Lemma fmt_d_length n : is_i32 n -> (String.length (fmt_d n) <= 21)%nat.
Proof.
  unfold is_i32, fmt_d. intros Hn. case_bool; to_prop; simpl.
  - pose proof (fmt_u_length (- n)). unfold is_u64 in *. lia.
  - pose proof (fmt_u_length n). unfold is_u64 in *. lia.
Qed.

(** Replaces each range fact of the context by the lengths it bounds. *)
Ltac length_facts :=
  repeat match goal with
  | H : is_i32 ?x |- _ => apply fmt_d_length in H
  | H : is_u64 ?x |- _ => pose proof (fmt_x_length x H); apply fmt_u_length in H
  end.

Lemma zeros_length n : String.length (zeros n) = n.
Proof. induction n; simpl; congruence. Qed.

Lemma pad0_length w s : String.length (pad0 w s) = Nat.max w (String.length s).
Proof. unfold pad0. rewrite str_length_app, zeros_length. lia. Qed.

(** Appending within the array stores the whole text. *)
Lemma snprintf_at_ok b s :
  String.length (text b) = pos b -> (pos b + String.length s < LINE_SIZE)%nat ->
  exists b', snprintf_at b s = Some b' /\ text b' = text b +:+ s /\
    pos b' = (pos b + String.length s)%nat /\ String.length (text b') = pos b'.
Proof.
  intros Hb Hs. unfold snprintf_at. destruct (Nat.leb_spec LINE_SIZE (pos b)); [lia|].
  eexists. split; [done|]. simpl. rewrite str_take_all by lia.
  split_and!; auto. rewrite str_length_app. lia.
Qed.

Record json_bounds (rec : bsdtrace_record) (pid : Z) : Prop := {
  jb_wf : record_wf rec;
  jb_pid : is_i32 pid;
  jb_buf : is_i32 (r_buf_id rec);
}.

(** Text between the header and the closing brace. *)
Definition json_body (rec : bsdtrace_record) : string :=
  match r_type rec with
  | HWT_RECORD_MMAP | HWT_RECORD_EXECUTABLE | HWT_RECORD_KERNEL =>
      (if String.eqb (r_fullpath rec) EmptyString then EmptyString else json_path rec) +:+
      json_addrs rec
  | HWT_RECORD_MUNMAP =>
      if r_addr rec =? 0 then EmptyString
      else dq ",'address':'" +:+ hex (r_addr rec) +:+ dq "'"
  | HWT_RECORD_THREAD_CREATE | HWT_RECORD_THREAD_SET_NAME =>
      dq ",'thread_id':" +:+ fmt_d (r_thread_id rec)
  | HWT_RECORD_BUFFER | HWT_RECORD_OVERFLOW => json_buffer rec
  | HWT_RECORD_OTHER _ => EmptyString
  end.

Lemma json_head_length t rec pid :
  tm_wf t -> is_i32 pid -> (String.length (json_head t rec pid) <= 300)%nat.
Proof.
  intros (?&?&?&?&?&?) ?. unfold json_head, print_iso8601.
  rewrite !str_length_app, !pad0_length.
  assert (String.length (record_type_name (r_type rec)) <= 20)%nat by (destruct (r_type rec); simpl; lia).
  length_facts. simpl String.length. lia.
Qed.

Lemma json_parts_length rec pid :
  json_bounds rec pid ->
  (String.length (json_path rec) <= 2070)%nat /\ (String.length (json_addrs rec) <= 100)%nat /\
  (String.length (json_buffer rec) <= 120)%nat /\
  (String.length (dq ",'address':'" +:+ hex (r_addr rec) +:+ dq "'") <= 50)%nat /\
  (String.length (dq ",'thread_id':" +:+ fmt_d (r_thread_id rec)) <= 50)%nat.
Proof.
  intros [[? ? ? ? ?] ? ?].
  length_facts.
  assert (Hp : (String.length (json_escape (MAXPATHLEN * 2) (r_fullpath rec)) < MAXPATHLEN * 2)%nat)
    by (apply (json_escape_loop_bound _ 0); vm_compute; lia).
  change (MAXPATHLEN * 2)%nat with 2048%nat in *.
  unfold json_path, json_addrs, json_buffer, hex.
  change (MAXPATHLEN * 2)%nat with 2048%nat. rewrite !str_length_app.
  cbn [String.length dq]. split_and!; lia.
Qed.

(** C31: The record line is emitted complete: no append meets the end of the
    4096-byte buffer, whatever the path holds. *)
Theorem fmt_record_json_complete t rec pid :
  tm_wf t -> json_bounds rec pid ->
  fmt_record_json t rec pid = Some (json_head t rec pid +:+ json_body rec +:+ "}" +:+ nl).
Proof.
  intros Ht Hb. pose proof (json_head_length t rec pid Ht ltac:(apply Hb)) as Hh.
  destruct (json_parts_length rec pid Hb) as (H1 & H2 & H3 & H4 & H5).
  unfold fmt_record_json, json_body.
  set (h := json_head t rec pid) in *. clearbody h.
  assert (Hend : forall b, String.length (text b) = pos b -> (pos b < 4000)%nat ->
    (b ← snprintf_at b ("}" +:+ nl); Some (text b)) = Some (text b +:+ "}" +:+ nl)).
  { intros b Hl Hlt. destruct (snprintf_at_ok b ("}" +:+ nl) Hl) as (b' & -> & Ht' & _).
    { unfold LINE_SIZE. simpl. lia. } cbn [mbind option_bind]. by rewrite Ht'. }
  destruct (snprintf_at_ok {| text := EmptyString; pos := 0 |} h eq_refl) as (b & -> & Htb & Hpb & Hlb).
  { simpl. unfold LINE_SIZE. lia. }
  change (text b = h) in Htb. change (pos b = String.length h) in Hpb. cbn [mbind option_bind].
  assert (Hone : forall s, (String.length s <= 2070)%nat ->
    exists b', snprintf_at b s = Some b' /\ text b' = h +:+ s /\
      pos b' = (String.length h + String.length s)%nat /\ String.length (text b') = pos b').
  { intros s Hs. destruct (snprintf_at_ok b s Hlb) as (b' & ? & ? & ? & ?).
    { unfold LINE_SIZE. lia. } exists b'. rewrite <- Hpb, <- Htb. auto. }
  assert (Hfin : forall s, (String.length s <= 2070)%nat ->
    (b ← snprintf_at b s; b ← snprintf_at b ("}" +:+ nl); Some (text b)) =
    Some (h +:+ s +:+ "}" +:+ nl)).
  { intros s Hs. destruct (Hone s Hs) as (b' & -> & Ht' & ? & ?). cbn [mbind option_bind].
    rewrite Hend by (auto; lia). by rewrite Ht', !str_app_assoc. }
  assert (Hnone : (b ← Some b; b ← snprintf_at b ("}" +:+ nl); Some (text b)) =
    Some (h +:+ EmptyString +:+ "}" +:+ nl)).
  { cbn [mbind option_bind]. rewrite Hend by (auto; lia). by rewrite Htb. }
  assert (Hpath : (b ← (b ← (if String.eqb (r_fullpath rec) EmptyString then Some b
                             else snprintf_at b (json_path rec));
                        snprintf_at b (json_addrs rec));
                   b ← snprintf_at b ("}" +:+ nl); Some (text b)) =
    Some (h +:+ ((if String.eqb (r_fullpath rec) EmptyString then EmptyString else json_path rec) +:+
      json_addrs rec) +:+ "}" +:+ nl)).
  { case_bool; [apply (Hfin (json_addrs rec)); lia|].
    destruct (Hone (json_path rec) H1) as (b' & -> & Ht' & Hp' & Hl'). cbn [mbind option_bind].
    destruct (snprintf_at_ok b' (json_addrs rec) Hl') as (b2 & -> & Ht2 & Hp2 & Hl2).
    { unfold LINE_SIZE. lia. } cbn [mbind option_bind]. rewrite Hend by (auto; lia).
    by rewrite Ht2, Ht', !str_app_assoc. }
  destruct (r_type rec); try exact Hpath; try (apply Hfin; lia); try exact Hnone.
  case_bool; [exact Hnone|apply Hfin; lia].
Qed.
