(* ===== verification/Meta.v ===== *)
(** meta.c: the .meta sidecar, one JSON object a line, written next to the
    trace and read back for offline decoding.  A writer is [None] when the
    file could not be opened, else the text written so far; a file to read is
    [None] when it cannot be opened. *)

From Stdlib Require Import ZArith Lia Ascii String.
From stdpp Require Import base list strings sets gmap sorting.
From S2P Require Import Prelude CLib Types Format.

Definition meta_writer : Type := option string.

Definition put (mw : meta_writer) (s : string) : meta_writer := (fun t => t +:+ s) <$> mw.

(** * Writer *)

Definition meta_writer_open (fopen_ok : bool) (m : mem) : meta_writer * mem :=
  let '(p, m) := malloc m in
  match p with
  | None => (None, m)
  | Some _ => (if fopen_ok then Some EmptyString else None, m)
  end.

Definition header_line (pid tid : Z) : string :=
  dq "{'type':'header','pid':" +:+ fmt_d pid +:+ dq ",'tid':" +:+ fmt_d tid +:+ "}" +:+ nl.

Definition meta_writer_header (mw : meta_writer) (pid tid : Z) : meta_writer :=
  put mw (header_line pid tid).

Definition timing_line (mtc_freq cyc_thresh : Z) : string :=
  dq "{'type':'timing','mtc_freq':" +:+ fmt_u mtc_freq +:+ dq ",'cyc_thresh':" +:+
  fmt_u cyc_thresh +:+ "}" +:+ nl.

Definition meta_writer_timing (mw : meta_writer) (mtc_freq cyc_thresh : Z) : meta_writer :=
  if (mtc_freq =? 0) && (cyc_thresh =? 0) then mw
  else put mw (timing_line mtc_freq cyc_thresh).

Definition section_line (ty p : string) (addr base : Z) : string :=
  dq "{'type':'" +:+ ty +:+ dq "','path':'" +:+ json_escape MAXPATHLEN p +:+
  dq "','addr':'0x" +:+ fmt_x addr +:+ dq "','base':'0x" +:+ fmt_x base +:+ dq "'}" +:+ nl.

Definition thread_line (ty : string) (tid : Z) : string :=
  dq "{'type':'" +:+ ty +:+ dq "','tid':" +:+ fmt_d tid +:+ "}" +:+ nl.

(** The line a record adds, if any. *)
Definition record_line (rec : bsdtrace_record) : string :=
  match r_type rec with
  | HWT_RECORD_EXECUTABLE => section_line "exec" (r_fullpath rec) (r_addr rec) (r_baseaddr rec)
  | HWT_RECORD_MMAP => section_line "mmap" (r_fullpath rec) (r_addr rec) (r_baseaddr rec)
  | HWT_RECORD_KERNEL => section_line "kernel" (r_fullpath rec) (r_addr rec) (r_baseaddr rec)
  | HWT_RECORD_THREAD_CREATE => thread_line "thread_create" (r_thread_id rec)
  | HWT_RECORD_THREAD_SET_NAME => thread_line "thread_set_name" (r_thread_id rec)
  | _ => EmptyString
  end.

Definition meta_writer_record (mw : meta_writer) (rec : bsdtrace_record) : meta_writer :=
  put mw (record_line rec).

Definition section_type_name (t : hwt_record_type) : string :=
  match t with
  | HWT_RECORD_EXECUTABLE => "exec"
  | HWT_RECORD_KERNEL => "kernel"
  | _ => "mmap"
  end.

Fixpoint meta_writer_sections (mw : meta_writer) (sections : list pt_image_info) : meta_writer :=
  match sections with
  | [] => mw
  | s :: sections =>
      meta_writer_sections
        (put mw (section_line (section_type_name (type s)) (path s) (load_addr s) (base_addr s)))
        sections
  end.

(** * Reader *)

Definition newline : ascii := "010"%char.

(** The strings successive [fgets(line, w + 1, fp)] calls return: a line with
    its newline, or [w] bytes of a longer one.  [left] is the room left for
    the current string [cur]. *)
Fixpoint fgets_all (w left : nat) (cur s : string) : list string :=
  match s with
  | EmptyString => match cur with EmptyString => [] | _ => [cur] end
  | String c s =>
      let cur := cur +:+ String c EmptyString in
      if Ascii.eqb c newline || (left <=? 1)%nat then cur :: fgets_all w w EmptyString s
      else fgets_all w (left - 1) cur s
  end.

Definition lines (size : nat) (s : string) : list string :=
  fgets_all (size - 1) (size - 1) EmptyString s.

Definition meta_read_tid (f : option string) : Z :=
  match f with
  | None => -1
  | Some s =>
      match lines 256 s with
      | [] => -1
      | line :: _ =>
          match sscanf [Lit (dq "{'type':'header','pid':"); SkipD; Lit (dq ",'tid':"); D; Lit "}"] line with
          | [VInt tid] => tid
          | _ => -1
          end
      end
  end.

Fixpoint find_mtc (ls : list string) : Z :=
  match ls with
  | [] => 0
  | line :: ls =>
      match sscanf [Lit (dq "{'type':'timing','mtc_freq':"); U] line with
      | [VInt v] => i32 v
      | _ => find_mtc ls
      end
  end.

Definition meta_read_mtc_freq (f : option string) : Z :=
  match f with None => 0 | Some s => find_mtc (lines 256 s) end.

Fixpoint find_cyc (ls : list string) : Z :=
  match ls with
  | [] => 0
  | line :: ls =>
      match sscanf [Lit (dq "{'type':'timing','mtc_freq':"); SkipU; Lit (dq ",'cyc_thresh':"); U; Lit "}"]
              line with
      | [VInt v] => i32 v
      | _ => find_cyc ls
      end
  end.

Definition meta_read_cyc_thresh (f : option string) : Z :=
  match f with None => 0 | Some s => find_cyc (lines 256 s) end.

(** The four fields of an exec/mmap/kernel line. *)
Definition scan_section (line : string) : option (string * string * Z * Z) :=
  match sscanf [Lit (dq "{'type':'"); NotQuote 31; Lit (dq "','path':'"); NotQuote 1023;
                Lit (dq "','addr':'0x"); LX; Lit (dq "','base':'0x"); LX; Lit (dq "'}")] line with
  | [VStr ty; VStr p; VInt a; VInt b] => Some (ty, p, a, b)
  | _ => None
  end.

Definition section_type (ty : string) : hwt_record_type :=
  if String.eqb ty "exec" then HWT_RECORD_EXECUTABLE
  else if String.eqb ty "kernel" then HWT_RECORD_KERNEL
  else HWT_RECORD_MMAP.

(** The reading loop; an EXEC drops the sections before it, and [None] is a
    failed [realloc]. *)
Fixpoint read_sections_loop (ls : list string) (sections : list pt_image_info) (cap : Z) (m : mem)
    : option (list pt_image_info) * mem :=
  match ls with
  | [] => (Some sections, m)
  | line :: ls =>
      match scan_section line with
      | None => read_sections_loop ls sections cap m
      | Some (ty, fpath, addr, base) =>
          if negb (String.eqb ty "exec") && negb (String.eqb ty "mmap") && negb (String.eqb ty "kernel")
          then read_sections_loop ls sections cap m
          else
            let sections := if String.eqb ty "exec" then [] else sections in
            let s := {| path := strlcpy MAXPATHLEN fpath; load_addr := addr; base_addr := base;
                        type := section_type ty |} in
            if cap <=? Z.of_nat (length sections) then
              let '(p, m) := malloc m in
              match p with
              | None => (None, m)
              | Some _ => read_sections_loop ls (sections ++ [s]) (grow 16 cap) m
              end
            else read_sections_loop ls (sections ++ [s]) cap m
      end
  end.

Definition meta_read_sections (f : option string) (m : mem) : option (list pt_image_info) * mem :=
  match f with
  | None => (None, m)
  | Some s => read_sections_loop (lines 4096 s) [] 0 m
  end.

(** * Properties *)

(** ** Lines *)

Definition no_newline (s : string) : bool := str_forall (fun c => negb (Ascii.eqb c newline)) s.

Lemma fgets_all_line w left cur l rest :
  no_newline l = true -> (String.length l < left)%nat ->
  fgets_all w left cur (l +:+ nl +:+ rest) = (cur +:+ l +:+ nl) :: fgets_all w w EmptyString rest.
Proof.
  revert left cur. induction l as [|c l IH]; intros left cur Hn Hl; [done|].
  simpl in Hn, Hl. apply andb_true_iff in Hn as [Hc Hn]. apply negb_true_iff in Hc.
  simpl. rewrite Hc. replace (left <=? 1)%nat with false by (symmetry; apply Nat.leb_gt; lia). simpl.
  rewrite IH by (auto; lia). by rewrite <- str_app_assoc.
Qed.

Lemma lines_cons size l rest :
  no_newline l = true -> (String.length l + 1 < size)%nat ->
  lines size (l +:+ nl +:+ rest) = (l +:+ nl) :: lines size rest.
Proof. intros. unfold lines. rewrite fgets_all_line by (auto; lia). done. Qed.

(** Printed numbers have neither a newline nor a quote. *)
Lemma digit_char_ok d : 0 <= d < 16 ->
  Ascii.eqb (digit_char d) newline = false /\ Ascii.eqb (digit_char d) dquote = false.
Proof.
  intros Hd. pose proof (digit_char_range d Hd) as Hc. cbn zeta in Hc.
  split; apply Ascii.eqb_neq; intros E; rewrite E in Hc; vm_compute in Hc; lia.
Qed.

Lemma digits_no_newline b n : 2 <= b <= 16 -> 0 <= n -> no_newline (string_of_digits (digits b n)) = true.
Proof.
  intros Hb Hn. destruct (digits_spec b n) as (_ & Hf & _); [lia|lia|].
  induction Hf as [|d l Hd Hl IH]; [done|]. unfold no_newline in *. simpl. rewrite IH.
  by rewrite (proj1 (digit_char_ok d ltac:(lia))).
Qed.

Lemma fmt_x_no_newline n : 0 <= n -> no_newline (fmt_x n) = true.
Proof. intros. apply digits_no_newline; lia. Qed.

Lemma fmt_u_no_newline n : 0 <= n -> no_newline (fmt_u n) = true.
Proof. intros. apply digits_no_newline; lia. Qed.

Lemma fmt_d_no_newline n : no_newline (fmt_d n) = true.
Proof.
  unfold fmt_d. case_bool; to_prop; [|by apply fmt_u_no_newline].
  change (no_newline (fmt_u (- n)) = true). apply fmt_u_no_newline. lia.
Qed.

Lemma no_newline_app a b : no_newline a = true -> no_newline b = true -> no_newline (a +:+ b) = true.
Proof. unfold no_newline. rewrite str_forall_app. by intros -> ->. Qed.

#[export] Hint Resolve no_newline_app fmt_x_no_newline fmt_u_no_newline fmt_d_no_newline : bsdtrace.

(** ** Header and timing *)

(** What follows a number on a line: a quote, a comma or a brace. *)
Lemma num_end_sep b c r :
  b <= 16 -> c = dquote \/ c = ","%char \/ c = "}"%char -> num_end b (String c r).
Proof.
  intros Hb [->|[->| ->]]; (split_and!; [|done|done]); unfold digit_val; simpl;
    (replace (b <? b) with false by lia); done.
Qed.

#[export] Hint Resolve num_end_sep : bsdtrace.

(** One line of at most [n] characters, its newline included. *)
Definition is_line (n : nat) (l : string) : Prop :=
  exists b, l = b +:+ nl /\ no_newline b = true /\ (String.length b < n)%nat.

Lemma lines_is_line n size l rest :
  is_line n l -> (n < size)%nat -> lines size (l +:+ rest) = l :: lines size rest.
Proof.
  intros (b & -> & ? & ?) ?. rewrite <- str_app_assoc. rewrite lines_cons by (auto; lia). done.
Qed.

Lemma is_line_mono n k l : is_line n l -> (n <= k)%nat -> is_line k l.
Proof. intros (b & ? & ? & ?) ?. exists b. split_and!; auto; lia. Qed.

(** Proves [is_line] of a template: its text up to the newline. *)
Ltac solve_line b :=
  exists b; split_and!;
    [rewrite <- !str_app_assoc; reflexivity
    |repeat apply no_newline_app; auto with bsdtrace; apply fmt_x_no_newline || apply fmt_u_no_newline;
       unfold is_u64 in *; lia
    |rewrite !str_length_app; cbn [String.length dq]; lia].

Lemma header_is_line pid tid : is_i32 pid -> is_i32 tid -> is_line 100 (header_line pid tid).
Proof.
  intros Hp%fmt_d_length Ht%fmt_d_length.
  solve_line (dq "{'type':'header','pid':" +:+ fmt_d pid +:+ dq ",'tid':" +:+ fmt_d tid +:+ "}").
Qed.

Lemma thread_is_line ty tid :
  no_newline ty = true -> (String.length ty <= 31)%nat -> is_i32 tid -> is_line 100 (thread_line ty tid).
Proof.
  intros ? ? Ht%fmt_d_length.
  solve_line (dq "{'type':'" +:+ ty +:+ dq "','tid':" +:+ fmt_d tid +:+ "}").
Qed.

Lemma timing_is_line m c : is_u64 m -> is_u64 c -> is_line 100 (timing_line m c).
Proof.
  intros Hm Hc. pose proof (fmt_u_length m Hm). pose proof (fmt_u_length c Hc).
  assert (no_newline (fmt_u m) = true) by (apply fmt_u_no_newline; apply Hm).
  assert (no_newline (fmt_u c) = true) by (apply fmt_u_no_newline; apply Hc).
  solve_line (dq "{'type':'timing','mtc_freq':" +:+ fmt_u m +:+ dq ",'cyc_thresh':" +:+ fmt_u c +:+ "}").
Qed.

(** One step of [sscanf] on text that starts with what the conversion reads. *)
Ltac scan_step :=
  cbn [sscanf scan_conv];
  first [rewrite scan_lit_app
        |rewrite scan_int_fmt_d by (apply num_end_sep; [lia|auto])
        |rewrite scan_int_fmt_u by (first [apply num_end_sep; [lia|auto] | done | unfold is_u64 in *; lia])
        |rewrite scan_int_fmt_x by (first [apply num_end_sep; [lia|auto] | done | unfold is_u64 in *; lia])];
  cbn [fmap option_fmap option_map app].

(** The reader finds the thread index of the header, whatever follows it. *)
Lemma header_tid pid tid rest :
  is_i32 pid -> is_i32 tid ->
  meta_read_tid (put (meta_writer_header (Some EmptyString) pid tid) rest) = tid.
Proof.
  intros Hp Ht. unfold meta_writer_header, put. cbn [fmap option_fmap option_map].
  change (EmptyString +:+ ?x) with x. unfold meta_read_tid.
  rewrite (lines_is_line 100) by (auto using header_is_line; lia).
  unfold header_line. rewrite <- ?str_app_assoc. do 5 scan_step. simpl.
  by rewrite sat_i64_abs, i32_small.
Qed.

Lemma find_mtc_skip line ls :
  scan_lit (dq "{'type':'timing','mtc_freq':") line = None ->
  find_mtc (line :: ls) = find_mtc ls /\ find_cyc (line :: ls) = find_cyc ls.
Proof. intros H. cbn [find_mtc find_cyc sscanf scan_conv]. by rewrite H. Qed.

(** The timing parameters of the capture survive the sidecar, at the width
    the writer stores them. *)
Theorem meta_timing_roundtrip pid tid mtc cyc rest :
  is_i32 pid -> is_i32 tid -> 0 <= mtc < 256 -> 0 <= cyc < 256 -> mtc <> 0 \/ cyc <> 0 ->
  let f := put (meta_writer_timing (meta_writer_header (Some EmptyString) pid tid) mtc cyc) rest in
  meta_read_mtc_freq f = mtc /\ meta_read_cyc_thresh f = cyc.
Proof.
  intros Hp Ht Hm Hc Hne. assert (is_u64 mtc /\ is_u64 cyc) as [Hm' Hc'] by (unfold is_u64; lia).
  unfold meta_writer_timing. replace ((mtc =? 0) && (cyc =? 0))%bool with false by lia.
  unfold meta_writer_header, put. cbn [fmap option_fmap option_map].
  change (EmptyString +:+ ?x) with x. cbn zeta. unfold meta_read_mtc_freq, meta_read_cyc_thresh.
  rewrite <- !str_app_assoc.
  rewrite !(lines_is_line 100) by (auto using header_is_line, timing_is_line; lia).
  destruct (find_mtc_skip (header_line pid tid)
    (timing_line mtc cyc :: lines 256 rest) eq_refl) as [-> ->].
  split; cbn [find_mtc find_cyc]; unfold timing_line; rewrite <- ?str_app_assoc.
  - do 2 scan_step. simpl. rewrite sat_u64_small by done.
    unfold u32. rewrite Z.mod_small by lia. apply i32_small. unfold is_i32; lia.
  - do 5 scan_step. simpl. rewrite sat_u64_small by done.
    unfold u32. rewrite Z.mod_small by lia. apply i32_small. unfold is_i32; lia.
Qed.

(** ** Sidecars without a timing line *)

(** What a timing line starts with, and whether a text holds it anywhere. *)
Definition timing_key : string := dq "{'type':'timing','mtc_freq':".

Fixpoint occurs (lit s : string) : bool :=
  match scan_lit lit s with
  | Some _ => true
  | None => match s with EmptyString => false | String _ s => occurs lit s end
  end.

Lemma occurs_head lit s : occurs lit s = false -> scan_lit lit s = None.
Proof. destruct s; cbn [occurs]; destruct (scan_lit lit _); done. Qed.

Lemma occurs_suffix lit a s : occurs lit (a +:+ s) = false -> occurs lit s = false.
Proof.
  induction a as [|c a IH]; [done|]. change (String c a +:+ s) with (String c (a +:+ s)).
  cbn [occurs]. destruct (scan_lit lit _); [done|apply IH].
Qed.

Lemma scan_lit_more lit s r k : scan_lit lit s = Some r -> scan_lit lit (s +:+ k) = Some (r +:+ k).
Proof.
  revert s. induction lit as [|c lit IH]; intros s; cbn [scan_lit]; [by intros [= ->]|].
  destruct s as [|d s]; [done|]. change (String d s +:+ k) with (String d (s +:+ k)). cbn [scan_lit].
  destruct (Ascii.eqb c d); [apply IH|done].
Qed.

(** However [fgets] cuts the text, no piece starts with what it does not hold. *)
Lemma fgets_all_quiet lit w s : forall left cur,
  occurs lit (cur +:+ s) = false -> Forall (fun l => scan_lit lit l = None) (fgets_all w left cur s).
Proof.
  induction s as [|c s IH]; intros left cur Ho; cbn [fgets_all].
  { rewrite str_app_nil_r in Ho. apply occurs_head in Ho. destruct cur; [constructor|by repeat constructor]. }
  assert (E : cur +:+ String c s = (cur +:+ String c EmptyString) +:+ s) by (by rewrite <- str_app_assoc).
  rewrite E in Ho. destruct (_ || _)%bool; [|by apply IH]. constructor.
  - destruct (scan_lit lit (cur +:+ String c "")) as [r|] eqn:Es; [|done].
    apply (scan_lit_more _ _ _ s) in Es. apply occurs_head in Ho. congruence.
  - apply IH. by apply occurs_suffix in Ho.
Qed.

Lemma untimed_read t :
  occurs timing_key t = false -> meta_read_mtc_freq (Some t) = 0 /\ meta_read_cyc_thresh (Some t) = 0.
Proof.
  intros Ho. unfold meta_read_mtc_freq, meta_read_cyc_thresh, lines.
  pose proof (fgets_all_quiet timing_key (256 - 1) t (256 - 1) EmptyString Ho) as Hf.
  induction Hf as [|l ls Hl _ IH]; [done|].
  destruct (find_mtc_skip l ls Hl) as [-> ->]. exact IH.
Qed.

(** Text that leaves the rest of a sidecar without timing. *)
Definition quiet (t : string) : Prop :=
  forall rest, occurs timing_key rest = false -> occurs timing_key (t +:+ rest) = false.

Lemma quiet_app a b : quiet a -> quiet b -> quiet (a +:+ b).
Proof. intros Ha Hb rest Hr. rewrite <- str_app_assoc. by apply Ha, Hb. Qed.

(** A text without a brace, and one of its suffixes or prefixes. *)
Definition no_brace (s : string) : bool := str_forall (fun c => negb (Ascii.eqb c "{")) s.

Lemma quiet_no_brace t : no_brace t = true -> quiet t.
Proof.
  unfold no_brace. induction t as [|c t IH]; [by intros _ rest|].
  cbn [str_forall]. intros [Hc Ht]%andb_true_iff rest Hr.
  change (String c t +:+ rest) with (String c (t +:+ rest)). cbn [occurs].
  change timing_key with (String "{" (dq "'type':'timing','mtc_freq':")). cbn [scan_lit].
  apply negb_true_iff in Hc. rewrite Ascii.eqb_sym, Hc. by apply IH.
Qed.

Lemma quiet_nil : quiet EmptyString.
Proof. by apply quiet_no_brace. Qed.

#[export] Hint Resolve quiet_app quiet_nil : bsdtrace.

Lemma digits_no_brace b n : 2 <= b <= 16 -> 0 <= n -> no_brace (string_of_digits (digits b n)) = true.
Proof.
  intros Hb Hn. destruct (digits_spec b n) as (_ & Hf & _); [lia|lia|].
  induction Hf as [|d l Hd Hl IH]; [done|]. unfold no_brace in *. cbn [string_of_digits str_forall]. rewrite IH, andb_true_r.
  pose proof (digit_char_range d ltac:(lia)) as Hc. cbn zeta in Hc.
  apply negb_true_iff, Ascii.eqb_neq. intros E. rewrite E in Hc. vm_compute in Hc. lia.
Qed.

Lemma no_brace_app a b : no_brace a = true -> no_brace b = true -> no_brace (a +:+ b) = true.
Proof. unfold no_brace. rewrite str_forall_app. by intros -> ->. Qed.

Lemma fmt_no_brace n : (0 <= n -> no_brace (fmt_x n) = true) /\ no_brace (fmt_d n) = true.
Proof.
  split; [intros; apply digits_no_brace; lia|].
  unfold fmt_d. case_bool; to_prop; [|apply digits_no_brace; lia].
  change (no_brace (fmt_u (- n)) = true). apply digits_no_brace; lia.
Qed.

(** A line with a brace only at its start, which does not start as a timing
    line does. *)
Lemma quiet_line s :
  no_brace s = true -> (forall rest, scan_lit timing_key (String "{" s +:+ rest) = None) -> quiet (String "{" s).
Proof.
  intros Hb Hs rest Hr. specialize (Hs rest). change (String "{" s +:+ rest) with (String "{" (s +:+ rest)) in *.
  cbn [occurs]. rewrite Hs. by apply quiet_no_brace.
Qed.

Lemma header_quiet pid tid : quiet (header_line pid tid).
Proof.
  apply (quiet_line (dq "'type':'header','pid':" +:+ fmt_d pid +:+ dq ",'tid':" +:+ fmt_d tid +:+ "}" +:+ nl));
    [|done]. repeat apply no_brace_app; by try apply fmt_no_brace.
Qed.

Lemma thread_quiet ty tid : ty = "thread_create" \/ ty = "thread_set_name" -> quiet (thread_line ty tid).
Proof.
  intros Hty. apply (quiet_line (dq "'type':'" +:+ ty +:+ dq "','tid':" +:+ fmt_d tid +:+ "}" +:+ nl));
    [repeat apply no_brace_app; try apply fmt_no_brace; try done|]; by destruct Hty as [->| ->].
Qed.

(** ** Sections *)

(** A path that escaping leaves alone and that fits the line's buffer. *)
Definition plain_char (c : ascii) : bool :=
  let n := nat_of_ascii c in (32 <=? n)%nat && negb (n =? 34)%nat && negb (n =? 92)%nat.

Definition plain_path (p : string) : Prop :=
  p <> EmptyString /\ str_forall plain_char p = true /\ (String.length p <= 1017)%nat.

Lemma plain_char_spec c :
  plain_char c = true ->
  esc_char c = String c EmptyString /\ Ascii.eqb c newline = false /\ Ascii.eqb c dquote = false.
Proof. destruct c as [[] [] [] [] [] [] [] []]; vm_compute; try done; auto. Qed.

Lemma plain_chars p :
  str_forall plain_char p = true ->
  json_chars p = p /\ no_newline p = true /\ no_dquote p = true.
Proof.
  unfold no_newline, no_dquote. induction p as [|c p IH]; [done|]. simpl.
  intros [Hc Hp]%andb_true_iff. destruct (plain_char_spec c Hc) as (-> & -> & ->).
  destruct (IH Hp) as (-> & -> & ->). done.
Qed.

Lemma plain_escape p : plain_path p -> json_escape MAXPATHLEN p = p.
Proof.
  intros (_ & Hp & Hl). destruct (plain_chars p Hp) as (He & _).
  unfold json_escape. rewrite json_escape_loop_full; rewrite He; [done|].
  change MAXPATHLEN with 1024%nat. lia.
Qed.

Definition section_kind (ty : string) : Prop := ty = "exec" \/ ty = "mmap" \/ ty = "kernel".

Lemma section_line_is_line ty p a b :
  section_kind ty -> plain_path p -> is_u64 a -> is_u64 b -> is_line 1200 (section_line ty p a b).
Proof.
  intros Ht Hp Ha Hb. unfold section_line. rewrite plain_escape by done.
  destruct Hp as (_ & (_ & Hn & _)%plain_chars & Hl).
  pose proof (fmt_x_length a Ha). pose proof (fmt_x_length b Hb).
  assert (no_newline (fmt_x a) = true) by (apply fmt_x_no_newline; apply Ha).
  assert (no_newline (fmt_x b) = true) by (apply fmt_x_no_newline; apply Hb).
  assert (no_newline ty = true /\ (String.length ty <= 6)%nat) as [? ?].
  { destruct Ht as [->|[->| ->]]; split; (reflexivity || (simpl; lia)). }
  solve_line (dq "{'type':'" +:+ ty +:+ dq "','path':'" +:+ p +:+ dq "','addr':'0x" +:+ fmt_x a
    +:+ dq "','base':'0x" +:+ fmt_x b +:+ dq "'}").
Qed.

Lemma scan_section_line ty p a b :
  section_kind ty -> plain_path p -> is_u64 a -> is_u64 b ->
  scan_section (section_line ty p a b) = Some (ty, p, a, b).
Proof.
  intros Ht Hp Ha Hb. unfold section_line, scan_section. rewrite plain_escape by done.
  destruct Hp as (Hne & (_ & _ & Hq)%plain_chars & Hl).
  assert (Hty : no_dquote ty = true /\ (String.length ty <= 31)%nat /\ ty <> EmptyString).
  { destruct Ht as [->|[->| ->]]; split_and!; (reflexivity || (simpl; lia) || done). }
  destruct Hty as (Hq' & Hl' & Hne').
  scan_step. cbn [sscanf scan_conv].
  change (dq "','path':'" +:+ ?r) with (String dquote (dq ",'path':'" +:+ r)).
  rewrite span_not_quote_app by (auto; lia). destruct ty as [|c0 ty]; [done|].
  change (String dquote (dq ",'path':'" +:+ ?r)) with (dq "','path':'" +:+ r).
  scan_step. cbn [sscanf scan_conv].
  change (dq "','addr':'0x" +:+ ?r) with (String dquote (dq ",'addr':'0x" +:+ r)).
  rewrite span_not_quote_app by (auto; lia). destruct p as [|c1 p]; [done|].
  change (String dquote (dq ",'addr':'0x" +:+ ?r)) with (dq "','addr':'0x" +:+ r).
  do 5 scan_step. simpl. by rewrite !sat_u64_small.
Qed.

(** A path may hold a brace, but no quote follows it that a key could. *)
Lemma quiet_path p r :
  str_forall plain_char p = true ->
  occurs timing_key (p +:+ String dquote (String "," r)) = occurs timing_key (String dquote (String "," r)).
Proof.
  induction p as [|c p IH]; [done|]. cbn [str_forall]. intros [Hc Hp]%andb_true_iff.
  change (String c p +:+ ?x) with (String c (p +:+ x)). cbn [occurs].
  enough (Hs : scan_lit timing_key (String c (p +:+ String dquote (String "," r))) = None)
    by (rewrite Hs; by apply IH).
  change timing_key with (String "{" (String dquote (String "t" (dq "ype':'timing','mtc_freq':")))).
  cbn [scan_lit]. destruct (Ascii.eqb "{" c); [|done]. destruct p as [|d p]; [reflexivity|].
  cbn [str_forall] in Hp. apply andb_true_iff in Hp as [Hd _].
  destruct (plain_char_spec d Hd) as (_ & _ & Hq). rewrite Ascii.eqb_sym in Hq.
  change (String d p +:+ ?x) with (String d (p +:+ x)). cbv beta iota. by rewrite Hq.
Qed.

Lemma section_quiet ty p a b :
  section_kind ty -> p = EmptyString \/ plain_path p -> is_u64 a -> is_u64 b -> quiet (section_line ty p a b).
Proof.
  intros Ht Hp Ha Hb rest Hr.
  set (tail := dq "'addr':'0x" +:+ fmt_x a +:+ dq "','base':'0x" +:+ fmt_x b +:+ dq "'}" +:+ nl).
  assert (Htail : no_brace tail = true).
  { destruct Ha, Hb. repeat apply no_brace_app; by try apply fmt_no_brace. }
  assert (Hq : occurs timing_key (p +:+ String dquote (String "," (tail +:+ rest))) = false).
  { rewrite quiet_path by (destruct Hp as [->|(_ & ? & _)]; done). by apply (quiet_no_brace tail). }
  assert (E : section_line ty p a b +:+ rest =
    dq "{'type':'" +:+ ty +:+ dq "','path':'" +:+ (p +:+ String dquote (String "," (tail +:+ rest)))).
  { unfold section_line. assert (json_escape MAXPATHLEN p = p) as -> by (destruct Hp as [->|?]; [done|by apply plain_escape]).
    subst tail. by rewrite <- !str_app_assoc. }
  rewrite E. change (dq "{'type':'" +:+ ?x) with (String "{" (dq "'type':'" +:+ x)). cbn [occurs].
  assert (scan_lit timing_key (String "{" (dq "'type':'" +:+ ty +:+ dq "','path':'" +:+
    (p +:+ String dquote (String "," (tail +:+ rest))))) = None) as -> by (by destruct Ht as [->|[->| ->]]).
  apply (quiet_no_brace (dq "'type':'")); [done|].
  apply (quiet_no_brace ty); [by destruct Ht as [->|[->| ->]]|]. by apply (quiet_no_brace (dq "','path':'")).
Qed.

Lemma scan_section_header pid tid : scan_section (header_line pid tid) = None.
Proof. reflexivity. Qed.
Lemma scan_section_timing m c : scan_section (timing_line m c) = None.
Proof. reflexivity. Qed.
Lemma scan_section_thread ty tid :
  ty = "thread_create" \/ ty = "thread_set_name" -> scan_section (thread_line ty tid) = None.
Proof. by intros [->| ->]. Qed.

(** What reading a list of lines keeps, when memory never runs out. *)
Fixpoint sections_of (ls : list string) (acc : list pt_image_info) : list pt_image_info :=
  match ls with
  | [] => acc
  | l :: ls =>
      match scan_section l with
      | Some (ty, p, a, b) =>
          if negb (String.eqb ty "exec") && negb (String.eqb ty "mmap") && negb (String.eqb ty "kernel")
          then sections_of ls acc
          else sections_of ls ((if String.eqb ty "exec" then [] else acc) ++
                 [{| path := strlcpy MAXPATHLEN p; load_addr := a; base_addr := b;
                     type := section_type ty |}])
      | None => sections_of ls acc
      end
  end.

Lemma read_sections_loop_ok ls acc cap m :
  mem_ok m -> (read_sections_loop ls acc cap m).1 = Some (sections_of ls acc).
Proof.
  revert acc cap m. induction ls as [|l ls IH]; intros acc cap m Hm; [done|]. simpl.
  destruct (scan_section l) as [[[[ty p] a] b]|]; [|by apply IH].
  case_bool; [by apply IH|]. destruct (cap <=? _); [|by apply IH].
  destruct (malloc_ok m Hm) as (m' & -> & _ & Hm'). by apply IH.
Qed.

Lemma meta_read_mem f m : mem_ok m -> mem_ok (meta_read_sections f m).2.
Proof.
  destruct f as [t|]; [|done]. cbn [meta_read_sections]. generalize (lines 4096 t) as ls.
  intros ls. generalize (@nil pt_image_info) as acc, 0 as cap. revert m.
  induction ls as [|l ls IH]; intros m acc cap Hm; [done|]. cbn [read_sections_loop].
  destruct (scan_section l) as [[[[ty p] a] b]|]; [|by apply IH].
  case_bool; [by apply IH|]. destruct (cap <=? _); [|by apply IH].
  destruct (malloc_ok m Hm) as (m' & -> & _ & Hm'). by apply IH.
Qed.

(** ** The lines of a whole sidecar *)

Definition all_lines (n : nat) (ls : list string) : Prop := Forall (is_line n) ls.

Definition cat (ls : list string) : string := foldr String.append EmptyString ls.

Lemma cat_app a b : cat (a ++ b) = cat a +:+ cat b.
Proof. induction a as [|x a IH]; simpl; [done|]. rewrite IH. apply str_app_assoc. Qed.

Lemma lines_cat n size ls : all_lines n ls -> (n < size)%nat -> lines size (cat ls) = ls.
Proof.
  intros Hls Hn. induction Hls as [|l ls Hl _ IH]; [done|]. simpl.
  rewrite (lines_is_line n) by done. by rewrite IH.
Qed.

Lemma meta_read_sections_cat ls m :
  all_lines 1200 ls -> mem_ok m ->
  (meta_read_sections (Some (cat ls)) m).1 = Some (sections_of ls []).
Proof.
  intros Hls Hm. unfold meta_read_sections. rewrite (lines_cat 1200) by (auto; lia).
  by apply read_sections_loop_ok.
Qed.

(** Sections the writer can represent. *)
Definition writable (s : pt_image_info) : Prop :=
  plain_path (path s) /\ is_u64 (load_addr s) /\ is_u64 (base_addr s) /\
  (type s = HWT_RECORD_EXECUTABLE \/ type s = HWT_RECORD_KERNEL \/ type s = HWT_RECORD_MMAP).

Definition line_of_section (s : pt_image_info) : string :=
  section_line (section_type_name (type s)) (path s) (load_addr s) (base_addr s).

Lemma meta_writer_sections_cat t ss :
  meta_writer_sections (Some t) ss = Some (t +:+ cat (map line_of_section ss)).
Proof.
  revert t. induction ss as [|s ss IH]; intros t; simpl; [by rewrite str_app_nil_r|].
  rewrite IH. by rewrite <- str_app_assoc.
Qed.

Lemma section_type_name_kind t :
  section_kind (section_type_name t) /\
  (t = HWT_RECORD_EXECUTABLE \/ t = HWT_RECORD_KERNEL \/ t = HWT_RECORD_MMAP ->
   section_type (section_type_name t) = t).
Proof. unfold section_kind. destruct t; simpl; split; auto; naive_solver. Qed.

Lemma strlcpy_plain p : plain_path p -> strlcpy MAXPATHLEN p = p.
Proof.
  intros (_ & _ & ?). unfold strlcpy. apply str_take_all. change MAXPATHLEN with 1024%nat. lia.
Qed.

(** What a section does to the sections gathered so far: an EXEC replaces
    the address space. *)
Definition then_section (acc : list pt_image_info) (s : pt_image_info) : list pt_image_info :=
  (if type_eqb (type s) HWT_RECORD_EXECUTABLE then [] else acc) ++ [s].

Lemma sections_of_line s ls acc :
  writable s -> sections_of (line_of_section s :: ls) acc = sections_of ls (then_section acc s).
Proof.
  intros (Hp & Ha & Hb & Ht). destruct (section_type_name_kind (type s)) as [Hk Hty].
  cbn [sections_of]. unfold line_of_section. rewrite scan_section_line by done.
  rewrite strlcpy_plain, Hty by done. unfold then_section. destruct s as [sp sa sb st]; simpl in *.
  by destruct Ht as [->|[->| ->]].
Qed.

Lemma sections_of_skip l ls acc :
  scan_section l = None -> sections_of (l :: ls) acc = sections_of ls acc.
Proof. intros H. cbn [sections_of]. by rewrite H. Qed.

Lemma sections_of_sections ss acc :
  Forall writable ss -> sections_of (map line_of_section ss) acc = foldl then_section acc ss.
Proof.
  intros H. revert acc. induction H as [|s ss Hs _ IH]; intros acc; [done|].
  cbn [map]. rewrite sections_of_line by done. apply IH.
Qed.

Lemma all_lines_sections ss : Forall writable ss -> all_lines 1200 (map line_of_section ss).
Proof.
  intros H. apply Forall_map. eapply Forall_impl; [exact H|].
  intros s (Hp & Ha & Hb & _). apply section_line_is_line; auto.
  apply section_type_name_kind.
Qed.

(** An EXEC only at the head, the shape every list of sections keeps. *)
Definition exec_at_head (ss : list pt_image_info) : Prop :=
  Forall (fun s => type s <> HWT_RECORD_EXECUTABLE) (tail ss).

Lemma then_sections_at_head acc ss :
  Forall (fun s => type s <> HWT_RECORD_EXECUTABLE) ss -> foldl then_section acc ss = acc ++ ss.
Proof.
  intros H. revert acc. induction H as [|s ss Hs _ IH]; intros acc; simpl; [by rewrite app_nil_r|].
  rewrite IH. unfold then_section. destruct (type s) eqn:E; try done; simpl; by rewrite <- app_assoc.
Qed.

Lemma at_head_sections ss : exec_at_head ss -> foldl then_section [] ss = ss.
Proof.
  intros H. destruct ss as [|s ss]; [done|]. simpl. rewrite then_sections_at_head by done.
  unfold then_section. by destruct (type_eqb _ _).
Qed.

Lemma exec_at_head_then acc s : exec_at_head acc -> exec_at_head (then_section acc s).
Proof.
  unfold exec_at_head, then_section. intros H. destruct (type_eqb _ _) eqn:E; simpl; [constructor|].
  destruct acc as [|a acc]; simpl in *; [constructor|].
  apply Forall_app_2; [done|]. repeat constructor. intros Ht. by rewrite Ht in E.
Qed.

(** C23: The reader gives back the very sections that were written, when paths are
    plain and fit a line. *)
Theorem meta_sections_roundtrip pid tid mtc cyc ss m :
  is_i32 pid -> is_i32 tid -> is_u64 mtc -> is_u64 cyc ->
  Forall writable ss -> exec_at_head ss -> mem_ok m ->
  (meta_read_sections
     (meta_writer_sections
        (meta_writer_timing (meta_writer_header (Some EmptyString) pid tid) mtc cyc) ss) m).1 = Some ss.
Proof.
  intros Hp Ht Hm Hc Hw He Hmem.
  assert (Hread : forall acc, acc = [] -> sections_of (map line_of_section ss) acc = ss).
  { intros acc ->. rewrite sections_of_sections by done. by apply at_head_sections. }
  unfold meta_writer_timing. case_bool; cbn [put meta_writer_header fmap option_fmap option_map];
    rewrite meta_writer_sections_cat; change (EmptyString +:+ ?x) with x; rewrite <- ?str_app_assoc.
  - change (header_line pid tid +:+ cat (map line_of_section ss))
      with (cat (header_line pid tid :: map line_of_section ss)).
    rewrite meta_read_sections_cat, sections_of_skip, Hread; auto using scan_section_header.
    constructor; [|by apply all_lines_sections].
    eapply is_line_mono; [by apply header_is_line|lia].
  - change (header_line pid tid +:+ (timing_line mtc cyc +:+ cat (map line_of_section ss)))
      with (cat (header_line pid tid :: timing_line mtc cyc :: map line_of_section ss)).
    rewrite meta_read_sections_cat, !sections_of_skip, Hread;
      auto using scan_section_header, scan_section_timing.
    repeat constructor; [| |by apply all_lines_sections];
      (eapply is_line_mono; [by apply header_is_line || apply timing_is_line|lia]).
Qed.
