(* ===== verification/Resolve.v ===== *)
(** resolve.c: turning -r arguments into address ranges, by parsing, ELF
    symbol lookup, and the target's memory map.

    [ProcInfo] is what the KERN_PROC sysctls answer about a process. *)

From Stdlib Require Import ZArith Lia Ascii String.
From stdpp Require Import base list strings sets gmap sorting.
From S2P Require Import Prelude CLib Types Elf Symbols.

Definition UNKNOWN_SIZE_FALLBACK : Z := 4096.
Definition PT_RANGE_FILTER : Z := 1.
Definition PT_RANGE_TRACESTOP : Z := 2.
Definition KVME_TYPE_VNODE : Z := 2.
Definition KVME_PROT_EXEC : Z := 4.

(** [struct range_spec]; its [type] is [is_symbol]. *)
Record range_spec := {
  is_symbol : bool; start : Z; stop : Z; symbol : string; mode : Z }.

(** One filled entry of [struct ip_filter]; [nranges] is the length of the
    list. *)
Record ip_range := { ip_start : Z; ip_end : Z; ip_mode : Z }.
Definition ip_filter : Type := list ip_range.

Record kinfo_vmentry := {
  kve_structsize : Z; kve_type : Z; kve_protection : Z; kve_path : string; kve_start : Z }.

(** KERN_PROC_PATHNAME, and KERN_PROC_VMMAP asked for a size and then for the
    entries that fit that many bytes. *)
Class ProcInfo := {
  proc_pathname : Z -> option string;
  vmmap_size : Z -> option Z;
  vmmap : Z -> Z -> option (list kinfo_vmentry);
}.

(** * Argument parsing *)

(** [strncmp(s, p, strlen(p)) == 0]. *)
Definition has_prefix (p s : string) : bool := String.eqb (str_take (String.length p) s) p.

Definition parse_range_spec (arg : string) : option range_spec :=
  let '(md, inner) :=
    if has_prefix "stop:" arg then (PT_RANGE_TRACESTOP, str_drop 5 arg)
    else (PT_RANGE_FILTER, arg) in
  let vs := sscanf [Lit "0x"; LX; Lit ":0x"; LX] inner in
  match vs with
  | [VInt a; VInt b] =>
      Some {| is_symbol := false; start := a; stop := b; symbol := EmptyString; mode := md |}
  | _ =>
      if String.eqb inner EmptyString then None
      else if (RANGE_SPEC_SYMLEN <=? String.length inner)%nat then None
      else Some {| is_symbol := true;
                   start := match vs with [VInt a] => a | _ => 0 end; stop := 0;
                   symbol := inner; mode := md |}
  end.

(** * ELF symbol lookup *)

(** The range of a symbol at its runtime address. *)
Definition symbol_range (slide : Z) (sym : GElf_Sym) : Z * Z :=
  (u64 (st_value sym + slide),
   if 0 <? st_size sym then u64 (st_value sym + st_size sym + slide)
   else u64 (st_value sym + UNKNOWN_SIZE_FALLBACK + slide)).

Definition sym_matches (elf : Elf) (sh : GElf_Shdr) (name : string) (sym : GElf_Sym) : bool :=
  if negb (GELF_ST_TYPE (st_info sym) =? STT_FUNC) then false
  else if st_value sym =? 0 then false
  else match elf_strptr elf (sh_link sh) (st_name sym) with
       | None => false
       | Some sname => String.eqb sname name
       end.

Fixpoint find_in_data (elf : Elf) (sh : GElf_Shdr) (name : string) (d : Elf_Data) (i n : nat)
    : option GElf_Sym :=
  match n with
  | O => None
  | S n =>
      match d_getsym d i with
      | None => find_in_data elf sh name d (S i) n
      | Some sym =>
          if sym_matches elf sh name sym then Some sym
          else find_in_data elf sh name d (S i) n
      end
  end.

Fixpoint find_in_section (elf : Elf) (sh : GElf_Shdr) (name : string) (ds : list Elf_Data)
    : option GElf_Sym :=
  match ds with
  | [] => None
  | d :: ds =>
      match find_in_data elf sh name d 0 (Z.to_nat (d_size d / sh_entsize sh)) with
      | Some sym => Some sym
      | None => find_in_section elf sh name ds
      end
  end.

Fixpoint find_in_sections (elf : Elf) (ty : Z) (name : string) (scns : list Elf_Scn)
    : option GElf_Sym :=
  match scns with
  | [] => None
  | scn :: scns =>
      match scn_shdr scn with
      | None => find_in_sections elf ty name scns
      | Some sh =>
          if negb (sh_type sh =? ty) then find_in_sections elf ty name scns
          else if sh_entsize sh =? 0 then find_in_sections elf ty name scns
          else match find_in_section elf sh name (scn_data scn) with
               | Some sym => Some sym
               | None => find_in_sections elf ty name scns
               end
      end
  end.

Fixpoint find_in_types (elf : Elf) (name : string) (tys : list Z) : option GElf_Sym :=
  match tys with
  | [] => None
  | ty :: tys =>
      match find_in_sections elf ty name (elf_scns elf) with
      | Some sym => Some sym
      | None => find_in_types elf name tys
      end
  end.

Definition sec_types : list Z := [SHT_SYMTAB; SHT_DYNSYM].

Definition resolve_symbol_in_elf `{LibElf} (p : string) (slide : Z) (name : string)
    : option (Z * Z) :=
  if negb elf_version_ok then None
  else match open_elf p with
       | None => None
       | Some elf => symbol_range slide <$> find_in_types elf name sec_types
       end.

(** 1 for a position-independent file, 0 for another, -1 on error. *)
Definition elf_is_pie `{LibElf} (p : string) : Z :=
  if negb elf_version_ok then -1
  else match open_elf p with
       | None => -1
       | Some elf =>
           match elf_etype elf with
           | None => -1
           | Some t => if t =? ET_DYN then 1 else 0
           end
       end.

(** * Process introspection *)

Definition process_exe_fullpath `{ProcInfo} (pid : Z) : option string := proc_pathname pid.

(** The sizing call, the buffer, and the call that fills it. *)
Definition read_vmmap `{ProcInfo} (pid : Z) (m : mem) : option (list kinfo_vmentry) * mem :=
  match vmmap_size pid with
  | None => (None, m)
  | Some len =>
      let '(p, m) := malloc m in
      match p with
      | None => (None, m)
      | Some _ => (vmmap pid (len * 4 / 3), m)
      end
  end.

Definition exec_vnode (kve : kinfo_vmentry) : bool :=
  (kve_type kve =? KVME_TYPE_VNODE) && negb (Z.land (kve_protection kve) KVME_PROT_EXEC =? 0) &&
  negb (String.eqb (kve_path kve) EmptyString).

Fixpoint load_addr_loop (exe_path : string) (kves : list kinfo_vmentry) : option Z :=
  match kves with
  | [] => None
  | kve :: kves =>
      if kve_structsize kve =? 0 then None
      else if exec_vnode kve && String.eqb (kve_path kve) exe_path then Some (kve_start kve)
      else load_addr_loop exe_path kves
  end.

Definition process_load_addr `{ProcInfo} (pid : Z) (exe_path : string) (m : mem)
    : option Z * mem :=
  let '(r, m) := read_vmmap pid m in
  match r with
  | None => (None, m)
  | Some kves => (load_addr_loop exe_path kves, m)
  end.

Definition mmap_section (kve : kinfo_vmentry) : pt_image_info :=
  {| path := strlcpy MAXPATHLEN (kve_path kve); load_addr := kve_start kve; base_addr := 0;
     type := HWT_RECORD_MMAP |}.

Fixpoint exec_mmaps_loop (kves : list kinfo_vmentry) (sections : list pt_image_info)
    (capacity : Z) (m : mem) : option (list pt_image_info) * mem :=
  match kves with
  | [] => (Some sections, m)
  | kve :: kves =>
      if kve_structsize kve =? 0 then (Some sections, m)
      else if exec_vnode kve then
        if capacity <=? Z.of_nat (length sections) then
          let '(p, m) := malloc m in
          match p with
          | None => (None, m)
          | Some _ =>
              exec_mmaps_loop kves (sections ++ [mmap_section kve]) (grow 16 capacity) m
          end
        else exec_mmaps_loop kves (sections ++ [mmap_section kve]) capacity m
      else exec_mmaps_loop kves sections capacity m
  end.

Definition process_exec_mmaps `{ProcInfo} (pid : Z) (m : mem)
    : option (list pt_image_info) * mem :=
  let '(r, m) := read_vmmap pid m in
  match r with
  | None => (None, m)
  | Some kves => exec_mmaps_loop kves [] 0 m
  end.

(** * The resolver *)

(** The slide, and whether ASLR has to be disabled. *)
Definition compute_slide `{LibElf, ProcInfo} (exe_path : string) (pid : Z) (is_exec_mode : bool)
    (m : mem) : option (Z * bool) * mem :=
  if negb elf_version_ok then (None, m)
  else match open_elf exe_path with
  | None => (None, m)
  | Some elf =>
      if is_exec_mode then
        match elf_etype elf with
        | None => (None, m)
        | Some t => if t =? ET_DYN then (None, m) else (Some (0, true), m)
        end
      else match elf_base_vaddr elf with
      | None => (None, m)
      | Some base_vaddr =>
          let '(r, m) := process_load_addr pid exe_path m in
          match r with
          | None => (None, m)
          | Some load_addr => (Some (i64 (i64 load_addr - i64 base_vaddr), false), m)
          end
      end
  end.

Fixpoint resolve_loop `{LibElf} (specs : list range_spec) (exe_path : string) (slide : Z)
    (filter : ip_filter) : option ip_filter :=
  match specs with
  | [] => Some filter
  | sp :: specs =>
      if (2 <=? length filter)%nat then None
      else if is_symbol sp then
        match resolve_symbol_in_elf exe_path slide (symbol sp) with
        | None => None
        | Some (a, b) =>
            resolve_loop specs exe_path slide
              (filter ++ [{| ip_start := a; ip_end := b; ip_mode := mode sp |}])
        end
      else
        resolve_loop specs exe_path slide
          (filter ++ [{| ip_start := start sp; ip_end := stop sp; ip_mode := mode sp |}])
  end.

(** [exe_path] is [None] for a null pointer. *)
Definition resolve_range_specs `{LibElf, ProcInfo} (specs : list range_spec) (pid : Z)
    (exe_path : option string) (is_exec_mode : bool) (m : mem)
    : option (ip_filter * bool) * mem :=
  if existsb is_symbol specs then
    match exe_path with
    | None | Some EmptyString => (None, m)
    | Some p =>
        let '(r, m) := compute_slide p pid is_exec_mode m in
        match r with
        | None => (None, m)
        | Some (slide, need_aslr) => ((fun f => (f, need_aslr)) <$> resolve_loop specs p slide [], m)
        end
    end
  else ((fun f => (f, false)) <$> resolve_loop specs (default EmptyString exe_path) 0 [], m).

(** * Properties *)

(** ** Symbol search *)

(** The named functions of one type of table, in file order. *)
Definition named (elf : Elf) (name : string) (q : Z * option GElf_Sym) : list GElf_Sym :=
  match q with
  | (link, Some sym) =>
      if (GELF_ST_TYPE (st_info sym) =? STT_FUNC) && negb (st_value sym =? 0) &&
         bool_decide (elf_strptr elf link (st_name sym) = Some name)
      then [sym] else []
  | _ => []
  end.

Definition named_functions (elf : Elf) (name : string) (ty : Z) : list GElf_Sym :=
  concat (map (named elf name) (concat (map (section_symbols ty) (elf_scns elf)))).

Lemma sym_matches_named elf sh name sym :
  named elf name (sh_link sh, Some sym) = if sym_matches elf sh name sym then [sym] else [].
Proof.
  unfold named, sym_matches. destruct (GELF_ST_TYPE _ =? STT_FUNC); [|done].
  destruct (st_value sym =? 0); [done|]. simpl.
  destruct (elf_strptr _ _ _) as [s|]; [|by rewrite bool_decide_eq_false_2].
  destruct (String.eqb_spec s name) as [->|Hne];
    [by rewrite bool_decide_eq_true_2|rewrite bool_decide_eq_false_2; [done|congruence]].
Qed.

Lemma head_app {A} (a b : list A) : head (a ++ b) = match head a with Some x => Some x | None => head b end.
Proof. by destruct a. Qed.

Lemma find_in_data_spec elf sh name d i n :
  find_in_data elf sh name d i n =
  head (concat (map (named elf name) (map (pair (sh_link sh)) (map (d_getsym d) (seq i n))))).
Proof.
  revert i. induction n as [|n IH]; intros i; [done|].
  cbn [find_in_data seq map concat]. rewrite head_app, IH.
  destruct (d_getsym d i) as [sym|]; [|done]. rewrite sym_matches_named. by case_bool.
Qed.

Lemma find_in_section_spec elf sh name ds :
  find_in_section elf sh name ds =
  head (concat (map (named elf name) (map (pair (sh_link sh)) (concat (map (data_symbols sh) ds))))).
Proof.
  induction ds as [|d ds IH]; [done|]. cbn [find_in_section map concat].
  rewrite !map_app, concat_app, head_app, IH, find_in_data_spec. reflexivity.
Qed.

Lemma find_in_sections_spec elf ty name scns :
  find_in_sections elf ty name scns =
  head (concat (map (named elf name) (concat (map (section_symbols ty) scns)))).
Proof.
  induction scns as [|scn scns IH]; [done|]. cbn [find_in_sections map concat].
  rewrite map_app, concat_app, head_app, IH.
  generalize (head (concat (map (named elf name) (concat (map (section_symbols ty) scns))))).
  intros rest. unfold section_symbols.
  destruct (scn_shdr scn) as [sh|]; [|done]. repeat (case_bool; [done|]).
  by rewrite find_in_section_spec.
Qed.

(** The first match in the full table, else the first in the dynamic one. *)
Theorem resolve_symbol_first `{LibElf} p slide name elf :
  elf_version_ok = true -> open_elf p = Some elf ->
  resolve_symbol_in_elf p slide name =
  symbol_range slide <$>
    head (named_functions elf name SHT_SYMTAB ++ named_functions elf name SHT_DYNSYM).
Proof.
  intros Hv Ho. unfold resolve_symbol_in_elf. rewrite Hv, Ho. f_equal.
  cbn [negb find_in_types sec_types]. rewrite !find_in_sections_spec, head_app. unfold named_functions.
  destruct (head _); [done|]. by destruct (head _).
Qed.

(** ** The resolver *)

(** What a spec contributes when it resolves. *)
Definition resolves_to `{LibElf} (p : string) (slide : Z) (sp : range_spec) (r : ip_range) : Prop :=
  ip_mode r = mode sp /\
  if is_symbol sp
  then resolve_symbol_in_elf p slide (symbol sp) = Some (ip_start r, ip_end r)
  else ip_start r = start sp /\ ip_end r = stop sp.

Lemma resolve_loop_spec `{LibElf} specs p slide acc f :
  resolve_loop specs p slide acc = Some f <->
  exists rs, f = acc ++ rs /\ Forall2 (resolves_to p slide) specs rs /\
    (length acc + length specs <= Nat.max 2 (length acc))%nat.
Proof.
  revert acc. induction specs as [|sp specs IH]; intros acc; cbn [resolve_loop length].
  { split; [intros [= <-]; exists []; split_and!; [by rewrite app_nil_r|done|lia]|].
    intros (rs & -> & Hrs & _). inversion Hrs. by rewrite app_nil_r. }
  destruct (2 <=? length acc)%nat eqn:E; [apply Nat.leb_le in E; split; [done|]|apply Nat.leb_gt in E].
  { intros (? & _ & _ & ?). lia. }
  assert (Hstep : forall r, resolves_to p slide sp r ->
    (forall r', resolves_to p slide sp r' -> r' = r) ->
    resolve_loop specs p slide (acc ++ [r]) = Some f <->
    exists rs, f = acc ++ rs /\ Forall2 (resolves_to p slide) (sp :: specs) rs /\
      (length acc + S (length specs) <= Nat.max 2 (length acc))%nat).
  { intros r Hr Huniq. rewrite IH, length_app. simpl. split.
    - intros (rs & -> & Hrs & ?). exists (r :: rs). rewrite <- app_assoc. split_and!; [done|by constructor|lia].
    - intros (rs & -> & Hrs & ?). inversion Hrs as [|? r' ? rs' Hr' Hrs']; subst.
      rewrite <- (Huniq r' Hr'). exists rs'. rewrite <- app_assoc. split_and!; [done|done|lia]. }
  destruct (is_symbol sp) eqn:Es.
  - destruct (resolve_symbol_in_elf p slide (symbol sp)) as [[a b]|] eqn:Er.
    + apply Hstep; unfold resolves_to; rewrite Es, Er; [done|].
      intros [] [? [= ]]; simpl in *; by subst.
    + split; [done|]. intros (rs & _ & Hrs & _). inversion Hrs as [|? ? ? ? [_ Hr] _]; subst.
      rewrite Es, Er in Hr. done.
  - apply Hstep; unfold resolves_to; rewrite Es; [done|]. intros [] [? [? ?]]; simpl in *; by subst.
Qed.

(** C30: The filter that is built has one range per spec, in order, with its mode,
    and at most the two ranges the hardware has; without symbols this is the
    only way to fail. *)
Theorem resolve_range_specs_spec `{LibElf, ProcInfo} specs pid exe is_exec m f aslr :
  (resolve_range_specs specs pid exe is_exec m).1 = Some (f, aslr) <->
  (length specs <= 2)%nat /\
  if existsb is_symbol specs then
    exists p slide, exe = Some p /\ p <> EmptyString /\
      (compute_slide p pid is_exec m).1 = Some (slide, aslr) /\
      Forall2 (resolves_to p slide) specs f
  else aslr = false /\ Forall2 (resolves_to (default EmptyString exe) 0) specs f.
Proof.
  assert (Hl : forall p slide g, resolve_loop specs p slide [] = Some g <->
    (length specs <= 2)%nat /\ Forall2 (resolves_to p slide) specs g).
  { intros p slide g. rewrite resolve_loop_spec. simpl. split.
    - intros (rs & -> & ? & ?). split; [lia|done].
    - intros [? ?]. exists g. split_and!; [done|done|lia]. }
  unfold resolve_range_specs. destruct (existsb is_symbol specs).
  - destruct exe as [[|c p]|];
      [split; [done|intros (_ & p' & s' & [= <-] & ? & _); done]| |
       split; [done|intros (_ & p' & s' & [=] & _)]].
    destruct (compute_slide (String c p) pid is_exec m) as [[[slide a]|] m'] eqn:Ec; simpl;
      [|split; [done|]; intros (_ & p' & s' & [= <-] & _ & Hc & _); by rewrite Ec in Hc].
    rewrite fmap_Some. setoid_rewrite Hl. split.
    + intros (x & [? ?] & [= -> ->]). split; [done|]. exists (String c p), slide. by rewrite Ec.
    + intros (? & p' & s' & [= <-] & _ & Hc & Hf). rewrite Ec in Hc. injection Hc as -> ->. eauto.
  - cbn [fst]. rewrite fmap_Some. setoid_rewrite Hl. naive_solver.
Qed.

(** ** Arguments *)

Lemma has_prefix_app p s : has_prefix p (p +:+ s) = true.
Proof. unfold has_prefix. rewrite str_take_app. apply String.eqb_refl. Qed.

(** How a range prints, as the resolver reports it. *)
Definition show_range (a b : Z) : string := "0x" +:+ fmt_x a +:+ ":0x" +:+ fmt_x b.

Lemma sscanf_show_range a b :
  is_u64 a -> is_u64 b -> sscanf [Lit "0x"; LX; Lit ":0x"; LX] (show_range a b) = [VInt a; VInt b].
Proof.
  intros Ha Hb. unfold show_range. cbn [sscanf scan_conv]. rewrite scan_lit_app.
  cbn [fmap option_fmap option_map app]. rewrite scan_int_fmt_x; [|apply Ha|done].
  cbn [fmap option_fmap option_map app]. rewrite scan_lit_app.
  cbn [fmap option_fmap option_map app]. rewrite <- (str_app_nil_r (fmt_x b)).
  rewrite scan_int_fmt_x; [|apply Hb|done]. cbn. by rewrite !sat_u64_small.
Qed.

(** Addresses given as a range are taken as they are, with or without the
    TraceStop prefix. *)
Theorem parse_range_roundtrip a b (tracestop : bool) :
  is_u64 a -> is_u64 b ->
  parse_range_spec ((if tracestop then "stop:" else "") +:+ show_range a b) =
  Some {| is_symbol := false; start := a; stop := b; symbol := "";
          mode := if tracestop then PT_RANGE_TRACESTOP else PT_RANGE_FILTER |}.
Proof.
  intros Ha Hb. unfold parse_range_spec. destruct tracestop.
  - rewrite has_prefix_app. change (str_drop 5 ("stop:" +:+ ?s)) with s. by rewrite sscanf_show_range.
  - change (has_prefix "stop:" ("" +:+ show_range a b)) with false.
    change ("" +:+ ?s) with s. cbv beta iota zeta. by rewrite sscanf_show_range.
Qed.

(** ** The memory map *)

(** The entries before the one of size zero that ends the buffer. *)
Fixpoint map_entries (kves : list kinfo_vmentry) : list kinfo_vmentry :=
  match kves with
  | [] => []
  | kve :: kves => if kve_structsize kve =? 0 then [] else kve :: map_entries kves
  end.

Lemma exec_mmaps_loop_ok kves acc cap m :
  mem_ok m ->
  exists m', exec_mmaps_loop kves acc cap m =
    (Some (acc ++ map mmap_section (List.filter exec_vnode (map_entries kves))), m') /\ mem_ok m'.
Proof.
  revert acc cap m. induction kves as [|k ks IH]; intros acc cap m Hm; simpl.
  { exists m. by rewrite app_nil_r. }
  destruct (kve_structsize k =? 0); [exists m; simpl; by rewrite app_nil_r|]. simpl.
  destruct (exec_vnode k); [|by apply IH]. simpl.
  assert (Hgo : forall cap m1, mem_ok m1 -> exists m', exec_mmaps_loop ks (acc ++ [mmap_section k]) cap m1 =
    (Some (acc ++ mmap_section k :: map mmap_section (List.filter exec_vnode (map_entries ks))), m') /\
    mem_ok m').
  { intros c1 m1 Hm1. destruct (IH (acc ++ [mmap_section k]) c1 m1 Hm1) as (m' & -> & ?).
    exists m'. by rewrite <- app_assoc. }
  case_bool; [|by apply Hgo]. destruct (malloc_ok m Hm) as (m1 & -> & _ & Hm1). by apply Hgo.
Qed.

(** Seeding sees every executable file mapping of the process, once, in map
    order, as an MMAP section. *)
Theorem process_exec_mmaps_complete `{ProcInfo} pid len kves m :
  vmmap_size pid = Some len -> vmmap pid (len * 4 / 3) = Some kves -> mem_ok m ->
  (process_exec_mmaps pid m).1 =
  Some (map mmap_section (List.filter exec_vnode (map_entries kves))).
Proof.
  intros Hs Hv Hm. unfold process_exec_mmaps, read_vmmap. rewrite Hs.
  destruct (malloc_ok m Hm) as (m1 & -> & _ & Hm1). rewrite Hv.
  by destruct (exec_mmaps_loop_ok kves [] 0 m1 Hm1) as (m' & -> & _).
Qed.

(** ** The slide of a running process *)

(** C29: Attached to a process, [compute_slide] takes the executable mapping for
    the image of the first PT_LOAD segment: a symbol's range is its runtime
    address (the mapping plus its distance from the executable segment's
    page) moved by the distance [v - b] of the two segments, so it is right
    exactly when the first segment is the executable one. *)
Theorem trace_symbol_runtime `{LibElf, ProcInfo} exe pid elf b v load slide aslr sym m :
  elf_version_ok = true -> open_elf exe = Some elf ->
  elf_base_vaddr elf = Some b -> elf_exec_map_vaddr elf = Some v ->
  (process_load_addr pid exe m).1 = Some load ->
  (compute_slide exe pid false m).1 = Some (slide, aslr) ->
  let runtime := u64 (load + (st_value sym - v)) in
  aslr = false /\
  fst (symbol_range slide sym) = u64 (runtime + (v - b)) /\
  (fst (symbol_range slide sym) = runtime <-> u64 (v - b) = 0).
Proof.
  intros Hv Ho Hb He Hl Hc. cbn zeta. unfold compute_slide in Hc. rewrite Hv, Ho, Hb in Hc.
  destruct (process_load_addr pid exe m) as [[l|] m1]; [|done]. simpl in Hl, Hc.
  injection Hl as ->. injection Hc as <- <-.
  assert (Hs : fst (symbol_range (i64 (i64 load - i64 b)) sym) = u64 (load + (st_value sym - b))).
  { unfold symbol_range; simpl. rewrite u64_add_i64.
    destruct (i64_eqm load) as [k1 ->], (i64_eqm b) as [k2 ->]. unfold u64.
    replace (st_value sym + (load + k1 * two64 - (b + k2 * two64)))
      with (load + (st_value sym - b) + (k1 - k2) * two64) by ring.
    apply Z_mod_plus_full. }
  rewrite Hs, u64_add_u64. split_and!; [done|f_equal; ring|].
  unfold u64. replace (load + (st_value sym - b)) with (load + (st_value sym - v) + (v - b)) by ring.
  generalize (load + (st_value sym - v)). intros x. generalize (v - b). intros d.
  rewrite !Z.mod_eq by lia. split; intros E.
  - pose proof (Z.mod_pos_bound d two64). pose proof (Z.div_mod d two64).
    assert (d = ((x + d) / two64 - x / two64) * two64) as -> by lia.
    rewrite Z.div_mul by lia. lia.
  - assert (d = d / two64 * two64) as -> by lia. rewrite Z.div_add by lia. lia.
Qed.
