(* ===== verification/Hwt.v ===== *)
(** hwt.c: the trace context, over the hwt(4) devices.

    The kernel is outside the repository: [Kernel] is the calls the code
    makes, as state transformers ([None] and [false] are a failed call), and
    [KernelLaws] what the code relies on: descriptors are fresh and stay open
    until closed, and [write] makes progress.  [struct hwt_ctx] keeps its
    opened thread devices as a list ([nthreads] is its length). *)

From Stdlib Require Import ZArith Lia Ascii String.
From stdpp Require Import base list strings sets gmap sorting.
From S2P Require Import Prelude CLib Types Resolve.

(** [struct hwt_record_user_entry]: one field per view of its union. *)
Record hwt_record_user_entry := {
  e_record_type : hwt_record_type;
  e_fullpath : string; e_addr : Z; e_baseaddr : Z;
  e_buf_id : Z; e_curpage : Z; e_offset : Z; e_thread_id : Z }.

(** [struct hwt_alloc] and [struct pt_cpu_config], the fields the code sets. *)
Record hwt_alloc := {
  ha_bufsize : Z; ha_mode : Z; ha_pid : Z; ha_backend_name : string; ha_kqueue_fd : Z }.

Record pt_cpu_config := {
  rtit_ctl : Z; nranges : Z; ip_ranges : list ip_range;
  cfg_mtc_freq : Z; cfg_cyc_thresh : Z; cfg_psb_freq : Z }.

Class Kernel := {
  kernel : Type;
  HWT_BACKEND_MAXNAMELEN : nat;
  k_open : string -> kernel -> option Z * kernel;
  k_kqueue : kernel -> option Z * kernel;
  k_close : Z -> kernel -> kernel;
  k_mmap : Z -> Z -> kernel -> option Z * kernel;          (* descriptor, length *)
  k_munmap : Z -> kernel -> kernel;
  k_bytes : Z -> kernel -> list Z;                         (* what is mapped there *)
  k_write : Z -> list Z -> kernel -> option nat * kernel;
  k_alloc : Z -> hwt_alloc -> kernel -> option Z * kernel; (* HWT_IOC_ALLOC: ident *)
  k_set_config : Z -> bool -> pt_cpu_config -> kernel -> bool * kernel;
  k_start : Z -> kernel -> bool * kernel;
  k_stop : Z -> kernel -> bool * kernel;
  k_wakeup : Z -> kernel -> bool * kernel;
  k_record_get : Z -> Z -> bool -> kernel -> option (list hwt_record_user_entry) * kernel;
  k_bufptr_get : Z -> kernel -> option (Z * Z) * kernel;   (* page, offset *)
}.

(** What is asked of the system outside a context. *)
Class SysInfo := {
  conftxt : option string;     (* sysctl kern.conftxt, both calls *)
  kldfind : string -> bool;
  cpuid_14_1 : Z * Z;          (* EAX and EBX *)
  kern_base_address : option Z;
}.

(** * Detection *)

Definition hwt_available `{Kernel} (k : kernel) : bool * kernel :=
  let '(fd, k) := k_open "/dev/hwt" k in
  match fd with
  | None => (false, k)
  | Some fd => (true, k_close fd k)
  end.

(** [strstr(s, p) != NULL]. *)
Fixpoint strstr (s p : string) : bool :=
  has_prefix p s || match s with EmptyString => false | String _ s => strstr s p end.

Definition HWT_HOOKS_opt : string := "options" +:+ String "009" "HWT_HOOKS".

(** 1, 0, or -1 when it cannot be told. *)
Definition hwt_hooks_enabled `{SysInfo} (m : mem) : Z * mem :=
  match conftxt with
  | None | Some EmptyString => (-1, m)
  | Some txt =>
      let '(p, m) := malloc m in
      match p with
      | None => (-1, m)
      | Some _ => (if strstr txt HWT_HOOKS_opt then 1 else 0, m)
      end
  end.

Definition backends : list string := ["pt"; "coresight"; "spe"].

Definition hwt_detect_backend `{SysInfo} (m : mem) : option cstr * mem :=
  match List.find kldfind backends with
  | Some b => strdup b m
  | None => (None, m)
  end.

(** [for (i = 1; i < 16; i++) if (bitmap & (1 << i))], from [i] on. *)
Fixpoint lowest_from (bitmap i : Z) (n : nat) : Z :=
  match n with
  | O => 0
  | S n => if negb (Z.land bitmap (Z.shiftl 1 i) =? 0) then i else lowest_from bitmap (i + 1) n
  end.

Definition hwt_pt_default_timing `{SysInfo} : Z * Z :=
  let '(eax, ebx) := cpuid_14_1 in
  (lowest_from (Z.land (Z.shiftr eax 16) 65535) 1 15, lowest_from (Z.land ebx 65535) 1 15).

(** * The context *)

Record hwt_thread_ctx := { t_fd : Z; t_thread_id : Z; t_trace_buf : option Z }.

Record hwt_ctx := {
  ctl_fd : Z; ctx_fd : Z; kq_fd : Z; ident : Z;
  ctx_mode : Z; ctx_tid : Z; ctx_pid : Z;
  backend_name : string; bufsize : Z; trace_buf : option Z;
  filter : ip_filter; psb_freq : Z; mtc_freq : Z; cyc_thresh : Z;
  ptwrite : bool; os_trace : bool; all_threads : bool; requested_tids : list Z;
  threads : list hwt_thread_ctx }.

(** Updates of the fields the operations assign. *)
Definition set_fds (ctl cx kq : Z) (c : hwt_ctx) : hwt_ctx :=
  {| ctl_fd := ctl; ctx_fd := cx; kq_fd := kq; ident := ident c; ctx_mode := ctx_mode c;
     ctx_tid := ctx_tid c; ctx_pid := ctx_pid c; backend_name := backend_name c;
     bufsize := bufsize c; trace_buf := trace_buf c; filter := filter c; psb_freq := psb_freq c;
     mtc_freq := mtc_freq c; cyc_thresh := cyc_thresh c; ptwrite := ptwrite c;
     os_trace := os_trace c; all_threads := all_threads c; requested_tids := requested_tids c;
     threads := threads c |}.

Definition set_ident (i : Z) (c : hwt_ctx) : hwt_ctx :=
  {| ctl_fd := ctl_fd c; ctx_fd := ctx_fd c; kq_fd := kq_fd c; ident := i; ctx_mode := ctx_mode c;
     ctx_tid := ctx_tid c; ctx_pid := ctx_pid c; backend_name := backend_name c;
     bufsize := bufsize c; trace_buf := trace_buf c; filter := filter c; psb_freq := psb_freq c;
     mtc_freq := mtc_freq c; cyc_thresh := cyc_thresh c; ptwrite := ptwrite c;
     os_trace := os_trace c; all_threads := all_threads c; requested_tids := requested_tids c;
     threads := threads c |}.

Definition set_bufs (b : option Z) (ts : list hwt_thread_ctx) (c : hwt_ctx) : hwt_ctx :=
  {| ctl_fd := ctl_fd c; ctx_fd := ctx_fd c; kq_fd := kq_fd c; ident := ident c;
     ctx_mode := ctx_mode c; ctx_tid := ctx_tid c; ctx_pid := ctx_pid c;
     backend_name := backend_name c; bufsize := bufsize c; trace_buf := b; filter := filter c;
     psb_freq := psb_freq c; mtc_freq := mtc_freq c; cyc_thresh := cyc_thresh c;
     ptwrite := ptwrite c; os_trace := os_trace c; all_threads := all_threads c;
     requested_tids := requested_tids c; threads := ts |}.

(** [memset], the three descriptors at -1, and the arguments. *)
Definition ctx_init (md pid tid : Z) (name : string) (size : Z) : hwt_ctx :=
  {| ctl_fd := -1; ctx_fd := -1; kq_fd := -1; ident := 0; ctx_mode := md; ctx_tid := tid;
     ctx_pid := pid; backend_name := name; bufsize := size; trace_buf := None; filter := [];
     psb_freq := 0; mtc_freq := 0; cyc_thresh := 0; ptwrite := false; os_trace := false;
     all_threads := false; requested_tids := []; threads := [] |}.

Definition round_bufsize (bufsize : Z) : Z :=
  let bufsize := if bufsize =? 0 then 64 * 1024 * 1024 else bufsize in
  u64 (Z.land (u64 (bufsize + PAGE_SIZE - 1)) (Z.lnot (PAGE_SIZE - 1))).

Definition devpath (id tid : Z) : string := "/dev/hwt_" +:+ fmt_d id +:+ "_" +:+ fmt_d tid.

(** ** Closing *)

Fixpoint close_threads `{Kernel} (ts : list hwt_thread_ctx) (k : kernel) : kernel :=
  match ts with
  | [] => k
  | t :: ts =>
      let k := match t_trace_buf t with Some p => k_munmap p k | None => k end in
      let k := if 0 <=? t_fd t then k_close (t_fd t) k else k in
      close_threads ts k
  end.

Definition close_if_open `{Kernel} (fd : Z) (k : kernel) : kernel :=
  if 0 <=? fd then k_close fd k else k.

Definition hwt_ctx_close `{Kernel} (c : hwt_ctx) (k : kernel) : hwt_ctx * kernel :=
  let k := if 0 <=? ctx_fd c then (k_stop (ctx_fd c) k).2 else k in
  let k := close_threads (threads c) k in
  let k := match trace_buf c with Some p => k_munmap p k | None => k end in
  let k := close_if_open (ctx_fd c) k in
  let k := close_if_open (kq_fd c) k in
  let k := close_if_open (ctl_fd c) k in
  (set_fds (-1) (-1) (-1) (set_bufs None [] c), k).

(** ** Allocation *)

Definition hwt_ctx_alloc `{Kernel} (md pid tid size : Z) (backend : option string) (k : kernel)
    : bool * hwt_ctx * kernel :=
  match backend with
  | None | Some EmptyString => (false, ctx_init md pid tid EmptyString 0, k)
  | Some b =>
      if (HWT_BACKEND_MAXNAMELEN <=? String.length b)%nat
      then (false, ctx_init md pid tid (strlcpy HWT_BACKEND_MAXNAMELEN b) 0, k)
      else
        let c := ctx_init md pid tid b (round_bufsize size) in
        let fail c k := let '(c, k) := hwt_ctx_close c k in (false, c, k) in
        let '(ctl, k) := k_open "/dev/hwt" k in
        match ctl with
        | None => (false, c, k)
        | Some ctl =>
            let c := set_fds ctl (-1) (-1) c in
            let '(kq, k) := k_kqueue k in
            match kq with
            | None => fail c k
            | Some kq =>
                let c := set_fds ctl (-1) kq c in
                let '(id, k) :=
                  k_alloc ctl {| ha_bufsize := bufsize c; ha_mode := md; ha_pid := pid;
                                 ha_backend_name := backend_name c; ha_kqueue_fd := kq |} k in
                match id with
                | None => fail c k
                | Some id =>
                    let c := set_ident id c in
                    let '(fd, k) := k_open (devpath id tid) k in
                    match fd with
                    | None => fail c k
                    | Some fd => (true, set_fds ctl fd kq c, k)
                    end
                end
            end
        end
  end.

(** ** Configuration *)

Definition RTIT_CTL_OS : Z := Z.shiftl 1 2.
Definition RTIT_CTL_USER : Z := Z.shiftl 1 3.
Definition RTIT_CTL_FUPONPTW : Z := Z.shiftl 1 5.
Definition RTIT_CTL_TSCEN : Z := Z.shiftl 1 10.
Definition RTIT_CTL_PTWEN : Z := Z.shiftl 1 12.
Definition RTIT_CTL_BRANCHEN : Z := Z.shiftl 1 13.

Definition pt_config (c : hwt_ctx) : pt_cpu_config :=
  let ctl := Z.lor RTIT_CTL_USER RTIT_CTL_BRANCHEN in
  let ctl := if ptwrite c then Z.lor ctl (Z.lor RTIT_CTL_PTWEN RTIT_CTL_FUPONPTW) else ctl in
  let ctl := if os_trace c then Z.lor ctl RTIT_CTL_OS else ctl in
  let ctl := if (0 <? mtc_freq c) || (0 <? cyc_thresh c) then Z.lor ctl RTIT_CTL_TSCEN else ctl in
  {| rtit_ctl := ctl; nranges := Z.of_nat (length (filter c)); ip_ranges := take 2 (filter c);
     cfg_mtc_freq := mtc_freq c; cfg_cyc_thresh := cyc_thresh c; cfg_psb_freq := psb_freq c |}.

Definition hwt_ctx_set_config_on_fd `{Kernel} (c : hwt_ctx) (fd : Z) (pause_on_mmap : bool)
    (k : kernel) : bool * kernel :=
  k_set_config fd pause_on_mmap (pt_config c) k.

Definition hwt_ctx_set_config `{Kernel} (c : hwt_ctx) (pause_on_mmap : bool) (k : kernel)
    : bool * kernel :=
  if String.eqb (backend_name c) EmptyString then (false, k)
  else if String.eqb (backend_name c) "pt"
  then hwt_ctx_set_config_on_fd c (ctx_fd c) pause_on_mmap k
  else (false, k).

(** ** Start and stop *)

Definition hwt_ctx_start `{Kernel} (c : hwt_ctx) (k : kernel) : bool * kernel :=
  k_start (ctx_fd c) k.

Definition hwt_ctx_stop `{Kernel} (c : hwt_ctx) (k : kernel) : bool * kernel :=
  if ctx_fd c <? 0 then (true, k) else k_stop (ctx_fd c) k.

Definition hwt_ctx_wakeup `{Kernel} (c : hwt_ctx) (k : kernel) : bool * kernel :=
  k_wakeup (ctx_fd c) k.

(** ** Records *)

Definition record0 (ty : hwt_record_type) : bsdtrace_record :=
  {| r_type := ty; r_fullpath := EmptyString; r_addr := 0; r_baseaddr := 0; r_buf_id := 0;
     r_curpage := 0; r_offset := 0; r_thread_id := 0 |}.

(** The flat record of a kernel entry: only the view of the union that the
    type selects is read. *)
Definition convert_entry (e : hwt_record_user_entry) : bsdtrace_record :=
  let ty := e_record_type e in
  match ty with
  | HWT_RECORD_MMAP | HWT_RECORD_EXECUTABLE | HWT_RECORD_KERNEL =>
      {| r_type := ty; r_fullpath := strlcpy MAXPATHLEN (e_fullpath e); r_addr := e_addr e;
         r_baseaddr := e_baseaddr e; r_buf_id := 0; r_curpage := 0; r_offset := 0;
         r_thread_id := 0 |}
  | HWT_RECORD_MUNMAP =>
      {| r_type := ty; r_fullpath := EmptyString; r_addr := e_addr e; r_baseaddr := 0;
         r_buf_id := 0; r_curpage := 0; r_offset := 0; r_thread_id := 0 |}
  | HWT_RECORD_BUFFER | HWT_RECORD_OVERFLOW =>
      {| r_type := ty; r_fullpath := EmptyString; r_addr := 0; r_baseaddr := 0;
         r_buf_id := e_buf_id e; r_curpage := e_curpage e; r_offset := e_offset e;
         r_thread_id := 0 |}
  | HWT_RECORD_THREAD_CREATE | HWT_RECORD_THREAD_SET_NAME =>
      {| r_type := ty; r_fullpath := EmptyString; r_addr := 0; r_baseaddr := 0; r_buf_id := 0;
         r_curpage := 0; r_offset := 0; r_thread_id := e_thread_id e |}
  | HWT_RECORD_OTHER _ => record0 ty
  end.

Definition hwt_ctx_poll_records `{Kernel} (c : hwt_ctx) (maxrecords : Z) (wait : bool) (m : mem)
    (k : kernel) : option (list bsdtrace_record) * mem * kernel :=
  let maxrecords := if 1024 <? maxrecords then 1024 else maxrecords in
  let '(entries, m) := malloc m in
  match entries with
  | None => (None, m, k)
  | Some _ =>
      let '(r, k) := k_record_get (ctx_fd c) maxrecords wait k in
      (map convert_entry <$> r, m, k)
  end.

(** ** The trace buffer *)

Definition hwt_ctx_map_buffer `{Kernel} (c : hwt_ctx) (k : kernel)
    : option Z * hwt_ctx * kernel :=
  match trace_buf c with
  | Some p => (Some p, c, k)
  | None =>
      let '(p, k) := k_mmap (ctx_fd c) (bufsize c) k in
      match p with
      | None => (None, c, k)
      | Some p => (Some p, set_bufs (Some p) (threads c) c, k)
      end
  end.

Definition hwt_ctx_bufptr_get `{Kernel} (c : hwt_ctx) (k : kernel) : option (Z * Z) * kernel :=
  k_bufptr_get (ctx_fd c) k.

(** [while (off < total) write(fd, buf + off, total - off)]: [Some] tells
    whether everything was written, [None] that the fuel ran out. *)
Fixpoint write_loop `{Kernel} (fuel : nat) (fd : Z) (data : list Z) (k : kernel)
    : option bool * kernel :=
  match fuel with
  | O => (None, k)
  | S fuel =>
      match data with
      | [] => (Some true, k)
      | _ =>
          let '(nw, k) := k_write fd data k in
          match nw with
          | None => (Some false, k)
          | Some nw => write_loop fuel fd (drop nw data) k
          end
      end
  end.

(** The bytes saved, or -1; [None] only if the loop's fuel, one more than
    the bytes to write, ran out. *)
Definition hwt_ctx_snapshot_buffer `{Kernel} (c : hwt_ctx) (p : string) (last_page last_offset : Z)
    (k : kernel) : option Z * hwt_ctx * kernel :=
  if last_page <? 0 then (Some 0, c, k)
  else
    let '(buf, c, k) := hwt_ctx_map_buffer c k in
    match buf with
    | None => (Some (-1), c, k)
    | Some buf =>
        let total := u64 (last_page * PAGE_SIZE + last_offset) in
        let total := if bufsize c <? total then bufsize c else total in
        if total =? 0 then (Some 0, c, k)
        else
          let '(fd, k) := k_open p k in
          match fd with
          | None => (Some (-1), c, k)
          | Some fd =>
              let data := take (Z.to_nat total) (k_bytes buf k) in
              let '(r, k) := write_loop (S (length data)) fd data k in
              match r with
              | None => (None, c, k)
              | Some ok => (Some (if ok then total else -1), c, k_close fd k)
              end
          end
    end.

(** ** Threads *)

Definition hwt_ctx_open_thread `{Kernel} (c : hwt_ctx) (thread_id : Z) (k : kernel)
    : bool * hwt_ctx * kernel :=
  if MAX_THREADS <=? Z.of_nat (length (threads c)) then (false, c, k)
  else if existsb (fun t => t_thread_id t =? thread_id) (threads c) then (true, c, k)
  else
    let '(fd, k) := k_open (devpath (ident c) thread_id) k in
    match fd with
    | None => (false, c, k)
    | Some fd =>
        (true,
         set_bufs (trace_buf c)
           (threads c ++ [{| t_fd := fd; t_thread_id := thread_id; t_trace_buf := None |}]) c,
         k)
    end.

(** * What the code relies on *)

Class FdTable `{Kernel} := fds : kernel -> gset Z.

(** A call that may return a new descriptor. *)
Definition gains `{FdTable} (r : option Z) (k k' : kernel) : Prop :=
  match r with
  | Some fd => 0 <= fd /\ (fd ∉ fds k) /\ fds k' = ({[ fd ]} : gset Z) ∪ fds k
  | None => fds k' = fds k
  end.

Class KernelLaws `{FdTable} := {
  open_gains : forall p k, gains (k_open p k).1 k (k_open p k).2;
  kqueue_gains : forall k, gains (k_kqueue k).1 k (k_kqueue k).2;
  close_loses : forall fd k, fds (k_close fd k) = fds k ∖ {[ fd ]};
  mmap_fds : forall fd len k, fds (k_mmap fd len k).2 = fds k;
  munmap_fds : forall p k, fds (k_munmap p k) = fds k;
  write_fds : forall fd d k, fds (k_write fd d k).2 = fds k;
  alloc_fds : forall fd a k, fds (k_alloc fd a k).2 = fds k;
  set_config_fds : forall fd b a k, fds (k_set_config fd b a k).2 = fds k;
  start_fds : forall fd k, fds (k_start fd k).2 = fds k;
  stop_fds : forall fd k, fds (k_stop fd k).2 = fds k;
  wakeup_fds : forall fd k, fds (k_wakeup fd k).2 = fds k;
  record_get_fds : forall fd n w k, fds (k_record_get fd n w k).2 = fds k;
  bufptr_fds : forall fd k, fds (k_bufptr_get fd k).2 = fds k;
}.

Create Rewrite HintDb kernel.
#[export] Hint Rewrite @close_loses @mmap_fds @munmap_fds @write_fds @alloc_fds @set_config_fds
  @start_fds @stop_fds @wakeup_fds @record_get_fds @bufptr_fds using (typeclasses eauto) : kernel.

(** Writing to a descriptor appends some of the data, at least a byte of it. *)
Class WriteLaws `{Kernel} := {
  written : Z -> kernel -> list Z;
  write_progress : forall fd d k nw k', k_write fd d k = (Some nw, k') -> d <> [] ->
    (0 < nw <= length d)%nat /\ written fd k' = written fd k ++ take nw d;
}.

(** * Properties *)

(** ** Descriptors *)

Definition ctx_fds (c : hwt_ctx) : gset Z :=
  list_to_set (List.filter (fun fd => 0 <=? fd)
    (ctl_fd c :: ctx_fd c :: kq_fd c :: map t_fd (threads c))).

(** The open descriptors are those of the context and the ones that were
    open before it. *)
Definition owns `{FdTable} (before : gset Z) (c : hwt_ctx) (k : kernel) : Prop :=
  fds k = ctx_fds c ∪ before /\ ctx_fds c ## before.

Definition fd_set (l : list Z) : gset Z := list_to_set (List.filter (fun fd => 0 <=? fd) l).

Lemma fd_set_cons fd l : fd_set (fd :: l) = (if 0 <=? fd then {[ fd ]} else ∅) ∪ fd_set l.
Proof. unfold fd_set. simpl. case_bool; set_solver. Qed.

Lemma close_if_open_fds `{KernelLaws} fd k : fds (close_if_open fd k) = fds k ∖ fd_set [fd].
Proof.
  unfold close_if_open. rewrite fd_set_cons. case_bool; [rewrite close_loses|]; unfold fd_set; set_solver.
Qed.

Lemma close_threads_fds `{KernelLaws} ts k :
  fds (close_threads ts k) = fds k ∖ fd_set (map t_fd ts).
Proof.
  revert k. induction ts as [|t ts IH]; intros k; simpl; [unfold fd_set; set_solver|].
  rewrite IH, fd_set_cons.
  destruct (t_trace_buf t); case_bool; autorewrite with kernel; set_solver.
Qed.

Lemma hwt_ctx_close_fds `{KernelLaws} c k :
  fds (hwt_ctx_close c k).2 = fds k ∖ ctx_fds c.
Proof.
  unfold hwt_ctx_close. cbn [snd]. rewrite !close_if_open_fds.
  change (ctx_fds c) with (fd_set (ctl_fd c :: ctx_fd c :: kq_fd c :: map t_fd (threads c))).
  rewrite !(fd_set_cons (ctl_fd c)), !(fd_set_cons (ctx_fd c)), !(fd_set_cons (kq_fd c)).
  change (fd_set []) with (∅ : gset Z).
  assert (forall k, fds (match trace_buf c with Some p => k_munmap p k | None => k end) = fds k) as ->
    by (intros; destruct (trace_buf c); autorewrite with kernel; done).
  rewrite close_threads_fds.
  assert (fds (if 0 <=? ctx_fd c then (k_stop (ctx_fd c) k).2 else k) = fds k) as ->
    by (case_bool; autorewrite with kernel; done).
  set_solver.
Qed.

(** Closing an owned context restores the table. *)
Lemma close_owned `{KernelLaws} before c k :
  owns before c k -> fds (hwt_ctx_close c k).2 = before.
Proof. intros [Hk Hd]. rewrite hwt_ctx_close_fds, Hk. set_solver. Qed.

Lemma owns_fds `{FdTable} before c k k' : fds k' = fds k -> owns before c k -> owns before c k'.
Proof. unfold owns. by intros ->. Qed.

(** ** Allocation *)

(** What a failed call leaves and what a successful one gives. *)
Definition alloc_post `{FdTable} (k : kernel) (r : bool * hwt_ctx * kernel) : Prop :=
  let '(ok, c, k') := r in
  if ok then owns (fds k) c k' /\ 0 <= ctx_fd c /\ threads c = [] else fds k' = fds k.

Lemma ctx_fds_open md pid tid b size ctl cx kq id :
  ctx_fds (set_fds ctl cx kq (set_ident id (ctx_init md pid tid b size))) = fd_set [ctl; cx; kq].
Proof. done. Qed.

Lemma alloc_post_fail `{KernelLaws} before c k :
  owns (fds before) c k -> alloc_post before (let '(c, k) := hwt_ctx_close c k in (false, c, k)).
Proof.
  intros Hk%close_owned. unfold alloc_post. by destruct (hwt_ctx_close c k).
Qed.

Lemma owns_set_fds `{FdTable} (before k : kernel) c ctl cx kq :
  threads c = [] -> fds k = fd_set [ctl; cx; kq] ∪ fds before -> fd_set [ctl; cx; kq] ## fds before ->
  owns (fds before) (set_fds ctl cx kq c) k.
Proof. intros Ht Hk Hd. unfold owns, ctx_fds. simpl. rewrite Ht. done. Qed.

(** The context owns the descriptors opened so far, all non-negative. *)
Ltac solve_owned :=
  apply owns_set_fds; [done| |]; rewrite !fd_set_cons;
  repeat match goal with
  | H : 0 <= ?fd |- context [0 <=? ?fd] => rewrite (proj2 (Z.leb_le 0 fd) H)
  | |- context [0 <=? -1] => change (0 <=? -1) with false
  end; cbv iota; change (fd_set []) with (∅ : gset Z);
  repeat match goal with
  | E : fds ?x = _ |- _ => rewrite ?E in *; clear E
  end; set_solver.

(** Every failing path gives back the descriptors it opened; on success the
    context owns exactly the ones that were added. *)
Lemma hwt_ctx_alloc_post `{KernelLaws} md pid tid size backend k :
  alloc_post k (hwt_ctx_alloc md pid tid size backend k).
Proof.
  unfold hwt_ctx_alloc. destruct backend as [[|ch b]|]; [done| |done].
  case_bool; [done|].
  pose proof (open_gains "/dev/hwt" k) as G1. destruct (k_open "/dev/hwt" k) as [[ctl|] k1]; [|exact G1].
  destruct G1 as (P1 & N1 & E1). pose proof (kqueue_gains k1) as G2.
  destruct (k_kqueue k1) as [[kq|] k2]; cbn [fst snd gains] in *; [|apply alloc_post_fail; solve_owned].
  destruct G2 as (P2 & N2 & E2).
  match goal with |- context [k_alloc ctl ?a k2] =>
    pose proof (alloc_fds ctl a k2) as E3; destruct (k_alloc ctl a k2) as [[id|] k3] end;
    cbn [fst snd] in *; [|apply alloc_post_fail; solve_owned].
  pose proof (open_gains (devpath id tid) k3) as G4.
  destruct (k_open (devpath id tid) k3) as [[fd|] k4]; cbn [fst snd gains] in *.
  - destruct G4 as (P4 & N4 & E4). split_and!; [solve_owned|done|done].
  - apply alloc_post_fail. change (set_ident id (set_fds ?a ?b ?d ?c)) with (set_fds a b d (set_ident id c)).
    solve_owned.
Qed.

(** ** A whole session *)

(** The calls a command makes between allocating a context and closing it. *)
Inductive ctx_op :=
  | OpConfig (pause_on_mmap : bool) | OpStart | OpStop | OpWakeup
  | OpPoll (maxrecords : Z) (wait : bool) | OpMap | OpBufptr
  | OpSnapshot (p : string) (last_page last_offset : Z) | OpThread (thread_id : Z).

Definition run_op `{Kernel} (op : ctx_op) (st : hwt_ctx * mem * kernel) : hwt_ctx * mem * kernel :=
  let '(c, m, k) := st in
  match op with
  | OpConfig b => (c, m, (hwt_ctx_set_config c b k).2)
  | OpStart => (c, m, (hwt_ctx_start c k).2)
  | OpStop => (c, m, (hwt_ctx_stop c k).2)
  | OpWakeup => (c, m, (hwt_ctx_wakeup c k).2)
  | OpPoll n w => let '(_, m, k) := hwt_ctx_poll_records c n w m k in (c, m, k)
  | OpMap => let '(_, c, k) := hwt_ctx_map_buffer c k in (c, m, k)
  | OpBufptr => (c, m, (hwt_ctx_bufptr_get c k).2)
  | OpSnapshot p a b => let '(_, c, k) := hwt_ctx_snapshot_buffer c p a b k in (c, m, k)
  | OpThread t => let '(_, c, k) := hwt_ctx_open_thread c t k in (c, m, k)
  end.

(** The thread table: within its bound, one device a thread. *)
Definition threads_ok (c : hwt_ctx) : Prop :=
  (length (threads c) <= 64)%nat /\ NoDup (map t_thread_id (threads c)).

Definition ctx_ok `{FdTable} (before : gset Z) (c : hwt_ctx) (k : kernel) : Prop :=
  owns before c k /\ threads_ok c.

Lemma ctx_ok_fds `{FdTable} before c k k' : fds k' = fds k -> ctx_ok before c k -> ctx_ok before c k'.
Proof. intros Hf [? ?]. split; [by eapply owns_fds|done]. Qed.

Lemma map_buffer_ok `{KernelLaws} before c k :
  ctx_ok before c k ->
  let '(_, c', k') := hwt_ctx_map_buffer c k in ctx_ok before c' k' /\ threads c' = threads c.
Proof.
  intros Hok. unfold hwt_ctx_map_buffer. destruct (trace_buf c) as [p|]; [done|].
  pose proof (mmap_fds (ctx_fd c) (bufsize c) k) as E. destruct (k_mmap _ _ k) as [[p|] k1];
    (split; [|done]); (eapply ctx_ok_fds; [exact E|done]).
Qed.

Lemma write_loop_fds `{KernelLaws} fuel fd d k : fds (write_loop fuel fd d k).2 = fds k.
Proof.
  revert d k. induction fuel as [|n IH]; intros d k; [done|]. cbn [write_loop].
  destruct d as [|x d]; [done|]. pose proof (write_fds fd (x :: d) k) as E.
  destruct (k_write fd (x :: d) k) as [[nw|] k1]; [|exact E]. rewrite IH. exact E.
Qed.

(** Opening a file and closing it again leaves the table as it was. *)
Lemma open_close_fds `{KernelLaws} fd k k1 k2 :
  gains (Some fd) k k1 -> fds k2 = fds k1 -> fds (k_close fd k2) = fds k.
Proof. intros (_ & Hn & E1) E2. rewrite close_loses, E2, E1. set_solver. Qed.

(** The write loop ends, having written everything or met an error. *)
(** The loop fails only on a write that does. *)
(** A write loop that fails wrote a part of the data, and the write of the
    rest failed. *)
Lemma write_loop_failed `{WriteLaws} fuel fd d k :
  (write_loop fuel fd d k).1 = Some false ->
  exists n k', (n < length d)%nat /\ written fd k' = written fd k ++ take n d /\
    k_write fd (drop n d) k' = (None, (write_loop fuel fd d k).2).
Proof.
  revert d k. induction fuel as [|fuel IH]; intros d k; [done|]. cbn [write_loop].
  destruct d as [|x d]; [done|]. destruct (k_write fd (x :: d) k) as [[nw|] k1] eqn:E.
  - apply write_progress in E as [Hnw Hw]; [|done]. intros (n & k2 & Hn & Hk & Ek)%IH.
    rewrite length_drop in Hn. exists (nw + n)%nat, k2. split_and!; [lia| |by rewrite <- drop_drop].
    rewrite Hk, Hw, <- app_assoc, <- (take_drop nw (take (nw + n) (x :: d))).
    by rewrite take_take, Nat.min_l, skipn_firstn_comm by lia; replace (nw + n - nw)%nat with n by lia.
  - intros _. exists 0%nat, k. split_and!; [simpl; lia|by rewrite app_nil_r|done].
Qed.

Lemma write_loop_done `{WriteLaws} fuel fd d k :
  (length d < fuel)%nat ->
  match (write_loop fuel fd d k).1 with
  | Some true => written fd (write_loop fuel fd d k).2 = written fd k ++ d
  | Some false => True
  | None => False
  end.
Proof.
  revert d k. induction fuel as [|n IH]; intros d k Hl; [lia|]. cbn [write_loop].
  destruct d as [|x d]; [cbn; by rewrite app_nil_r|].
  destruct (k_write fd (x :: d) k) as [[nw|] k1] eqn:Ew; [|done].
  apply write_progress in Ew as [Hnw Hw]; [|done].
  specialize (IH (drop nw (x :: d)) k1 ltac:(rewrite length_drop; lia)).
  destruct (write_loop n fd (drop nw (x :: d)) k1) as [[[]|] k2]; try done.
  simpl in IH |- *. rewrite IH, Hw, <- app_assoc, take_drop. done.
Qed.

Lemma snapshot_ok `{KernelLaws} `{!WriteLaws} before c p a b k :
  ctx_ok before c k ->
  let '(r, c', k') := hwt_ctx_snapshot_buffer c p a b k in
  r <> None /\ ctx_ok before c' k' /\ threads c' = threads c.
Proof.
  intros Hok. unfold hwt_ctx_snapshot_buffer. case_bool; [done|].
  pose proof (map_buffer_ok before c k Hok) as Hm.
  destruct (hwt_ctx_map_buffer c k) as [[[buf|] c1] k1]; [|by destruct Hm].
  destruct Hm as [Hok1 Ht]. cbv zeta.
  generalize (if bufsize c1 <? u64 (a * PAGE_SIZE + b) then bufsize c1 else u64 (a * PAGE_SIZE + b)).
  intros n. case_bool; [done|]. pose proof (open_gains p k1) as G.
  destruct (k_open p k1) as [[fd|] k2]; [|split_and!; [done|eapply ctx_ok_fds; [exact G|done]|done]].
  match goal with |- context [write_loop (S (length ?d)) fd ?d k2] =>
    pose proof (write_loop_done (S (length d)) fd d k2 ltac:(lia)) as Hd;
    pose proof (write_loop_fds (S (length d)) fd d k2) as Hf;
    destruct (write_loop (S (length d)) fd d k2) as [[ok|] k3]; [|done]
  end.
  split_and!; [done| |done]. eapply ctx_ok_fds; [by eapply open_close_fds|done].
Qed.

Lemma NoDup_snoc_notin {A} (l : list A) x : NoDup l -> x ∉ l -> NoDup (l ++ [x]).
Proof.
  intros Hl Hx. apply NoDup_app. split_and!; [done| |apply NoDup_singleton].
  intros y Hy ->%list_elem_of_singleton. done.
Qed.

Lemma open_thread_ok `{KernelLaws} before c t k :
  ctx_ok before c k ->
  let '(_, c', k') := hwt_ctx_open_thread c t k in ctx_ok before c' k'.
Proof.
  intros Hok. unfold hwt_ctx_open_thread. case_bool; [done|]. case_bool; [done|].
  pose proof (open_gains (devpath (ident c) t) k) as G.
  destruct (k_open _ k) as [[fd|] k1]; [|eapply ctx_ok_fds; [exact G|done]].
  destruct G as (Hp & Hn & Hk), Hok as ([Hf Hd] & Hl & Hnd). simpl in Hn, Hk.
  assert (Hc : ctx_fds (set_bufs (trace_buf c)
      (threads c ++ [{| t_fd := fd; t_thread_id := t; t_trace_buf := None |}]) c) =
    ctx_fds c ∪ {[ fd ]}).
  { unfold ctx_fds. cbn [set_bufs ctl_fd ctx_fd kq_fd threads].
    rewrite map_app, !app_comm_cons, List.filter_app, list_to_set_app_L.
    cbn [map List.filter t_fd]. rewrite (proj2 (Z.leb_le 0 fd) Hp). cbn. set_solver. }
  split; [split; rewrite Hc; set_solver|]. split; cbn [set_bufs threads].
  - rewrite length_app. simpl. unfold MAX_THREADS in E. to_prop. lia.
  - rewrite map_app. apply NoDup_snoc_notin; [done|]. simpl. intros Hin.
    apply list_elem_of_fmap in Hin as (th & -> & Hin).
    assert (existsb (fun t0 => t_thread_id t0 =? t_thread_id th) (threads c) = true) as Hex; [|congruence].
    apply existsb_exists. exists th. split; [by apply list_elem_of_In|apply Z.eqb_refl].
Qed.

Lemma run_op_ok `{KernelLaws} `{!WriteLaws} before op c m k :
  ctx_ok before c k ->
  let '(c', _, k') := run_op op (c, m, k) in ctx_ok before c' k'.
Proof.
  intros Hok. destruct op; simpl.
  - eapply ctx_ok_fds; [|exact Hok]. unfold hwt_ctx_set_config, hwt_ctx_set_config_on_fd.
    repeat case_bool; [done|apply set_config_fds|done].
  - eapply ctx_ok_fds; [apply start_fds|done].
  - unfold hwt_ctx_stop. case_bool; [done|]. eapply ctx_ok_fds; [apply stop_fds|done].
  - eapply ctx_ok_fds; [apply wakeup_fds|done].
  - unfold hwt_ctx_poll_records. destruct (malloc m) as [[l|] m1]; [|done].
    match goal with |- context [k_record_get ?f ?n ?w k] =>
      pose proof (record_get_fds f n w k) as E; destruct (k_record_get f n w k) as [r k1] end.
    by eapply ctx_ok_fds.
  - pose proof (map_buffer_ok before c k Hok) as Hm.
    destruct (hwt_ctx_map_buffer c k) as [[r c1] k1]. apply Hm.
  - eapply ctx_ok_fds; [apply bufptr_fds|done].
  - pose proof (snapshot_ok before c p last_page last_offset k Hok) as Hm.
    destruct (hwt_ctx_snapshot_buffer c p last_page last_offset k) as [[r c1] k1]. apply Hm.
  - pose proof (open_thread_ok before c thread_id k Hok) as Hm.
    by destruct (hwt_ctx_open_thread c thread_id k) as [[r c1] k1].
Qed.

Definition run_ops `{Kernel} (ops : list ctx_op) (st : hwt_ctx * mem * kernel) :
    hwt_ctx * mem * kernel := foldl (fun st op => run_op op st) st ops.

Lemma run_ops_ok `{KernelLaws} `{!WriteLaws} before ops c m k :
  ctx_ok before c k ->
  let '(c', _, k') := run_ops ops (c, m, k) in ctx_ok before c' k'.
Proof.
  revert c m k. induction ops as [|op ops IH]; intros c m k Hok; [done|].
  change (run_ops (op :: ops) ?st) with (run_ops ops (run_op op st)).
  pose proof (run_op_ok before op c m k Hok) as Hop.
  destruct (run_op op (c, m, k)) as [[c1 m1] k1]. by apply IH.
Qed.

(** C6: No descriptor leaks: whatever is done with a context, and however its
    allocation fails, the descriptors that are open after it is closed are
    those that were open before; meanwhile the thread table stays within its
    64 slots without opening a thread twice. *)
Theorem session_no_leak `{KernelLaws} `{!WriteLaws} md pid tid size backend ops m k :
  let '(ok, c, k1) := hwt_ctx_alloc md pid tid size backend k in
  if ok then
    let '(c2, _, k2) := run_ops ops (c, m, k1) in
    threads_ok c2 /\ fds (hwt_ctx_close c2 k2).2 = fds k
  else fds k1 = fds k.
Proof.
  pose proof (hwt_ctx_alloc_post md pid tid size backend k) as Ha.
  destruct (hwt_ctx_alloc md pid tid size backend k) as [[[] c] k1]; [|exact Ha].
  destruct Ha as (Ho & _ & Ht).
  assert (Hok : ctx_ok (fds k) c k1).
  { split; [done|]. unfold threads_ok. rewrite Ht. split; [simpl; lia|constructor]. }
  pose proof (run_ops_ok (fds k) ops c m k1 Hok) as Hr.
  destruct (run_ops ops (c, m, k1)) as [[c2 m2] k2]. destruct Hr as [Ho2 Ht2].
  split; [done|by apply close_owned].
Qed.

(** ** Configuration *)

(** The control word: user tracing and branches always, each optional bit
    exactly when its option is on, nothing else. *)
Theorem pt_config_bits c i :
  0 <= i ->
  Z.testbit (rtit_ctl (pt_config c)) i =
    ((i =? 3) || (i =? 13) || (ptwrite c && ((i =? 12) || (i =? 5))) || (os_trace c && (i =? 2)) ||
     (((0 <? mtc_freq c) || (0 <? cyc_thresh c)) && (i =? 10)))%bool.
Proof.
  intros Hi. cbn [pt_config rtit_ctl].
  unfold RTIT_CTL_USER, RTIT_CTL_BRANCHEN, RTIT_CTL_PTWEN, RTIT_CTL_FUPONPTW, RTIT_CTL_OS, RTIT_CTL_TSCEN.
  assert (Hbit : forall n, 0 <= n -> Z.testbit (Z.shiftl 1 n) i = (i =? n)).
  { intros n Hn. rewrite Z.shiftl_1_l, Z.pow2_bits_eqb by lia. apply Z.eqb_sym. }
  repeat case_bool; to_prop; rewrite ?Z.lor_spec, ?Hbit by lia; simpl; 
    repeat (rewrite ?orb_false_r, ?andb_false_l, ?andb_true_l, ?orb_assoc); try done.
Qed.

(** The bytes of a PT configuration only ever reach the PT backend. *)
Theorem set_config_only_pt `{Kernel} c b k :
  backend_name c <> "pt" -> hwt_ctx_set_config c b k = (false, k).
Proof. intros Hn. unfold hwt_ctx_set_config. case_bool; [done|]. case_bool; to_prop; [done|done]. Qed.

(** ** Buffer size *)

(** The size asked for is rounded up to whole pages, by less than a page. *)
Theorem round_bufsize_spec n :
  0 < n <= two64 - PAGE_SIZE ->
  n <= round_bufsize n < n + PAGE_SIZE /\ round_bufsize n mod PAGE_SIZE = 0.
Proof.
  intros Hn. unfold round_bufsize. replace (n =? 0) with false by lia.
  fold (trunc_page (u64 (n + PAGE_SIZE - 1))). rewrite trunc_page_spec.
  unfold PAGE_SIZE in *. rewrite (u64_small (n + 4096 - 1)) by (unfold is_u64; lia).
  pose proof (Z.div_mod (n + 4096 - 1) 4096). pose proof (Z.mod_pos_bound (n + 4096 - 1) 4096).
  rewrite u64_small by (unfold is_u64; lia).
  split; [lia|]. replace (n + 4096 - 1 - (n + 4096 - 1) mod 4096)
    with ((n + 4096 - 1) / 4096 * 4096) by lia. apply Z_mod_mult.
Qed.

(** ** Timing *)

Lemma land_bit b i : 0 <= i -> negb (Z.land b (Z.shiftl 1 i) =? 0) = Z.testbit b i.
Proof.
  intros Hi. rewrite Z.shiftl_1_l.
  destruct (Z.testbit b i) eqn:E.
  - apply negb_true_iff, Z.eqb_neq. intros Hz.
    assert (Z.testbit (Z.land b (2 ^ i)) i = false) as Hb by (rewrite Hz; apply Z.bits_0).
    rewrite Z.land_spec, E, Z.pow2_bits_true in Hb by lia. done.
  - apply negb_false_iff, Z.eqb_eq. apply Z.bits_inj'. intros n Hn.
    rewrite Z.land_spec, Z.bits_0, Z.pow2_bits_eqb by lia.
    destruct (Z.eqb_spec i n) as [<-|]; [by rewrite E|by rewrite andb_false_r].
Qed.

Lemma lowest_from_spec b i n :
  1 <= i ->
  let r := lowest_from b i n in
  (r = 0 /\ forall j, i <= j < i + Z.of_nat n -> Z.testbit b j = false) \/
  (i <= r < i + Z.of_nat n /\ Z.testbit b r = true /\ forall j, i <= j < r -> Z.testbit b j = false).
Proof.
  revert i. induction n as [|n IH]; intros i Hi; cbn zeta; cbn [lowest_from].
  { left. split; [done|lia]. }
  rewrite land_bit by lia. destruct (Z.testbit b i) eqn:E.
  - right. split_and!; [lia|lia|done|lia].
  - destruct (IH (i + 1) ltac:(lia)) as [[-> H]|(H1 & H2 & H3)]; [left|right].
    + split; [done|]. intros j Hj. destruct (decide (j = i)) as [->|]; [done|]. apply H. lia.
    + split_and!; [lia|lia|done|]. intros j Hj. destruct (decide (j = i)) as [->|]; [done|]. apply H3. lia.
Qed.

(** The default timing encodings are the lowest supported ones above the
    "off" encoding 0: MTC in EAX[31:16], CYC in EBX[15:0]. *)
Theorem default_timing_lowest `{SysInfo} :
  let lowest r bit := (r = 0 /\ forall j, 1 <= j < 16 -> Z.testbit (fst bit) (snd bit + j) = false) \/
    (1 <= r < 16 /\ Z.testbit (fst bit) (snd bit + r) = true /\
     forall j, 1 <= j < r -> Z.testbit (fst bit) (snd bit + j) = false) in
  lowest (fst hwt_pt_default_timing) (fst cpuid_14_1, 16) /\
  lowest (snd hwt_pt_default_timing) (snd cpuid_14_1, 0).
Proof.
  unfold hwt_pt_default_timing. destruct cpuid_14_1 as [eax ebx]. cbn [fst snd].
  assert (Hm : forall x j, 0 <= j < 16 -> Z.testbit (Z.land x 65535) j = Z.testbit x j).
  { intros x j Hj. change 65535 with (Z.ones 16). rewrite Z.land_spec, Z.ones_spec_low by lia.
    apply andb_true_r. }
  assert (Hs : forall j, 0 <= j -> Z.testbit (Z.shiftr eax 16) j = Z.testbit eax (16 + j)).
  { intros j Hj. rewrite Z.shiftr_spec by lia. f_equal. lia. }
  split.
  - destruct (lowest_from_spec (Z.land (Z.shiftr eax 16) 65535) 1 15 ltac:(lia))
      as [[-> L]|(L1 & L2 & L3)]; [left|right].
    + split; [done|]. intros j Hj. rewrite <- Hs, <- Hm by lia. apply L. lia.
    + rewrite <- Hs, <- Hm by lia. split_and!; [lia|lia|done|].
      intros j Hj. rewrite <- Hs, <- Hm by lia. apply L3. lia.
  - destruct (lowest_from_spec (Z.land ebx 65535) 1 15 ltac:(lia))
      as [[-> L]|(L1 & L2 & L3)]; [left|right]; rewrite ?Z.add_0_l.
    + split; [done|]. intros j Hj. rewrite Z.add_0_l, <- Hm by lia. apply L. lia.
    + rewrite <- Hm by lia. split_and!; [lia|lia|done|].
      intros j Hj. rewrite Z.add_0_l, <- Hm by lia. apply L3. lia.
Qed.

(** ** Snapshot *)

(** The mapping a snapshot reads: the one at hand, or a new one. *)
Definition mapping `{Kernel} (c : hwt_ctx) (k : kernel) : option Z * kernel :=
  match trace_buf c with Some buf => (Some buf, k) | None => k_mmap (ctx_fd c) (bufsize c) k end.

(** C36: A snapshot ends, across partial writes, in one of three ways: it saved
    the first [last_page * PAGE_SIZE + last_offset] bytes of the mapping,
    never past the buffer, in full, and closed the file; there was nothing to
    save; or it returns -1, because the mapping or the open failed, or because
    after a part of those bytes the write of the rest failed, and then too the
    file is closed. *)
Theorem snapshot_saves_prefix `{WriteLaws} c p page off k :
  0 <= bufsize c ->
  let total := Z.min (u64 (page * PAGE_SIZE + off)) (bufsize c) in
  exists n c' k', hwt_ctx_snapshot_buffer c p page off k = (Some n, c', k') /\
    (n = 0 /\ (page < 0 \/ total = 0) \/
     n = -1 /\ ((mapping c k).1 = None \/ (k_open p (mapping c k).2).1 = None) \/
     exists buf k1 fd k2, mapping c k = (Some buf, k1) /\ k_open p k1 = (Some fd, k2) /\
       0 <= page /\ 0 < total /\
       let data := take (Z.to_nat total) (k_bytes buf k2) in
       exists k3, k' = k_close fd k3 /\
         (n = total /\ written fd k3 = written fd k2 ++ data \/
          n = -1 /\ exists i ki, (i < length data)%nat /\ written fd ki = written fd k2 ++ take i data /\
                    k_write fd (drop i data) ki = (None, k3))).
Proof.
  intros Hb total. unfold hwt_ctx_snapshot_buffer.
  destruct (page <? 0) eqn:Ep; to_prop; [eexists _, _, _; split; [done|]; auto|].
  assert (Hm : exists r c1 k1, hwt_ctx_map_buffer c k = (r, c1, k1) /\ mapping c k = (r, k1) /\ bufsize c1 = bufsize c).
  { unfold hwt_ctx_map_buffer, mapping. destruct (trace_buf c) as [buf|]; [by eexists _, _, _|].
    by destruct (k_mmap _ _ k) as [[buf|] k1]; eexists _, _, _. }
  destruct Hm as (r & c1 & k1 & -> & -> & ->). destruct r as [buf|]; [|eexists _, _, _; split; [done|]; auto].
  assert (Ht : (if bufsize c <? u64 (page * PAGE_SIZE + off) then bufsize c
                else u64 (page * PAGE_SIZE + off)) = total) by (subst total; case_bool; to_prop; lia).
  cbv zeta. rewrite Ht. clear Ht. pose proof (u64_range (page * PAGE_SIZE + off)) as Hu. unfold is_u64 in Hu.
  destruct (total =? 0) eqn:E0; to_prop; [eexists _, _, _; split; [done|]; auto|].
  cbn [fst snd]. destruct (k_open p k1) as [[fd|] k2] eqn:Eo;
    [|eexists _, _, _; split; [done|]; auto].
  set (data := take (Z.to_nat total) (k_bytes buf k2)).
  pose proof (write_loop_done (S (length data)) fd data k2 ltac:(lia)) as Hd.
  pose proof (write_loop_failed (S (length data)) fd data k2) as Hf.
  destruct (write_loop (S (length data)) fd data k2) as [[[]|] k3]; [..|done].
  all: eexists _, _, _; (split; [done|]); right; right; exists buf, k1, fd, k2;
    (split_and!; [done|done|lia|lia|]); exists k3; (split; [done|]).
  - by left.
  - right. split; [done|]. by apply Hf.
Qed.

(** ** Records *)

(** The fields outside the record type's own are zero. *)
Definition own_fields (r : bsdtrace_record) : Prop :=
  match r_type r with
  | HWT_RECORD_MMAP | HWT_RECORD_EXECUTABLE | HWT_RECORD_KERNEL =>
      r_buf_id r = 0 /\ r_curpage r = 0 /\ r_offset r = 0 /\ r_thread_id r = 0 /\
      (String.length (r_fullpath r) <= 1023)%nat
  | HWT_RECORD_MUNMAP => r = {| r_type := HWT_RECORD_MUNMAP; r_fullpath := ""; r_addr := r_addr r;
      r_baseaddr := 0; r_buf_id := 0; r_curpage := 0; r_offset := 0; r_thread_id := 0 |}
  | HWT_RECORD_BUFFER | HWT_RECORD_OVERFLOW =>
      r_fullpath r = EmptyString /\ r_addr r = 0 /\ r_baseaddr r = 0 /\ r_thread_id r = 0
  | HWT_RECORD_THREAD_CREATE | HWT_RECORD_THREAD_SET_NAME =>
      r = {| r_type := r_type r; r_fullpath := EmptyString; r_addr := 0; r_baseaddr := 0;
             r_buf_id := 0; r_curpage := 0; r_offset := 0; r_thread_id := r_thread_id r |}
  | HWT_RECORD_OTHER _ => r = record0 (r_type r)
  end.

Lemma convert_entry_own e : own_fields (convert_entry e) /\ r_type (convert_entry e) = e_record_type e.
Proof.
  unfold convert_entry, own_fields. destruct (e_record_type e) eqn:E; simpl; split; auto;
    split_and!; auto; unfold strlcpy; rewrite str_take_length; change MAXPATHLEN with 1024%nat; lia.
Qed.

(** A poll asks for at most the 1024 entries the kernel accepts and returns
    one record for each entry, in order, with the entry's type and none of
    the other views' data. *)
Theorem poll_records_spec `{Kernel} c n wait m k rs m' k' :
  hwt_ctx_poll_records c n wait m k = (Some rs, m', k') ->
  exists entries, k_record_get (ctx_fd c) (Z.min n 1024) wait k = (Some entries, k') /\
    map r_type rs = map e_record_type entries /\ Forall own_fields rs.
Proof.
  unfold hwt_ctx_poll_records. destruct (malloc m) as [[l|] m1]; [|done].
  replace (if 1024 <? n then 1024 else n) with (Z.min n 1024) by (case_bool; to_prop; lia).
  destruct (k_record_get _ _ _ k) as [[es|] k1] eqn:E; [|done]. intros [= <- <- <-].
  exists es. split; [done|]. split.
  - rewrite map_map. apply map_ext. intros e. apply convert_entry_own.
  - apply Forall_map, Forall_true. intros e. apply convert_entry_own.
Qed.
