(* ===== verification/Trace.v ===== *)
(** trace.c, first part: the trace state that both commands accumulate while
    polling records, and the drain after tracing stops.

    The state keeps the image sections, the extent of the PT buffer and the
    sidecar writer; [sections_cap] is the capacity of the section array. *)

From Stdlib Require Import ZArith Lia Ascii String.
From stdpp Require Import base list strings sets gmap sorting.
From S2P Require Import Prelude CLib Types Format Meta Resolve Hwt.

Definition POST_STOP_MAX_RECORDS : Z := 256.
Definition POST_STOP_EMPTY_POLLS : nat := 40.

Record trace_state := {
  ts_sections : list pt_image_info;
  sections_cap : Z;
  ts_meta : meta_writer;
  last_buf_page : Z;
  max_buf_page : Z;
  last_buf_offset : Z;
  buf_wrapped : bool;
  overflow_count : Z;
}.

(** * Operations *)

Definition with_sections (ss : list pt_image_info) (cap : Z) (ts : trace_state) : trace_state :=
  {| ts_sections := ss; sections_cap := cap; ts_meta := ts_meta ts;
     last_buf_page := last_buf_page ts; max_buf_page := max_buf_page ts;
     last_buf_offset := last_buf_offset ts; buf_wrapped := buf_wrapped ts;
     overflow_count := overflow_count ts |}.

Definition with_meta (mw : meta_writer) (ts : trace_state) : trace_state :=
  {| ts_sections := ts_sections ts; sections_cap := sections_cap ts; ts_meta := mw;
     last_buf_page := last_buf_page ts; max_buf_page := max_buf_page ts;
     last_buf_offset := last_buf_offset ts; buf_wrapped := buf_wrapped ts;
     overflow_count := overflow_count ts |}.

Definition trace_state_init (mw : meta_writer) : trace_state :=
  {| ts_sections := []; sections_cap := 0; ts_meta := mw; last_buf_page := -1;
     max_buf_page := -1; last_buf_offset := 0; buf_wrapped := false; overflow_count := 0 |}.

(** 0, or -1 with the state unchanged. *)
Definition trace_state_add_section (ts : trace_state) (p : string) (la ba : Z)
    (ty : hwt_record_type) (m : mem) : Z * trace_state * mem :=
  if String.eqb p EmptyString then (-1, ts, m)
  else
    let s := {| path := strlcpy MAXPATHLEN p; load_addr := la; base_addr := ba; type := ty |} in
    if sections_cap ts <=? Z.of_nat (length (ts_sections ts)) then
      let '(r, m) := malloc m in
      match r with
      | None => (-1, ts, m)
      | Some _ => (0, with_sections (ts_sections ts ++ [s]) (grow 32 (sections_cap ts)) ts, m)
      end
    else (0, with_sections (ts_sections ts ++ [s]) (sections_cap ts) ts, m).

Definition trace_state_reset_sections (ts : trace_state) : trace_state := with_sections [] 0 ts.

(** The BUFFER branch. *)
Definition note_buffer (ts : trace_state) (rec : bsdtrace_record) : trace_state :=
  {| ts_sections := ts_sections ts; sections_cap := sections_cap ts; ts_meta := ts_meta ts;
     last_buf_page := r_curpage rec;
     max_buf_page := if max_buf_page ts <? r_curpage rec then r_curpage rec else max_buf_page ts;
     last_buf_offset := r_offset rec;
     buf_wrapped := if (0 <=? max_buf_page ts) && (r_curpage rec <? max_buf_page ts) then true
                    else buf_wrapped ts;
     overflow_count := overflow_count ts |}.

(** The OVERFLOW branch. *)
Definition note_overflow (ts : trace_state) : trace_state :=
  {| ts_sections := ts_sections ts; sections_cap := sections_cap ts; ts_meta := ts_meta ts;
     last_buf_page := last_buf_page ts; max_buf_page := max_buf_page ts;
     last_buf_offset := last_buf_offset ts; buf_wrapped := buf_wrapped ts;
     overflow_count := overflow_count ts + 1 |}.

Definition is_image (ty : hwt_record_type) : bool :=
  type_eqb ty HWT_RECORD_EXECUTABLE || type_eqb ty HWT_RECORD_MMAP || type_eqb ty HWT_RECORD_KERNEL.

Definition trace_state_process (ts : trace_state) (rec : bsdtrace_record) (m : mem)
    : trace_state * mem :=
  let ts := with_meta (meta_writer_record (ts_meta ts) rec) ts in
  let ts := if type_eqb (r_type rec) HWT_RECORD_BUFFER then note_buffer ts rec else ts in
  let ts := if type_eqb (r_type rec) HWT_RECORD_OVERFLOW then note_overflow ts else ts in
  if is_image (r_type rec) && negb (String.eqb (r_fullpath rec) EmptyString) then
    let ts := if type_eqb (r_type rec) HWT_RECORD_EXECUTABLE
              then trace_state_reset_sections ts else ts in
    let '(_, ts, m) := trace_state_add_section ts (r_fullpath rec) (r_addr rec)
                         (r_baseaddr rec) (r_type rec) m in
    (ts, m)
  else (ts, m).

Fixpoint process_all (ts : trace_state) (recs : list bsdtrace_record) (m : mem)
    : trace_state * mem :=
  match recs with
  | [] => (ts, m)
  | rec :: recs => let '(ts, m) := trace_state_process ts rec m in process_all ts recs m
  end.

Fixpoint add_all (ts : trace_state) (ss : list pt_image_info) (m : mem) : trace_state * mem :=
  match ss with
  | [] => (ts, m)
  | s :: ss =>
      let '(_, ts, m) :=
        trace_state_add_section ts (path s) (load_addr s) (base_addr s) (type s) m in
      add_all ts ss m
  end.

Definition trace_state_seed_process_mmaps `{ProcInfo} (ts : trace_state) (pid : Z) (m : mem)
    : Z * trace_state * mem :=
  let '(r, m) := process_exec_mmaps pid m in
  match r with
  | None => (-1, ts, m)
  | Some [] => (0, ts, m)
  | Some ss =>
      let '(ts, m) := add_all (with_meta (meta_writer_sections (ts_meta ts) ss) ts) ss m in
      (0, ts, m)
  end.

Definition trace_state_free (ts : trace_state) : trace_state := trace_state_reset_sections ts.

(** [while (empty_polls < POST_STOP_EMPTY_POLLS)]; [None] when the fuel runs
    out. *)
Fixpoint drain_loop `{Kernel} (fuel empty_polls : nat) (total : Z) (c : hwt_ctx)
    (ts : trace_state) (m : mem) (k : kernel) : option (Z * trace_state * mem * kernel) :=
  match fuel with
  | O => None
  | S fuel =>
      if (POST_STOP_EMPTY_POLLS <=? empty_polls)%nat then Some (total, ts, m, k)
      else
        let '(r, m, k) := hwt_ctx_poll_records c POST_STOP_MAX_RECORDS false m k in
        match r with
        | None => Some (total, ts, m, k)
        | Some [] => drain_loop fuel (S empty_polls) total c ts m k
        | Some recs =>
            let '(ts, m) := process_all ts recs m in
            drain_loop fuel 0 (total + Z.of_nat (length recs)) c ts m k
        end
  end.

Definition trace_state_drain_post_stop `{Kernel} (fuel : nat) (c : hwt_ctx) (ts : trace_state)
    (m : mem) (k : kernel) : option (Z * trace_state * mem * kernel) :=
  drain_loop fuel 0 0 c ts m k.

(** * Properties *)

(** ** Sections *)

(** The section of a record, when it carries an image. *)
Definition record_section (rec : bsdtrace_record) : list pt_image_info :=
  if is_image (r_type rec) && negb (String.eqb (r_fullpath rec) EmptyString)
  then [{| path := strlcpy MAXPATHLEN (r_fullpath rec); load_addr := r_addr rec;
           base_addr := r_baseaddr rec; type := r_type rec |}]
  else [].

(** Array invariant: the sections fit the capacity, and an EXEC only starts
    the array. *)
Definition ts_ok (ts : trace_state) : Prop :=
  Z.of_nat (length (ts_sections ts)) <= sections_cap ts /\ exec_at_head (ts_sections ts).

Lemma add_section_ok ts p la ba ty m :
  mem_ok m -> p <> EmptyString ->
  exists ts' m', trace_state_add_section ts p la ba ty m = (0, ts', m') /\ mem_ok m' /\
    ts_sections ts' = ts_sections ts ++
      [{| path := strlcpy MAXPATHLEN p; load_addr := la; base_addr := ba; type := ty |}] /\
    ts_meta ts' = ts_meta ts.
Proof.
  intros Hm Hp. unfold trace_state_add_section. apply String.eqb_neq in Hp. rewrite Hp.
  case_bool; [|by eexists _, m]. destruct (malloc_ok m Hm) as (m1 & -> & _ & Hm1).
  by eexists _, m1.
Qed.

(** Adding keeps the array within its capacity, whether or not memory is
    available; a failure changes nothing. *)
Lemma add_section_cap ts p la ba ty m :
  0 <= sections_cap ts -> Z.of_nat (length (ts_sections ts)) <= sections_cap ts ->
  let '(rc, ts', _) := trace_state_add_section ts p la ba ty m in
  0 <= sections_cap ts' /\ Z.of_nat (length (ts_sections ts')) <= sections_cap ts' /\
  (rc <> 0 -> ts' = ts) /\
  (rc = 0 -> ts_sections ts' = ts_sections ts ++
    [{| path := strlcpy MAXPATHLEN p; load_addr := la; base_addr := ba; type := ty |}]).
Proof.
  intros H0 Hc. unfold trace_state_add_section. case_bool; [naive_solver|].
  pose proof (grow_gt 32 (sections_cap ts) ltac:(lia) H0) as Hg. case_bool; to_prop.
  - destruct (malloc m) as [[l|] m1]; [|naive_solver].
    simpl. rewrite length_app. simpl. split_and!; [lia|lia|done|done].
  - simpl. rewrite length_app. simpl. split_and!; [lia|lia|done|done].
Qed.

Definition cap_ok (ts : trace_state) : Prop :=
  0 <= sections_cap ts /\ Z.of_nat (length (ts_sections ts)) <= sections_cap ts.

Lemma process_sections ts rec m :
  mem_ok m ->
  exists ts' m', trace_state_process ts rec m = (ts', m') /\ mem_ok m' /\
    ts_sections ts' = foldl then_section (ts_sections ts) (record_section rec) /\
    ts_meta ts' = meta_writer_record (ts_meta ts) rec.
Proof.
  intros Hm. unfold trace_state_process, record_section.
  destruct (is_image (r_type rec) && negb (String.eqb (r_fullpath rec) EmptyString)) eqn:E.
  - apply andb_true_iff in E as [_ Hp%negb_true_iff%String.eqb_neq].
    match goal with |- context [trace_state_add_section ?t _ _ _ _ m] =>
      destruct (add_section_ok t (r_fullpath rec) (r_addr rec) (r_baseaddr rec) (r_type rec) m Hm Hp)
        as (ts' & m' & -> & Hm' & Hs & Hmeta) end.
    exists ts', m'. split_and!; [done|done| |].
    + rewrite Hs. unfold foldl, then_section. cbn [type]. by destruct (r_type rec).
    + rewrite Hmeta. by destruct (r_type rec).
  - exists (if type_eqb (r_type rec) HWT_RECORD_OVERFLOW
            then note_overflow (if type_eqb (r_type rec) HWT_RECORD_BUFFER
              then note_buffer (with_meta (meta_writer_record (ts_meta ts) rec) ts) rec
              else with_meta (meta_writer_record (ts_meta ts) rec) ts)
            else if type_eqb (r_type rec) HWT_RECORD_BUFFER
              then note_buffer (with_meta (meta_writer_record (ts_meta ts) rec) ts) rec
              else with_meta (meta_writer_record (ts_meta ts) rec) ts), m.
    split_and!; [done|done| |]; by destruct (r_type rec).
Qed.

(** Whatever fails, the array stays within its capacity with an EXEC only at
    its head. *)
Lemma process_ok ts rec m :
  cap_ok ts -> exec_at_head (ts_sections ts) ->
  cap_ok (trace_state_process ts rec m).1 /\ exec_at_head (ts_sections (trace_state_process ts rec m).1).
Proof.
  intros Hc Hh. unfold trace_state_process.
  destruct (is_image (r_type rec) && negb (String.eqb (r_fullpath rec) EmptyString));
    [|by destruct (r_type rec)].
  match goal with |- context [trace_state_add_section ?t ?p ?a ?b ?ty m] =>
    assert (Ht : cap_ok t /\ (if type_eqb (r_type rec) HWT_RECORD_EXECUTABLE then ts_sections t = []
                              else ts_sections t = ts_sections ts))
      by (destruct (r_type rec); (split; [unfold cap_ok in *; simpl; lia|done]));
    pose proof (add_section_cap t p a b ty m (proj1 (proj1 Ht)) (proj2 (proj1 Ht))) as Ha;
    destruct Ht as [Ht Hts];
    destruct (trace_state_add_section t p a b ty m) as [[rc t'] m'] end.
  destruct Ha as (Hc0 & Hc1 & Hfail & Hsucc). cbn [fst]. split; [by split|].
  destruct (decide (rc = 0)) as [->|Hrc].
  - rewrite Hsucc by done. destruct (type_eqb (r_type rec) HWT_RECORD_EXECUTABLE) eqn:E; rewrite Hts.
    + constructor.
    + pose proof (exec_at_head_then (ts_sections ts)
        {| path := strlcpy MAXPATHLEN (r_fullpath rec); load_addr := r_addr rec;
           base_addr := r_baseaddr rec; type := r_type rec |} Hh) as Hthen.
      unfold then_section in Hthen. cbn [type] in Hthen. by rewrite E in Hthen.
  - rewrite Hfail by done. case_bool_in Hts; rewrite Hts; [constructor|done].
Qed.

Lemma process_all_ok recs ts m :
  cap_ok ts -> exec_at_head (ts_sections ts) ->
  cap_ok (process_all ts recs m).1 /\ exec_at_head (ts_sections (process_all ts recs m).1).
Proof.
  revert ts m. induction recs as [|rec recs IH]; intros ts m Hc Hh; [done|]. simpl.
  pose proof (process_ok ts rec m Hc Hh) as [Hc1 Hh1].
  destruct (trace_state_process ts rec m) as [ts1 m1]. by apply IH.
Qed.

Lemma process_all_sections recs ts m :
  mem_ok m ->
  exists ts' m', process_all ts recs m = (ts', m') /\ mem_ok m' /\
    ts_sections ts' = foldl then_section (ts_sections ts) (concat (map record_section recs)) /\
    ts_meta ts' = foldl meta_writer_record (ts_meta ts) recs.
Proof.
  revert ts m. induction recs as [|rec recs IH]; intros ts m Hm; [by exists ts, m|]. simpl.
  destruct (process_sections ts rec m Hm) as (t1 & m1 & -> & Hm1 & Hs1 & Hw1).
  destruct (IH t1 m1 Hm1) as (t2 & m2 & -> & Hm2 & Hs2 & Hw2).
  exists t2, m2. split_and!; [done|done| |].
  - rewrite Hs2, Hs1. by rewrite foldl_app.
  - by rewrite Hw2, Hw1.
Qed.

(** ** Live and offline decoding agree *)

(** A record as the kernel delivers it whose path the sidecar can hold. *)
Definition recordable (rec : bsdtrace_record) : Prop :=
  record_wf rec /\ (r_fullpath rec = EmptyString \/ plain_path (r_fullpath rec)).

(** The sidecar's lines describe the sections in memory. *)
Definition synced (mw : meta_writer) (ss : list pt_image_info) : Prop :=
  exists ls, mw = Some (cat ls) /\ all_lines 1200 ls /\ sections_of ls [] = ss.

Lemma sections_of_app a b acc : sections_of (a ++ b) acc = sections_of b (sections_of a acc).
Proof.
  revert acc. induction a as [|l a IH]; intros acc; [done|]. cbn [sections_of app].
  destruct (scan_section l) as [[[[ty p] x] y]|]; [case_bool|]; apply IH.
Qed.

Lemma synced_put mw ss ls :
  synced mw ss -> all_lines 1200 ls -> synced (put mw (cat ls)) (sections_of ls ss).
Proof.
  intros (l0 & -> & Hl & Hs) Hls. exists (l0 ++ ls). split_and!.
  - by rewrite cat_app.
  - by apply Forall_app_2.
  - by rewrite sections_of_app, Hs.
Qed.

(** An image record without a path leaves a line that the reader skips. *)
Lemma empty_path_line ty a b :
  section_kind ty -> is_u64 a -> is_u64 b ->
  is_line 1200 (section_line ty EmptyString a b) /\ scan_section (section_line ty EmptyString a b) = None.
Proof.
  intros Ht Ha Hb. split; [|destruct Ht as [->|[->| ->]]; reflexivity].
  pose proof (fmt_x_length a Ha). pose proof (fmt_x_length b Hb).
  assert (no_newline (fmt_x a) = true) by (apply fmt_x_no_newline; apply Ha).
  assert (no_newline (fmt_x b) = true) by (apply fmt_x_no_newline; apply Hb).
  assert (no_newline ty = true /\ (String.length ty <= 6)%nat) as [? ?].
  { destruct Ht as [->|[->| ->]]; split; (reflexivity || (simpl; lia)). }
  unfold section_line. change (json_escape MAXPATHLEN EmptyString) with EmptyString.
  solve_line (dq "{'type':'" +:+ ty +:+ dq "','path':'" +:+ EmptyString +:+ dq "','addr':'0x" +:+ fmt_x a
    +:+ dq "','base':'0x" +:+ fmt_x b +:+ dq "'}").
Qed.

Lemma put_one mw l : put mw l = put mw (cat [l]).
Proof. unfold put. simpl. by rewrite str_app_nil_r. Qed.

Lemma put_nothing mw : put mw EmptyString = mw.
Proof. unfold put. destruct mw; simpl; [by rewrite str_app_nil_r|done]. Qed.

Lemma image_line_synced mw ss rec ty :
  record_wf rec -> r_fullpath rec = EmptyString \/ plain_path (r_fullpath rec) ->
  is_image (r_type rec) = true -> ty = section_type_name (r_type rec) -> synced mw ss ->
  synced (put mw (section_line ty (r_fullpath rec) (r_addr rec) (r_baseaddr rec)))
    (foldl then_section ss (record_section rec)).
Proof.
  intros [Ha Hb _ _ _] Hp Hi -> Hs. unfold record_section. rewrite Hi. rewrite put_one.
  destruct (section_type_name_kind (r_type rec)) as [Hk _]. destruct Hp as [Hp|Hp].
  - rewrite Hp. destruct (empty_path_line _ _ _ Hk Ha Hb) as [Hl Hsk].
    change (negb ("" =? "")%string) with false. cbn [andb foldl].
    replace ss with (sections_of [section_line (section_type_name (r_type rec)) "" (r_addr rec) (r_baseaddr rec)] ss)
      by (by rewrite sections_of_skip).
    apply synced_put; [done|by repeat constructor].
  - pose (s := {| path := r_fullpath rec; load_addr := r_addr rec; base_addr := r_baseaddr rec;
                  type := r_type rec |}).
    assert (Hw : writable s).
    { unfold writable, s; simpl. unfold is_image in Hi. rewrite !orb_true_iff, !type_eqb_eq in Hi.
      split_and!; [done|done|done|naive_solver]. }
    assert (Hne : negb (String.eqb (r_fullpath rec) EmptyString) = true).
    { apply negb_true_iff, String.eqb_neq. apply Hp. }
    rewrite Hne, strlcpy_plain by done. cbn [andb foldl]. change {| path := _ |} with s.
    replace (then_section ss s) with (sections_of [line_of_section s] ss)
      by (by rewrite sections_of_line).
    apply (synced_put _ _ [line_of_section s]); [done|].
    by apply (all_lines_sections [s]), Forall_singleton.
Qed.

Lemma record_synced mw ss rec :
  recordable rec -> synced mw ss ->
  synced (meta_writer_record mw rec) (foldl then_section ss (record_section rec)).
Proof.
  intros [Hw Hp] Hs. unfold meta_writer_record, record_line.
  assert (Hthread : forall ty, ty = "thread_create" \/ ty = "thread_set_name" ->
    synced (put mw (thread_line ty (r_thread_id rec))) ss).
  { intros ty Hty. rewrite put_one.
    replace ss with (sections_of [thread_line ty (r_thread_id rec)] ss)
      by (by rewrite sections_of_skip by (by apply scan_section_thread)).
    apply synced_put; [done|]. repeat constructor. eapply is_line_mono; [apply thread_is_line|lia].
    - destruct Hty as [->| ->]; reflexivity.
    - destruct Hty as [->| ->]; simpl; lia.
    - apply Hw. }
  destruct (r_type rec) eqn:E;
    try (apply image_line_synced; rewrite ?E; done);
    unfold record_section; rewrite E;
    change (is_image _ && _)%bool with false; cbn [foldl];
    first [apply Hthread; by auto | rewrite put_nothing; exact Hs].
Qed.

Lemma records_synced recs mw ss :
  Forall recordable recs -> synced mw ss ->
  synced (foldl meta_writer_record mw recs) (foldl then_section ss (concat (map record_section recs))).
Proof.
  intros H. revert mw ss. induction H as [|rec recs Hr _ IH]; intros mw ss Hs; [done|].
  cbn [map concat foldl]. rewrite foldl_app. apply IH. by apply record_synced.
Qed.

(** The sidecar as the commands start it. *)
Definition meta_start (pid tid mtc cyc : Z) : meta_writer :=
  meta_writer_timing (meta_writer_header (Some EmptyString) pid tid) mtc cyc.

Lemma meta_start_synced pid tid mtc cyc :
  is_i32 pid -> is_i32 tid -> is_u64 mtc -> is_u64 cyc -> synced (meta_start pid tid mtc cyc) [].
Proof.
  intros Hp Ht Hm Hc.
  assert (Hh : synced (meta_writer_header (Some EmptyString) pid tid) []).
  { exists [header_line pid tid]. unfold meta_writer_header, put. cbn [fmap option_fmap option_map].
    change (EmptyString +:+ ?x) with x. split_and!; [simpl; by rewrite str_app_nil_r| |done].
    repeat constructor. eapply is_line_mono; [by apply header_is_line|lia]. }
  unfold meta_start, meta_writer_timing. case_bool; [done|]. rewrite put_one.
  apply (synced_put _ [] [timing_line mtc cyc]); [done|].
  repeat constructor. eapply is_line_mono; [by apply timing_is_line|lia].
Qed.

Lemma sections_synced mw ss new :
  Forall writable new -> synced mw ss -> synced (meta_writer_sections mw new) (foldl then_section ss new).
Proof.
  intros Hn Hs. destruct Hs as (ls & -> & Hl & Hs). rewrite meta_writer_sections_cat.
  change (Some (cat ls +:+ cat (map line_of_section new))) with
    (put (Some (cat ls)) (cat (map line_of_section new))).
  rewrite <- (sections_of_sections new ss) by done. apply synced_put; [by exists ls|].
  by apply all_lines_sections.
Qed.

Lemma add_all_ok ss ts m :
  mem_ok m -> Forall (fun s => plain_path (path s)) ss ->
  exists ts' m', add_all ts ss m = (ts', m') /\ mem_ok m' /\
    ts_sections ts' = ts_sections ts ++ ss /\ ts_meta ts' = ts_meta ts.
Proof.
  intros Hm H. revert ts m Hm. induction H as [|s ss Hp _ IH]; intros ts m Hm; simpl.
  { exists ts, m. by rewrite app_nil_r. }
  destruct (add_section_ok ts (path s) (load_addr s) (base_addr s) (type s) m Hm (proj1 Hp))
    as (t1 & m1 & -> & Hm1 & Hs1 & Hw1).
  destruct (IH t1 m1 Hm1) as (t2 & m2 & -> & Hm2 & Hs2 & Hw2).
  exists t2, m2. split_and!; [done|done| |congruence].
  rewrite Hs2, Hs1, strlcpy_plain, <- app_assoc by done. by destruct s.
Qed.

Lemma then_section_mmaps acc ss :
  Forall (fun s => type s = HWT_RECORD_MMAP) ss -> foldl then_section acc ss = acc ++ ss.
Proof.
  intros H. apply then_sections_at_head. eapply Forall_impl; [exact H|]. by intros s ->.
Qed.

(** Seeding from the memory map of the traced process. *)
Lemma seed_synced `{ProcInfo} ts pid len kves m :
  vmmap_size pid = Some len -> vmmap pid (len * 4 / 3) = Some kves -> mem_ok m ->
  let ss := map mmap_section (List.filter exec_vnode (map_entries kves)) in
  Forall writable ss -> synced (ts_meta ts) (ts_sections ts) ->
  exists ts' m', trace_state_seed_process_mmaps ts pid m = (0, ts', m') /\ mem_ok m' /\
    ts_sections ts' = ts_sections ts ++ ss /\ synced (ts_meta ts') (ts_sections ts').
Proof.
  intros Hs Hv Hm ss Hw Hsync. unfold trace_state_seed_process_mmaps, process_exec_mmaps, read_vmmap.
  rewrite Hs. destruct (malloc_ok m Hm) as (m1 & -> & _ & Hm1). rewrite Hv.
  destruct (exec_mmaps_loop_ok kves [] 0 m1 Hm1) as (m2 & -> & Hm2). cbn [app]. fold ss.
  assert (Hmm : Forall (fun s => type s = HWT_RECORD_MMAP) ss) by (apply Forall_map, Forall_true; done).
  destruct ss as [|s0 ss0] eqn:Ess; [exists ts, m2; rewrite app_nil_r; done|]. rewrite <- Ess in *.
  destruct (add_all_ok ss (with_meta (meta_writer_sections (ts_meta ts) ss) ts) m2 Hm2) as
    (ts' & m' & Ha & Hm' & Hsec & Hmeta).
  { eapply Forall_impl; [exact Hw|]. by intros s (? & _). }
  rewrite Ha. exists ts', m'. split_and!; [done|done|done|].
  rewrite Hsec, Hmeta. simpl. rewrite <- (then_section_mmaps (ts_sections ts) ss Hmm).
  by apply sections_synced.
Qed.

Lemma synced_read mw ss m : synced mw ss -> mem_ok m -> (meta_read_sections mw m).1 = Some ss.
Proof. intros (ls & -> & Hl & <-) Hm. by apply meta_read_sections_cat. Qed.

(** A replay decodes against the same images as the live run: attached to a
    process, seeded with its mappings and fed any records, the sections that
    [meta_read_sections] reads back are exactly the sections in memory. *)
Theorem live_offline_agree `{ProcInfo} pid tid mtc cyc len kves recs m m' :
  is_i32 pid -> is_i32 tid -> is_u64 mtc -> is_u64 cyc -> mem_ok m -> mem_ok m' ->
  vmmap_size pid = Some len -> vmmap pid (len * 4 / 3) = Some kves ->
  Forall writable (map mmap_section (List.filter exec_vnode (map_entries kves))) ->
  Forall recordable recs ->
  let '(_, ts, m1) := trace_state_seed_process_mmaps
                        (trace_state_init (meta_start pid tid mtc cyc)) pid m in
  let '(ts, _) := process_all ts recs m1 in
  (meta_read_sections (ts_meta ts) m').1 = Some (ts_sections ts) /\
  ts_sections ts =
    foldl then_section (map mmap_section (List.filter exec_vnode (map_entries kves)))
      (concat (map record_section recs)).
Proof.
  intros Hp Ht Hmt Hcy Hm Hm' Hs Hv Hw Hr.
  destruct (seed_synced (trace_state_init (meta_start pid tid mtc cyc)) pid len kves m Hs Hv Hm Hw)
    as (ts & m1 & -> & Hm1 & Hsec & Hsync); [by apply meta_start_synced|].
  destruct (process_all_sections recs ts m1 Hm1) as (ts2 & m2 & -> & _ & Hsec2 & Hmeta2).
  rewrite Hsec in Hsec2. simpl in Hsec2. split; [|done].
  apply synced_read; [|done]. rewrite Hmeta2, Hsec2.
  change (map mmap_section _) with ([] ++ map mmap_section (List.filter exec_vnode (map_entries kves))).
  apply records_synced; [done|]. rewrite Hsec in Hsync. exact Hsync.
Qed.

(** What the records and the mappings add to a sidecar holds no timing line. *)
Lemma record_line_quiet rec : recordable rec -> quiet (record_line rec).
Proof.
  intros [[Ha Hb _ _ _] Hp]. unfold record_line.
  destruct (r_type rec); try apply quiet_nil; try (apply thread_quiet; by auto);
    by apply section_quiet; [unfold section_kind; auto|..].
Qed.

Lemma put_put mw a b : put (put mw a) b = put mw (a +:+ b).
Proof. unfold put. destruct mw; [|done]. cbn [fmap option_fmap option_map]. by rewrite str_app_assoc. Qed.

Lemma records_quiet recs mw :
  Forall recordable recs -> exists t, foldl meta_writer_record mw recs = put mw t /\ quiet t.
Proof.
  intros H. revert mw. induction H as [|rec recs Hr _ IH]; intros mw; cbn [foldl].
  { exists EmptyString. rewrite put_nothing. split; [done|apply quiet_nil]. }
  destruct (IH (meta_writer_record mw rec)) as (t & -> & Ht). unfold meta_writer_record.
  rewrite put_put. eexists. split; [done|]. apply quiet_app; [by apply record_line_quiet|done].
Qed.

Lemma sections_quiet ss mw :
  Forall writable ss -> exists t, meta_writer_sections mw ss = put mw t /\ quiet t.
Proof.
  intros H. revert mw. induction H as [|s ss (Hp & Ha & Hb & _) _ IH]; intros mw; cbn [meta_writer_sections].
  { exists EmptyString. rewrite put_nothing. split; [done|apply quiet_nil]. }
  destruct (IH (put mw (section_line (section_type_name (type s)) (path s) (load_addr s) (base_addr s))))
    as (t & -> & Ht). rewrite put_put. eexists. split; [done|]. apply quiet_app; [|done].
  apply section_quiet; auto. apply section_type_name_kind.
Qed.

Lemma add_all_meta ss : forall ts m, ts_meta (add_all ts ss m).1 = ts_meta ts.
Proof.
  induction ss as [|s ss IH]; intros ts m; [done|]. cbn [add_all]. unfold trace_state_add_section.
  repeat case_bool; try apply IH; [|by rewrite IH]. destruct (malloc m) as [[l|] m1]; by rewrite IH.
Qed.

Lemma seed_quiet `{ProcInfo} ts pid len kves m :
  vmmap_size pid = Some len -> vmmap pid (len * 4 / 3) = Some kves -> mem_ok m ->
  Forall writable (map mmap_section (List.filter exec_vnode (map_entries kves))) ->
  let '(_, ts', _) := trace_state_seed_process_mmaps ts pid m in
  exists t, ts_meta ts' = put (ts_meta ts) t /\ quiet t.
Proof.
  intros Hs Hv Hm Hw. unfold trace_state_seed_process_mmaps, process_exec_mmaps, read_vmmap.
  rewrite Hs. destruct (malloc_ok m Hm) as (m1 & -> & _ & Hm1). rewrite Hv.
  destruct (exec_mmaps_loop_ok kves [] 0 m1 Hm1) as (m2 & -> & Hm2). cbn [app].
  set (ss := map mmap_section _) in *. destruct ss as [|s0 ss0] eqn:Ess.
  { exists EmptyString. rewrite put_nothing. split; [done|apply quiet_nil]. }
  rewrite <- Ess in *. destruct (sections_quiet ss (ts_meta ts) Hw) as (t & Et & Ht).
  pose proof (add_all_meta ss (with_meta (meta_writer_sections (ts_meta ts) ss) ts) m2) as E.
  destruct (add_all _ ss m2) as [ts' m']. cbn [fst] in E. exists t. split; [|done]. rewrite E. exact Et.
Qed.

(** The thread index and the timing that a sidecar is started with are read
    back from it, whatever quiet text follows. *)
Lemma meta_start_read pid tid mtc cyc t :
  is_i32 pid -> is_i32 tid -> 0 <= mtc < 256 -> 0 <= cyc < 256 -> quiet t ->
  let f := put (meta_start pid tid mtc cyc) t in
  meta_read_tid f = tid /\ meta_read_mtc_freq f = mtc /\ meta_read_cyc_thresh f = cyc.
Proof.
  intros Hp Ht Hm Hc Hq. cbn zeta. split.
  - unfold meta_start, meta_writer_timing. case_bool; [by apply header_tid|].
    rewrite put_put. by apply header_tid.
  - destruct (decide (mtc = 0 /\ cyc = 0)) as [[-> ->]|Hne].
    + change (meta_start pid tid 0 0) with (Some (EmptyString +:+ header_line pid tid)).
      apply (untimed_read ((EmptyString +:+ header_line pid tid) +:+ t)).
      change (EmptyString +:+ ?x) with x. rewrite <- (str_app_nil_r t). apply header_quiet, Hq. done.
    + apply meta_timing_roundtrip; [done..|lia].
Qed.

(** ** Bounds *)

(** Under any allocation failures the section array stays within its
    capacity, and only its first element can be an EXEC. *)
Theorem sections_bounded mw recs m :
  let ts := (process_all (trace_state_init mw) recs m).1 in
  Z.of_nat (length (ts_sections ts)) <= sections_cap ts /\ exec_at_head (ts_sections ts).
Proof.
  cbn zeta. destruct (process_all_ok recs (trace_state_init mw) m) as [[_ Hc] Hh];
    [split; simpl; lia|constructor|done].
Qed.

(** ** Buffer extent *)

(** The part of the state that records of the buffer change. *)
Definition buf_view (ts : trace_state) : Z * Z * Z * bool * Z :=
  (last_buf_page ts, max_buf_page ts, last_buf_offset ts, buf_wrapped ts, overflow_count ts).

Lemma add_section_view ts p la ba ty m :
  let '(_, ts', _) := trace_state_add_section ts p la ba ty m in buf_view ts' = buf_view ts.
Proof.
  unfold trace_state_add_section. repeat case_bool; try done. by destruct (malloc m) as [[l|] m1].
Qed.

Lemma process_view ts rec m :
  buf_view (trace_state_process ts rec m).1 =
  buf_view (if type_eqb (r_type rec) HWT_RECORD_BUFFER then note_buffer ts rec
            else if type_eqb (r_type rec) HWT_RECORD_OVERFLOW then note_overflow ts else ts).
Proof.
  unfold trace_state_process. case_bool; [|by destruct (r_type rec)].
  match goal with |- context [trace_state_add_section ?t ?p ?a ?b ?ty m] =>
    pose proof (add_section_view t p a b ty m) as Hv;
    destruct (trace_state_add_section t p a b ty m) as [[rc t'] m'] end.
  cbn [fst]. rewrite Hv. by destruct (r_type rec).
Qed.

Lemma process_all_app ts a b m :
  process_all ts (a ++ b) m = let '(ts, m) := process_all ts a m in process_all ts b m.
Proof.
  revert ts m. induction a as [|r a IH]; intros ts m; simpl; [done|].
  destruct (trace_state_process ts r m). apply IH.
Qed.

(** The pages of the BUFFER records, in order. *)
Definition buffer_pages (recs : list bsdtrace_record) : list Z :=
  map r_curpage (List.filter (fun r => type_eqb (r_type r) HWT_RECORD_BUFFER) recs).

Definition overflows (recs : list bsdtrace_record) : list bsdtrace_record :=
  List.filter (fun r => type_eqb (r_type r) HWT_RECORD_OVERFLOW) recs.

(** The page went back at some record. *)
Definition goes_back (pages : list Z) : Prop :=
  exists i j p q, (i < j)%nat /\ pages !! i = Some p /\ pages !! j = Some q /\ q < p.

Lemma goes_back_snoc l q : goes_back (l ++ [q]) <-> goes_back l \/ exists p, p ∈ l /\ q < p.
Proof.
  split.
  - intros (i & j & p & q' & Hij & Hi & Hj & Hlt).
    destruct (decide (j < length l)%nat) as [Hl|Hl].
    + left. rewrite lookup_app_l in Hi, Hj by lia. by exists i, j, p, q'.
    + pose proof (lookup_lt_Some _ _ _ Hj) as Hj'. rewrite length_app in Hj'. simpl in Hj'.
      assert (j = length l) as -> by lia. rewrite lookup_app_l in Hi by lia.
      rewrite list_lookup_middle in Hj by done. injection Hj as <-.
      right. exists p. split; [by eapply list_elem_of_lookup_2|done].
  - intros [(i & j & p & q' & Hij & Hi & Hj & Hlt)|(p & Hp & Hlt)].
    + exists i, j, p, q'. split_and!; auto using lookup_app_l_Some.
    + apply list_elem_of_lookup_1 in Hp as [i Hi]. pose proof (lookup_lt_Some _ _ _ Hi).
      exists i, (length l), p, q. split_and!; auto using lookup_app_l_Some.
      by apply list_lookup_middle.
Qed.

Lemma max_snoc l q : foldr Z.max (-1) (l ++ [q]) = Z.max (foldr Z.max (-1) l) (Z.max q (-1)).
Proof. induction l as [|x l IH]; simpl; lia. Qed.

Lemma max_gt l q : -1 <= q -> q < foldr Z.max (-1) l <-> exists p, p ∈ l /\ q < p.
Proof.
  intros Hq. induction l as [|x l IH]; simpl.
  - split; [lia|]. intros (p & Hp & _). by apply elem_of_nil in Hp.
  - split.
    + intros H. destruct (decide (q < x)); [exists x; split; [constructor|done]|].
      destruct (proj1 IH) as (p & Hp & ?); [lia|]. exists p. split; [by constructor|done].
    + intros (p & [->|Hp]%elem_of_cons & ?); [lia|]. enough (q < foldr Z.max (-1) l) by lia.
      apply IH. eauto.
Qed.

(** What the buffer part of the state says about the pages seen. *)
Definition extent (pages : list Z) (n : Z) (v : Z * Z * Z * bool * Z) : Prop :=
  let '(lst, mx, _, wr, ov) := v in
  lst = default (-1) (last pages) /\ mx = foldr Z.max (-1) pages /\
  (wr = true <-> goes_back pages) /\ ov = n.

Lemma extent_buffer pages n ts rec :
  0 <= r_curpage rec -> extent pages n (buf_view ts) ->
  extent (pages ++ [r_curpage rec]) n (buf_view (note_buffer ts rec)).
Proof.
  intros Hp (Hl & Hm & Hw & Ho). unfold extent, buf_view, note_buffer. simpl.
  rewrite last_snoc, max_snoc, goes_back_snoc, <- max_gt, <- Hm, <- Hw by lia.
  split_and!; [done|split_cases| |done]. case_bool; to_prop.
  - split; [intros _; right; lia|done].
  - split; [by left|intros [?|?]; [done|]]. apply andb_false_iff in E as [E|E]; to_prop; lia.
Qed.

Lemma foldl_extent recs ts m pages n :
  Forall (fun p => 0 <= p) (buffer_pages recs) -> extent pages n (buf_view ts) ->
  extent (pages ++ buffer_pages recs) (n + Z.of_nat (length (overflows recs)))
    (buf_view (process_all ts recs m).1).
Proof.
  revert ts m pages n. induction recs as [|rec recs IH]; intros ts m pages n Hp Hv.
  { simpl. by rewrite app_nil_r, Z.add_0_r. }
  simpl process_all. pose proof (process_view ts rec m) as Hs.
  destruct (trace_state_process ts rec m) as [ts1 m1]. simpl in Hs.
  unfold buffer_pages, overflows in Hp |- *. cbn [List.filter] in Hp |- *.
  destruct (r_type rec) eqn:E;
    match goal with |- context [type_eqb ?a HWT_RECORD_BUFFER] => 
      let b := eval vm_compute in (type_eqb a HWT_RECORD_BUFFER) in
      change (type_eqb a HWT_RECORD_BUFFER) with b in * end;
    match goal with |- context [type_eqb ?a HWT_RECORD_OVERFLOW] => 
      let b := eval vm_compute in (type_eqb a HWT_RECORD_OVERFLOW) in
      change (type_eqb a HWT_RECORD_OVERFLOW) with b in * end;
    cbv iota in *; try (apply IH; [exact Hp|]; rewrite Hs; exact Hv).
  - cbn [map] in *. inversion Hp as [|? ? Hp0 Hp']; subst. rewrite cons_middle, app_assoc.
    apply IH; [done|]. rewrite Hs. by apply extent_buffer.
  - cbn [length]. rewrite Nat2Z.inj_succ, <- Z.add_1_l, Z.add_assoc. apply IH; [exact Hp|].
    rewrite Hs. destruct Hv as (? & ? & ? & Ho). unfold extent. simpl. split_and!; auto. by f_equal.
Qed.

(** After any records the state holds the last and the highest page, knows
    whether the page ever went back, and has counted the overflows. *)
Theorem buffer_extent mw recs m :
  Forall (fun p => 0 <= p) (buffer_pages recs) ->
  let ts := (process_all (trace_state_init mw) recs m).1 in
  let pages := buffer_pages recs in
  last_buf_page ts = default (-1) (last pages) /\
  max_buf_page ts = foldr Z.max (-1) pages /\
  (buf_wrapped ts = true <-> goes_back pages) /\
  overflow_count ts = Z.of_nat (length (overflows recs)).
Proof.
  intros Hp. apply (foldl_extent recs (trace_state_init mw) m [] 0 Hp).
  unfold extent. simpl. split_and!; try done. split; [done|]. by intros (i & j & p & q & _ & Hi & _).
Qed.

(** ** Draining *)

(** The kernel holds finitely many records once tracing has stopped: those a
    poll returns are gone. *)
Class RecordQueue `{Kernel} := {
  pending : kernel -> nat;
  record_get_pending : forall fd n w k es k',
    k_record_get fd n w k = (Some es, k') -> (pending k' + length es <= pending k)%nat;
}.

(** Polls in a row: the records each returned, and the kernel after them. *)
Inductive polled `{Kernel} (c : hwt_ctx) : list (list bsdtrace_record) -> kernel -> kernel -> Prop :=
  | polled_nil k : polled c [] k k
  | polled_cons recs rss k k1 k2 m m1 :
      hwt_ctx_poll_records c POST_STOP_MAX_RECORDS false m k = (Some recs, m1, k1) ->
      polled c rss k1 k2 -> polled c (recs :: rss) k k2.

(** Why a drain may stop: a poll failed, or the last 40 found nothing. *)
Definition drained `{Kernel} (c : hwt_ctx) (before : nat) (rss : list (list bsdtrace_record))
    (kl k : kernel) : Prop :=
  (exists m m1, hwt_ctx_poll_records c POST_STOP_MAX_RECORDS false m kl = (None, m1, k)) \/
  k = kl /\ exists rss0, replicate before [] ++ rss = rss0 ++ replicate POST_STOP_EMPTY_POLLS [].

Lemma poll_mem `{Kernel} c n w m k r m' k' :
  hwt_ctx_poll_records c n w m k = (r, m', k') -> mem_ok m -> mem_ok m'.
Proof.
  unfold hwt_ctx_poll_records. intros Hp Hm. destruct (malloc_ok m Hm) as (m1 & E & _ & Hm1).
  rewrite E in Hp. destruct (k_record_get _ _ _ k) as [es k1]. by injection Hp as <- <- <-.
Qed.

(** With memory available a record's effect does not depend on it. *)
Lemma process_mem ts rec m1 m2 :
  mem_ok m1 -> mem_ok m2 ->
  (trace_state_process ts rec m1).1 = (trace_state_process ts rec m2).1 /\
  mem_ok (trace_state_process ts rec m1).2.
Proof.
  intros H1 H2. unfold trace_state_process. case_bool; [|done].
  unfold trace_state_add_section. case_bool; [done|].
  destruct (malloc_ok m1 H1) as (n1 & -> & _ & Hn1), (malloc_ok m2 H2) as (n2 & -> & _ & _).
  by case_bool.
Qed.

Lemma process_all_mem recs ts m1 m2 :
  mem_ok m1 -> mem_ok m2 ->
  (process_all ts recs m1).1 = (process_all ts recs m2).1 /\ mem_ok (process_all ts recs m1).2.
Proof.
  revert ts m1 m2. induction recs as [|r recs IH]; intros ts m1 m2 H1 H2; [done|]. simpl.
  pose proof (process_mem ts r m1 m2 H1 H2) as [E Hm]. pose proof (process_mem ts r m2 m1 H2 H1) as [_ Hm'].
  destruct (trace_state_process ts r m1) as [t1 n1], (trace_state_process ts r m2) as [t2 n2].
  simpl in *. subst. by apply IH.
Qed.

Lemma process_all_concat `{Kernel} ts a b m m' :
  mem_ok m -> mem_ok m' -> (process_all (process_all ts a m).1 b m').1 = (process_all ts (a ++ b) m).1.
Proof.
  intros Hm Hm'. rewrite process_all_app.
  pose proof (process_all_mem a ts m m Hm Hm) as [_ Hm1]. destruct (process_all ts a m) as [t1 m1].
  simpl in *. by apply process_all_mem.
Qed.

Lemma drain_loop_spec `{RecordQueue} fuel e total c ts m k :
  mem_ok m -> (e <= 40)%nat -> (41 * pending k + (41 - e) <= fuel)%nat ->
  exists total' ts' m' k' rss, drain_loop fuel e total c ts m k = Some (total', ts', m', k') /\
    ts' = (process_all ts (concat rss) m).1 /\
    total' = total + Z.of_nat (length (concat rss)) /\
    exists kl, polled c rss k kl /\ drained c e rss kl k'.
Proof.
  revert e total ts m k. induction fuel as [|fuel IH]; intros e total ts m k Hm He Hf; [lia|].
  cbn [drain_loop]. change POST_STOP_EMPTY_POLLS with 40%nat.
  destruct (40 <=? e)%nat eqn:E40; [apply Nat.leb_le in E40|apply Nat.leb_gt in E40].
  { exists total, ts, m, k, []. split_and!; [done|done|simpl; lia|].
    exists k. split; [constructor|]. right. split; [done|]. exists []. assert (e = 40%nat) as -> by lia. by rewrite app_nil_r. }
  destruct (hwt_ctx_poll_records c POST_STOP_MAX_RECORDS false m k) as [[r m1] k1] eqn:Ep.
  pose proof (poll_mem _ _ _ _ _ _ _ _ Ep Hm) as Hm1.
  destruct r as [recs|].
  2:{ exists total, ts, m1, k1, []. split_and!; [done|done|simpl; lia|].
      exists k. split; [constructor|]. left. eauto. }
  assert (Hpend : (pending k1 + length recs <= pending k)%nat).
  { pose proof Ep as Ep'. unfold hwt_ctx_poll_records in Ep'. destruct (malloc m) as [[l|] mm]; [|done].
    destruct (k_record_get _ _ _ k) as [[es|] k2] eqn:Eg; [|done]. injection Ep' as <- _ <-.
    rewrite length_map. by eapply record_get_pending. }
  destruct recs as [|r0 recs0].
  - simpl in Hpend. destruct (IH (S e) total ts m1 k1 Hm1 ltac:(lia) ltac:(lia))
      as (t' & ts' & m' & k' & rss & -> & Hts & Ht & kl & Hk & Hd).
    exists t', ts', m', k', ([] :: rss). split_and!; [done| |done|].
    + rewrite Hts. simpl. by apply process_all_mem.
    + exists kl. split; [by econstructor|].
      destruct Hd as [?|(-> & rss0 & Hr)]; [by left|right]. split; [done|]. exists rss0. rewrite <- Hr.
      rewrite replicate_S_end, <- app_assoc. done.
  - set (recs := r0 :: recs0) in *. pose proof (process_all_mem recs ts m1 m Hm1 Hm) as [Epa Hm2].
    destruct (process_all ts recs m1) as [ts1 m2] eqn:E1. cbn [fst snd] in Epa, Hm2.
    assert (length recs <> 0)%nat by done.
    destruct (IH 0%nat (total + Z.of_nat (length recs)) ts1 m2 k1 Hm2 ltac:(lia) ltac:(lia))
      as (t' & ts' & m' & k' & rss & -> & Hts & Ht & kl & Hk & Hd).
    exists t', ts', m', k', (recs :: rss). split_and!; [done| | |].
    + rewrite Hts, Epa. cbn [concat]. by apply process_all_concat.
    + rewrite Ht. cbn [concat]. rewrite length_app. lia.
    + exists kl. split; [by econstructor|].
      destruct Hd as [?|(-> & rss0 & Hr)]; [by left|right]. split; [done|]. simpl in Hr. subst rss.
      exists (replicate e [] ++ recs :: rss0). by rewrite <- app_assoc.
Qed.

(** C22: The drain ends, and it loses nothing: the records of all its polls have
    been processed in order and counted, and it stopped because a poll failed
    or because 40 polls in a row found nothing. *)
Theorem drain_terminates `{RecordQueue} c ts m k :
  mem_ok m ->
  exists total ts' m' k' rss,
    trace_state_drain_post_stop (41 * pending k + 41) c ts m k = Some (total, ts', m', k') /\
    ts' = (process_all ts (concat rss) m).1 /\
    total = Z.of_nat (length (concat rss)) /\
    exists kl, polled c rss k kl /\ drained c 0 rss kl k'.
Proof. intros Hm. apply (drain_loop_spec _ 0 0); [done|lia|lia]. Qed.
