(* ===== verification/CallTree.v ===== *)
(** decode.c: the call tree.

    A node is a C structure stored by value in its parent's [children]
    array, and the shadow stack holds pointers to nodes.  [realloc] moves an
    array, so the arrays are blocks of a heap: a moved array gets a fresh
    block and the old block is gone, and a pointer into it dangles.  An
    operation is [None] when it follows a dangling or null pointer; [key] is
    what the code compares to tell children apart, two pointers. *)

From Stdlib Require Import ZArith Lia Ascii String.
From stdpp Require Import base list strings sets gmap sorting.
From S2P Require Import Prelude CLib Types.

Record ct_node := {
  n_name : cstr; n_binary : cstr; n_count : Z; n_total : Z; n_entry : Z;
  n_children : option nat; n_cap : Z }.

(** [&ct->root] or [&children[i]]. *)
Inductive ptr := PRoot | PChild (b : nat) (i : nat).

#[export] Instance ptr_eq_dec : EqDecision ptr.
Proof. solve_decision. Defined.

(** [nchildren] is the length of the block; [stack] holds [stack[depth]]
    first and [stack[0]] last. *)
Record calltree := {
  root : ct_node;
  heap : gmap nat (list ct_node);
  stack : list ptr;
  stack_cap : Z;
  ct_prev_class : pt_insn_class }.

Definition key : Type := nat * nat.
Definition node_key (n : ct_node) : key := (loc (n_name n), loc (n_binary n)).
Definition sym_key (s : sym_entry) : key := (loc (s_name s), loc (s_binary s)).

(** * Memory *)

Definition deref (ct : calltree) (p : ptr) : option ct_node :=
  match p with
  | PRoot => Some (root ct)
  | PChild b i => heap ct !! b ≫= fun l => l !! i
  end.

Definition set_root (n : ct_node) (ct : calltree) : calltree :=
  {| root := n; heap := heap ct; stack := stack ct; stack_cap := stack_cap ct;
     ct_prev_class := ct_prev_class ct |}.
Definition set_heap (h : gmap nat (list ct_node)) (ct : calltree) : calltree :=
  {| root := root ct; heap := h; stack := stack ct; stack_cap := stack_cap ct;
     ct_prev_class := ct_prev_class ct |}.
Definition set_stack (s : list ptr) (cap : Z) (ct : calltree) : calltree :=
  {| root := root ct; heap := heap ct; stack := s; stack_cap := cap;
     ct_prev_class := ct_prev_class ct |}.
Definition set_prev (c : pt_insn_class) (ct : calltree) : calltree :=
  {| root := root ct; heap := heap ct; stack := stack ct; stack_cap := stack_cap ct;
     ct_prev_class := c |}.

(** [*p = n]. *)
Definition store (ct : calltree) (p : ptr) (n : ct_node) : option calltree :=
  match p with
  | PRoot => Some (set_root n ct)
  | PChild b i =>
      match heap ct !! b with
      | Some l => if (i <? length l)%nat then Some (set_heap (<[b := <[i := n]> l]> (heap ct)) ct)
                  else None
      | None => None
      end
  end.

Definition with_children (b : option nat) (cap : Z) (n : ct_node) : ct_node :=
  {| n_name := n_name n; n_binary := n_binary n; n_count := n_count n; n_total := n_total n;
     n_entry := n_entry n; n_children := b; n_cap := cap |}.

(** [n->count++; n->entry_tsc = tsc]. *)
Definition called (tsc : Z) (n : ct_node) : ct_node :=
  {| n_name := n_name n; n_binary := n_binary n; n_count := n_count n + 1; n_total := n_total n;
     n_entry := tsc; n_children := n_children n; n_cap := n_cap n |}.

(** * Operations *)

Definition ct_node_init (nm bn : cstr) : ct_node :=
  {| n_name := nm; n_binary := bn; n_count := 0; n_total := 0; n_entry := 0;
     n_children := None; n_cap := 0 |}.

(** The array of a node's children. *)
Definition children_of (ct : calltree) (n : ct_node) : option (list ct_node) :=
  match n_children n with
  | None => Some []
  | Some b => heap ct !! b
  end.

(** The child, or a null pointer when the array cannot grow. *)
Definition ct_find_or_add_child (ct : calltree) (parent : ptr) (nm bn : cstr) (m : mem)
    : option (option ptr * calltree * mem) :=
  n ← deref ct parent;
  l ← children_of ct n;
  match find_index (fun c => ptr_eqb (n_name c) nm && ptr_eqb (n_binary c) bn) l with
  | Some i => b ← n_children n; Some (Some (PChild b i), ct, m)
  | None =>
      if n_cap n <=? Z.of_nat (length l) then
        let '(r, m) := malloc m in
        match r with
        | None => Some (None, ct, m)
        | Some b =>
            let h := match n_children n with Some old => delete old (heap ct) | None => heap ct end in
            ct ← store (set_heap (<[b := l ++ [ct_node_init nm bn]]> h) ct) parent
                       (with_children (Some b) (grow 8 (n_cap n)) n);
            Some (Some (PChild b (length l)), ct, m)
        end
      else
        b ← n_children n;
        Some (Some (PChild b (length l)),
              set_heap (<[b := l ++ [ct_node_init nm bn]]> (heap ct)) ct, m)
  end.

(** The string literals of the root's names. *)
Definition root_name : cstr := {| loc := 0; chars := "<root>" |}.
Definition root_binary : cstr := {| loc := 0; chars := EmptyString |}.

(** [None] is the null dereference when the stack cannot be allocated. *)
Definition calltree_init (m : mem) : option (calltree * mem) :=
  let '(r, m) := malloc m in
  match r with
  | None => None
  | Some _ =>
      Some ({| root := ct_node_init root_name root_binary; heap := ∅; stack := [PRoot];
               stack_cap := 256; ct_prev_class := ptic_error |}, m)
  end.

Definition calltree_push (ct : calltree) (sym : sym_entry) (tsc : Z) (m : mem)
    : option (calltree * mem) :=
  parent ← head (stack ct);
  '(child, ct, m) ← ct_find_or_add_child ct parent (s_name sym) (s_binary sym) m;
  match child with
  | None => Some (ct, m)
  | Some child =>
      n ← deref ct child;
      ct ← store ct child (called tsc n);
      if stack_cap ct <=? Z.of_nat (length (stack ct)) then
        let '(r, m) := malloc m in
        match r with
        | None => Some (ct, m)
        | Some _ => Some (set_stack (child :: stack ct) (stack_cap ct * 2) ct, m)
        end
      else Some (set_stack (child :: stack ct) (stack_cap ct) ct, m)
  end.

(** The time of the call that ends. *)
Definition returned (tsc : Z) (n : ct_node) : ct_node :=
  {| n_name := n_name n; n_binary := n_binary n; n_count := n_count n;
     n_total := if (0 <? tsc) && (0 <? n_entry n) && (n_entry n <? tsc)
                then u64 (n_total n + (tsc - n_entry n)) else n_total n;
     n_entry := 0; n_children := n_children n; n_cap := n_cap n |}.

Definition calltree_pop (ct : calltree) (tsc : Z) : option calltree :=
  match stack ct with
  | p :: _ :: _ =>
      n ← deref ct p;
      ct ← store ct p (returned tsc n);
      Some (set_stack (tail (stack ct)) (stack_cap ct) ct)
  | _ => Some ct
  end.

Definition calltree_record (ct : calltree) (e : insn_event) (m : mem) : option (calltree * mem) :=
  '(ct, m) ← match ev_sym e with
             | Some sym =>
                 if (ev_ip e =? s_addr sym) && is_call (ct_prev_class ct)
                 then calltree_push ct sym (ev_tsc e) m
                 else Some (ct, m)
             | None => Some (ct, m)
             end;
  ct ← (if is_return (ev_class e) then calltree_pop ct (ev_tsc e) else Some ct);
  Some (set_prev (ev_class e) ct, m).

Fixpoint calltree_record_all (ct : calltree) (es : list insn_event) (m : mem)
    : option (calltree * mem) :=
  match es with
  | [] => Some (ct, m)
  | e :: es => '(ct, m) ← calltree_record ct e m; calltree_record_all ct es m
  end.

(** * Specification

    What the tree counts, as a function of the path of callers: the calls,
    the time spent, and the calls still active. *)

Record acts := {
  a_count : list key -> Z; a_total : list key -> Z; a_frames : list (key * Z) }.

Definition a_path (A : acts) : list key := map fst (a_frames A).

Definition upd (f : list key -> Z) (p : list key) (v : Z) : list key -> Z :=
  fun q => if decide (q = p) then v else f q.

Definition a_init : acts := {| a_count := fun _ => 0; a_total := fun _ => 0; a_frames := [] |}.

Definition a_push (k : key) (tsc : Z) (A : acts) : acts :=
  {| a_count := upd (a_count A) (k :: a_path A) (a_count A (k :: a_path A) + 1);
     a_total := a_total A; a_frames := (k, tsc) :: a_frames A |}.

Definition a_pop (tsc : Z) (A : acts) : acts :=
  match a_frames A with
  | [] => A
  | (k, t) :: fs =>
      {| a_count := a_count A;
         a_total := upd (a_total A) (a_path A)
           (if (0 <? tsc) && (0 <? t) && (t <? tsc)
            then u64 (a_total A (a_path A) + (tsc - t)) else a_total A (a_path A));
         a_frames := fs |}
  end.

Definition a_record (prev : pt_insn_class) (e : insn_event) (A : acts) : acts :=
  let A := match ev_sym e with
           | Some sym => if (ev_ip e =? s_addr sym) && is_call prev
                         then a_push (sym_key sym) (ev_tsc e) A else A
           | None => A
           end in
  if is_return (ev_class e) then a_pop (ev_tsc e) A else A.

Fixpoint a_record_all (prev : pt_insn_class) (es : list insn_event) (A : acts) : acts :=
  match es with
  | [] => A
  | e :: es => a_record_all (ev_class e) es (a_record prev e A)
  end.

(** * Shape of the heap

    [addr] gives the address of the node of each path.  Every array belongs
    to one node, and the nodes in it are the children of that node. *)

Record shape (addr : gmap (list key) ptr) (ct : calltree) (m : mem) : Prop := {
  sh_root : addr !! [] = Some PRoot;
  sh_down : forall k pi p, addr !! (k :: pi) = Some p ->
    exists q n b i c, addr !! pi = Some q /\ deref ct q = Some n /\ n_children n = Some b /\
      p = PChild b i /\ deref ct p = Some c /\ node_key c = k;
  sh_up : forall pi q n b, addr !! pi = Some q -> deref ct q = Some n -> n_children n = Some b ->
    is_Some (heap ct !! b) /\
    forall i c, deref ct (PChild b i) = Some c -> addr !! (node_key c :: pi) = Some (PChild b i);
  sh_own : forall p1 p2 q1 q2 n1 n2 b, addr !! p1 = Some q1 -> addr !! p2 = Some q2 ->
    deref ct q1 = Some n1 -> deref ct q2 = Some n2 ->
    n_children n1 = Some b -> n_children n2 = Some b -> p1 = p2;
  sh_cap : forall pi q n, addr !! pi = Some q -> deref ct q = Some n ->
    n_children n = None -> n_cap n = 0;
  sh_fresh : forall b, is_Some (heap ct !! b) -> (b < next_loc m)%nat;
  sh_used : forall b, is_Some (heap ct !! b) ->
    exists pi q n, addr !! pi = Some q /\ deref ct q = Some n /\ n_children n = Some b;
}.

Lemma shape_deref addr ct m pi p : shape addr ct m -> addr !! pi = Some p -> exists n, deref ct p = Some n.
Proof.
  intros Hs Hp. destruct pi as [|k pi].
  - rewrite (sh_root _ _ _ Hs) in Hp. injection Hp as <-. by eexists.
  - destruct (sh_down _ _ _ Hs _ _ _ Hp) as (q & n & b & i & c & _ & _ & _ & _ & Hc & _). eauto.
Qed.

Lemma shape_inj addr ct m p1 p2 q :
  shape addr ct m -> addr !! p1 = Some q -> addr !! p2 = Some q -> p1 = p2.
Proof.
  intros Hs H1 H2. destruct p1 as [|k1 p1], p2 as [|k2 p2]; [done| | |].
  - rewrite (sh_root _ _ _ Hs) in H1. injection H1 as <-.
    by destruct (sh_down _ _ _ Hs _ _ _ H2) as (? & ? & ? & ? & ? & _ & _ & _ & ? & _).
  - rewrite (sh_root _ _ _ Hs) in H2. injection H2 as <-.
    by destruct (sh_down _ _ _ Hs _ _ _ H1) as (? & ? & ? & ? & ? & _ & _ & _ & ? & _).
  - destruct (sh_down _ _ _ Hs _ _ _ H1) as (q1 & n1 & b1 & i1 & c1 & A1 & D1 & C1 & E1 & F1 & K1).
    destruct (sh_down _ _ _ Hs _ _ _ H2) as (q2 & n2 & b2 & i2 & c2 & A2 & D2 & C2 & E2 & F2 & K2).
    rewrite E1 in E2. injection E2 as -> ->. f_equal; [congruence|].
    by eapply (sh_own _ _ _ Hs p1 p2).
Qed.

Lemma shape_mem addr ct m m' : shape addr ct m -> (next_loc m <= next_loc m')%nat -> shape addr ct m'.
Proof.
  intros [] ?. constructor; try done. intros b Hb. specialize (sh_fresh0 b Hb). lia.
Qed.

Lemma shape_ext addr ct ct' m :
  (forall p, deref ct' p = deref ct p) -> heap ct' = heap ct -> shape addr ct m -> shape addr ct' m.
Proof.
  intros Hd Hh []. constructor; try done.
  - intros k pi p Hp. destruct (sh_down0 k pi p Hp) as (q & n & b & i & c & H).
    exists q, n, b, i, c. by rewrite !Hd.
  - intros pi q n b Hq. rewrite Hd, Hh. intros Hn Hb. destruct (sh_up0 pi q n b Hq Hn Hb) as [Hs Ha].
    split; [done|]. intros i c. rewrite Hd. apply Ha.
  - intros p1 p2 q1 q2 n1 n2 b H1 H2. rewrite !Hd. by apply (sh_own0 p1 p2 q1 q2).
  - intros pi q n. rewrite Hd. by apply sh_cap0.
  - intros b. rewrite Hh. apply sh_fresh0.
  - intros b. rewrite Hh. intros Hb. destruct (sh_used0 b Hb) as (pi & q & n & H). exists pi, q, n. by rewrite Hd.
Qed.

(** ** Storing into a node *)

Lemma deref_store ct p n n' :
  deref ct p = Some n ->
  exists ct', store ct p n' = Some ct' /\
    (forall q, deref ct' q = if decide (q = p) then Some n' else deref ct q) /\
    (forall b, is_Some (heap ct' !! b) <-> is_Some (heap ct !! b)) /\
    stack ct' = stack ct /\ stack_cap ct' = stack_cap ct /\ ct_prev_class ct' = ct_prev_class ct.
Proof.
  destruct p as [|b i]; simpl; intros Hd.
  - eexists. split_and!; [done| |done|done|done|done].
    intros [|b i]; [by rewrite decide_True|by rewrite decide_False].
  - destruct (heap ct !! b) as [l|] eqn:Eb; [|done]. simpl in Hd.
    pose proof (lookup_lt_Some _ _ _ Hd) as Hi. apply Nat.ltb_lt in Hi as Hi'. rewrite Hi'.
    eexists. split_and!; [done| | |done|done|done].
    + intros [|b0 i0]; [by rewrite decide_False|]. simpl. destruct (decide (b0 = b)) as [->|Hb].
      * rewrite lookup_insert_eq. simpl. destruct (decide (i0 = i)) as [->|Hne].
        -- by rewrite list_lookup_insert_eq, decide_True.
        -- rewrite list_lookup_insert_ne by done. rewrite decide_False by congruence. by rewrite Eb.
      * rewrite lookup_insert_ne by done. by rewrite decide_False by congruence.
    + intros b0. simpl. destruct (decide (b0 = b)) as [->|Hb];
        [rewrite lookup_insert_eq, Eb; split; eauto|by rewrite lookup_insert_ne].
Qed.

(** A node changed in its counters only. *)
Definition same_shape (n n' : ct_node) : Prop :=
  node_key n' = node_key n /\ n_children n' = n_children n /\ n_cap n' = n_cap n.

Lemma shape_store addr ct m p n n' ct' :
  shape addr ct m -> deref ct p = Some n -> same_shape n n' -> store ct p n' = Some ct' ->
  shape addr ct' m.
Proof.
  intros Hs Hp (Hk & Hc & Hcap) Hst.
  destruct (deref_store ct p n n' Hp) as (ct1 & Hst1 & Hd & Hh & _). rewrite Hst in Hst1.
  injection Hst1 as <-.
  assert (Hback : forall q n0, deref ct' q = Some n0 ->
    exists n1, deref ct q = Some n1 /\ same_shape n1 n0).
  { intros q n0 Hq. rewrite Hd in Hq. case_decide as Hqp; [|by exists n0].
    injection Hq as <-. rewrite Hqp. by exists n. }
  assert (Hforw : forall q n0, deref ct q = Some n0 ->
    exists n1, deref ct' q = Some n1 /\ same_shape n0 n1).
  { intros q n0 Hq. rewrite Hd. case_decide as Hqp; [|by exists n0].
    rewrite Hqp, Hp in Hq. injection Hq as <-. by exists n'. }
  constructor.
  - apply (sh_root _ _ _ Hs).
  - intros k pi p0 Hp0. destruct (sh_down _ _ _ Hs _ _ _ Hp0) as (q & n0 & b & i & c & A & D & C & E & F & K).
    destruct (Hforw q n0 D) as (n1 & D1 & ? & C1 & _), (Hforw p0 c F) as (c1 & F1 & K1 & _).
    exists q, n1, b, i, c1. split_and!; [done|done|congruence|done|done|congruence].
  - intros pi q n0 b Hq Dq Hb. destruct (Hback q n0 Dq) as (n1 & D1 & _ & C1 & _).
    destruct (sh_up _ _ _ Hs pi q n1 b Hq D1) as [Hsome Hall]; [congruence|].
    split; [by apply Hh|]. intros i c Hic. destruct (Hback _ _ Hic) as (c1 & F1 & K1 & _).
    rewrite K1. by apply Hall.
  - intros p1 p2 q1 q2 n1 n2 b A1 A2 D1 D2 C1 C2.
    destruct (Hback _ _ D1) as (m1 & E1 & _ & B1 & _), (Hback _ _ D2) as (m2 & E2 & _ & B2 & _).
    apply (sh_own _ _ _ Hs p1 p2 q1 q2 m1 m2 b); auto; congruence.
  - intros pi q n0 Hq Dq Hn. destruct (Hback _ _ Dq) as (n1 & D1 & _ & C1 & Cap).
    rewrite Cap. apply (sh_cap _ _ _ Hs pi q n1); auto. congruence.
  - intros b Hb. apply (sh_fresh _ _ _ Hs). by apply Hh.
  - intros b Hb. destruct (sh_used _ _ _ Hs b) as (pi & q & n0 & A & D & C); [by apply Hh|].
    destruct (Hforw q n0 D) as (n1 & D1 & _ & C1 & _). exists pi, q, n1. split_and!; [done|done|congruence].
Qed.

(** ** Adding a child *)

(** A node does not live in its own children. *)
Lemma parent_not_child addr ct m pi q n b i :
  shape addr ct m -> addr !! pi = Some q -> deref ct q = Some n -> n_children n = Some b ->
  q <> PChild b i.
Proof.
  intros Hs Hq Hn Hb ->. destruct pi as [|k0 pi0].
  - by rewrite (sh_root _ _ _ Hs) in Hq.
  - destruct (sh_down _ _ _ Hs _ _ _ Hq) as (q0 & n0 & b0 & i0 & c & A & D & C & E & F & K).
    injection E as <- <-.
    pose proof (sh_own _ _ _ Hs pi0 (k0 :: pi0) q0 _ n0 n b A Hq D Hn C Hb) as E.
    apply (f_equal length) in E. simpl in E. lia.
Qed.

Section add_child.
Context (addr : gmap (list key) ptr) (ct ct' : calltree) (m m' : mem).
Context (pi : list key) (q : ptr) (n : ct_node) (l : list ct_node) (b' : nat) (cap : Z) (new : ct_node).
Abbreviation n' := (with_children (Some b') cap n).
Abbreviation k := (node_key new).

Context (Hs : shape addr ct m) (Hq : addr !! pi = Some q) (Hn : deref ct q = Some n).
Context (Hl : children_of ct n = Some l) (Hnew : forall i c, l !! i = Some c -> node_key c <> k).
Context (Hinit : n_children new = None /\ n_cap new = 0).
(** The block is the node's own or a fresh one, and the only one changed. *)
Context (Hb' : n_children n = Some b' \/ heap ct !! b' = None).
Context (Hfresh : (b' < next_loc m')%nat /\ (next_loc m <= next_loc m')%nat).
Context (Hblock : forall i, deref ct' (PChild b' i) = (l ++ [new]) !! i).
Context (Hother : forall p, (forall i, p <> PChild b' i) ->
  (forall b i, n_children n = Some b -> p <> PChild b i) ->
  deref ct' p = if decide (p = q) then Some n' else deref ct p).
Context (Hheap : forall b, is_Some (heap ct' !! b) <->
  b = b' \/ is_Some (heap ct !! b) /\ n_children n <> Some b).

(** Where the nodes of the old block have moved. *)
Definition moved (p : ptr) : ptr :=
  match p with
  | PChild b i => if decide (n_children n = Some b) then PChild b' i else p
  | PRoot => PRoot
  end.

Definition addr' : gmap (list key) ptr :=
  <[k :: pi := PChild b' (length l)]> (moved <$> addr).

Lemma own_block b i : n_children n = Some b -> deref ct (PChild b i) = l !! i.
Proof using Hl. clear - Hl. intros Hb. unfold children_of in Hl. rewrite Hb in Hl. simpl. by rewrite Hl. Qed.

Lemma not_new_path p : addr !! (k :: pi) = Some p -> False.
Proof using Hs Hq Hn Hl Hnew.
  intros Hp. destruct (sh_down _ _ _ Hs _ _ _ Hp) as (q0 & n0 & b & i & c & A & D & C & E & F & K).
  rewrite Hq in A. injection A as <-. rewrite Hn in D. injection D as <-.
  rewrite E, (own_block b i C) in F. by apply (Hnew i c F).
Qed.

Lemma not_fresh_block p0 pi0 i : addr !! pi0 = Some p0 -> p0 = PChild b' i -> n_children n = Some b'.
Proof using Hs Hb'.
  intros Hp ->. destruct Hb' as [?|Hb]; [done|].
  destruct (shape_deref _ _ _ _ _ Hs Hp) as [c Hc]. simpl in Hc. by rewrite Hb in Hc.
Qed.

Lemma moved_q : moved q = q.
Proof using Hs Hq Hn.
  assert (forall b i, n_children n = Some b -> q <> PChild b i) as Hne
    by (intros b i; by apply (parent_not_child addr ct m pi)).
  revert Hne. clear. generalize q. intros [|b i] Hne; [done|]. simpl.
  case_decide as Hb; [by destruct (Hne b i Hb)|done].
Qed.

(** Every old node is where it moved to, unchanged but for its array. *)
Lemma deref_moved pi0 p0 : addr !! pi0 = Some p0 ->
  deref ct' (moved p0) = if decide (p0 = q) then Some n' else deref ct p0.
Proof using Hs Hq Hn Hl Hb' Hblock Hother.
  intros Hp. destruct p0 as [|b i]; simpl moved.
  - apply Hother; done.
  - case_decide as Hb.
    + destruct (shape_deref _ _ _ _ _ Hs Hp) as [c Hc].
      rewrite decide_False by (intros Heq; by destruct (parent_not_child addr ct m pi q n b i Hs Hq Hn Hb)).
      rewrite Hblock, Hc. rewrite (own_block b i Hb) in Hc. by apply lookup_app_l_Some.
    + apply Hother.
      * intros i0 [= -> ->]. by apply (not_fresh_block _ _ i0) in Hp.
      * intros b0 i0 Hb0 [= -> ->]. done.
Qed.

Lemma addr'_old pi0 p0 : addr !! pi0 = Some p0 -> addr' !! pi0 = Some (moved p0).
Proof using Hs Hq Hn Hl Hnew.
  intros Hp. unfold addr'. rewrite lookup_insert_ne.
  - by rewrite lookup_fmap, Hp.
  - intros E. rewrite <- E in Hp. by apply not_new_path in Hp.
Qed.

Lemma addr'_cases pi0 p : addr' !! pi0 = Some p ->
  (pi0 = k :: pi /\ p = PChild b' (length l)) \/ exists p0, addr !! pi0 = Some p0 /\ p = moved p0.
Proof using.
  unfold addr'. intros Hp. destruct (decide (pi0 = k :: pi)) as [->|Hne].
  - rewrite lookup_insert_eq in Hp. injection Hp as <-. by left.
  - rewrite lookup_insert_ne in Hp by done. rewrite lookup_fmap in Hp.
    destruct (addr !! pi0) as [p0|]; [|done]. injection Hp as <-. right. by exists p0.
Qed.

Lemma new_deref : deref ct' (PChild b' (length l)) = Some new.
Proof using Hblock. rewrite Hblock. by apply list_lookup_middle. Qed.

(** A node of the new tree: the new child, the parent, or an old node. *)
Lemma node_cases pi0 p n0 : addr' !! pi0 = Some p -> deref ct' p = Some n0 ->
  (pi0 = k :: pi /\ n0 = new) \/ (pi0 = pi /\ n0 = n') \/
  (pi0 <> pi /\ exists p0, addr !! pi0 = Some p0 /\ p = moved p0 /\ deref ct p0 = Some n0).
Proof using Hs Hq Hn Hl Hb' Hblock Hother.
  intros Hp Hd. destruct (addr'_cases _ _ Hp) as [[-> ->]|(p0 & Hp0 & ->)].
  - left. rewrite new_deref in Hd. by injection Hd as <-.
  - rewrite (deref_moved _ _ Hp0) in Hd. case_decide as E.
    + right; left. injection Hd as <-. split; [|done]. rewrite E in Hp0.
      by apply (shape_inj _ _ _ _ _ _ Hs Hp0).
    + right; right. split; [intros ->; rewrite Hq in Hp0; congruence|by exists p0].
Qed.

Lemma old_children pi0 p0 n0 b : addr !! pi0 = Some p0 -> deref ct p0 = Some n0 -> pi0 <> pi ->
  n_children n0 = Some b -> is_Some (heap ct !! b) /\ n_children n <> Some b /\ b <> b'.
Proof using Hs Hq Hn Hb'.
  intros Hp Hd Hne Hb. destruct (sh_up _ _ _ Hs _ _ _ _ Hp Hd Hb) as [Hsome _].
  assert (n_children n <> Some b) as Hnb.
  { intros Hnb. apply Hne. by eapply (sh_own _ _ _ Hs pi0 pi p0 q n0 n b). }
  split_and!; [done|done|]. intros ->. destruct Hb' as [?|Hno]; [done|].
  rewrite Hno in Hsome. by destruct Hsome.
Qed.

(** A node's old children are the only ones that move. *)
Lemma moved_other pi0 p0 : addr !! pi0 = Some p0 -> (forall k0, pi0 <> k0 :: pi) -> moved p0 = p0.
Proof using Hs Hq Hn.
  intros Hp Hne. destruct p0 as [|b i]; [done|]. simpl. case_decide as Hb; [|done].
  destruct (shape_deref _ _ _ _ _ Hs Hp) as [c Hc].
  destruct (sh_up _ _ _ Hs _ _ _ _ Hq Hn Hb) as [_ Hall]. specialize (Hall i c Hc).
  destruct (Hne (node_key c)). by apply (shape_inj _ _ _ _ _ _ Hs Hp).
Qed.

Lemma add_down k0 pi0 p : addr' !! (k0 :: pi0) = Some p ->
  exists q0 n0 b i c, addr' !! pi0 = Some q0 /\ deref ct' q0 = Some n0 /\ n_children n0 = Some b /\
    p = PChild b i /\ deref ct' p = Some c /\ node_key c = k0.
Proof using Hs Hq Hn Hl Hnew Hb' Hblock Hother.
  assert (Hpar : addr' !! pi = Some q /\ deref ct' q = Some n').
  { pose proof (addr'_old _ _ Hq) as A. pose proof (deref_moved _ _ Hq) as D.
    rewrite moved_q in A, D. by rewrite decide_True in D. }
  destruct Hpar as [Aq Dq]. intros Hp.
  destruct (addr'_cases _ _ Hp) as [[[= -> ->] ->]|(p0 & Hp0 & ->)].
  { exists q, n', b', (length l), new. split_and!; auto using new_deref. }
  destruct (sh_down _ _ _ Hs _ _ _ Hp0) as (q0 & n0 & b & i & c & A & D & C & -> & F & K).
  pose proof (deref_moved _ _ Hp0) as F'. destruct (decide (pi0 = pi)) as [->|Hne].
  - rewrite Hq in A. injection A as <-. rewrite Hn in D. injection D as <-.
    rewrite decide_False in F' by (intros E; by destruct (parent_not_child addr ct m pi q n b i Hs Hq Hn C)).
    simpl moved in F' |- *. rewrite decide_True in F' |- * by done. rewrite F in F'.
    by exists q, n', b', i, c.
  - pose proof (deref_moved _ _ A) as D'.
    rewrite decide_False in D' by (intros ->; apply Hne; by apply (shape_inj _ _ _ _ _ _ Hs A)).
    destruct (old_children _ _ _ _ A D Hne C) as (_ & Hnb & _).
    simpl moved in F' |- *. rewrite decide_False in F' |- * by done.
    case_decide as E.
    + exists (moved q0), n0, b, i, n'. split_and!; [by apply addr'_old|congruence|done|done|done|].
      rewrite E, Hn in F. injection F as <-. exact K.
    + exists (moved q0), n0, b, i, c. split_and!; [by apply addr'_old|congruence|done|done|congruence|done].
Qed.

Lemma add_up pi0 p n0 b : addr' !! pi0 = Some p -> deref ct' p = Some n0 -> n_children n0 = Some b ->
  is_Some (heap ct' !! b) /\
  forall i c, deref ct' (PChild b i) = Some c -> addr' !! (node_key c :: pi0) = Some (PChild b i).
Proof using All.
  intros Hp Hd Hb. destruct (node_cases _ _ _ Hp Hd) as [[-> ->]|[[-> ->]|(Hne & p0 & Hp0 & -> & D)]].
  - destruct Hinit as [E _]. congruence.
  - simpl in Hb. injection Hb as <-. split; [apply Hheap; by left|]. intros i c Hc. rewrite Hblock in Hc.
    destruct (decide (i < length l)%nat) as [Hi|Hi].
    + rewrite lookup_app_l in Hc by done. destruct (n_children n) as [b|] eqn:Eb.
      * pose proof Hc as Hc'. rewrite <- (own_block b i Eb) in Hc'.
        destruct (sh_up _ _ _ Hs _ _ _ _ Hq Hn Eb) as [_ Hall]. specialize (Hall i c Hc').
        rewrite (addr'_old _ _ Hall). simpl. by rewrite decide_True.
      * exfalso. unfold children_of in Hl. rewrite Eb in Hl. injection Hl as <-. simpl in Hi. lia.
    + pose proof (lookup_lt_Some _ _ _ Hc) as Hlt. rewrite length_app in Hlt. simpl in Hlt.
      assert (i = length l) as -> by lia. rewrite list_lookup_middle in Hc by done. injection Hc as <-.
      unfold addr'. by rewrite lookup_insert_eq.
  - destruct (old_children _ _ _ _ Hp0 D Hne Hb) as (Hsome & Hnb & Hbb).
    split; [apply Hheap; by right|]. intros i c Hc.
    rewrite Hother in Hc; [|intros i0; congruence|intros b1 i1 ? [= -> ->]; done].
    destruct (sh_up _ _ _ Hs _ _ _ _ Hp0 D Hb) as [_ Hall].
    assert (exists c0, deref ct (PChild b i) = Some c0 /\ node_key c0 = node_key c) as (c0 & Hc0 & <-).
    { case_decide as E; [|by exists c]. injection Hc as <-. rewrite E. by exists n. }
    rewrite (addr'_old _ _ (Hall i c0 Hc0)). simpl. by rewrite decide_False.
Qed.

Lemma add_own p1 p2 q1 q2 n1 n2 b : addr' !! p1 = Some q1 -> addr' !! p2 = Some q2 ->
  deref ct' q1 = Some n1 -> deref ct' q2 = Some n2 ->
  n_children n1 = Some b -> n_children n2 = Some b -> p1 = p2.
Proof using Hs Hq Hn Hl Hb' Hinit Hblock Hother.
  intros A1 A2 D1 D2 C1 C2. destruct Hinit as [Hi _].
  destruct (node_cases _ _ _ A1 D1) as [[-> ->]|[[-> ->]|(Hne1 & r1 & R1 & -> & E1)]]; [congruence| |];
    destruct (node_cases _ _ _ A2 D2) as [[-> ->]|[[-> ->]|(Hne2 & r2 & R2 & -> & E2)]]; try congruence.
  - simpl in C1. injection C1 as <-. by destruct (old_children _ _ _ _ R2 E2 Hne2 C2) as (_ & _ & []).
  - simpl in C2. injection C2 as <-. by destruct (old_children _ _ _ _ R1 E1 Hne1 C1) as (_ & _ & []).
  - by apply (sh_own _ _ _ Hs p1 p2 r1 r2 n1 n2 b).
Qed.

Lemma add_used b : is_Some (heap ct' !! b) ->
  exists pi0 p n0, addr' !! pi0 = Some p /\ deref ct' p = Some n0 /\ n_children n0 = Some b.
Proof using Hs Hq Hn Hl Hnew Hb' Hblock Hother Hheap.
  intros [->|[Hb Hne]]%Hheap.
  - pose proof (addr'_old _ _ Hq) as A. pose proof (deref_moved _ _ Hq) as D. rewrite decide_True in D by done.
    by exists pi, (moved q), n'.
  - destruct (sh_used _ _ _ Hs b Hb) as (pi0 & p & n0 & A & D & C).
    exists pi0, (moved p), n0. split_and!; [by apply addr'_old| |done].
    rewrite (deref_moved _ _ A), decide_False; [done|]. intros ->. congruence.
Qed.

Lemma shape_add_child : shape addr' ct' m'.
Proof using All.
  constructor.
  - change PRoot with (moved PRoot). apply addr'_old, (sh_root _ _ _ Hs).
  - apply add_down.
  - apply add_up.
  - apply add_own.
  - intros pi0 p n0 Hp Hd Hc.
    destruct (node_cases _ _ _ Hp Hd) as [[-> ->]|[[-> ->]|(Hne & p0 & Hp0 & -> & D)]].
    + apply Hinit.
    + done.
    + by apply (sh_cap _ _ _ Hs _ _ _ Hp0).
  - intros b [->|[Hb _]]%Hheap; [apply Hfresh|]. pose proof (sh_fresh _ _ _ Hs b Hb). lia.
  - apply add_used.
Qed.
End add_child.

(** What finding or adding a child under [pi] does: the pointers to all other
    paths stay valid, apart from siblings, and no counter changes. *)
Definition child_post (addr : gmap (list key) ptr) (ct ct' : calltree) (m m' : mem)
    (pi : list key) (nm bn : cstr) (p : ptr) : Prop :=
  exists addr2, shape addr2 ct' m' /\ addr2 !! ((loc nm, loc bn) :: pi) = Some p /\
    (forall pi0 p0, addr !! pi0 = Some p0 -> (forall k0, pi0 <> k0 :: pi) -> addr2 !! pi0 = Some p0) /\
    (forall pi0 p0 n0, addr2 !! pi0 = Some p0 -> deref ct' p0 = Some n0 ->
       (addr !! pi0 = None /\ n0 = ct_node_init nm bn) \/
       exists p1 n1, addr !! pi0 = Some p1 /\ deref ct p1 = Some n1 /\ n_count n0 = n_count n1 /\
         n_total n0 = n_total n1 /\ n_entry n0 = n_entry n1) /\
    (forall pi0, addr2 !! pi0 = None -> addr !! pi0 = None).

(** Both ways of adding a node give [child_post]. *)
Lemma add_child_post addr ct ct' m m' pi q n l b' cap nm bn :
  shape addr ct m -> addr !! pi = Some q -> deref ct q = Some n -> children_of ct n = Some l ->
  (forall i c, l !! i = Some c -> node_key c <> (loc nm, loc bn)) ->
  n_children n = Some b' \/ heap ct !! b' = None ->
  (b' < next_loc m')%nat /\ (next_loc m <= next_loc m')%nat ->
  (forall i, deref ct' (PChild b' i) = (l ++ [ct_node_init nm bn]) !! i) ->
  (forall p, (forall i, p <> PChild b' i) -> (forall b i, n_children n = Some b -> p <> PChild b i) ->
    deref ct' p = if decide (p = q) then Some (with_children (Some b') cap n) else deref ct p) ->
  (forall b, is_Some (heap ct' !! b) <-> b = b' \/ is_Some (heap ct !! b) /\ n_children n <> Some b) ->
  child_post addr ct ct' m m' pi nm bn (PChild b' (length l)).
Proof.
  intros Hs Hq Hn Hl Hnew Hb' Hf Hblock Hother Hheap.
  pose (new := ct_node_init nm bn). assert (Hi : n_children new = None /\ n_cap new = 0) by done.
  exists (addr' addr pi n l b' new). split_and!.
  - by apply (shape_add_child addr ct ct' m m' pi q n l b' cap new).
  - unfold addr'. apply lookup_insert_eq.
  - intros pi0 p0 Hp Hne.
    rewrite (addr'_old addr ct m pi q n l b' new Hs Hq Hn Hl Hnew pi0 p0 Hp). f_equal.
    by apply (moved_other addr ct m pi q n b' Hs Hq Hn pi0).
  - intros pi0 p0 n0 Hp Hd.
    destruct (node_cases addr ct ct' m pi q n l b' cap new Hs Hq Hn Hl Hb' Hblock Hother pi0 p0 n0 Hp Hd)
      as [[-> ->]|[[-> ->]|(_ & p1 & Hp1 & _ & Hd1)]].
    + left. split; [|done]. destruct (addr !! (node_key new :: pi)) as [p|] eqn:E; [|done].
      by destruct (not_new_path addr ct m pi q n l new Hs Hq Hn Hl Hnew p).
    + right. by exists q, n.
    + right. by exists p1, n0.
  - intros pi0. unfold addr'. rewrite lookup_insert_None, lookup_fmap, fmap_None. by intros [? _].
Qed.

Lemma find_child l nm bn :
  match find_index (fun c => ptr_eqb (n_name c) nm && ptr_eqb (n_binary c) bn) l with
  | Some i => exists c, l !! i = Some c /\ node_key c = (loc nm, loc bn)
  | None => forall i c, l !! i = Some c -> node_key c <> (loc nm, loc bn)
  end.
Proof.
  assert (Hk : forall c, ptr_eqb (n_name c) nm && ptr_eqb (n_binary c) bn = true <->
    node_key c = (loc nm, loc bn)).
  { intros c. unfold ptr_eqb, node_key. rewrite andb_true_iff, !Nat.eqb_eq. naive_solver. }
  destruct (find_index _ l) as [i|] eqn:E.
  - apply find_index_Some in E as (c & Hc & Ht & _). exists c. by rewrite <- Hk.
  - intros i c Hc Hkc%Hk. rewrite find_index_None in E.
    rewrite (E c) in Hkc; [done|]. by eapply list_elem_of_lookup_2.
Qed.

(** Growing: the children move to a new block with the new one behind them. *)
Lemma add_by_growing addr ct m b' m1 pi q n l nm bn :
  shape addr ct m -> addr !! pi = Some q -> deref ct q = Some n -> children_of ct n = Some l ->
  (forall i c, l !! i = Some c -> node_key c <> (loc nm, loc bn)) -> malloc m = (Some b', m1) ->
  let h := match n_children n with Some old => delete old (heap ct) | None => heap ct end in
  exists ct2, store (set_heap (<[b' := l ++ [ct_node_init nm bn]]> h) ct) q
                (with_children (Some b') (grow 8 (n_cap n)) n) = Some ct2 /\
    stack ct2 = stack ct /\ stack_cap ct2 = stack_cap ct /\ ct_prev_class ct2 = ct_prev_class ct /\
    child_post addr ct ct2 m m1 pi nm bn (PChild b' (length l)).
Proof.
  intros Hs Hq Hn Hl Hf Em h. pose proof (malloc_mono _ _ _ Em) as Hmono.
  pose proof (malloc_spec _ _ _ Em) as [[? _]|[[= ->] Hnext]]; [done|].
  assert (Hnone : heap ct !! next_loc m = None).
  { apply eq_None_not_Some. intros Hsome. pose proof (sh_fresh _ _ _ Hs _ Hsome). lia. }
  set (ct1 := set_heap (<[next_loc m := l ++ [ct_node_init nm bn]]> h) ct).
  assert (Hh : forall b, b <> next_loc m -> (n_children n <> Some b) -> heap ct1 !! b = heap ct !! b).
  { intros b Hb Hc. simpl. rewrite lookup_insert_ne by done. subst h.
    destruct (n_children n) as [old|]; [|done]. apply lookup_delete_ne. congruence. }
  assert (Hq1 : deref ct1 q = Some n).
  { rewrite <- Hn. destruct q as [|b i]; [done|]. cbn [deref]. rewrite Hh; [done| |].
    - intros ->. simpl in Hn. by rewrite Hnone in Hn.
    - intros Hc. by apply (parent_not_child _ _ _ _ _ _ _ i Hs Hq Hn Hc). }
  destruct (deref_store ct1 q n (with_children (Some (next_loc m)) (grow 8 (n_cap n)) n) Hq1)
    as (ct2 & E & Hd & Hh2 & H1 & H2 & H3).
  exists ct2. split_and!; [done..|].
  assert (Hdq : forall i, PChild (next_loc m) i <> q).
  { intros i <-. simpl in Hn. by rewrite Hnone in Hn. }
  apply (add_child_post _ _ _ _ _ _ q n l _ (grow 8 (n_cap n))); auto; [lia| | |].
  - intros i. rewrite Hd, decide_False by done. simpl. by rewrite lookup_insert_eq.
  - intros p Hp1 Hp2. rewrite Hd. case_decide; [done|]. destruct p as [|b i]; [done|].
    cbn [deref]. rewrite Hh; [done| |]; [intros ->; by destruct (Hp1 i)|].
    intros Hc. by destruct (Hp2 b i Hc).
  - intros b. rewrite Hh2. destruct (decide (b = next_loc m)) as [->|Hb].
    { split; [by left|]. intros _. simpl. rewrite lookup_insert_eq. by eexists. }
    simpl. rewrite lookup_insert_ne by done. subst h. destruct (n_children n) as [old|] eqn:Eo.
    + destruct (decide (b = old)) as [->|Hbo].
      * rewrite lookup_delete_eq. split; [by intros [? ?]|]. intros [->|[_ ?]]; done.
      * rewrite lookup_delete_ne by done. split; [intros; right; split; [done|congruence]|].
        intros [->|[? _]]; done.
    + split; [by right|]. intros [->|[? _]]; done.
Qed.

(** With room: the new child goes behind the others. *)
Lemma add_in_place addr ct m pi q n l b nm bn :
  shape addr ct m -> addr !! pi = Some q -> deref ct q = Some n -> children_of ct n = Some l ->
  (forall i c, l !! i = Some c -> node_key c <> (loc nm, loc bn)) -> n_children n = Some b ->
  child_post addr ct (set_heap (<[b := l ++ [ct_node_init nm bn]]> (heap ct)) ct) m m pi nm bn
    (PChild b (length l)).
Proof.
  intros Hs Hq Hn Hl Hf Eb.
  assert (Hpq : forall i, PChild b i <> q).
  { intros i <-. by apply (parent_not_child _ _ _ _ _ _ _ i Hs Hq Hn Eb). }
  destruct (sh_up _ _ _ Hs _ _ _ _ Hq Hn Eb) as [Hsome _].
  pose proof (sh_fresh _ _ _ Hs b Hsome).
  apply (add_child_post _ _ _ _ _ _ q n l _ (n_cap n)); auto.
  - intros i. simpl. by rewrite lookup_insert_eq.
  - intros p Hp1 _. destruct p as [|b0 i]; cbn [deref].
    + case_decide as E; [|done]. rewrite <- E in Hn. simpl in Hn. injection Hn as Hr.
      rewrite <- Eb. simpl. rewrite Hr. by destruct n.
    + assert (b0 <> b) by (intros ->; by destruct (Hp1 i)). simpl. rewrite lookup_insert_ne by done.
      case_decide as E; [|done]. rewrite <- E in Hn. simpl in Hn. rewrite Hn, <- Eb. by destruct n.
  - intros b0. simpl. destruct (decide (b0 = b)) as [->|Hne].
    + rewrite lookup_insert_eq. split; [by left|by eexists].
    + rewrite lookup_insert_ne by done. rewrite Eb. split.
      * intros. right. split; [done|congruence].
      * intros [->|[? _]]; done.
Qed.

Lemma ct_find_or_add_child_spec addr ct m pi q nm bn :
  shape addr ct m -> addr !! pi = Some q ->
  exists r ct' m', ct_find_or_add_child ct q nm bn m = Some (r, ct', m') /\
    stack ct' = stack ct /\ stack_cap ct' = stack_cap ct /\ ct_prev_class ct' = ct_prev_class ct /\
    (next_loc m <= next_loc m')%nat /\ (mem_ok m -> mem_ok m') /\
    match r with
    | None => ct' = ct /\ ~ mem_ok m
    | Some p => child_post addr ct ct' m m' pi nm bn p
    end.
Proof.
  intros Hs Hq. destruct (shape_deref _ _ _ _ _ Hs Hq) as [n Hn].
  unfold ct_find_or_add_child. rewrite Hn. simpl.
  assert (exists l, children_of ct n = Some l) as [l Hl].
  { unfold children_of. destruct (n_children n) as [b|] eqn:Eb; [|by exists []].
    destruct (sh_up _ _ _ Hs _ _ _ _ Hq Hn Eb) as [[l Hl] _]. by exists l. }
  rewrite Hl. simpl. pose proof (find_child l nm bn) as Hf.
  destruct (find_index _ l) as [i|].
  { destruct Hf as (c & Hc & Hk). destruct (n_children n) as [b|] eqn:Eb.
    2:{ unfold children_of in Hl. rewrite Eb in Hl. by injection Hl as <-. }
    exists (Some (PChild b i)), ct, m. split_and!; auto. exists addr. split_and!; auto.
    - destruct (sh_up _ _ _ Hs _ _ _ _ Hq Hn Eb) as [_ Hall]. rewrite <- Hk. apply Hall.
      by rewrite (own_block ct n l Hl b i Eb).
    - intros pi0 p0 n0 Hp Hd. right. by exists p0, n0. }
  destruct (n_cap n <=? Z.of_nat (length l)) eqn:Ecap.
  - destruct (malloc m) as [r m1] eqn:Em. pose proof (malloc_mono _ _ _ Em) as Hmono.
    destruct r as [b'|].
    2:{ exists None, ct, m1. assert (~ mem_ok m) as Hno by (intros (m2 & E & _)%malloc_ok; congruence).
        split_and!; auto. by intros. }
    destruct (add_by_growing addr ct m b' m1 pi q n l nm bn Hs Hq Hn Hl Hf Em) as (ct2 & -> & H1 & H2 & H3 & Hpost).
    exists (Some (PChild b' (length l))), ct2, m1. simpl. split_and!; try done.
    intros (m2 & E & _ & ?)%malloc_ok. congruence.
  - destruct (n_children n) as [b|] eqn:Eb.
    2:{ pose proof (sh_cap _ _ _ Hs _ _ _ Hq Hn Eb) as Hc. apply Z.leb_gt in Ecap. lia. }
    simpl. eexists _, _, m. split_and!; [done|done|done|done|lia|done|].
    by apply (add_in_place addr ct m pi q n l b).
Qed.

(** * Refinement *)

Fixpoint suffixes (l : list key) : list (list key) :=
  l :: match l with [] => [] | _ :: l => suffixes l end.

Lemma suffixes_head l : exists tl, suffixes l = l :: tl.
Proof. destruct l; eexists; done. Qed.

Lemma suffixes_length l pi : pi ∈ suffixes l -> (length pi <= length l)%nat.
Proof.
  induction l as [|k l IH]; simpl; [by intros ->%list_elem_of_singleton|].
  intros [->|H%IH]%elem_of_cons; simpl; lia.
Qed.

(** The tree, its node addresses and the specification agree. *)
Record rep (addr : gmap (list key) ptr) (ct : calltree) (A : acts) (m : mem) : Prop := {
  rep_shape : shape addr ct m;
  rep_stack : Forall2 (fun p pi => addr !! pi = Some p) (stack ct) (suffixes (a_path A));
  rep_count : forall pi p n, addr !! pi = Some p -> deref ct p = Some n ->
    n_count n = a_count A pi /\ n_total n = a_total A pi;
  rep_zero : forall pi, addr !! pi = None -> a_count A pi = 0 /\ a_total A pi = 0;
  rep_entry : forall fs k t rest, a_frames A = fs ++ (k, t) :: rest ->
    exists p n, addr !! (k :: map fst rest) = Some p /\ deref ct p = Some n /\ n_entry n = t;
}.

Lemma rep_set_prev addr ct A m c : rep addr ct A m -> rep addr (set_prev c ct) A m.
Proof.
  assert (Hd : forall p, deref (set_prev c ct) p = deref ct p) by (by intros []).
  intros [Hs Hst Hc Hz He]. constructor; [by apply (shape_ext addr ct)|done| |done|].
  - intros pi p n. rewrite Hd. apply Hc.
  - intros fs k t rest Hf. destruct (He fs k t rest Hf) as (p & n & H). exists p, n. by rewrite Hd.
Qed.

Lemma calltree_init_rep_any m ct m' m2 :
  calltree_init m = Some (ct, m') -> exists addr, rep addr ct a_init m2.
Proof.
  unfold calltree_init. destruct (malloc m) as [[l|] m1]; [|done]. intros [= <- <-].
  exists {[ [] := PRoot ]}. constructor.
  - constructor.
    + apply lookup_singleton_eq.
    + intros k pi p Hp. rewrite lookup_singleton_ne in Hp; done.
    + intros pi q n b [<- <-]%lookup_singleton_Some [= <-]. done.
    + intros p1 p2 q1 q2 n1 n2 b [<- <-]%lookup_singleton_Some [<- <-]%lookup_singleton_Some. done.
    + intros pi q n [<- <-]%lookup_singleton_Some [= <-]. done.
    + intros b. simpl. rewrite lookup_empty. by intros [].
    + intros b. simpl. rewrite lookup_empty. by intros [].
  - simpl. by repeat constructor.
  - intros pi p n [<- <-]%lookup_singleton_Some [= <-]. done.
  - done.
  - by intros [|? ?] ? ? ?.
Qed.

Lemma calltree_init_rep m ct m' :
  calltree_init m = Some (ct, m') -> exists addr, rep addr ct a_init m'.
Proof. apply calltree_init_rep_any. Qed.

(** The nodes of the active calls are ancestors of the top. *)
Lemma rep_top addr ct A m :
  rep addr ct A m -> exists p st, stack ct = p :: st /\ addr !! a_path A = Some p /\
    Forall2 (fun p pi => addr !! pi = Some p) st (tail (suffixes (a_path A))).
Proof.
  intros Hr. pose proof (rep_stack _ _ _ _ Hr) as H.
  destruct (suffixes_head (a_path A)) as [tl E]. rewrite E in H.
  inversion H as [|p ? st ? Hp Hst]; subst. exists p, st. rewrite E. done.
Qed.

Lemma store_rep addr ct A A' m p pi n n' ct' :
  rep addr ct A m -> addr !! pi = Some p -> deref ct p = Some n -> same_shape n n' ->
  store ct p n' = Some ct' ->
  n_count n' = a_count A' pi -> n_total n' = a_total A' pi ->
  (forall q, q <> pi -> a_count A' q = a_count A q /\ a_total A' q = a_total A q) ->
  a_frames A' = a_frames A ->
  (forall fs k t rest, a_frames A = fs ++ (k, t) :: rest -> k :: map fst rest = pi -> n_entry n' = t) ->
  rep addr ct' A' m.
Proof.
  intros Hr Hp Hn Hsh Hst Hc Ht Hoth Hf He. pose proof (rep_shape _ _ _ _ Hr) as Hs.
  destruct (deref_store ct p n n' Hn) as (ct1 & Hst1 & Hd & _ & Hs1 & _).
  rewrite Hst in Hst1. injection Hst1 as <-. constructor.
  - by apply (shape_store addr ct m p n n').
  - rewrite Hs1. unfold a_path. rewrite Hf. apply (rep_stack _ _ _ _ Hr).
  - intros pi0 p0 n0 Hp0 Hd0. rewrite Hd in Hd0. destruct (decide (p0 = p)) as [->|Hne].
    + injection Hd0 as <-. by rewrite (shape_inj _ _ _ _ _ _ Hs Hp0 Hp).
    + destruct (Hoth pi0) as [-> ->]; [intros ->; congruence|].
      by apply (rep_count _ _ _ _ Hr pi0 p0).
  - intros pi0 H0. destruct (Hoth pi0) as [-> ->]; [intros ->; congruence|].
    by apply (rep_zero _ _ _ _ Hr).
  - intros fs k t rest Hfr. rewrite Hf in Hfr.
    destruct (rep_entry _ _ _ _ Hr fs k t rest Hfr) as (p0 & n0 & Hp0 & Hd0 & Hn0).
    destruct (decide (p0 = p)) as [->|Hne].
    + exists p, n'. rewrite Hd, decide_True by done. split_and!; [done|done|].
      apply (He fs k t rest Hfr). by apply (shape_inj _ _ _ _ _ _ Hs Hp0).
    + exists p0, n0. by rewrite Hd, decide_False.
Qed.

(** [child_post] keeps the relation: the new node has never been called. *)
Lemma child_rep addr ct ct' A m m' nm bn p :
  rep addr ct A m -> stack ct' = stack ct -> child_post addr ct ct' m m' (a_path A) nm bn p ->
  exists addr2, rep addr2 ct' A m' /\ addr2 !! ((loc nm, loc bn) :: a_path A) = Some p.
Proof.
  intros Hr Hst (addr2 & Hs2 & Hp & Hkeep & Hval & Hnone). exists addr2. split; [|done].
  assert (Hsuf : forall pi0 p0, (length pi0 <= length (a_path A))%nat -> addr !! pi0 = Some p0 ->
    addr2 !! pi0 = Some p0).
  { intros pi0 p0 Hl Hp0. apply Hkeep; [done|]. intros k0 ->. simpl in Hl. lia. }
  constructor.
  - done.
  - rewrite Hst. apply Forall2_same_length_lookup_2.
    + apply (Forall2_length _ _ _ (rep_stack _ _ _ _ Hr)).
    + intros i p0 pi0 H1 H2. apply Hsuf.
      * apply suffixes_length. by eapply list_elem_of_lookup_2.
      * by apply (Forall2_lookup_lr _ _ _ _ _ _ (rep_stack _ _ _ _ Hr) H1).
  - intros pi0 p0 n0 Hp0 Hd0. destruct (Hval _ _ _ Hp0 Hd0) as [[Hno ->]|(p1 & n1 & Hp1 & Hd1 & -> & -> & _)].
    + destruct (rep_zero _ _ _ _ Hr pi0 Hno) as [-> ->]. done.
    + by apply (rep_count _ _ _ _ Hr pi0 p1).
  - intros pi0 H0. by apply (rep_zero _ _ _ _ Hr), Hnone.
  - intros fs k t rest Hf. destruct (rep_entry _ _ _ _ Hr fs k t rest Hf) as (p0 & n0 & Hp0 & Hd0 & Hn0).
    assert (Hp2 : addr2 !! (k :: map fst rest) = Some p0).
    { apply Hsuf; [|done]. unfold a_path. rewrite Hf, map_app, length_app. simpl. lia. }
    destruct (shape_deref _ _ _ _ _ Hs2 Hp2) as [n2 Hn2]. exists p0, n2. split_and!; [done|done|].
    destruct (Hval _ _ _ Hp2 Hn2) as [[Hno _]|(p1 & n1 & Hp1 & Hd1 & _ & _ & ->)]; congruence.
Qed.

(** The counter part of a call, before the node is put on the stack. *)
Definition a_called (k : key) (A : acts) : acts :=
  {| a_count := upd (a_count A) (k :: a_path A) (a_count A (k :: a_path A) + 1);
     a_total := a_total A; a_frames := a_frames A |}.

Lemma frames_shorter A fs k t rest pi :
  a_frames A = fs ++ (k, t) :: rest -> k :: map fst rest = pi -> (length pi <= length (a_path A))%nat.
Proof. intros Hf <-. unfold a_path. rewrite Hf, map_app, length_app. simpl. lia. Qed.

(** Putting the node of a call on the stack. *)
Lemma pushed_rep addr ct A m m2 child n cap sym tsc :
  rep addr ct (a_called (sym_key sym) A) m -> addr !! (sym_key sym :: a_path A) = Some child ->
  deref ct child = Some (called tsc n) -> (next_loc m <= next_loc m2)%nat ->
  rep addr (set_stack (child :: stack ct) cap ct) (a_push (sym_key sym) tsc A) m2.
Proof.
  intros [S3 K3 C3 Z3 E3] Hc Hd0 Hm2.
  assert (Hd : forall s c q, deref (set_stack s c ct) q = deref ct q) by (by intros ? ? []).
  constructor.
  - apply (shape_mem _ _ m); [|done]. by apply (shape_ext addr ct).
  - simpl. constructor; [done|exact K3].
  - intros pi0 p0 n0. rewrite Hd. apply C3.
  - exact Z3.
  - intros [|f fs] k0 t rest Hf.
    + injection Hf as Hk Ht Hrest. exists child, (called tsc n). rewrite Hd, Hd0.
      split_and!; [by rewrite <- Hk, <- Hrest|done|done].
    + injection Hf as _ Hf. destruct (E3 fs k0 t rest Hf) as (p0 & n0 & H0). exists p0, n0. by rewrite Hd.
Qed.

Lemma calltree_push_rep addr ct A m sym tsc :
  rep addr ct A m ->
  exists ct' m' addr' A', calltree_push ct sym tsc m = Some (ct', m') /\ rep addr' ct' A' m' /\
    ct_prev_class ct' = ct_prev_class ct /\
    (mem_ok m -> A' = a_push (sym_key sym) tsc A /\ mem_ok m').
Proof.
  intros Hr. destruct (rep_top _ _ _ _ Hr) as (p & st & Est & Hp & Hst).
  unfold calltree_push. rewrite Est. simpl.
  destruct (ct_find_or_add_child_spec addr ct m (a_path A) p (s_name sym) (s_binary sym)
    (rep_shape _ _ _ _ Hr) Hp) as (r & ct1 & m1 & -> & Hst1 & Hcap1 & Hprev1 & Hmono & Hmem & Hpost).
  simpl. destruct r as [child|].
  2:{ destruct Hpost as [-> Hno]. exists ct, m1, addr, A. split_and!; [done| |done|done].
      destruct Hr. constructor; try done. by apply (shape_mem _ _ m). }
  destruct (child_rep addr ct ct1 A m m1 _ _ child Hr Hst1 Hpost) as (addr2 & Hr2 & Hc).
  set (k := (loc (s_name sym), loc (s_binary sym))) in *. change k with (sym_key sym) in *.
  destruct (shape_deref _ _ _ _ _ (rep_shape _ _ _ _ Hr2) Hc) as [n Hn]. rewrite Hn. simpl.
  destruct (deref_store ct1 child n (called tsc n) Hn) as (ct2 & Hsto & Hd2 & _ & Hst2 & Hcap2 & Hprev2).
  rewrite Hsto. simpl.
  assert (Hr3 : rep addr2 ct2 (a_called (sym_key sym) A) m1).
  { destruct (rep_count _ _ _ _ Hr2 _ _ _ Hc Hn) as [Hcn Htn].
    apply (store_rep addr2 ct1 A _ m1 child (sym_key sym :: a_path A) n (called tsc n) ct2); auto.
    - by repeat split.
    - simpl. unfold upd. rewrite decide_True by done. by rewrite Hcn.
    - intros q Hq. simpl. unfold upd. by rewrite decide_False.
    - intros fs k0 t rest Hf Hl. pose proof (frames_shorter A fs k0 t rest _ Hf Hl) as Hlen.
      simpl in Hlen. lia. }
  assert (Hpush : forall m2 cap, (next_loc m1 <= next_loc m2)%nat ->
    rep addr2 (set_stack (child :: stack ct2) cap ct2) (a_push (sym_key sym) tsc A) m2).
  { intros m2 cap Hm2. apply (pushed_rep _ _ _ m1 _ _ n); [done|done| |done].
    by rewrite Hd2, decide_True. }
  destruct (stack_cap ct2 <=? Z.of_nat (length (stack ct2))).
  - destruct (malloc m1) as [rs m2] eqn:Em. pose proof (malloc_mono _ _ _ Em) as Hm2. destruct rs as [s|].
    + eexists _, m2, addr2, _. split_and!; [done|by apply Hpush|simpl; congruence|].
      intros Hm%Hmem. split; [done|]. destruct (malloc_ok m1 Hm) as (m3 & E & _ & ?). congruence.
    + exists ct2, m2, addr2, (a_called (sym_key sym) A). split_and!; [done| |congruence|].
      * destruct Hr3. constructor; try done. by apply (shape_mem _ _ m1).
      * intros Hm%Hmem. destruct (malloc_ok m1 Hm) as (m3 & E & _). congruence.
  - eexists _, m1, addr2, _. split_and!; [done|by apply Hpush|simpl; congruence|].
    intros Hm. split; [done|by apply Hmem].
Qed.

Lemma calltree_pop_rep addr ct A m tsc :
  rep addr ct A m ->
  exists ct', calltree_pop ct tsc = Some ct' /\ rep addr ct' (a_pop tsc A) m /\
    ct_prev_class ct' = ct_prev_class ct.
Proof.
  intros Hr. pose proof (rep_stack _ _ _ _ Hr) as Hst. unfold calltree_pop, a_pop.
  destruct (a_frames A) as [|[k t] fs] eqn:Ef.
  { unfold a_path in Hst. rewrite Ef in Hst. simpl in Hst.
    inversion Hst as [|p ? st ? Hp Hst']; subst. inversion Hst'; subst. by exists ct. }
  assert (Epath : a_path A = k :: map fst fs) by (unfold a_path; by rewrite Ef).
  rewrite Epath in *. simpl in Hst. inversion Hst as [|p ? st ? Hp Hst']; subst.
  destruct (suffixes_head (map fst fs)) as [tl Etl]. rewrite Etl in Hst'.
  inversion Hst' as [|p1 ? st1 ? Hp1 Hst1]; subst.
  destruct (rep_entry _ _ _ _ Hr [] k t fs Ef) as (p0 & n & Hp0 & Hn & Hent).
  rewrite Hp in Hp0. injection Hp0 as <-. rewrite Hn. simpl.
  destruct (deref_store ct p n (returned tsc n) Hn) as (ct' & Hsto & Hd & _ & Hst2 & _ & Hprev).
  rewrite Hsto. simpl. eexists. split_and!; [done| |done].
  destruct (rep_count _ _ _ _ Hr _ _ _ Hp Hn) as [Hc Ht].
  pose proof (rep_shape _ _ _ _ Hr) as Hs.
  assert (Hds : forall s c q, deref (set_stack s c ct') q = deref ct' q) by (by intros ? ? []).
  assert (Hs' : shape addr ct' m) by (by apply (shape_store addr ct m p n (returned tsc n))).
  constructor.
  - by apply (shape_ext addr ct').
  - cbn [set_stack stack]. rewrite Hst2. match goal with E : _ :: _ = stack ct |- _ => rewrite <- E end.
    unfold a_path. simpl. rewrite Etl. by constructor.
  - intros pi q n0 Hq. rewrite Hds, Hd. simpl. destruct (decide (q = p)) as [->|Hne].
    + intros [= <-]. rewrite (shape_inj _ _ _ _ _ _ Hs Hq Hp). unfold upd.
      rewrite decide_True by done. simpl. rewrite Hc, Ht, Hent. done.
    + intros Hn0. unfold upd. rewrite decide_False by (intros ->; congruence).
      by apply (rep_count _ _ _ _ Hr pi q).
  - intros pi Hno. simpl. unfold upd. rewrite decide_False by (intros ->; congruence).
    by apply (rep_zero _ _ _ _ Hr).
  - simpl. intros fs0 k0 t0 rest Hf.
    destruct (rep_entry _ _ _ _ Hr ((k, t) :: fs0) k0 t0 rest) as (q & n0 & Hq & Hn0 & He);
      [by rewrite Ef, Hf|].
    exists q, n0. rewrite Hds, Hd, decide_False; [done|]. intros ->.
    pose proof (shape_inj _ _ _ _ _ _ Hs Hq Hp) as E. apply (f_equal length) in E.
    rewrite Hf, map_app in E. simpl in E. rewrite length_app in E. simpl in E. lia.
Qed.

Lemma calltree_record_rep addr ct A m e :
  rep addr ct A m ->
  exists ct' m' addr' A', calltree_record ct e m = Some (ct', m') /\ rep addr' ct' A' m' /\
    ct_prev_class ct' = ev_class e /\
    (mem_ok m -> A' = a_record (ct_prev_class ct) e A /\ mem_ok m').
Proof.
  intros Hr. unfold calltree_record, a_record.
  assert (Hpop : forall ct1 m1 addr1 A1, rep addr1 ct1 A1 m1 ->
    exists ct' , (ct2 ← (if is_return (ev_class e) then calltree_pop ct1 (ev_tsc e) else Some ct1);
                  Some (set_prev (ev_class e) ct2, m1)) = Some (ct', m1) /\
      rep addr1 ct' (if is_return (ev_class e) then a_pop (ev_tsc e) A1 else A1) m1 /\
      ct_prev_class ct' = ev_class e).
  { intros ct1 m1 addr1 A1 Hr1. case_bool.
    - destruct (calltree_pop_rep _ _ _ _ (ev_tsc e) Hr1) as (ct2 & -> & Hr2 & _). simpl.
      eexists. split_and!; [done|by apply rep_set_prev|done].
    - eexists. split_and!; [done|by apply rep_set_prev|done]. }
  assert (Hskip : exists ct' m' addr' A',
    (ct2 ← (if is_return (ev_class e) then calltree_pop ct (ev_tsc e) else Some ct);
     Some (set_prev (ev_class e) ct2, m)) = Some (ct', m') /\ rep addr' ct' A' m' /\
    ct_prev_class ct' = ev_class e /\
    (mem_ok m -> A' = (if is_return (ev_class e) then a_pop (ev_tsc e) A else A) /\ mem_ok m')).
  { destruct (Hpop _ _ _ _ Hr) as (ct' & -> & Hr' & Hc). by exists ct', m, addr, (if is_return (ev_class e) then a_pop (ev_tsc e) A else A). }
  destruct (ev_sym e) as [sym|]; [|exact Hskip].
  destruct ((ev_ip e =? s_addr sym) && is_call (ct_prev_class ct))%bool; [|exact Hskip].
  destruct (calltree_push_rep _ _ _ _ sym (ev_tsc e) Hr) as (ct1 & m1 & addr1 & A1 & -> & Hr1 & _ & Hm1).
  simpl. destruct (Hpop _ _ _ _ Hr1) as (ct' & -> & Hr' & Hc).
  eexists ct', m1, addr1, _. split_and!; [done|exact Hr'|done|].
  intros Hm. destruct (Hm1 Hm) as [-> ?]. done.
Qed.

Lemma calltree_record_all_rep es addr ct A m :
  rep addr ct A m ->
  exists ct' m' addr' A', calltree_record_all ct es m = Some (ct', m') /\ rep addr' ct' A' m' /\
    (mem_ok m -> A' = a_record_all (ct_prev_class ct) es A /\ mem_ok m').
Proof.
  revert addr ct A m. induction es as [|e es IH]; intros addr ct A m Hr; [by exists ct, m, addr, A|].
  cbn [calltree_record_all a_record_all].
  destruct (calltree_record_rep _ _ _ _ e Hr) as (ct1 & m1 & addr1 & A1 & -> & Hr1 & Hp1 & Hm1).
  simpl. destruct (IH _ _ _ _ Hr1) as (ct2 & m2 & addr2 & A2 & -> & Hr2 & Hm2).
  exists ct2, m2, addr2, A2. split_and!; [done|done|].
  intros Hm. destruct (Hm1 Hm) as [-> Hm1']. destruct (Hm2 Hm1') as [-> Hm2']. by rewrite Hp1.
Qed.

(** C3: The only bad access is calltree_init's write through [ct->stack], which
    is null exactly when its allocation fails.  Once the tree is initialised
    no operation follows a null or a dangling pointer: whatever instructions
    are decoded and whichever allocations fail, the arrays that [realloc]
    moves are never reached through an old pointer. *)
Theorem calltree_no_dangling m es :
  (calltree_init m = None <-> (malloc m).1 = None) /\
  forall ct m', calltree_init m = Some (ct, m') -> is_Some (calltree_record_all ct es m').
Proof.
  split.
  - unfold calltree_init. by destruct (malloc m) as [[b|] m1].
  - intros ct m' (addr & Hr)%calltree_init_rep.
    destruct (calltree_record_all_rep es addr ct a_init m' Hr) as (ct' & m2 & addr' & A' & -> & _).
    by eexists.
Qed.

(** The node of a path, found from the root by comparing pointers. *)
Fixpoint node_at (ct : calltree) (pi : list key) : option ct_node :=
  match pi with
  | [] => Some (root ct)
  | k :: pi => n ← node_at ct pi; l ← children_of ct n; List.find (fun c => bool_decide (node_key c = k)) l
  end.

Lemma find_key (l : list ct_node) k :
  match List.find (fun c => bool_decide (node_key c = k)) l with
  | Some c => exists i, l !! i = Some c /\ node_key c = k
  | None => forall i c, l !! i = Some c -> node_key c <> k
  end.
Proof.
  destruct (List.find _ l) as [c|] eqn:E.
  - apply List.find_some in E as [Hin Hk%bool_decide_eq_true].
    apply list_elem_of_In, list_elem_of_lookup_1 in Hin as [i Hi]. by exists i.
  - intros i c Hi Hk. apply list_elem_of_lookup_2, list_elem_of_In in Hi.
    pose proof (List.find_none _ _ E c Hi) as H. by apply bool_decide_eq_false in H.
Qed.

Lemma node_at_addr addr ct m pi :
  shape addr ct m -> node_at ct pi = addr !! pi ≫= deref ct.
Proof.
  intros Hs. induction pi as [|k pi IH]; simpl.
  { by rewrite (sh_root _ _ _ Hs). }
  rewrite IH. destruct (addr !! pi) as [q|] eqn:Hq; simpl.
  2:{ destruct (addr !! (k :: pi)) as [p|] eqn:Hp; [|done].
      destruct (sh_down _ _ _ Hs _ _ _ Hp) as (q & n & b & i & c & A & _). congruence. }
  destruct (shape_deref _ _ _ _ _ Hs Hq) as [n Hn]. rewrite Hn. simpl.
  assert (exists l, children_of ct n = Some l) as [l Hl].
  { unfold children_of. destruct (n_children n) as [b|] eqn:Eb; [|by exists []].
    destruct (sh_up _ _ _ Hs _ _ _ _ Hq Hn Eb) as [[l Hl] _]. by exists l. }
  rewrite Hl. simpl. pose proof (find_key l k) as Hf. destruct (List.find _ l) as [c|].
  - destruct Hf as (i & Hi & <-). destruct (n_children n) as [b|] eqn:Eb.
    + pose proof Hi as Hd. rewrite <- (own_block ct n l Hl b i Eb) in Hd.
      destruct (sh_up _ _ _ Hs _ _ _ _ Hq Hn Eb) as [_ Ha]. by rewrite (Ha i c Hd).
    + unfold children_of in Hl. rewrite Eb in Hl. injection Hl as <-. done.
  - destruct (addr !! (k :: pi)) as [p|] eqn:Hp; [|done].
    destruct (sh_down _ _ _ Hs _ _ _ Hp) as (q1 & n1 & b & i & c & A & D & C & E & F & K).
    rewrite Hq in A. injection A as <-. rewrite Hn in D. injection D as <-.
    rewrite E, (own_block ct n l Hl b i C) in F. by destruct (Hf i c F).
Qed.

(** What the node of a path counts. *)
Lemma node_count addr ct A m pi :
  rep addr ct A m ->
  match node_at ct pi with
  | Some n => n_count n = a_count A pi /\ n_total n = a_total A pi
  | None => a_count A pi = 0 /\ a_total A pi = 0
  end.
Proof.
  intros Hr. rewrite (node_at_addr _ _ _ _ (rep_shape _ _ _ _ Hr)).
  destruct (addr !! pi) as [p|] eqn:Hp; simpl; [|by apply (rep_zero _ _ _ _ Hr)].
  destruct (shape_deref _ _ _ _ _ (rep_shape _ _ _ _ Hr) Hp) as [n Hn]. rewrite Hn.
  by apply (rep_count _ _ _ _ Hr pi p).
Qed.

Lemma calltree_init_ok m :
  mem_ok m -> exists ct m', calltree_init m = Some (ct, m') /\ mem_ok m' /\ ct_prev_class ct = ptic_error.
Proof.
  intros Hm. unfold calltree_init. destruct (malloc_ok m Hm) as (m0 & -> & _ & Hm0). by eexists _, m0.
Qed.

(** C2: The tree counts what the call stack says: with memory, after any
    instructions, the node of a path holds the number of calls made along
    that path and the time spent in them, and a path without a node was
    never called. *)
Theorem calltree_refines m es :
  mem_ok m ->
  exists ct0 m0 ct m1,
    calltree_init m = Some (ct0, m0) /\ calltree_record_all ct0 es m0 = Some (ct, m1) /\
    forall pi, let A := a_record_all ptic_error es a_init in
      match node_at ct pi with
      | Some n => n_count n = a_count A pi /\ n_total n = a_total A pi
      | None => a_count A pi = 0 /\ a_total A pi = 0
      end.
Proof.
  intros Hm. destruct (calltree_init_ok m Hm) as (ct0 & m0 & E & Hm0 & Hprev).
  destruct (calltree_init_rep m _ m0 E) as (addr & Hr).
  destruct (calltree_record_all_rep es _ _ _ _ Hr) as (ct & m1 & addr1 & A1 & Hall & Hr1 & HA).
  exists ct0, m0, ct, m1. split_and!; [done|exact Hall|]. intros pi. cbn zeta.
  destruct (HA Hm0) as [-> _]. rewrite Hprev in Hr1. by apply (node_count _ _ _ _ _ Hr1).
Qed.
