(* ===== verification/Profile.v ===== *)
(** decode.c: per-function counters (-o profile).

    Entries are found by comparing the name pointers the symbol table handed
    out.  Source lines come from dwarf.c, which the profile only queries:
    [DwarfLines] is its answer for a binary, a slide and an address. *)

From Stdlib Require Import ZArith Lia Ascii String.
From stdpp Require Import base list strings sets gmap sorting.
From S2P Require Import Prelude CLib Types CallTree.

Class DwarfLines := dwarf_line : string -> Z -> Z -> option (string * Z).

Record profile_entry := {
  p_name : cstr; p_binary : cstr; p_calls : Z; p_returns : Z; p_branches : Z;
  cumulative_tsc : Z; entry_tsc : Z; source_file : option cstr; source_line : Z }.

Record profile := { p_entries : list profile_entry; p_capacity : Z; p_prev_class : pt_insn_class }.

(** [filter_funcs] are the names of -F; one whose copy could not be allocated
    is a null pointer. *)
Record pt_decode_opts := {
  opt_tid : Z; opt_mtc_freq : Z; opt_cyc_thresh : Z; filter_funcs : list (option string) }.

(** * Operations *)

Definition profile_init : profile :=
  {| p_entries := []; p_capacity := 0; p_prev_class := ptic_error |}.

Definition same_function (sym : sym_entry) (e : profile_entry) : bool :=
  ptr_eqb (p_name e) (s_name sym) && ptr_eqb (p_binary e) (s_binary sym).

(** The text after the last slash, or the whole path. *)
Definition after_slash (p : string) : string := default p (after_last "/" p).

(** The source line of a new entry, from the first section whose file has the
    symbol's binary name. *)
Definition lookup_source `{DwarfLines} (sym : sym_entry) (sections : option (list pt_image_info))
    (m : mem) : option cstr * Z * mem :=
  match sections with
  | None => (None, 0, m)
  | Some ss =>
      match List.find (fun s => String.eqb (after_slash (path s)) (chars (s_binary sym))) ss with
      | None => (None, 0, m)
      | Some s =>
          match dwarf_line (path s) (s_slide sym) (s_addr sym) with
          | None => (None, 0, m)
          | Some (f, line) => let '(r, m) := strdup f m in (r, line, m)
          end
      end
  end.

Definition new_entry (sym : sym_entry) (src : option cstr) (line : Z) : profile_entry :=
  {| p_name := s_name sym; p_binary := s_binary sym; p_calls := 0; p_returns := 0; p_branches := 0;
     cumulative_tsc := 0; entry_tsc := 0; source_file := src; source_line := line |}.

(** [e->calls++], the time of entry. *)
Definition enter (tsc : Z) (e : profile_entry) : profile_entry :=
  {| p_name := p_name e; p_binary := p_binary e; p_calls := p_calls e + 1;
     p_returns := p_returns e; p_branches := p_branches e; cumulative_tsc := cumulative_tsc e;
     entry_tsc := if 0 <? tsc then tsc else entry_tsc e;
     source_file := source_file e; source_line := source_line e |}.

(** The switch on the instruction's class. *)
Definition count_class (iclass : pt_insn_class) (tsc : Z) (e : profile_entry) : profile_entry :=
  match iclass with
  | ptic_return | ptic_far_return =>
      let timed := (0 <? tsc) && (0 <? entry_tsc e) && (entry_tsc e <? tsc) in
      {| p_name := p_name e; p_binary := p_binary e; p_calls := p_calls e;
         p_returns := p_returns e + 1; p_branches := p_branches e;
         cumulative_tsc := if timed then u64 (cumulative_tsc e + (tsc - entry_tsc e))
                           else cumulative_tsc e;
         entry_tsc := if timed then 0 else entry_tsc e;
         source_file := source_file e; source_line := source_line e |}
  | ptic_jump | ptic_cond_jump =>
      {| p_name := p_name e; p_binary := p_binary e; p_calls := p_calls e;
         p_returns := p_returns e; p_branches := p_branches e + 1;
         cumulative_tsc := cumulative_tsc e; entry_tsc := entry_tsc e;
         source_file := source_file e; source_line := source_line e |}
  | _ => e
  end.

Definition update_entry (prev : pt_insn_class) (sym : sym_entry) (ev : insn_event)
    (e : profile_entry) : profile_entry :=
  count_class (ev_class ev) (ev_tsc ev)
    (if (ev_ip ev =? s_addr sym) && is_call prev then enter (ev_tsc ev) e else e).

Definition profile_record `{DwarfLines} (p : profile) (ev : insn_event)
    (sections : option (list pt_image_info)) (m : mem) : profile * mem :=
  match ev_sym ev with
  | None => (p, m)
  | Some sym =>
      match find_index (same_function sym) (p_entries p) with
      | Some i =>
          ({| p_entries := alter (update_entry (p_prev_class p) sym ev) i (p_entries p);
              p_capacity := p_capacity p; p_prev_class := ev_class ev |}, m)
      | None =>
          let add cap m :=
            let '(src, line, m) := lookup_source sym sections m in
            ({| p_entries := p_entries p ++
                  [update_entry (p_prev_class p) sym ev (new_entry sym src line)];
                p_capacity := cap; p_prev_class := ev_class ev |}, m) in
          if p_capacity p <=? Z.of_nat (length (p_entries p)) then
            let '(r, m) := malloc m in
            match r with
            | None => (p, m)
            | Some _ => add (grow 128 (p_capacity p)) m
            end
          else add (p_capacity p) m
      end
  end.

Fixpoint profile_record_all `{DwarfLines} (p : profile) (evs : list insn_event)
    (sections : option (list pt_image_info)) (m : mem) : profile * mem :=
  match evs with
  | [] => (p, m)
  | ev :: evs => let '(p, m) := profile_record p ev sections m in profile_record_all p evs sections m
  end.

(** The loop over the names; [None] is [strcmp] on a null pointer. *)
Fixpoint filter_loop (fs : list (option string)) (n : string) : option bool :=
  match fs with
  | [] => Some false
  | None :: _ => None
  | Some f :: fs => if String.eqb f n then Some true else filter_loop fs n
  end.

Definition filter_matches (opts : option pt_decode_opts) (nm : option string) : option bool :=
  match opts with
  | None => Some true
  | Some o =>
      match filter_funcs o with
      | [] => Some true
      | fs => match nm with None => Some false | Some n => filter_loop fs n end
      end
  end.

Definition profile_cmp_calls (ea eb : profile_entry) : Z := i32 (p_calls eb - p_calls ea).

Definition profile_line (have_tsc : bool) (e : profile_entry) : string :=
  padr 8 (fmt_d (p_calls e)) +:+ " " +:+ padr 8 (fmt_d (p_returns e)) +:+ " " +:+
  padr 8 (fmt_d (p_branches e)) +:+ "  " +:+
  (if have_tsc then padr 14 (fmt_u (cumulative_tsc e)) +:+ "  " else "") +:+
  padr 20 (chars (p_binary e)) +:+ "  " +:+ chars (p_name e) +:+
  match source_file e with
  | Some f => "  (" +:+ chars f +:+ ":" +:+ fmt_d (source_line e) +:+ ")"
  | None => ""
  end.

Definition profile_shown (opts : option pt_decode_opts) (e : profile_entry) : option bool :=
  if (p_calls e =? 0) && (p_returns e =? 0) && (p_branches e =? 0) then Some false
  else filter_matches opts (Some (chars (p_name e))).

(** The two header lines, then the entries. *)
Definition profile_print `{QSort} (p : profile) (opts : option pt_decode_opts) : option (list string) :=
  let es := qsort profile_cmp_calls (p_entries p) in
  let have_tsc := existsb (fun e => 0 <? cumulative_tsc e) es in
  let row a b c d e f :=
    padr 8 a +:+ " " +:+ padr 8 b +:+ " " +:+ padr 8 c +:+ "  " +:+
    (if have_tsc then padr 14 d +:+ "  " else "") +:+ padr 20 e +:+ "  " +:+ f in
  shown ← filter_opt (profile_shown opts) es;
  Some (row "CALLS" "RETURNS" "BRANCHES" "TIME(tsc)" "BINARY" "FUNCTION" ::
        row "--------" "--------" "--------" "--------------" "--------------------" "--------------------" ::
        map (profile_line have_tsc) shown).

Definition profile_free (p : profile) : profile :=
  {| p_entries := []; p_capacity := 0; p_prev_class := p_prev_class p |}.

(** * Properties *)

(** ** The filter *)

(** No name of the filter is a null pointer. *)
Definition filter_ok (opts : option pt_decode_opts) : Prop :=
  match opts with Some o => Forall is_Some (filter_funcs o) | None => True end.

Lemma filter_matches_total opts nm : filter_ok opts -> is_Some (filter_matches opts nm).
Proof.
  destruct opts as [o|]; [|by eexists]. cbn [filter_ok filter_matches].
  intros Hf. destruct (filter_funcs o) as [|f fs]; [by eexists|]. destruct nm as [n|]; [|by eexists].
  induction Hf as [|f0 fs0 [s ->] _ IH]; [by eexists|]. cbn [filter_loop]. case_bool; [by eexists|exact IH].
Qed.

Lemma profile_print_total `{QSort} p opts : filter_ok opts -> is_Some (profile_print p opts).
Proof.
  intros Hf. unfold profile_print. cbv zeta.
  destruct (filter_opt_total (profile_shown opts) (qsort profile_cmp_calls (p_entries p))) as [l ->]; [|by eexists].
  intros e. unfold profile_shown. case_bool; [by eexists|]. by apply filter_matches_total.
Qed.

(** ** Counts *)

Definition entry_key (e : profile_entry) : key := (loc (p_name e), loc (p_binary e)).

Lemma same_function_key sym e : same_function sym e = true <-> entry_key e = sym_key sym.
Proof.
  unfold same_function, ptr_eqb, entry_key, sym_key. rewrite andb_true_iff, !Nat.eqb_eq. naive_solver.
Qed.

(** The counters of a function: calls, returns, branches. *)
Definition counts (p : profile) (k : key) : Z * Z * Z :=
  match lookup_by entry_key k (p_entries p) with
  | Some e => (p_calls e, p_returns e, p_branches e)
  | None => (0, 0, 0)
  end.

Definition one (b : bool) : Z := if b then 1 else 0.
Definition is_branch (c : pt_insn_class) : bool :=
  match c with ptic_jump | ptic_cond_jump => true | _ => false end.

(** What the instructions say: the calls are the instructions at the start
    of the function reached from a call; instructions without a symbol are
    not seen, nor their class. *)
Fixpoint tally (k : key) (prev : pt_insn_class) (evs : list insn_event) : Z * Z * Z :=
  match evs with
  | [] => (0, 0, 0)
  | ev :: evs =>
      match ev_sym ev with
      | None => tally k prev evs
      | Some sym =>
          let '(c, r, b) := tally k (ev_class ev) evs in
          if decide (sym_key sym = k)
          then (one ((ev_ip ev =? s_addr sym) && is_call prev) + c,
                one (is_return (ev_class ev)) + r, one (is_branch (ev_class ev)) + b)
          else (c, r, b)
      end
  end.

Lemma update_entry_counts prev sym ev e :
  entry_key (update_entry prev sym ev e) = entry_key e /\
  p_calls (update_entry prev sym ev e) = one ((ev_ip ev =? s_addr sym) && is_call prev) + p_calls e /\
  p_returns (update_entry prev sym ev e) = one (is_return (ev_class ev)) + p_returns e /\
  p_branches (update_entry prev sym ev e) = one (is_branch (ev_class ev)) + p_branches e.
Proof.
  unfold update_entry, one. destruct (_ && _)%bool; destruct (ev_class ev); simpl; split_and!; done || lia.
Qed.

Lemma lookup_source_mem `{DwarfLines} sym ss m : mem_ok m -> mem_ok (lookup_source sym ss m).2.
Proof.
  intros Hm. unfold lookup_source. destruct ss as [ss|]; [|done]. destruct (List.find _ ss) as [s|]; [|done].
  destruct (dwarf_line _ _ _) as [[f l]|]; [|done]. by destruct (strdup_ok f m Hm) as (m1 & -> & _ & ?).
Qed.

(** One instruction adds its part to its function's counters. *)
Lemma profile_record_counts `{DwarfLines} p ev ss m k :
  mem_ok m ->
  let '(p', m') := profile_record p ev ss m in
  mem_ok m' /\
  p_prev_class p' = match ev_sym ev with Some _ => ev_class ev | None => p_prev_class p end /\
  counts p' k =
    match ev_sym ev with
    | Some sym =>
        let '(c, r, b) := counts p k in
        if decide (sym_key sym = k)
        then (one ((ev_ip ev =? s_addr sym) && is_call (p_prev_class p)) + c,
              one (is_return (ev_class ev)) + r, one (is_branch (ev_class ev)) + b)
        else (c, r, b)
    | None => counts p k
    end.
Proof.
  intros Hm. unfold profile_record. destruct (ev_sym ev) as [sym|]; [|done].
  pose proof (update_entry_counts (p_prev_class p) sym ev) as Hu.
  destruct (find_index (same_function sym) (p_entries p)) as [i|] eqn:Ei.
  { apply find_index_Some in Ei as (e & Hi & He%same_function_key & Hlt). split_and!; [done|done|].
    assert (Hbefore : forall j y, (j < i)%nat -> p_entries p !! j = Some y -> entry_key y <> entry_key e).
    { intros j y Hj Hy. specialize (Hlt j y Hj Hy). rewrite He. intros Hk%same_function_key. congruence. }
    pose proof (lookup_by_first entry_key _ i e Hi Hbefore) as Hfirst. unfold counts. cbn [p_entries].
    rewrite (lookup_by_alter entry_key _ i _ e) by (done || (intros; apply Hu)).
    destruct (Hu e) as (_ & Hc & Hr & Hb). case_decide as E.
    - subst k. rewrite Hfirst. cbv beta iota. rewrite decide_True, Hc, Hr, Hb by done. done.
    - destruct (lookup_by _ k _); cbv beta iota; by rewrite decide_False by congruence. }
  assert (Hnone : lookup_by entry_key (sym_key sym) (p_entries p) = None).
  { apply lookup_by_None. intros e He Hk%same_function_key. rewrite find_index_None in Ei.
    by rewrite (Ei e He) in Hk. }
  assert (Hadd : forall cap m1, mem_ok m1 ->
    let '(p', m') := (let '(src, line, m) := lookup_source sym ss m1 in
      ({| p_entries := p_entries p ++ [update_entry (p_prev_class p) sym ev (new_entry sym src line)];
          p_capacity := cap; p_prev_class := ev_class ev |}, m)) in
    mem_ok m' /\ p_prev_class p' = ev_class ev /\
    counts p' k = let '(c, r, b) := counts p k in
      if decide (sym_key sym = k)
      then (one ((ev_ip ev =? s_addr sym) && is_call (p_prev_class p)) + c,
            one (is_return (ev_class ev)) + r, one (is_branch (ev_class ev)) + b)
      else (c, r, b)).
  { intros cap m1 Hm1. pose proof (lookup_source_mem sym ss m1 Hm1) as Hm2.
    destruct (lookup_source sym ss m1) as [[src line] m2]. split_and!; [done|done|].
    destruct (Hu (new_entry sym src line)) as (Hk & Hc & Hr & Hb). unfold counts. cbn [p_entries].
    rewrite (lookup_by_snoc entry_key) by (rewrite Hk; exact Hnone). rewrite Hk.
    change (entry_key (new_entry sym src line)) with (sym_key sym). case_decide as E.
    - subst k. rewrite Hnone. cbv beta iota. rewrite decide_True, Hc, Hr, Hb by done. done.
    - destruct (lookup_by _ k _); cbv beta iota; by rewrite decide_False by congruence. }
  case_bool; [|by apply Hadd]. destruct (malloc_ok m Hm) as (m1 & -> & _ & Hm1). by apply Hadd.
Qed.

Lemma profile_record_all_counts `{DwarfLines} evs p ss m k :
  mem_ok m ->
  counts (profile_record_all p evs ss m).1 k =
    let '(c0, r0, b0) := counts p k in let '(c, r, b) := tally k (p_prev_class p) evs in
    (c0 + c, r0 + r, b0 + b).
Proof.
  revert p m. induction evs as [|ev evs IH]; intros p m Hm.
  { simpl. destruct (counts p k) as [[c r] b]. repeat f_equal; lia. }
  cbn [profile_record_all tally]. pose proof (profile_record_counts p ev ss m k Hm) as Hs.
  destruct (profile_record p ev ss m) as [p1 m1]. destruct Hs as (Hm1 & Hp1 & Hc1).
  rewrite IH by done. rewrite Hc1, Hp1. destruct (counts p k) as [[c0 r0] b0].
  destruct (ev_sym ev) as [sym|]; [|done].
  destruct (tally k (ev_class ev) evs) as [[c r] b]. case_decide; [f_equal; [f_equal|]; lia|done].
Qed.

Lemma profile_record_all_mem `{DwarfLines} evs p ss m :
  mem_ok m -> mem_ok (profile_record_all p evs ss m).2.
Proof.
  revert p m. induction evs as [|ev evs IH]; intros p m Hm; [done|]. cbn [profile_record_all].
  pose proof (profile_record_counts p ev ss m (0, 0)%nat Hm) as Hs.
  destruct (profile_record p ev ss m) as [p' m']. apply IH, Hs.
Qed.

(** The profile counts, for every function, exactly the calls into it, and
    the returns and branches inside it, among the instructions that have a
    symbol. *)
Theorem profile_counts `{DwarfLines} evs ss m k :
  mem_ok m ->
  counts (profile_record_all profile_init evs ss m).1 k = tally k ptic_error evs.
Proof.
  intros Hm. rewrite profile_record_all_counts by done. simpl.
  change (counts profile_init k) with (0, 0, 0). by destruct (tally k ptic_error evs) as [[c r] b].
Qed.

(** *** Counting without the recorder

    Where every instruction has a symbol, the counters are plain counts over
    the instructions and over the pairs of neighbours. *)

Definition count_of {A} (P : A -> bool) (l : list A) : Z := Z.of_nat (length (List.filter P l)).

Lemma count_of_cons {A} (P : A -> bool) x l : count_of P (x :: l) = one (P x) + count_of P l.
Proof. unfold count_of, one. simpl. destruct (P x); simpl; lia. Qed.

(** The instruction is in the function [k]; it is where [k] starts. *)
Definition inside (k : key) (ev : insn_event) : bool :=
  match ev_sym ev with Some sym => bool_decide (sym_key sym = k) | None => false end.
Definition at_start (k : key) (ev : insn_event) : bool :=
  match ev_sym ev with
  | Some sym => bool_decide (sym_key sym = k) && (ev_ip ev =? s_addr sym)
  | None => false
  end.

(** The calls of [k]: the pairs of an instruction that calls and the next one,
    at the start of [k]. *)
Definition function_calls (k : key) (evs : list insn_event) : Z :=
  count_of (fun '(ev, next) => is_call (ev_class ev) && at_start k next) (zip evs (tail evs)).
Definition function_returns (k : key) (evs : list insn_event) : Z :=
  count_of (fun ev => inside k ev && is_return (ev_class ev)) evs.
Definition function_branches (k : key) (evs : list insn_event) : Z :=
  count_of (fun ev => inside k ev && is_branch (ev_class ev)) evs.

Lemma tally_counts k evs : forall prev,
  Forall (fun ev => is_Some (ev_sym ev)) evs ->
  tally k prev evs =
    (one (match evs with ev :: _ => is_call prev && at_start k ev | [] => false end) + function_calls k evs,
     function_returns k evs, function_branches k evs).
Proof.
  induction evs as [|ev evs IH]; intros prev Hsym; [done|]. apply Forall_cons in Hsym as [[sym Es] Hsym].
  cbn [tally]. rewrite Es, IH by done.
  assert (function_calls k (ev :: evs) =
    one (match evs with e :: _ => is_call (ev_class ev) && at_start k e | [] => false end) + function_calls k evs)
    as -> by (destruct evs; [done|]; unfold function_calls; cbn [zip_with tail]; by rewrite count_of_cons).
  assert (function_returns k (ev :: evs) = one (inside k ev && is_return (ev_class ev)) + function_returns k evs) as ->
    by (unfold function_returns; by rewrite count_of_cons).
  assert (function_branches k (ev :: evs) = one (inside k ev && is_branch (ev_class ev)) + function_branches k evs) as ->
    by (unfold function_branches; by rewrite count_of_cons).
  assert (Ha : at_start k ev = bool_decide (sym_key sym = k) && (ev_ip ev =? s_addr sym)) by
    (unfold at_start; by rewrite Es).
  assert (Hi : inside k ev = bool_decide (sym_key sym = k)) by (unfold inside; by rewrite Es).
  rewrite Ha, Hi. case_decide as E.
  - rewrite bool_decide_eq_true_2 by done. cbn [andb]. by rewrite (andb_comm (_ =? _)).
  - rewrite bool_decide_eq_false_2 by done. cbn [andb]. by rewrite andb_false_r.
Qed.

Lemma tally_plain k evs :
  Forall (fun ev => is_Some (ev_sym ev)) evs ->
  tally k ptic_error evs = (function_calls k evs, function_returns k evs, function_branches k evs).
Proof. intros H. rewrite tally_counts by done. destruct evs; cbn [is_call andb one]; by rewrite Z.add_0_l. Qed.

(** ** The profile and the call tree agree *)

Lemma sum_on_upd (f : list key -> Z) p v l :
  NoDup l -> sum_on (upd f p v) l = sum_on f l + (if decide (p ∈ l) then v - f p else 0).
Proof.
  induction 1 as [|x l Hx _ IH]; [done|]. cbn [sum_on]. rewrite IH. unfold upd at 1.
  destruct (decide (x = p)) as [->|Hne].
  - rewrite (decide_True (P := p ∈ p :: l)) by constructor. rewrite decide_False by done. lia.
  - destruct (decide (p ∈ l)).
    + rewrite decide_True by (by constructor). lia.
    + rewrite decide_False; [lia|]. rewrite elem_of_cons. intros [?|?]; [by destruct Hne|done].
Qed.

(** The path an instruction calls, if it enters a function. *)
Definition pushed (prev : pt_insn_class) (e : insn_event) (A : acts) : option (list key) :=
  match ev_sym e with
  | Some sym => if (ev_ip e =? s_addr sym) && is_call prev then Some (sym_key sym :: a_path A) else None
  | None => None
  end.

Lemma a_record_count prev e A pi :
  a_count (a_record prev e A) pi =
    a_count A pi + one (bool_decide (pushed prev e A = Some pi)).
Proof.
  assert (Hpop : forall B, a_count (if is_return (ev_class e) then a_pop (ev_tsc e) B else B) = a_count B).
  { intros B. case_bool; [|done]. unfold a_pop. by destruct (a_frames B) as [|[k t] fs]. }
  unfold a_record, pushed, one. rewrite Hpop. destruct (ev_sym e) as [sym|]; [|rewrite bool_decide_eq_false_2; [lia|done]].
  destruct (_ && _)%bool; [|rewrite bool_decide_eq_false_2; [lia|done]].
  simpl. unfold upd. case_decide as E.
  - subst. rewrite bool_decide_eq_true_2 by done. lia.
  - rewrite bool_decide_eq_false_2 by congruence. lia.
Qed.

Lemma a_record_all_mono es prev A pi : a_count A pi <= a_count (a_record_all prev es A) pi.
Proof.
  revert prev A. induction es as [|e es IH]; intros prev A; [done|]. cbn [a_record_all].
  specialize (IH (ev_class e) (a_record prev e A)). rewrite a_record_count in IH.
  unfold one in IH. destruct (bool_decide _); lia.
Qed.

Definition ends_in (k : key) (pi : list key) : Prop := head pi = Some k.

#[export] Instance ends_in_dec k pi : Decision (ends_in k pi).
Proof. unfold ends_in. apply _. Defined.

Lemma sum_on_pushed prev e A k pis :
  NoDup pis -> (forall pi, pushed prev e A = Some pi -> pi ∈ pis) ->
  sum_on (a_count (a_record prev e A)) (base.filter (ends_in k) pis) =
  sum_on (a_count A) (base.filter (ends_in k) pis) +
  match ev_sym e with
  | Some sym => if decide (sym_key sym = k) then one ((ev_ip e =? s_addr sym) && is_call prev) else 0
  | None => 0
  end.
Proof.
  intros Hnd Hin.
  assert (Hext : forall (f g : list key -> Z) l, (forall x, f x = g x) -> sum_on f l = sum_on g l).
  { intros f g l Hfg. induction l as [|x l IH]; simpl; [done|]. by rewrite Hfg, IH. }
  rewrite (Hext _ (fun pi => match pushed prev e A with
    | Some p => upd (a_count A) p (a_count A p + 1) pi | None => a_count A pi end)).
  2:{ intros pi. rewrite a_record_count. unfold one. destruct (pushed prev e A) as [p|].
      - unfold upd. case_decide as E; [subst; by rewrite bool_decide_eq_true_2|].
        rewrite bool_decide_eq_false_2 by congruence. lia.
      - rewrite bool_decide_eq_false_2 by done. lia. }
  unfold pushed in *. destruct (ev_sym e) as [sym|]; [|rewrite (Hext _ (a_count A)) by done; lia].
  destruct ((ev_ip e =? s_addr sym) && is_call prev)%bool; simpl one.
  - rewrite (Hext _ (upd (a_count A) (sym_key sym :: a_path A) (a_count A (sym_key sym :: a_path A) + 1)))
      by done.
    rewrite sum_on_upd by (by apply NoDup_filter). specialize (Hin _ eq_refl).
    destruct (decide (sym_key sym = k)) as [<-|Hne].
    + rewrite decide_True by (by apply list_elem_of_filter). lia.
    + rewrite decide_False by (rewrite list_elem_of_filter; intros [[= ?] _]; done). lia.
  - rewrite (Hext _ (a_count A)) by done. case_decide; lia.
Qed.

Lemma tally_tree es k prev A pis :
  Forall (fun e => ev_sym e <> None) es -> (forall pi, 0 <= a_count A pi) ->
  NoDup pis -> (forall pi, a_count (a_record_all prev es A) pi <> 0 -> pi ∈ pis) ->
  sum_on (a_count (a_record_all prev es A)) (base.filter (ends_in k) pis) =
  sum_on (a_count A) (base.filter (ends_in k) pis) + (tally k prev es).1.1.
Proof.
  intros Hes. revert prev A. induction Hes as [|e es He _ IH]; intros prev A H0 Hnd Hin; [simpl; lia|].
  cbn [a_record_all] in *.
  assert (H0' : forall pi, 0 <= a_count (a_record prev e A) pi).
  { intros pi. rewrite a_record_count. specialize (H0 pi). unfold one. destruct (bool_decide _); lia. }
  rewrite IH by done. rewrite sum_on_pushed; [|done|].
  - cbn [tally]. destruct (ev_sym e) as [sym|]; [|done].
    destruct (tally k (ev_class e) es) as [[c r] b]. case_decide; simpl; lia.
  - intros pi Hp. apply Hin. pose proof (a_record_all_mono es (ev_class e) (a_record prev e A) pi) as Hm.
    rewrite a_record_count, bool_decide_eq_true_2 in Hm by done. specialize (H0 pi). simpl in Hm. lia.
Qed.

(** C24: When every instruction has a symbol, the calls the profile reports for a
    function are the calls the tree reports at all the paths that end in it. *)
Theorem profile_tree_agree `{DwarfLines} es ss m m' k pis ct0 m0 ct m1 :
  mem_ok m -> mem_ok m' -> Forall (fun e => ev_sym e <> None) es ->
  calltree_init m' = Some (ct0, m0) -> calltree_record_all ct0 es m0 = Some (ct, m1) ->
  NoDup pis -> (forall pi, node_at ct pi <> None -> pi ∈ pis) ->
  (counts (profile_record_all profile_init es ss m).1 k).1.1 =
  sum_on (fun pi => default 0 (n_count <$> node_at ct pi)) (base.filter (ends_in k) pis).
Proof.
  intros Hm Hm' Hes Hi Hall Hnd Hin.
  rewrite profile_record_all_counts by done. change (counts profile_init k) with (0, 0, 0).
  set (A := a_record_all ptic_error es a_init).
  assert (Href : forall pi, default 0 (n_count <$> node_at ct pi) = a_count A pi /\
    (a_count A pi <> 0 -> node_at ct pi <> None)).
  { destruct (calltree_init_ok m' Hm') as (ct2 & m2 & E & Hm0 & Hprev). rewrite Hi in E. injection E as -> ->.
    destruct (calltree_init_rep _ _ _ Hi) as (addr & Hr).
    destruct (calltree_record_all_rep es _ _ _ _ Hr) as (ct3 & m3 & addr1 & A1 & Hall1 & Hr1 & HA).
    rewrite Hall in Hall1. injection Hall1 as <- <-. destruct (HA Hm0) as [-> _]. rewrite Hprev in Hr1.
    intros pi. pose proof (node_count _ _ _ _ pi Hr1) as Hn. fold A in Hn.
    destruct (node_at ct pi) as [n|]; simpl; [split; [apply Hn|done]|]. destruct Hn as [-> _]. done. }
  pose proof (tally_tree es k ptic_error a_init pis Hes ltac:(done) Hnd) as Ht. fold A in Ht.
  assert (sum_on (a_count a_init) (base.filter (ends_in k) pis) = 0) as Hz.
  { generalize (base.filter (ends_in k) pis). induction l; simpl; [done|]. done. }
  rewrite Hz in Ht. specialize (Ht ltac:(intros pi Hpi; apply Hin; by apply Href)).
  replace (p_prev_class profile_init) with ptic_error by done.
  destruct (tally k ptic_error es) as [[c r] b]. cbn [fst snd] in Ht |- *. rewrite <- Ht.
  generalize (base.filter (ends_in k) pis). induction l as [|pi l IH]; simpl; [done|].
  rewrite IH. by rewrite (proj1 (Href pi)).
Qed.
