(* ===== verification/Dwarf.v ===== *)
(** dwarf.c: source lines from DWARF, and its cache of open binaries.

    libdwarf is outside the repository: [LibDwarf] is what it reads from a
    file, its units with their line tables.  Its unit iterator wraps: after
    the last unit a call reports the end, and the next call is at the first
    unit again; the code relies on that to rewind. *)

From Stdlib Require Import ZArith Lia Ascii String.
From stdpp Require Import base list strings sets gmap sorting.
From S2P Require Import Prelude CLib Types Elf Resolve Hwt Profile.

(** * libdwarf *)

(** A row of a line table; a field that cannot be read is [None]. *)
Record Dwarf_Line := { dwarf_lineaddr : option Z; dwarf_linesrc : option string; dwarf_lineno : option Z }.

(** A unit: no DIE, no line table, or its rows. *)
Inductive Dwarf_Unit := NoDie | NoLines | Lines (l : list Dwarf_Line).

Class LibDwarf := dwarf_init : string -> option (list Dwarf_Unit).

(** An open file and the unit its iterator is at. *)
Record Dwarf_Debug := { dbg_units : list Dwarf_Unit; dbg_next : nat }.

(** [None] is the end, which rewinds. *)
Definition dwarf_next_cu_header (d : Dwarf_Debug) : option Dwarf_Unit * Dwarf_Debug :=
  match dbg_units d !! dbg_next d with
  | Some u => (Some u, {| dbg_units := dbg_units d; dbg_next := S (dbg_next d) |})
  | None => (None, {| dbg_units := dbg_units d; dbg_next := 0 |})
  end.

(** * The cache *)

Definition MAX_DWARF_CACHES : nat := 32.

Record dwarf_cache := { dc_path : string; dc_dbg : Dwarf_Debug; dc_fd : Z; dc_slide : Z }.

Section cache.
Context `{Kernel} `{LibDwarf}.

(** The index of the binary's entry; [caches] are the first [ncaches]. *)
Definition dwarf_cache_open (binary_path : string) (slide : Z) (caches : list dwarf_cache) (k : kernel)
    : option nat * list dwarf_cache * kernel :=
  match find_index (fun c => String.eqb (dc_path c) binary_path) caches with
  | Some i => (Some i, caches, k)
  | None =>
      if (MAX_DWARF_CACHES <=? length caches)%nat then (None, caches, k)
      else
        let '(fd, k) := k_open binary_path k in
        match fd with
        | None => (None, caches, k)
        | Some fd =>
            match dwarf_init binary_path with
            | None => (None, caches, k_close fd k)
            | Some units =>
                let dc := {| dc_path := strlcpy MAXPATHLEN binary_path;
                             dc_dbg := {| dbg_units := units; dbg_next := 0 |};
                             dc_fd := fd; dc_slide := slide |} in
                (Some (length caches), caches ++ [dc], k)
            end
        end
  end.

(** [while (dwarf_next_cu_header_c(...) == DW_DLV_OK);]. *)
Fixpoint rewind (fuel : nat) (d : Dwarf_Debug) : option Dwarf_Debug :=
  match fuel with
  | O => None
  | S fuel => match dwarf_next_cu_header d with (Some _, d) => rewind fuel d | (None, d) => Some d end
  end.

(** The best row so far. *)
Record best := {
  global_best_addr : Z; global_best_file : string; global_best_line : Z; found : bool }.

Definition no_best : best :=
  {| global_best_addr := 0; global_best_file := EmptyString; global_best_line := 0; found := false |}.

Definition visit_line (file_addr : Z) (b : best) (l : Dwarf_Line) : best :=
  match dwarf_lineaddr l with
  | None => b
  | Some lineaddr =>
      if (lineaddr <=? file_addr) && (global_best_addr b <? lineaddr) then
        {| global_best_addr := lineaddr;
           global_best_file := match dwarf_linesrc l with
                               | Some src => strlcpy MAXPATHLEN src
                               | None => global_best_file b
                               end;
           global_best_line := match dwarf_lineno l with
                               | Some n => i32 n
                               | None => global_best_line b
                               end;
           found := true |}
      else b
  end.

Definition visit_unit (file_addr : Z) (b : best) (u : Dwarf_Unit) : best :=
  match u with
  | NoDie | NoLines => b
  | Lines l => foldl (visit_line file_addr) b l
  end.

Fixpoint units_loop (fuel : nat) (file_addr : Z) (b : best) (d : Dwarf_Debug)
    : option (best * Dwarf_Debug) :=
  match fuel with
  | O => None
  | S fuel =>
      match dwarf_next_cu_header d with
      | (Some u, d) => units_loop fuel file_addr (visit_unit file_addr b u) d
      | (None, d) => Some (b, d)
      end
  end.

(** The file and line, and the entry with its iterator; [None] outside when
    an iteration does not end. *)
Definition dwarf_addr_to_line (dc : dwarf_cache) (addr : Z) (filesz : nat)
    : option (option (string * Z) * dwarf_cache) :=
  let file_addr := u64 (addr - dc_slide dc) in
  let fuel := S (length (dbg_units (dc_dbg dc))) in
  d ← rewind fuel (dc_dbg dc);
  '(b, d) ← units_loop fuel file_addr no_best d;
  Some (if found b && (u64 (file_addr - global_best_addr b) <? 64)
        then Some (strlcpy filesz (global_best_file b), global_best_line b) else None,
        {| dc_path := dc_path dc; dc_dbg := d; dc_fd := dc_fd dc; dc_slide := dc_slide dc |}).

Fixpoint close_all (caches : list dwarf_cache) (k : kernel) : kernel :=
  match caches with
  | [] => k
  | dc :: caches => close_all caches (if 0 <=? dc_fd dc then k_close (dc_fd dc) k else k)
  end.

Definition dwarf_cache_close_all (caches : list dwarf_cache) (k : kernel) : list dwarf_cache * kernel :=
  ([], close_all caches k).

(** The two calls of [profile_record] for a new function. *)
Definition source_line (path : string) (slide addr : Z) (caches : list dwarf_cache) (k : kernel)
    : option (option (string * Z) * list dwarf_cache * kernel) :=
  let '(i, caches, k) := dwarf_cache_open path slide caches k in
  match i ≫= fun i => caches !! i with
  | None => Some (None, caches, k)
  | Some dc =>
      '(r, dc) ← dwarf_addr_to_line dc addr MAXPATHLEN;
      Some (r, <[default 0%nat i := dc]> caches, k)
  end.
End cache.

(** * Properties *)

(** ** The search *)

Definition unit_rows (u : Dwarf_Unit) : list Dwarf_Line := match u with Lines l => l | _ => [] end.
Definition rows (units : list Dwarf_Unit) : list Dwarf_Line := concat (map unit_rows units).

Lemma visit_unit_rows fa b u : visit_unit fa b u = foldl (visit_line fa) b (unit_rows u).
Proof. by destruct u. Qed.

Lemma rewind_ends fuel d :
  (length (dbg_units d) - dbg_next d < fuel)%nat ->
  rewind fuel d = Some {| dbg_units := dbg_units d; dbg_next := 0 |}.
Proof.
  revert d. induction fuel as [|fuel IH]; intros [us n] Hf; cbn in *; [lia|].
  unfold dwarf_next_cu_header. cbn. destruct (us !! n) as [u|] eqn:E; [|done].
  apply lookup_lt_Some in E. rewrite IH by (cbn; lia). done.
Qed.

Lemma units_loop_rows fuel fa b d :
  (length (dbg_units d) - dbg_next d < fuel)%nat ->
  units_loop fuel fa b d =
    Some (foldl (visit_line fa) b (rows (drop (dbg_next d) (dbg_units d))),
          {| dbg_units := dbg_units d; dbg_next := 0 |}).
Proof.
  revert b d. induction fuel as [|fuel IH]; intros b [us n] Hf; cbn in *; [lia|].
  unfold dwarf_next_cu_header. cbn. destruct (us !! n) as [u|] eqn:E.
  - pose proof (lookup_lt_Some _ _ _ E). rewrite IH by (cbn; lia). cbn.
    rewrite (drop_S us u n E). unfold rows. cbn [map concat]. by rewrite foldl_app, visit_unit_rows.
  - rewrite drop_ge by (by apply lookup_ge_None). done.
Qed.

(** The answer for a file's units, from a fresh iterator or a used one. *)
Definition answer (units : list Dwarf_Unit) (slide addr : Z) (filesz : nat) : option (string * Z) :=
  let fa := u64 (addr - slide) in
  let b := foldl (visit_line fa) no_best (rows units) in
  if found b && (u64 (fa - global_best_addr b) <? 64)
  then Some (strlcpy filesz (global_best_file b), global_best_line b) else None.

Definition rewound (dc : dwarf_cache) : dwarf_cache :=
  {| dc_path := dc_path dc; dc_dbg := {| dbg_units := dbg_units (dc_dbg dc); dbg_next := 0 |};
     dc_fd := dc_fd dc; dc_slide := dc_slide dc |}.

Lemma addr_to_line_answer dc addr filesz :
  dwarf_addr_to_line dc addr filesz =
    Some (answer (dbg_units (dc_dbg dc)) (dc_slide dc) addr filesz, rewound dc).
Proof.
  unfold dwarf_addr_to_line, answer. cbv zeta. rewrite rewind_ends by lia.
  cbn [mbind option_bind]. rewrite units_loop_rows by (cbn [dbg_units dbg_next]; lia).
  cbn [mbind option_bind dbg_units dbg_next drop]. done.
Qed.

(** What the fold over rows has found. *)
Definition nearest (fa : Z) (ls : list Dwarf_Line) (b : best) : Prop :=
  if found b then
    exists l1 l l2, ls = l1 ++ l :: l2 /\ dwarf_lineaddr l = Some (global_best_addr b) /\
      0 < global_best_addr b <= fa /\
      (forall l' a, l' ∈ ls -> dwarf_lineaddr l' = Some a -> a <= fa -> a <= global_best_addr b) /\
      (forall l' a, l' ∈ l1 -> dwarf_lineaddr l' = Some a -> a <= fa -> a < global_best_addr b) /\
      (forall s, dwarf_linesrc l = Some s -> global_best_file b = strlcpy MAXPATHLEN s) /\
      (forall n, dwarf_lineno l = Some n -> global_best_line b = i32 n)
  else global_best_addr b = 0 /\ forall l' a, l' ∈ ls -> dwarf_lineaddr l' = Some a -> a <= fa -> a <= 0.

Lemma fold_nearest fa ls : nearest fa ls (foldl (visit_line fa) no_best ls).
Proof.
  induction ls as [|l ls IH] using rev_ind; [split; [done|by intros ? ? ?%elem_of_nil]|].
  rewrite foldl_app. cbn [foldl]. set (b := foldl _ _ ls) in *. unfold visit_line.
  assert (Hsame : (forall a, dwarf_lineaddr l = Some a -> a <= fa -> a <= global_best_addr b) ->
    nearest fa (ls ++ [l]) b).
  { intros Hl. unfold nearest in *. destruct (found b).
    - destruct IH as (l1 & l0 & l2 & -> & E & Hb & Hmax & Hfst & Hs & Hn).
      exists l1, l0, (l2 ++ [l]). rewrite <- app_assoc. split_and!; try lia; auto.
      intros l' a. rewrite app_assoc, elem_of_app, list_elem_of_singleton.
      intros [H'| ->]; [by apply Hmax|apply Hl].
    - destruct IH as [E IH]. split; [done|]. intros l' a. rewrite elem_of_app, list_elem_of_singleton.
      intros [H'| ->]; [by apply IH|]. intros Ha Hle. specialize (Hl a Ha Hle). lia. }
  destruct (dwarf_lineaddr l) as [a|] eqn:Ea; [|by apply Hsame].
  destruct ((a <=? fa) && (global_best_addr b <? a)) eqn:Ec; to_prop.
  2:{ apply Hsame. intros a' [= <-] Hle. to_prop. lia. }
  assert (Hpos : 0 <= global_best_addr b /\
    forall l' a', l' ∈ ls -> dwarf_lineaddr l' = Some a' -> a' <= fa -> a' <= global_best_addr b).
  { unfold nearest in IH. destruct (found b).
    - destruct IH as (? & ? & ? & _ & _ & Hb & Hmax & _). split; [lia|done].
    - destruct IH as [-> IH]. split; [lia|done]. }
  destruct Hpos as [Hpos Hmax]. unfold nearest. cbn [found global_best_addr global_best_file global_best_line].
  exists ls, l, []. split_and!; try done; try lia.
  - intros l' a'. rewrite elem_of_app, list_elem_of_singleton. intros [H'| ->] Ha' Hle.
    + specialize (Hmax l' a' H' Ha' Hle). lia.
    + rewrite Ha' in Ea. injection Ea as <-. lia.
  - intros l' a' H' Ha' Hle. specialize (Hmax l' a' H' Ha' Hle). lia.
  - by intros s ->.
  - by intros n ->.
Qed.

(** C16: The line of an address: both iterations end, and the answer is the row
    with the greatest address not past it among all units, the first one of
    them, if it is less than 64 bytes away; there is no answer only when no
    row (at an address other than 0) is that near. *)
Theorem dwarf_addr_to_line_nearest dc addr filesz :
  let fa := u64 (addr - dc_slide dc) in
  let ls := rows (dbg_units (dc_dbg dc)) in
  exists r, dwarf_addr_to_line dc addr filesz = Some (r, rewound dc) /\
    match r with
    | Some (f, n) =>
        exists l1 l l2 a, ls = l1 ++ l :: l2 /\ dwarf_lineaddr l = Some a /\ 0 < a <= fa /\ fa - a < 64 /\
          (forall l' a', l' ∈ ls -> dwarf_lineaddr l' = Some a' -> a' <= fa -> a' <= a) /\
          (forall l' a', l' ∈ l1 -> dwarf_lineaddr l' = Some a' -> a' <= fa -> a' < a) /\
          (forall s, dwarf_linesrc l = Some s -> f = strlcpy filesz (strlcpy MAXPATHLEN s)) /\
          (forall n', dwarf_lineno l = Some n' -> n = i32 n')
    | None => forall l a, l ∈ ls -> dwarf_lineaddr l = Some a -> 0 < a <= fa -> 64 <= fa - a
    end.
Proof.
  cbv zeta. rewrite addr_to_line_answer. eexists. split; [reflexivity|]. unfold answer. cbv zeta.
  set (fa := u64 _). set (ls := rows _). pose proof (fold_nearest fa ls) as Hn.
  set (b := foldl _ _ ls) in *. assert (Hfa : is_u64 fa) by apply u64_range.
  unfold nearest in Hn. destruct (found b); cbn [andb].
  - destruct Hn as (l1 & l & l2 & E & Ea & Hb & Hmax & Hfst & Hs & Hl).
    rewrite u64_small by (unfold is_u64 in *; lia). destruct (_ <? 64) eqn:E64; to_prop.
    + exists l1, l, l2, (global_best_addr b). split_and!; try done; try lia.
      intros s Hsrc. by rewrite (Hs s Hsrc).
    + intros l' a Hl' Ha Hpos. specialize (Hmax l' a Hl' Ha). lia.
  - destruct Hn as [_ Hn]. intros l' a Hl' Ha Hpos. specialize (Hn l' a Hl' Ha). lia.
Qed.

(** ** The cache *)

(** What a decode asks about a symbol without the cache. *)
Definition dwarf_lines `{LibDwarf} : DwarfLines :=
  fun path slide addr => units ← dwarf_init path; answer units slide addr MAXPATHLEN.

Section sequences.
Context `{Kernel} `{LibDwarf}.

(** A sequence of queries: path, slide and address. *)
Fixpoint source_lines (qs : list (string * Z * Z)) (caches : list dwarf_cache) (k : kernel)
    : option (list (option (string * Z)) * list dwarf_cache * kernel) :=
  match qs with
  | [] => Some ([], caches, k)
  | (path, slide, addr) :: qs =>
      '(r, caches, k) ← source_line path slide addr caches k;
      '(rs, caches, k) ← source_lines qs caches k;
      Some (r :: rs, caches, k)
  end.

Section transparent.
Context (slide_of : string -> Z) (P : gset string).
Context (Hlen : forall p, p ∈ P -> (String.length p < MAXPATHLEN)%nat).
Context (Hopen : forall p k, p ∈ P -> is_Some (k_open p k).1).
Context (Hroom : (size P <= MAX_DWARF_CACHES)%nat).

(** Every entry is a fresh copy of its file's units. *)
Definition cached (c : dwarf_cache) : Prop :=
  dc_path c ∈ P /\ dwarf_init (dc_path c) = Some (dbg_units (dc_dbg c)) /\
  dc_slide c = slide_of (dc_path c) /\ dbg_next (dc_dbg c) = 0%nat.

Definition cache_ok (cs : list dwarf_cache) : Prop := Forall cached cs /\ NoDup (map dc_path cs).

Lemma cache_has_room cs p :
  cache_ok cs -> p ∈ P -> (forall c, c ∈ cs -> dc_path c <> p) -> (length cs < MAX_DWARF_CACHES)%nat.
Proof using Hroom.
  intros [Hall Hnd] Hp Hno.
  assert (Hnd2 : NoDup (p :: map dc_path cs)).
  { constructor; [|done]. intros (c & E & Hc)%list_elem_of_fmap. by apply (Hno c). }
  assert (Hsub : (list_to_set (p :: map dc_path cs) : gset string) ⊆ P).
  { intros x. rewrite elem_of_list_to_set, elem_of_cons. intros [->|(c & -> & Hc)%list_elem_of_fmap]; [done|].
    rewrite Forall_forall in Hall. apply (Hall c Hc). }
  apply subseteq_size in Hsub. rewrite (size_list_to_set (C := gset string)) in Hsub by done.
  cbn [length] in Hsub. rewrite length_map in Hsub. lia.
Qed.

Lemma rewound_cached c : cached c -> rewound c = c.
Proof using. intros (_ & _ & _ & E). destruct c as [p [us n] fd sl]. cbn in E. subst n. done. Qed.

Lemma source_line_transparent p addr cs k :
  cache_ok cs -> p ∈ P ->
  exists cs' k', source_line p (slide_of p) addr cs k = Some (dwarf_lines p (slide_of p) addr, cs', k') /\
    cache_ok cs'.
Proof using Hlen Hopen Hroom.
  intros Hok Hp. pose proof Hok as [Hall Hnd]. unfold source_line, dwarf_cache_open, dwarf_lines.
  destruct (find_index _ cs) as [i|] eqn:Ei.
  - apply find_index_Some in Ei as (c & Hi & Hc & _). to_prop. subst p. cbn [mbind option_bind]. rewrite Hi.
    rewrite Forall_lookup in Hall. pose proof (Hall i c Hi) as Hc. pose proof Hc as (_ & E & Es & _).
    rewrite addr_to_line_answer, rewound_cached by done. cbn [mbind option_bind]. rewrite E, Es.
    cbn [mbind option_bind default]. rewrite list_insert_id by done. by exists cs, k.
  - rewrite find_index_None in Ei.
    assert (Hno : forall c, c ∈ cs -> dc_path c <> p).
    { intros c Hc E. specialize (Ei c Hc). cbn in Ei. rewrite E, String.eqb_refl in Ei. done. }
    pose proof (cache_has_room cs p Hok Hp Hno). rewrite (proj2 (Nat.leb_gt _ _)) by done.
    pose proof (Hopen p k Hp) as [fd Hfd]. destruct (k_open p k) as [ofd k1]. cbn in Hfd. subst ofd.
    destruct (dwarf_init p) as [us|] eqn:Eu; [|by exists cs, (k_close fd k1)].
    cbn [mbind option_bind]. rewrite list_lookup_middle by done. rewrite addr_to_line_answer.
    cbn [mbind option_bind dc_dbg dbg_units dc_slide default].
    assert (Hp2 : strlcpy MAXPATHLEN p = p) by (apply str_take_all; specialize (Hlen p Hp); lia).
    rewrite rewound_cached.
    + eexists _, k1. split; [done|]. rewrite Hp2. split.
      * rewrite list_insert_id by (by apply list_lookup_middle).
        apply Forall_app. split; [done|]. constructor; [|constructor].
        split_and!; cbn; auto.
      * rewrite list_insert_id by (by apply list_lookup_middle). rewrite map_app. apply NoDup_app. split_and!; [done| |apply NoDup_singleton].
        intros x (c & -> & Hc)%list_elem_of_fmap Hx%list_elem_of_singleton. by apply (Hno c).
    + rewrite Hp2. by split_and!.
Qed.
End transparent.

(** C17: The cache is invisible: as long as a file keeps one slide, the files can
    be opened, their paths fit and there are at most 32 of them, a sequence
    of queries gets the answers that reading each file afresh would give. *)
Theorem source_lines_transparent (slide_of : string -> Z) (P : gset string) qs k :
  (forall p, p ∈ P -> (String.length p < MAXPATHLEN)%nat) ->
  (forall p k, p ∈ P -> is_Some (k_open p k).1) ->
  (size P <= MAX_DWARF_CACHES)%nat ->
  Forall (fun '(p, slide, _) => p ∈ P /\ slide = slide_of p) qs ->
  exists cs k', source_lines qs [] k =
    Some (map (fun '(p, slide, addr) => dwarf_lines p slide addr) qs, cs, k').
Proof.
  intros Hlen Hopen Hroom Hqs.
  assert (Hgo : forall cs k, cache_ok slide_of P cs ->
    exists cs' k', source_lines qs cs k =
      Some (map (fun '(p, slide, addr) => dwarf_lines p slide addr) qs, cs', k')).
  { induction Hqs as [|[[p sl] a] qs [Hp ->] _ IH]; intros cs k1 Hok; [by exists cs, k1|].
    cbn [source_lines map].
    destruct (source_line_transparent slide_of P Hlen Hopen Hroom p a cs k1 Hok Hp) as (cs1 & k2 & -> & Hok1).
    cbn [mbind option_bind]. destruct (IH cs1 k2 Hok1) as (cs2 & k3 & ->). by exists cs2, k3. }
  apply Hgo. split; constructor.
Qed.

(** ** Descriptors *)

Context `{!FdTable} `{!KernelLaws}.

(** The cache owns the descriptors of its entries. *)
Definition cache_fds (before : gset Z) (cs : list dwarf_cache) (k : kernel) : Prop :=
  fds k = fd_set (map dc_fd cs) ∪ before /\ fd_set (map dc_fd cs) ## before /\
  (length cs <= MAX_DWARF_CACHES)%nat.

Lemma close_all_fds cs k : fds (close_all cs k) = fds k ∖ fd_set (map dc_fd cs).
Proof.
  revert k. induction cs as [|c cs IH]; intros k; cbn [close_all map]; [unfold fd_set; set_solver|].
  rewrite IH, fd_set_cons. case_bool; [rewrite close_loses|]; set_solver.
Qed.

Lemma insert_fds cs i c c' : cs !! i = Some c -> dc_fd c' = dc_fd c -> map dc_fd (<[i := c']> cs) = map dc_fd cs.
Proof.
  intros Hi E. change (map dc_fd (<[i:=c']> cs)) with (dc_fd <$> <[i:=c']> cs). rewrite list_fmap_insert, E.
  apply list_insert_id. by rewrite list_lookup_fmap, Hi.
Qed.

Lemma source_line_fds before p slide addr cs k :
  cache_fds before cs k ->
  exists r cs' k', source_line p slide addr cs k = Some (r, cs', k') /\ cache_fds before cs' k'.
Proof.
  intros (Hk & Hd & Hl).
  assert (Hopen : let '(i, cs', k') := dwarf_cache_open p slide cs k in cache_fds before cs' k').
  { unfold dwarf_cache_open. destruct (find_index _ cs); [by split_and!|]. case_bool; [by split_and!|].
    apply Nat.leb_gt in E. pose proof (open_gains p k) as G. destruct (k_open p k) as [[fd|] k1]; cbn [fst snd gains] in G.
    2:{ split_and!; congruence || done. }
    destruct G as (Hp & Hn & E1). destruct (dwarf_init p) as [us|].
    - unfold cache_fds. rewrite map_app, length_app. cbn [map dc_fd length].
      assert (Hs : fd_set (map dc_fd cs ++ [fd]) = {[ fd ]} ∪ fd_set (map dc_fd cs)).
      { unfold fd_set. rewrite List.filter_app, list_to_set_app_L. cbn [List.filter]. case_bool; to_prop; [|lia]. set_solver. }
      rewrite Hs, E1, Hk. split_and!; [set_solver|set_solver|lia].
    - split_and!; [|done|lia]. rewrite close_loses, E1. set_solver. }
  unfold source_line. destruct (dwarf_cache_open p slide cs k) as [[i cs1] k1]. destruct Hopen as (Hk1 & Hd1 & Hl1).
  destruct i as [i|]; cbn [mbind option_bind]; [|by eexists _, _, _].
  destruct (cs1 !! i) as [c|] eqn:Ei; [|by eexists _, _, _].
  rewrite addr_to_line_answer. cbn [mbind option_bind default]. eexists _, _, _. split; [done|].
  unfold cache_fds. rewrite (insert_fds cs1 i c) by done. by rewrite length_insert.
Qed.

(** C37: Whatever is asked of the cache, every query ends, it keeps at most 32
    files open, and closing it gives every descriptor back. *)
Theorem source_lines_close qs k :
  exists rs cs k', source_lines qs [] k = Some (rs, cs, k') /\ length rs = length qs /\
    (length cs <= MAX_DWARF_CACHES)%nat /\ fds (dwarf_cache_close_all cs k').2 = fds k.
Proof.
  assert (Hgo : forall before cs k, cache_fds before cs k ->
    exists rs cs' k', source_lines qs cs k = Some (rs, cs', k') /\ length rs = length qs /\
      cache_fds before cs' k').
  { induction qs as [|[[p sl] a] qs IH]; intros before cs k1 Hok; [by eexists [], cs, k1|].
    cbn [source_lines]. destruct (source_line_fds before p sl a cs k1 Hok) as (r & cs1 & k2 & -> & Hok1).
    cbn [mbind option_bind]. destruct (IH before cs1 k2 Hok1) as (rs & cs2 & k3 & -> & Hlen & Hok2).
    eexists _, _, _. split_and!; [done|cbn; by rewrite Hlen|apply Hok2..]. }
  destruct (Hgo (fds k) [] k) as (rs & cs & k' & -> & Hl & Hk & Hd & Hc).
  { split_and!; [unfold fd_set; set_solver|unfold fd_set; set_solver|cbn; lia]. }
  exists rs, cs, k'. split_and!; [done|done|done|]. cbn [dwarf_cache_close_all snd].
  rewrite close_all_fds, Hk. set_solver.
Qed.
End sequences.
