(* ===== verification/Options.v ===== *)
(** The command lines of bsdtrace.c and cmd_*.c: getopt(3), size strings, and
    the options of the four commands.

    The standard library's getopt is modelled; what is left to the kernel or
    to other files (the sidecar of [-m], the process, the clock) is not used
    here.  A command's option loop is [getopt_loop] with the switch of the
    command. *)

From Stdlib Require Import ZArith Lia Ascii String.
From stdpp Require Import base list strings sets gmap sorting.
From S2P Require Import Prelude CLib Types Resolve Hwt.

(** * getopt *)

(** The rest of the argument being scanned, empty between arguments, and the
    arguments after it. *)
Record scan := Scan { place : string; args : list string }.

Inductive opt_result := OptEnd | OptBad | Opt (c : ascii) (optarg : string).

(** Whether an option of [ostr] takes an argument; [None] if it is not one. *)
Fixpoint opt_spec (ostr : string) (c : ascii) : option bool :=
  match ostr with
  | EmptyString => None
  | String d r =>
      if Ascii.eqb c d then Some (match r with String e _ => Ascii.eqb e ":" | _ => false end)
      else opt_spec r c
  end.

(** An option character with the rest of its argument. *)
Definition scan_opt (ostr : string) (c : ascii) (s : scan) : opt_result * scan :=
  match (if Ascii.eqb c ":" then None else opt_spec ostr c) with
  | None => (OptBad, s)
  | Some false => (Opt c EmptyString, s)
  | Some true =>
      match place s, args s with
      | EmptyString, [] => (OptBad, s)
      | EmptyString, a :: rest => (Opt c a, Scan EmptyString rest)
      | p, rest => (Opt c p, Scan EmptyString rest)
      end
  end.

Definition getopt (ostr : string) (s : scan) : opt_result * scan :=
  match place s with
  | String c p => scan_opt ostr c (Scan p (args s))
  | EmptyString =>
      match args s with
      | String d (String c p) :: rest =>
          if negb (Ascii.eqb d "-") then (OptEnd, s)
          else if Ascii.eqb c "-" && String.eqb p EmptyString then (OptEnd, Scan EmptyString rest)
          else scan_opt ostr c (Scan p rest)
      | _ => (OptEnd, s)
      end
  end.

(** How much is left to scan: every call that finds an option takes some. *)
Definition scan_size (s : scan) : nat :=
  String.length (place s) + list_sum (map (fun a => S (String.length a)) (args s)).

(** [while ((ch = getopt(...)) != -1)] with a switch that goes on, returns a
    code, or crashes ([None]); an unknown option returns 1.  The settings and
    the arguments left; the outer [None] is for want of fuel. *)
Fixpoint getopt_loop {A} (fuel : nat) (ostr : string) (switch : ascii -> string -> A -> option (A + Z))
    (s : scan) (a : A) : option (option ((A * list string) + Z)) :=
  match fuel with
  | O => None
  | S fuel =>
      match getopt ostr s with
      | (OptEnd, s) => Some (Some (inl (a, args s)))
      | (OptBad, _) => Some (Some (inr 1))
      | (Opt c optarg, s) =>
          match switch c optarg a with
          | None => Some None
          | Some (inl a) => getopt_loop fuel ostr switch s a
          | Some (inr rc) => Some (Some (inr rc))
          end
      end
  end.

Definition parse_args {A} (ostr : string) (switch : ascii -> string -> A -> option (A + Z)) (argv : list string)
    (a : A) : option (option ((A * list string) + Z)) :=
  getopt_loop (S (scan_size (Scan EmptyString argv))) ostr switch (Scan EmptyString argv) a.

(** * Sizes *)

Definition tolower (c : ascii) : ascii :=
  let n := Z.of_nat (nat_of_ascii c) in
  if (65 <=? n) && (n <=? 90) then ascii_of_nat (Z.to_nat (n + 32)) else c.

Definition size_mult (e : string) : Z :=
  match e with
  | EmptyString => 1
  | String c _ =>
      let c := tolower c in
      if Ascii.eqb c "g" then 1024 * 1024 * 1024
      else if Ascii.eqb c "m" then 1024 * 1024
      else if Ascii.eqb c "k" then 1024 else 1
  end.

Definition parse_size (s : string) : Z :=
  let '(val, e) := strtol s in
  let val := if val <=? 0 then 4 else val in
  u64 (val * size_mult e).

(** * Options *)

Definition parse_fmt (s : string) : option bsdtrace_fmt :=
  if String.eqb s "json" then Some FMT_JSON
  else if String.eqb s "text" then Some FMT_TEXT
  else if String.eqb s "profile" then Some FMT_PROFILE
  else if String.eqb s "tree" then Some FMT_TREE
  else if String.eqb s "collapsed" then Some FMT_COLLAPSED
  else if String.eqb s "speedscope" then Some FMT_SPEEDSCOPE
  else if String.eqb s "callers" then Some FMT_CALLERS
  else None.

(** The locals that the options of exec and trace set; [None] is the default
    of a string. *)
Record options := {
  o_fmt : bsdtrace_fmt; o_bufsize_str : string; o_backend : option string;
  o_pt_output : option string; o_duration : option string; o_maxrecords : Z; o_tid : Z;
  o_all_threads : bool; o_requested : list Z; o_specs : list range_spec; o_no_aslr : bool;
  o_psb : Z; o_mtc : Z; o_cyc : Z; o_timing : bool; o_ptwrite : bool; o_os : bool;
  o_dryrun : bool; o_filter : list (option string); o_pause : bool }.

Definition DEFAULT_BUFSIZE : string := "64m".

Definition default_options : options := {|
  o_fmt := FMT_TEXT; o_bufsize_str := DEFAULT_BUFSIZE; o_backend := None; o_pt_output := None;
  o_duration := None; o_maxrecords := 0; o_tid := 0; o_all_threads := false; o_requested := [];
  o_specs := []; o_no_aslr := false; o_psb := 0; o_mtc := 0; o_cyc := 0; o_timing := false;
  o_ptwrite := false; o_os := false; o_dryrun := false; o_filter := []; o_pause := false |}.

(** Assignments to one of them. *)
Definition with_fmt (v : bsdtrace_fmt) '(Build_options _ b c d e f g h i j k l m n o p q r s t) : options :=
  Build_options v b c d e f g h i j k l m n o p q r s t.
Definition with_bufsize_str (v : string) '(Build_options a _ c d e f g h i j k l m n o p q r s t) : options :=
  Build_options a v c d e f g h i j k l m n o p q r s t.
Definition with_backend (v : option string) '(Build_options a b _ d e f g h i j k l m n o p q r s t) : options :=
  Build_options a b v d e f g h i j k l m n o p q r s t.
Definition with_pt_output (v : option string) '(Build_options a b c _ e f g h i j k l m n o p q r s t) : options :=
  Build_options a b c v e f g h i j k l m n o p q r s t.
Definition with_duration (v : option string) '(Build_options a b c d _ f g h i j k l m n o p q r s t) : options :=
  Build_options a b c d v f g h i j k l m n o p q r s t.
Definition with_maxrecords (v : Z) '(Build_options a b c d e _ g h i j k l m n o p q r s t) : options :=
  Build_options a b c d e v g h i j k l m n o p q r s t.
Definition with_tid (v : Z) '(Build_options a b c d e f _ h i j k l m n o p q r s t) : options :=
  Build_options a b c d e f v h i j k l m n o p q r s t.
Definition with_all_threads (v : bool) '(Build_options a b c d e f g _ i j k l m n o p q r s t) : options :=
  Build_options a b c d e f g v i j k l m n o p q r s t.
Definition with_requested (v : list Z) '(Build_options a b c d e f g h _ j k l m n o p q r s t) : options :=
  Build_options a b c d e f g h v j k l m n o p q r s t.
Definition with_specs (v : list range_spec) '(Build_options a b c d e f g h i _ k l m n o p q r s t) : options :=
  Build_options a b c d e f g h i v k l m n o p q r s t.
Definition with_no_aslr (v : bool) '(Build_options a b c d e f g h i j _ l m n o p q r s t) : options :=
  Build_options a b c d e f g h i j v l m n o p q r s t.
Definition with_psb (v : Z) '(Build_options a b c d e f g h i j k _ m n o p q r s t) : options :=
  Build_options a b c d e f g h i j k v m n o p q r s t.
Definition with_mtc (v : Z) '(Build_options a b c d e f g h i j k l _ n o p q r s t) : options :=
  Build_options a b c d e f g h i j k l v n o p q r s t.
Definition with_cyc (v : Z) '(Build_options a b c d e f g h i j k l m _ o p q r s t) : options :=
  Build_options a b c d e f g h i j k l m v o p q r s t.
Definition with_timing (v : bool) '(Build_options a b c d e f g h i j k l m n _ p q r s t) : options :=
  Build_options a b c d e f g h i j k l m n v p q r s t.
Definition with_ptwrite (v : bool) '(Build_options a b c d e f g h i j k l m n o _ q r s t) : options :=
  Build_options a b c d e f g h i j k l m n o v q r s t.
Definition with_os (v : bool) '(Build_options a b c d e f g h i j k l m n o p _ r s t) : options :=
  Build_options a b c d e f g h i j k l m n o p v r s t.
Definition with_dryrun (v : bool) '(Build_options a b c d e f g h i j k l m n o p q _ s t) : options :=
  Build_options a b c d e f g h i j k l m n o p q v s t.
Definition with_filter (v : list (option string)) '(Build_options a b c d e f g h i j k l m n o p q r _ t) : options :=
  Build_options a b c d e f g h i j k l m n o p q r v t.
Definition with_pause (v : bool) '(Build_options a b c d e f g h i j k l m n o p q r s _) : options :=
  Build_options a b c d e f g h i j k l m n o p q r s v.

(** The tokens' copies, stored in the array [a] unless it is null; a copy that
    cannot be allocated is a null pointer. *)
Fixpoint copy_tokens (a : option nat) (toks : list string) (m : mem) : option (list (option string) * mem) :=
  match toks with
  | [] => Some ([], m)
  | t :: toks =>
      let '(c, m) := strdup t m in
      _ ← a;
      '(l, m) ← copy_tokens a toks m;
      Some ((chars <$> c) :: l, m)
  end.

(** The names of [-F]: the argument is copied and cut at commas twice, to
    count the names and to copy them; [None] is a crash, as neither copy nor
    the array is checked. *)
Definition comma_list (s : string) (m : mem) : option (list (option string) * mem) :=
  let '(f, m) := strdup s m in
  _ ← f;
  let '(a, m) := malloc m in
  let '(f, m) := strdup s m in
  f ← f;
  copy_tokens a (strtok "," (chars f)) m.

Definition has_comma (s : string) : bool := negb (str_forall (fun c => negb (Ascii.eqb c ",")) s).

(** A case that goes on with new settings. *)
Definition go (o : options) (m : mem) : option ((options * mem) + Z) := Some (inl (o, m)).

(** [-T]: all, a list (the first is the primary thread) whose copy is not
    checked, or one index. *)
Definition thread_option (optarg : string) (o : options) (m : mem) : option ((options * mem) + Z) :=
  if String.eqb optarg "all" then go (with_all_threads true (with_tid 0 o)) m
  else if has_comma optarg then
    let '(t, m) := strdup optarg m in
    t ← t;
    match map atoi (take (Z.to_nat MAX_THREADS) (strtok "," (chars t))) with
    | [] => Some (inr 1)
    | (t :: _) as l => go (with_tid t (with_requested l o)) m
    end
  else go (with_tid (atoi optarg) o) m.

(** An encoding within bounds. *)
Definition bounded_option (lo : Z) (v : Z) (set : Z -> options -> options) (o : options) (m : mem)
    : option ((options * mem) + Z) :=
  if (v <? lo) || (15 <? v) then Some (inr 1) else go (set v o) m.

(** The switch that exec and trace share. *)
Definition session_option (c : ascii) (optarg : string) '((o, m) : options * mem)
    : option ((options * mem) + Z) :=
  match c with
  | "f" => match parse_fmt optarg with Some f => go (with_fmt f o) m | None => Some (inr 1) end
  | "b" => go (with_backend (Some optarg) o) m
  | "s" => go (with_bufsize_str optarg o) m
  | "d" | "t" => go (with_duration (Some optarg) o) m
  | "m" => go (with_maxrecords (atoi optarg) o) m
  | "o" => go (with_pt_output (Some optarg) o) m
  | "r" =>
      if (2 <=? length (o_specs o))%nat then Some (inr 1)
      else match parse_range_spec optarg with
           | Some spec => go (with_specs (o_specs o ++ [spec]) o) m
           | None => Some (inr 1)
           end
  | "T" => thread_option optarg o m
  | "n" => go (with_dryrun true o) m
  | "p" => go (with_pause true o) m
  | "P" => bounded_option 0 (atoi optarg) with_psb o m
  | "M" => bounded_option 1 (atoi optarg) with_mtc o m
  | "Y" => bounded_option 1 (atoi optarg) with_cyc o m
  | "C" => go (with_timing true o) m
  | "W" => go (with_ptwrite true o) m
  | "K" => go (with_os true o) m
  | "F" => '(l, m) ← comma_list optarg m; go (with_filter l o) m
  | "h" => Some (inr 0)
  | _ => Some (inr 1)
  end%char.

Definition trace_optstring : string := "f:b:s:d:t:m:o:r:T:P:M:Y:F:hnpCWK".
Definition trace_option : ascii -> string -> options * mem -> option ((options * mem) + Z) := session_option.

Definition exec_optstring : string := "f:b:s:d:t:m:o:r:T:P:M:Y:F:AhnpCWK".
Definition exec_option (c : ascii) (optarg : string) (s : options * mem) : option ((options * mem) + Z) :=
  match c with
  | "A" => go (with_no_aslr true s.1) s.2
  | _ => session_option c optarg s
  end%char.

(** What list's options set. *)
Record list_options := { l_fmt : bsdtrace_fmt; l_pid : Z }.

Definition list_optstring : string := "f:p:h".
Definition list_option (c : ascii) (optarg : string) (o : list_options) : option (list_options + Z) :=
  match c with
  | "f" =>
      if String.eqb optarg "json" then Some (inl {| l_fmt := FMT_JSON; l_pid := l_pid o |})
      else if String.eqb optarg "text" then Some (inl {| l_fmt := FMT_TEXT; l_pid := l_pid o |})
      else Some (inr 1)
  | "p" => Some (inl {| l_fmt := l_fmt o; l_pid := atoi optarg |})
  | "h" => Some (inr 0)
  | _ => Some (inr 1)
  end%char.

(** * Properties *)

(** ** The loop *)

Lemma scan_opt_size ostr c s r s' :
  scan_opt ostr c s = (r, s') -> (scan_size s' <= scan_size s)%nat.
Proof.
  unfold scan_opt. destruct (if Ascii.eqb c ":" then None else opt_spec ostr c) as [[]|];
    [|by intros [= <- <-]..].
  unfold scan_size. destruct s as [p l]. cbn [place args]. destruct p as [|d p]; [destruct l as [|a l]|];
    intros [= <- <-]; simpl; lia.
Qed.

Lemma getopt_size ostr s c optarg s' :
  getopt ostr s = (Opt c optarg, s') -> (scan_size s' < scan_size s)%nat.
Proof.
  unfold getopt. destruct s as [p l]. cbn [place args]. destruct p as [|d p].
  - destruct l as [|[|d [|e a]] l]; try done. case_bool; [done|]. case_bool; [done|].
    intros H%scan_opt_size. unfold scan_size in *. cbn [place args map list_sum foldr String.length] in *. lia.
  - intros H%scan_opt_size. unfold scan_size in *. cbn [place args map list_sum foldr String.length] in *. lia.
Qed.

(** An option loop ends, for every command line. *)
Lemma getopt_loop_total {A} fuel ostr (switch : ascii -> string -> A -> option (A + Z)) s a :
  (scan_size s < fuel)%nat -> is_Some (getopt_loop fuel ostr switch s a).
Proof.
  revert s a. induction fuel as [|fuel IH]; intros s a Hf; [lia|]. cbn [getopt_loop].
  destruct (getopt ostr s) as [[| |c optarg] s'] eqn:E; [by eexists|by eexists|].
  apply getopt_size in E. destruct (switch c optarg a) as [[a'|rc]|]; [|by eexists..]. apply IH. lia.
Qed.

Lemma parse_args_total {A} ostr (switch : ascii -> string -> A -> option (A + Z)) argv a :
  is_Some (parse_args ostr switch argv a).
Proof. apply getopt_loop_total. lia. Qed.

(** What every case of the switch keeps, the loop keeps. *)
Lemma getopt_loop_inv {A} (P : A -> Prop) fuel ostr (switch : ascii -> string -> A -> option (A + Z)) s a r :
  (forall c optarg a a', P a -> switch c optarg a = Some (inl a') -> P a') -> P a ->
  getopt_loop fuel ostr switch s a = Some (Some (inl r)) -> P r.1.
Proof.
  intros Hsw. revert s a. induction fuel as [|fuel IH]; intros s a Ha; [done|]. cbn [getopt_loop].
  destruct (getopt ostr s) as [[| |c optarg] s']; [by intros [= <-]|done|].
  destruct (switch c optarg a) as [[a'|rc]|] eqn:E; [|done..]. apply IH. by eapply Hsw.
Qed.

(** A loop that returns does so with 1 or a code of the switch. *)
Lemma getopt_loop_rc {A} (Q : Z -> Prop) fuel ostr (switch : ascii -> string -> A -> option (A + Z)) s a rc :
  (forall c optarg a rc, switch c optarg a = Some (inr rc) -> Q rc) -> Q 1 ->
  getopt_loop fuel ostr switch s a = Some (Some (inr rc)) -> Q rc.
Proof.
  intros Hsw H1. revert s a. induction fuel as [|fuel IH]; intros s a; [done|]. cbn [getopt_loop].
  destruct (getopt ostr s) as [[| |c optarg] s']; [done|by intros [= <-]|].
  destruct (switch c optarg a) as [[a'|rc']|] eqn:E; [apply IH| |done]. intros [= <-]. by eapply Hsw.
Qed.

(** It crashes only when the switch does. *)
Lemma getopt_loop_runs {A} (P : A -> Prop) fuel ostr (switch : ascii -> string -> A -> option (A + Z)) s a :
  (forall c optarg a, P a -> match switch c optarg a with Some (inl a') => P a' | Some (inr _) => True | None => False end) ->
  P a -> getopt_loop fuel ostr switch s a <> Some None.
Proof.
  intros Hsw. revert s a. induction fuel as [|fuel IH]; intros s a Ha; [done|]. cbn [getopt_loop].
  destruct (getopt ostr s) as [[| |c optarg] s']; [done|done|].
  specialize (Hsw c optarg a Ha). destruct (switch c optarg a) as [[a'|rc]|]; [by apply IH|done|done].
Qed.

(** ** Command lines *)

(** An option as it is written: a flag, or an option with its argument in
    the same or in the next word. *)
Inductive item := Flag (c : ascii) | Joined (c : ascii) (arg : string) | Separate (c : ascii) (arg : string).

Definition render_item (i : item) : list string :=
  match i with
  | Flag c => [String "-" (String c EmptyString)]
  | Joined c arg => [String "-" (String c arg)]
  | Separate c arg => [String "-" (String c EmptyString); arg]
  end.

Definition item_ok (ostr : string) (i : item) : Prop :=
  match i with
  | Flag c => c <> "-"%char /\ c <> ":"%char /\ opt_spec ostr c = Some false
  | Joined c arg => c <> "-"%char /\ c <> ":"%char /\ opt_spec ostr c = Some true /\ arg <> EmptyString
  | Separate c arg => c <> "-"%char /\ c <> ":"%char /\ opt_spec ostr c = Some true
  end.

Definition item_apply {A} (switch : ascii -> string -> A -> option (A + Z)) (i : item) : A -> option (A + Z) :=
  match i with
  | Flag c => switch c EmptyString
  | Joined c arg | Separate c arg => switch c arg
  end.

Fixpoint items_apply {A} (switch : ascii -> string -> A -> option (A + Z)) (its : list item) (a : A)
    : option (A + Z) :=
  match its with
  | [] => Some (inl a)
  | i :: its =>
      match item_apply switch i a with
      | Some (inl a) => items_apply switch its a
      | r => r
      end
  end.

Lemma items_apply_app {A} (switch : ascii -> string -> A -> option (A + Z)) l1 l2 a a' :
  items_apply switch l1 a = Some (inl a') -> items_apply switch (l1 ++ l2) a = items_apply switch l2 a'.
Proof.
  revert a. induction l1 as [|i l1 IH]; intros a; cbn [app items_apply]; [by intros [= ->]|].
  destruct (item_apply switch i a) as [[b|rc]|]; [apply IH|done..].
Qed.

(** Where the options end: no word left, a word that is not an option, or
    a separator, which is dropped. *)
Definition operands (argv : list string) : option (list string) :=
  match argv with
  | [] => Some []
  | "--" :: rest => Some rest
  | String d (String _ _) :: _ => if Ascii.eqb d "-" then None else Some argv
  | _ => Some argv
  end.

Lemma getopt_operands ostr l rest :
  operands l = Some rest -> exists s, getopt ostr (Scan EmptyString l) = (OptEnd, s) /\ args s = rest.
Proof.
  unfold operands, getopt. cbn [place args]. destruct l as [|a l]; [intros [= <-]; by eexists|].
  destruct a as [|d [|c p]]; [intros [= <-]; by eexists| |].
  - destruct d as [[] [] [] [] [] [] [] []]; intros [= <-]; by eexists.
  - destruct (Ascii.eqb_spec d "-") as [->|Hd].
    + destruct (Ascii.eqb_spec c "-") as [->|Hc].
      * destruct p as [|e p]; [intros [= <-]; by eexists|done].
      * intros H. exfalso. revert H.
        destruct c as [[] [] [] [] [] [] [] []]; try (by destruct p); destruct p; try done; by destruct Hc.
    + intros H. eexists. split; [done|]. cbn [args].
      destruct d as [[] [] [] [] [] [] [] []]; try (by injection H as <-); by destruct Hd.
Qed.

(** The loop reads rendered options as they are meant. *)
Lemma getopt_loop_items {A} ostr (switch : ascii -> string -> A -> option (A + Z)) its l rest :
  Forall (item_ok ostr) its -> operands l = Some rest -> forall fuel a,
  (scan_size (Scan EmptyString (concat (map render_item its) ++ l)) < fuel)%nat ->
  getopt_loop fuel ostr switch (Scan EmptyString (concat (map render_item its) ++ l)) a =
    Some (match items_apply switch its a with
          | Some (inl a) => Some (inl (a, rest)) | Some (inr rc) => Some (inr rc) | None => None end).
Proof.
  intros Hok Hl. induction Hok as [|i its Hi _ IH]; intros fuel a Hf; (destruct fuel as [|fuel]; [lia|]); cbn [getopt_loop].
  { cbn [map concat app] in *. by destruct (getopt_operands ostr l rest Hl) as (s & -> & <-). }
  cbn [map concat items_apply]. rewrite <- app_assoc.
  assert (Hstep : exists c arg, getopt ostr (Scan EmptyString (render_item i ++ concat (map render_item its) ++ l)) =
    (Opt c arg, Scan EmptyString (concat (map render_item its) ++ l)) /\ item_apply switch i = switch c arg).
  { destruct i as [c|c arg|c arg]; cbn [render_item app item_ok] in *; unfold getopt, scan_opt; cbn [place args].
    - destruct Hi as (Hd & Hc & E). apply Ascii.eqb_neq in Hd, Hc. rewrite Hd, Hc, E. by eexists _, _.
    - destruct Hi as (Hd & Hc & E & Ha). apply Ascii.eqb_neq in Hd, Hc. rewrite Hd, Hc, E.
      destruct arg; [done|]. by eexists _, _.
    - destruct Hi as (Hd & Hc & E). apply Ascii.eqb_neq in Hd, Hc. rewrite Hd, Hc, E. by eexists _, _. }
  destruct Hstep as (c & arg & E & ->). rewrite E. destruct (switch c arg a) as [[a'|rc]|]; [|done..].
  apply IH. apply getopt_size in E. cbn [map concat] in Hf. rewrite <- app_assoc in Hf. lia.
Qed.

(** ** Settings written as a command line *)

Definition fmt_word (f : bsdtrace_fmt) : string :=
  match f with
  | FMT_TEXT => "text" | FMT_JSON => "json" | FMT_PROFILE => "profile" | FMT_TREE => "tree"
  | FMT_COLLAPSED => "collapsed" | FMT_SPEEDSCOPE => "speedscope" | FMT_CALLERS => "callers"
  end.

Definition flag (c : ascii) (b : bool) : list item := if b then [Flag c] else [].
Definition valued (c : ascii) (v : option string) : list item :=
  match v with Some a => [Separate c a] | None => [] end.
Definition numbered (c : ascii) (v : Z) : list item := if v =? 0 then [] else [Joined c (fmt_d v)].

(** Words, each followed by a comma. *)
Fixpoint comma_text (l : list string) : string :=
  match l with [] => EmptyString | w :: l => w +:+ String "," (comma_text l) end.

Definition spec_word (s : range_spec) : string :=
  (if mode s =? PT_RANGE_TRACESTOP then "stop:" else "") +:+
  (if is_symbol s then symbol s else show_range (start s) (stop s)).

(** The command line that asks for the settings: [-K] for the kernel, [-P 3]
    for a PSB encoding, and so on. *)
Definition option_items (o : options) : list item :=
  [Separate "f" (fmt_word (o_fmt o)); Separate "s" (o_bufsize_str o)] ++
  valued "b" (o_backend o) ++ valued "o" (o_pt_output o) ++ valued "d" (o_duration o) ++
  numbered "m" (o_maxrecords o) ++
  (if o_all_threads o then [Separate "T" "all"]
   else match o_requested o with
        | [] => [Separate "T" (fmt_d (o_tid o))]
        | l => [Separate "T" (comma_text (map fmt_d l))]
        end) ++
  map (fun s => Separate "r" (spec_word s)) (o_specs o) ++
  flag "A" (o_no_aslr o) ++ numbered "P" (o_psb o) ++ numbered "M" (o_mtc o) ++ numbered "Y" (o_cyc o) ++
  flag "C" (o_timing o) ++ flag "W" (o_ptwrite o) ++ flag "K" (o_os o) ++ flag "n" (o_dryrun o) ++
  match o_filter o with
  | [] => []
  | fs => [Separate "F" (comma_text (map (default EmptyString) fs))]
  end ++ flag "p" (o_pause o).

Definition render_options (o : options) : list string := concat (map render_item (option_items o)).

(** Settings a command line can ask for. *)
Definition spec_word_ok (s : range_spec) : Prop :=
  (mode s = PT_RANGE_FILTER \/ mode s = PT_RANGE_TRACESTOP) /\
  if is_symbol s then
    start s = 0 /\ stop s = 0 /\ symbol s <> EmptyString /\
    (String.length (symbol s) < RANGE_SPEC_SYMLEN)%nat /\
    scan_lit "0x" (symbol s) = None /\ has_prefix "stop:" (symbol s) = false
  else symbol s = EmptyString /\ is_u64 (start s) /\ is_u64 (stop s).

Definition filter_word_ok (w : option string) : Prop :=
  match w with Some w => w <> EmptyString /\ str_forall (fun c => negb (Ascii.eqb c ",")) w = true | None => False end.

Record askable (o : options) : Prop := {
  ask_records : is_i32 (o_maxrecords o); ask_tid : is_i32 (o_tid o);
  ask_threads : if o_all_threads o then o_tid o = 0 /\ o_requested o = []
                else match o_requested o with
                     | [] => True
                     | t :: l => o_tid o = t /\ Forall is_i32 (t :: l) /\ Z.of_nat (length (t :: l)) <= MAX_THREADS
                     end;
  ask_specs : (length (o_specs o) <= 2)%nat /\ Forall spec_word_ok (o_specs o);
  ask_psb : 0 <= o_psb o <= 15; ask_mtc : 0 <= o_mtc o <= 15; ask_cyc : 0 <= o_cyc o <= 15;
  ask_filter : Forall filter_word_ok (o_filter o) }.

Lemma atoi_fmt_d n : is_i32 n -> atoi (fmt_d n) = n.
Proof.
  intros Hn. unfold atoi, strtol. rewrite <- (str_app_nil_r (fmt_d n)), scan_int_fmt_d by done.
  cbn [fst]. rewrite sat_i64_abs by done. by apply i32_small.
Qed.

Lemma strtok_word w cur s :
  str_forall (fun c => negb (Ascii.eqb c ",")) w = true -> cur +:+ w <> EmptyString ->
  strtok_aux "," cur (w +:+ String "," s) = (cur +:+ w) :: strtok "," s.
Proof.
  revert cur. induction w as [|c w IH]; intros cur Hw Hne.
  - rewrite str_app_nil_r in *. cbn. by destruct cur.
  - cbn [str_forall] in Hw. apply andb_true_iff in Hw as [Hc Hw]. apply negb_true_iff in Hc.
    change (strtok_aux "," cur (String c w +:+ String "," s)) with
      (if Ascii.eqb c "," then match cur with EmptyString => strtok_aux "," EmptyString (w +:+ String "," s)
                               | _ => cur :: strtok_aux "," EmptyString (w +:+ String "," s) end
       else strtok_aux "," (cur +:+ String c EmptyString) (w +:+ String "," s)).
    rewrite Hc, IH; [|done|by destruct cur]. f_equal. by rewrite <- str_app_assoc.
Qed.

Lemma strtok_comma_text l :
  Forall (fun w => w <> EmptyString /\ str_forall (fun c => negb (Ascii.eqb c ",")) w = true) l ->
  strtok "," (comma_text l) = l.
Proof.
  induction 1 as [|w l [Hne Hw] _ IH]; [done|]. cbn [comma_text]. unfold strtok. rewrite strtok_word by done.
  change (strtok "," (comma_text l)) with (strtok "," (comma_text l)). by rewrite IH.
Qed.

Lemma spec_word_parse s : spec_word_ok s -> parse_range_spec (spec_word s) = Some s.
Proof.
  destruct s as [b st sp sy md]. unfold spec_word_ok, spec_word. cbn [is_symbol start stop symbol mode].
  intros [Hm H]. destruct b.
  - destruct H as (-> & -> & Hne & Hl & H0 & Hs).
    assert (Hscan : sscanf [Lit "0x"; LX; Lit ":0x"; LX] sy = []).
    { cbn [sscanf scan_conv]. by rewrite H0. }
    unfold parse_range_spec. destruct Hm as [-> | ->].
    + change ((if PT_RANGE_FILTER =? PT_RANGE_TRACESTOP then "stop:" else "") +:+ sy) with sy.
      rewrite Hs. rewrite Hscan, (proj2 (String.eqb_neq _ _) Hne), (proj2 (Nat.leb_gt _ _) Hl). done.
    + change ((if PT_RANGE_TRACESTOP =? PT_RANGE_TRACESTOP then "stop:" else "") +:+ sy) with ("stop:" +:+ sy).
      rewrite has_prefix_app.
      change (str_drop 5 ("stop:" +:+ sy)) with sy. rewrite Hscan, (proj2 (String.eqb_neq _ _) Hne), (proj2 (Nat.leb_gt _ _) Hl). done.
  - destruct H as (-> & Ha & Hb). destruct Hm as [-> | ->].
    + exact (parse_range_roundtrip st sp false Ha Hb).
    + exact (parse_range_roundtrip st sp true Ha Hb).
Qed.

(** With memory the filter's names come back, and memory stays available. *)
Lemma comma_list_ok l m :
  mem_ok m -> Forall filter_word_ok l ->
  exists m', comma_list (comma_text (map (default EmptyString) l)) m = Some (l, m') /\ mem_ok m'.
Proof.
  intros Hm Hl. unfold comma_list. set (s := comma_text _).
  assert (Hs : strtok "," s = map (default EmptyString) l).
  { apply strtok_comma_text, Forall_map. eapply Forall_impl; [exact Hl|]. by intros [w|]. }
  destruct (strdup_ok s m Hm) as (m1 & -> & _ & Hm1). cbn [mbind option_bind].
  destruct (malloc_ok m1 Hm1) as (m2 & -> & _ & Hm2).
  destruct (strdup_ok s m2 Hm2) as (m3 & -> & _ & Hm3). cbn [mbind option_bind chars]. rewrite Hs.
  clear -Hl Hm3. revert m3 Hm3. induction Hl as [|[w|] l Hw _ IH]; intros m Hm; [by exists m| |done].
  cbn [map copy_tokens]. change (default EmptyString (Some w)) with w. destruct (strdup_ok w m Hm) as (m4 & -> & _ & Hm4). cbn [mbind option_bind].
  destruct (IH m4 Hm4) as (m5 & -> & Hm5). by exists m5.
Qed.

Section reading.
Context (sw : ascii -> string -> options * mem -> option ((options * mem) + Z)).
Context (Hsw : forall c, c <> "A"%char -> sw c = session_option c).

Lemma read_flag c b o m set :
  sw c EmptyString (o, m) = go (set true o) m -> set false o = o ->
  items_apply sw (flag c b) (o, m) = Some (inl (set b o, m)).
Proof using. intros E H. destruct b; cbn [flag items_apply item_apply]; [by rewrite E|by rewrite H]. Qed.

Lemma read_valued c v o m set :
  (forall a, sw c a (o, m) = go (set (Some a) o) m) -> set None o = o ->
  items_apply sw (valued c v) (o, m) = Some (inl (set v o, m)).
Proof using. intros E H. destruct v; cbn [valued items_apply item_apply]; [by rewrite E|by rewrite H]. Qed.

Lemma read_numbered c v o m set :
  (v <> 0 -> sw c (fmt_d v) (o, m) = go (set v o) m) -> set 0 o = o ->
  items_apply sw (numbered c v) (o, m) = Some (inl (set v o, m)).
Proof using.
  intros E H. unfold numbered. case_bool; to_prop; [subst; cbn [items_apply]; by rewrite H|].
  cbn [items_apply item_apply]. by rewrite E.
Qed.

Lemma read_bounded c lo v o m set :
  (forall a, sw c a (o, m) = bounded_option lo (atoi a) set o m) -> lo <= 1 -> 0 <= v <= 15 -> set 0 o = o ->
  items_apply sw (numbered c v) (o, m) = Some (inl (set v o, m)).
Proof using.
  intros E Hlo Hv. apply read_numbered. intros Hne. rewrite E, atoi_fmt_d by (unfold is_i32; lia).
  unfold bounded_option. replace ((v <? lo) || (15 <? v))%bool with false by lia. done.
Qed.

Lemma read_specs specs o m :
  (length (o_specs o) + length specs <= 2)%nat -> Forall spec_word_ok specs ->
  items_apply sw (map (fun s => Separate "r" (spec_word s)) specs) (o, m) =
  Some (inl (with_specs (o_specs o ++ specs) o, m)).
Proof using Hsw.
  intros Hl Hok. revert o Hl. induction Hok as [|s specs Hs _ IH]; intros o Hl.
  - cbn. rewrite app_nil_r. by destruct o.
  - cbn [map items_apply item_apply length] in *. rewrite Hsw by done. cbn [session_option].
    replace (2 <=? length (o_specs o))%nat with false by (symmetry; apply Nat.leb_gt; lia).
    rewrite (spec_word_parse s Hs). unfold go.
    rewrite IH; [|destruct o; cbn; rewrite length_app; cbn in *; lia]. destruct o. cbn. by rewrite <- app_assoc.
Qed.
End reading.

Definition comma_free (w : string) : bool := str_forall (fun c => negb (Ascii.eqb c ",")) w.

Lemma has_comma_text w l : has_comma (comma_text (w :: l)) = true.
Proof. unfold has_comma. cbn [comma_text]. rewrite str_forall_app. cbn [str_forall]. by rewrite andb_false_r. Qed.

Lemma fmt_d_word n : fmt_d n <> EmptyString /\ comma_free (fmt_d n) = true.
Proof.
  assert (Hd : forall n, 0 <= n -> fmt_u n <> EmptyString /\ comma_free (fmt_u n) = true).
  { intros x Hx. destruct (digits_spec 10 x) as (_ & Hf & Hne); [lia|done|]. unfold fmt_u.
    split; [by destruct (digits 10 x)|]. unfold comma_free. induction Hf as [|d l Hdd _ IH]; [done|].
    cbn [string_of_digits str_forall]. pose proof (digit_char_range d ltac:(lia)) as Hc. cbn zeta in Hc.
    apply andb_true_iff. split.
    - apply negb_true_iff, Ascii.eqb_neq. intros E. rewrite E in Hc. vm_compute in Hc. lia.
    - destruct l; [done|by apply IH]. }
  unfold fmt_d. case_bool; to_prop; [|apply Hd; lia]. destruct (Hd (- n) ltac:(lia)) as [_ H]. by split.
Qed.

Lemma threads_text l : strtok "," (comma_text (map fmt_d l)) = map fmt_d l.
Proof. apply strtok_comma_text, Forall_map, Forall_true. intros n. apply fmt_d_word. Qed.

Lemma read_requested t l o m :
  mem_ok m -> Forall is_i32 (t :: l) -> Z.of_nat (length (t :: l)) <= MAX_THREADS ->
  exists m', thread_option (comma_text (map fmt_d (t :: l))) o m = go (with_tid t (with_requested (t :: l) o)) m' /\
    mem_ok m'.
Proof.
  intros Hm Hl Hn. unfold thread_option. set (s := comma_text _).
  assert (Hc : has_comma s = true) by apply (has_comma_text (fmt_d t) (map fmt_d l)).
  assert (Hall : String.eqb s "all" = false).
  { apply String.eqb_neq. intros E. by rewrite E in Hc. }
  rewrite Hall, Hc. subst s.
  destruct (strdup_ok (comma_text (map fmt_d (t :: l))) m Hm) as (m1 & -> & _ & Hm1). cbn [mbind option_bind chars].
  exists m1. split; [|done]. rewrite threads_text, firstn_all2 by (rewrite length_map; lia).
  rewrite map_map, (map_ext_in _ (fun n => n)); [by rewrite map_id|].
  intros n Hin. rewrite Forall_forall in Hl. apply atoi_fmt_d, Hl. by apply list_elem_of_In.
Qed.

(** The switch goes through the rendered settings one by one. *)
Lemma items_read sw o m :
  (forall c, c <> "A"%char -> sw c = session_option c) ->
  (o_no_aslr o = true -> sw "A"%char = fun _ s => go (with_no_aslr true s.1) s.2) ->
  askable o -> mem_ok m ->
  exists m', items_apply sw (option_items o) (default_options, m) = Some (inl (o, m')) /\ mem_ok m'.
Proof.
  intros Hsw HA Ho Hm. unfold option_items.
  assert (Hs : forall c, c <> "A"%char -> forall a s, sw c a s = session_option c a s) by (intros c Hc a s; by rewrite Hsw).
  erewrite items_apply_app.
  2:{ cbn [items_apply item_apply]. rewrite Hs by done. cbn [session_option].
      assert (parse_fmt (fmt_word (o_fmt o)) = Some (o_fmt o)) as -> by by destruct (o_fmt o).
      unfold go. rewrite Hs by done. reflexivity. }
  erewrite items_apply_app; [|by apply (read_valued _ _ _ _ _ with_backend); [intros a; rewrite Hs|]].
  erewrite items_apply_app; [|by apply (read_valued _ _ _ _ _ with_pt_output); [intros a; rewrite Hs|]].
  erewrite items_apply_app; [|by apply (read_valued _ _ _ _ _ with_duration); [intros a; rewrite Hs|]].
  erewrite items_apply_app.
  2:{ apply (read_numbered _ _ _ _ _ with_maxrecords); [|done]. intros _. rewrite Hs by done. cbn [session_option].
      by rewrite atoi_fmt_d by apply Ho. }
  match goal with |- context [items_apply sw _ (?o0, m)] => set (o1 := o0) end.
  assert (exists o2 m2, items_apply sw (if o_all_threads o then [Separate "T" "all"]
      else match o_requested o with
           | [] => [Separate "T" (fmt_d (o_tid o))]
           | l => [Separate "T" (comma_text (map fmt_d l))] end) (o1, m) = Some (inl (o2, m2)) /\ mem_ok m2 /\
      o2 = with_all_threads (o_all_threads o) (with_tid (o_tid o) (with_requested (o_requested o) o1)))
    as (o2 & m2 & E2 & Hm2 & Ho2).
  { pose proof (ask_threads o Ho) as Ht. destruct (o_all_threads o).
    - destruct Ht as [-> ->]. cbn [items_apply item_apply]. rewrite Hs by done. by eexists _, m.
    - destruct (o_requested o) as [|t l] eqn:El; cbn [items_apply item_apply]; rewrite Hs by done; cbn [session_option].
      + unfold thread_option. destruct (fmt_d_word (o_tid o)) as [_ Hc].
        assert (has_comma (fmt_d (o_tid o)) = false) as -> by (unfold has_comma; fold (comma_free (fmt_d (o_tid o))); by rewrite Hc).
        assert (String.eqb (fmt_d (o_tid o)) "all" = false) as ->.
        { apply String.eqb_neq. intros E. pose proof (atoi_fmt_d (o_tid o) (ask_tid o Ho)) as Ea.
          rewrite E in Ea. change (atoi "all") with 0 in Ea. by rewrite <- Ea in E. }
        rewrite atoi_fmt_d by apply Ho. by eexists _, m.
      + destruct Ht as (-> & Hi & Hn). destruct (read_requested t l o1 m Hm Hi Hn) as (m2 & -> & Hm2).
        by eexists _, m2. }
  erewrite items_apply_app by exact E2. subst o2 o1.
  erewrite items_apply_app; [|apply (read_specs sw Hsw (o_specs o)); apply Ho]. cbn [o_specs app].
  erewrite items_apply_app.
  2:{ instantiate (1 := (with_no_aslr (o_no_aslr o) _, m2)).
      destruct (o_no_aslr o); cbn [flag items_apply item_apply]; [by rewrite HA|reflexivity]. }
  erewrite items_apply_app;
    [|by apply (read_bounded _ _ 0 _ _ _ with_psb); [intros a; rewrite Hs|lia|apply Ho|]].
  erewrite items_apply_app;
    [|by apply (read_bounded _ _ 1 _ _ _ with_mtc); [intros a; rewrite Hs|lia|apply Ho|]].
  erewrite items_apply_app;
    [|by apply (read_bounded _ _ 1 _ _ _ with_cyc); [intros a; rewrite Hs|lia|apply Ho|]].
  erewrite items_apply_app; [|by apply (read_flag _ _ _ _ _ with_timing); [rewrite Hs|]].
  erewrite items_apply_app; [|by apply (read_flag _ _ _ _ _ with_ptwrite); [rewrite Hs|]].
  erewrite items_apply_app; [|by apply (read_flag _ _ _ _ _ with_os); [rewrite Hs|]].
  erewrite items_apply_app; [|by apply (read_flag _ _ _ _ _ with_dryrun); [rewrite Hs|]].
  match goal with |- context [items_apply sw _ (?o0, m2)] => set (o3 := o0) end.
  assert (exists m3, items_apply sw (match o_filter o with
      | [] => [] | fs => [Separate "F" (comma_text (map (default EmptyString) fs))] end) (o3, m2) =
      Some (inl (with_filter (o_filter o) o3, m3)) /\ mem_ok m3) as (m3 & E3 & Hm3).
  { pose proof (ask_filter o Ho) as Hf. destruct (o_filter o) as [|w ws]; [by exists m2|].
    cbn [items_apply item_apply]. rewrite Hs by done. cbn [session_option].
    destruct (comma_list_ok (w :: ws) m2 Hm2 Hf) as (m3 & -> & Hm3). by exists m3. }
  erewrite items_apply_app by exact E3. exists m3. split; [|done].
  rewrite (read_flag sw "p" _ _ _ with_pause) by (by rewrite ?Hs). subst o3. by destruct o.
Qed.

Lemma option_items_ok o ostr :
  ostr = exec_optstring \/ ostr = trace_optstring /\ o_no_aslr o = false -> Forall (item_ok ostr) (option_items o).
Proof.
  intros Hostr. unfold option_items.
  assert (Hf : forall c b, (b = true -> item_ok ostr (Flag c)) -> Forall (item_ok ostr) (flag c b)).
  { intros c [] Hc; [|constructor]. constructor; [by apply Hc|constructor]. }
  assert (Hv : forall c v, item_ok ostr (Separate c EmptyString) -> Forall (item_ok ostr) (valued c v)).
  { intros c [a|] Hc; [|constructor]. constructor; [exact Hc|constructor]. }
  assert (Hn : forall c v, item_ok ostr (Separate c EmptyString) -> Forall (item_ok ostr) (numbered c v)).
  { intros c v (? & ? & ?). unfold numbered. case_bool; constructor; [|constructor]. split_and!; [done..|].
    apply fmt_d_word. }
  assert (Hsep : forall c a, item_ok ostr (Separate c EmptyString) -> Forall (item_ok ostr) [Separate c a])
    by (intros c a Hc; constructor; [exact Hc|constructor]).
  repeat apply Forall_app_2; try (apply Hv || apply Hn);
    try (destruct Hostr as [->|[-> _]]; split_and!; done);
    try (apply Hf; intros Hb; destruct Hostr as [->|[-> Hno]]; split_and!; congruence || done).
  - constructor; [|apply Hsep]; destruct Hostr as [->|[-> _]]; split_and!; done.
  - destruct (o_all_threads o); [|destruct (o_requested o)]; apply Hsep; destruct Hostr as [->|[-> _]]; split_and!; done.
  - apply Forall_map, Forall_true. intros sp. destruct Hostr as [->|[-> _]]; split_and!; done.
  - destruct (o_filter o); [constructor|]. apply Hsep. destruct Hostr as [->|[-> _]]; split_and!; done.
Qed.

(** C39: Every settings record a command line can ask for is read back from the
    command line that asks for it, option by option: with memory exec's and
    trace's parsing of the rendered options gives exactly those settings and
    the operands behind them. *)
Theorem parse_args_render o l rest m :
  askable o -> mem_ok m -> operands l = Some rest ->
  (exists m', parse_args exec_optstring exec_option (render_options o ++ l) (default_options, m) =
     Some (Some (inl ((o, m'), rest))) /\ mem_ok m') /\
  (o_no_aslr o = false ->
   exists m', parse_args trace_optstring trace_option (render_options o ++ l) (default_options, m) =
     Some (Some (inl ((o, m'), rest))) /\ mem_ok m').
Proof.
  intros Ho Hm Hl. unfold parse_args, render_options. split; [|intros Hno].
  - destruct (items_read exec_option o m) as (m' & E & Hm'); [| |done|done|].
    { intros c Hc. unfold exec_option. destruct c as [[] [] [] [] [] [] [] []]; try done; by destruct Hc. }
    { done. }
    exists m'. split; [|done]. rewrite (getopt_loop_items _ _ _ _ rest); [by rewrite E| |done|lia].
    apply option_items_ok. by left.
  - destruct (items_read trace_option o m) as (m' & E & Hm'); [done|congruence|done|done|].
    exists m'. split; [|done]. rewrite (getopt_loop_items _ _ _ _ rest); [by rewrite E| |done|lia].
    apply option_items_ok. by right.
Qed.

(** ** Validity *)

(** The ranges the rest of the program relies on. *)
Record options_ok (o : options) : Prop := {
  ok_psb : 0 <= o_psb o <= 15; ok_mtc : 0 <= o_mtc o <= 15; ok_cyc : 0 <= o_cyc o <= 15;
  ok_requested : Z.of_nat (length (o_requested o)) <= MAX_THREADS;
  ok_specs : (length (o_specs o) <= 2)%nat;
  ok_symbols : Forall (fun s => (String.length (symbol s) < RANGE_SPEC_SYMLEN)%nat) (o_specs o) }.

Lemma default_options_ok : options_ok default_options.
Proof. constructor; cbn; [lia..|unfold MAX_THREADS; lia|lia|constructor]. Qed.

Lemma parse_range_spec_symbol arg s :
  parse_range_spec arg = Some s -> (String.length (symbol s) < RANGE_SPEC_SYMLEN)%nat.
Proof.
  unfold parse_range_spec. destruct (if has_prefix "stop:" arg then _ else _) as [md inner]. cbv zeta.
  assert (Hsym : forall a, (if String.eqb inner "" then None
    else if (RANGE_SPEC_SYMLEN <=? String.length inner)%nat then None
    else Some {| is_symbol := true; start := a; stop := 0; symbol := inner; mode := md |}) = Some s ->
    (String.length (symbol s) < RANGE_SPEC_SYMLEN)%nat).
  { intros a. case_bool; [done|]. case_bool; [done|]. intros [= <-]. cbn. by apply Nat.leb_gt in E0. }
  destruct (sscanf _ inner) as [|[t|x] [|[t'|y] [|z l]]]; try apply Hsym.
  intros [= <-]. cbn. unfold RANGE_SPEC_SYMLEN. lia.
Qed.

Lemma bounded_option_ok lo v set o m o' m' :
  bounded_option lo v set o m = Some (inl (o', m')) -> lo <= v <= 15 /\ o' = set v o /\ m' = m.
Proof.
  unfold bounded_option, go. destruct ((v <? lo) || (15 <? v)) eqn:E; [done|]. to_prop.
  intros [= <- <-]. split_and!; [lia|lia|done|done].
Qed.

Lemma thread_option_ok optarg o m o' m' :
  options_ok o -> thread_option optarg o m = Some (inl (o', m')) -> options_ok o' /\ o_filter o' = o_filter o.
Proof.
  intros Ho H. unfold thread_option, go in H.
  destruct (String.eqb optarg "all"); [|destruct (has_comma optarg)].
  - injection H as <- <-. by destruct Ho, o.
  - destruct (strdup optarg m) as [[t|] m1]; [|done]. cbn [mbind option_bind] in H.
    assert (Hn : Z.of_nat (length (map atoi (take (Z.to_nat MAX_THREADS) (strtok "," (chars t))))) <= MAX_THREADS).
    { rewrite length_map, length_take. unfold MAX_THREADS. lia. }
    destruct (map atoi _) as [|t0 l]; [done|]. injection H as <- <-. by destruct Ho, o.
  - injection H as <- <-. by destruct Ho, o.
Qed.

Lemma session_option_ok c optarg s o' m' :
  options_ok s.1 -> session_option c optarg s = Some (inl (o', m')) -> options_ok o'.
Proof.
  destruct s as [o m]. cbn [fst]. intros Ho H.
  assert (Hb : forall lo set, 0 <= lo -> (forall v, 0 <= v <= 15 -> options_ok (set v o)) ->
    bounded_option lo (atoi optarg) set o m = Some (inl (o', m')) -> options_ok o').
  { intros lo set Hlo Hset (Hv & -> & _)%bounded_option_ok. apply Hset. lia. }
  assert (Hspec : (if (2 <=? length (o_specs o))%nat then Some (inr 1)
      else match parse_range_spec optarg with
           | Some spec => go (with_specs (o_specs o ++ [spec]) o) m | None => Some (inr 1) end) = Some (inl (o', m')) ->
      options_ok o').
  { case_bool; [done|]. apply Nat.leb_gt in E. destruct (parse_range_spec optarg) as [sp|] eqn:Es; [|done].
    unfold go. intros [= <- <-]. apply parse_range_spec_symbol in Es. destruct Ho, o. constructor; cbn in *; try done.
    - rewrite length_app. simpl. lia.
    - apply Forall_app. by split; [|constructor]. }
  pose proof (thread_option_ok optarg o m o' m' Ho) as Ht.
  unfold session_option in H. destruct c as [[] [] [] [] [] [] [] []]; try done;
    try (by apply Hspec); try (by apply Ht);
    try (apply (Hb 0 with_psb); [lia| |done]; intros v Hv; by destruct Ho, o);
    try (apply (Hb 1 with_mtc); [lia| |done]; intros v Hv; by destruct Ho, o);
    try (apply (Hb 1 with_cyc); [lia| |done]; intros v Hv; by destruct Ho, o);
    try (destruct (parse_fmt optarg); [|done]);
    try (destruct (comma_list optarg m) as [[l m1]|]; [|done]; cbn [mbind option_bind] in H);
    unfold go in H; injection H as <- <-; by destruct Ho, o.
Qed.

Lemma exec_option_cases c : exec_option c = session_option c \/ c = "A"%char.
Proof. destruct c as [[] [] [] [] [] [] [] []]; first [by left|by right]. Qed.

Lemma exec_option_ok c optarg s o' m' :
  options_ok s.1 -> exec_option c optarg s = Some (inl (o', m')) -> options_ok o'.
Proof.
  intros Ho. destruct (exec_option_cases c) as [-> | ->]; [by apply session_option_ok|].
  destruct s as [o m]. intros [= <- <-]. by destruct Ho, o.
Qed.

Lemma session_option_rc c optarg s rc : session_option c optarg s = Some (inr rc) -> rc = 0 \/ rc = 1.
Proof.
  destruct s as [o m]. unfold session_option, thread_option, bounded_option, go.
  destruct (strdup optarg m) as [[t|] m1], (comma_list optarg m) as [[l m2]|]; cbn [mbind option_bind];
    destruct c as [[] [] [] [] [] [] [] []]; try done; repeat case_match; try done;
    intros [= <-]; auto.
Qed.

Lemma exec_option_rc c optarg s rc : exec_option c optarg s = Some (inr rc) -> rc = 0 \/ rc = 1.
Proof. destruct (exec_option_cases c) as [-> | ->]; [apply session_option_rc|done]. Qed.

(** ** Memory *)

(** Memory stays available and no name of the filter is a null pointer. *)
Definition settings_mem (s : options * mem) : Prop := mem_ok s.2 /\ Forall is_Some (o_filter s.1).

(** With memory the names are the words between the commas. *)
Lemma comma_list_words s m :
  mem_ok m -> exists m', comma_list s m = Some (map Some (strtok "," s), m') /\ mem_ok m'.
Proof.
  intros Hm. unfold comma_list. destruct (strdup_ok s m Hm) as (m1 & -> & _ & Hm1). cbn [mbind option_bind].
  destruct (malloc_ok m1 Hm1) as (m2 & -> & _ & Hm2).
  destruct (strdup_ok s m2 Hm2) as (m3 & -> & _ & Hm3). cbn [mbind option_bind chars].
  generalize (strtok "," s). intros toks. clear -Hm3. revert m3 Hm3.
  induction toks as [|t toks IH]; intros m Hm; [by exists m|]. cbn [copy_tokens].
  destruct (strdup_ok t m Hm) as (m4 & -> & _ & Hm4). cbn [mbind option_bind].
  destruct (IH m4 Hm4) as (m5 & -> & Hm5). by exists m5.
Qed.

Lemma comma_list_mem s m : mem_ok m -> exists l m', comma_list s m = Some (l, m') /\ mem_ok m' /\ Forall is_Some l.
Proof.
  intros Hm. destruct (comma_list_words s m Hm) as (m' & E & Hm'). eexists _, m'. split_and!; [exact E|done|].
  apply Forall_map, Forall_true. by eexists.
Qed.

Lemma session_option_mem c optarg s :
  settings_mem s ->
  match session_option c optarg s with Some (inl s') => settings_mem s' | Some (inr _) => True | None => False end.
Proof.
  destruct s as [o m]. intros [Hm Hf]. cbn [fst snd] in *.
  assert (Hgo : forall o', o_filter o' = o_filter o -> settings_mem (o', m)) by (intros o' E; split; cbn; by rewrite ?E).
  assert (Hb : forall lo v set, o_filter (set v o) = o_filter o ->
    match bounded_option lo v set o m with Some (inl s') => settings_mem s' | Some (inr _) => True | None => False end).
  { intros lo v set E. unfold bounded_option. case_bool; [done|]. by apply Hgo. }
  destruct (strdup_ok optarg m Hm) as (m1 & Es & _ & Hm1).
  destruct (comma_list_mem optarg m Hm) as (l & m2 & El & Hm2 & Hl).
  unfold session_option, thread_option, go. rewrite Es, El. cbn [mbind option_bind chars].
  destruct c as [[] [] [] [] [] [] [] []]; try done; try (by apply Hgo; destruct o); try (by apply Hb; destruct o);
    repeat case_match; simplify_eq; try done; by split; cbn; destruct o.
Qed.

Lemma exec_option_mem c optarg s :
  settings_mem s ->
  match exec_option c optarg s with Some (inl s') => settings_mem s' | Some (inr _) => True | None => False end.
Proof.
  intros Hs. destruct (exec_option_cases c) as [-> | ->]; [by apply session_option_mem|].
  destruct s as [o m]. destruct Hs. split; cbn in *; by destruct o.
Qed.

(** With memory an option loop gives settings with memory, or a code. *)
Lemma parse_args_mem ostr switch argv m :
  (forall c optarg s, settings_mem s ->
     match switch c optarg s with Some (inl s') => settings_mem s' | Some (inr _) => True | None => False end) ->
  mem_ok m ->
  (exists o m' rest, parse_args ostr switch argv (default_options, m) = Some (Some (inl ((o, m'), rest))) /\
     mem_ok m' /\ Forall is_Some (o_filter o)) \/
  exists rc, parse_args ostr switch argv (default_options, m) = Some (Some (inr rc)).
Proof.
  intros Hsw Hm. assert (H0 : settings_mem (default_options, m)) by by split.
  destruct (parse_args_total ostr switch argv (default_options, m)) as [[[[[o m'] rest]|rc]|] E].
  - left. exists o, m', rest. split; [done|].
    assert (Hinv : forall c optarg a a', settings_mem a -> switch c optarg a = Some (inl a') -> settings_mem a').
    { intros c optarg a a' Ha Hc. specialize (Hsw c optarg a Ha). by rewrite Hc in Hsw. }
    by apply (getopt_loop_inv settings_mem _ _ _ _ _ _ Hinv H0 E).
  - right. by exists rc.
  - by destruct (getopt_loop_runs settings_mem _ ostr switch _ _ Hsw H0 E).
Qed.

(** The settings a command goes on with. *)
Definition settings_spec (m : mem) (r : option (option (((options * mem) * list string) + Z))) : Prop :=
  match r with
  | Some (Some (inl ((o, m'), rest))) => options_ok o /\ (mem_ok m -> mem_ok m' /\ Forall is_Some (o_filter o))
  | Some (Some (inr rc)) => rc = 0 \/ rc = 1
  | Some None => ~ mem_ok m
  | None => False
  end.

Lemma settings_spec_ok ostr switch argv m :
  (forall c optarg s o' m', options_ok s.1 -> switch c optarg s = Some (inl (o', m')) -> options_ok o') ->
  (forall c optarg s rc, switch c optarg s = Some (inr rc) -> rc = 0 \/ rc = 1) ->
  (forall c optarg s, settings_mem s ->
     match switch c optarg s with Some (inl s') => settings_mem s' | Some (inr _) => True | None => False end) ->
  settings_spec m (parse_args ostr switch argv (default_options, m)).
Proof.
  intros Hok Hrc Hmem. pose proof (parse_args_mem ostr switch argv m Hmem) as Hm.
  destruct (parse_args_total ostr switch argv (default_options, m)) as [r E]. rewrite E in Hm |- *.
  destruct r as [[[[o m'] rest]|rc]|]; cbn [settings_spec].
  - split; [|naive_solver]. change o with ((o, m'), rest).1.1.
    apply (getopt_loop_inv (fun s => options_ok s.1) _ ostr switch (Scan EmptyString argv) (default_options, m) _
      (fun c a s s' => ltac:(destruct s'; apply (Hok c a s))) default_options_ok E).
  - by apply (getopt_loop_rc (fun rc => rc = 0 \/ rc = 1) _ _ _ _ _ _ Hrc (or_intror eq_refl) E).
  - intros Hmm. naive_solver.
Qed.

(** C38: Whatever the command line of exec or trace, the loop over its options
    ends, and the settings it goes on with are within their bounds: encodings
    of four bits, at most 64 requested threads, at most two ranges, and
    symbols that fit their buffer.  It crashes only when an allocation fails;
    when none does the filter holds no null name. *)
Theorem options_valid argv m :
  settings_spec m (parse_args exec_optstring exec_option argv (default_options, m)) /\
  settings_spec m (parse_args trace_optstring trace_option argv (default_options, m)).
Proof.
  split; apply settings_spec_ok.
  - apply exec_option_ok.
  - apply exec_option_rc.
  - apply exec_option_mem.
  - apply session_option_ok.
  - apply session_option_rc.
  - apply session_option_mem.
Qed.

(** ** Sizes *)

(** C40: A size is its number times 2^30, 2^20 or 2^10 for the units g, m and k
    in either case, times one for any other, while that fits 64 bits; beyond
    it wraps.  The number 0 counts as 4, as a missing or negative one does. *)
Theorem parse_size_exact n e :
  0 <= n < two63 -> num_end 10 e ->
  let unit := match e with
              | String "g" _ | String "G" _ => 2 ^ 30
              | String "m" _ | String "M" _ => 2 ^ 20
              | String "k" _ | String "K" _ => 2 ^ 10
              | _ => 1
              end%char in
  let size := (if n =? 0 then 4 else n) * unit in
  parse_size (fmt_u n +:+ e) = u64 size /\ (size < two64 -> parse_size (fmt_u n +:+ e) = size) /\
  (n <> 0 -> parse_size ("-" +:+ fmt_u n +:+ e) = 4 * unit) /\ parse_size EmptyString = 4.
Proof.
  intros Hn He unit size.
  assert (Hu : size_mult e = unit).
  { subst unit. unfold size_mult. destruct e as [|c e]; [done|].
    destruct c as [[] [] [] [] [] [] [] []]; reflexivity. }
  assert (Hm : 1 <= unit <= 2 ^ 30).
  { rewrite <- Hu. unfold size_mult. destruct e; [lia|]. repeat (case_bool; [lia|]). lia. }
  assert (E : parse_size (fmt_u n +:+ e) = u64 size).
  { unfold parse_size, strtol. rewrite scan_int_fmt_u by (done || lia). cbn [sat_i64].
    rewrite Z.min_r by lia. rewrite Hu. subst size. by replace (n <=? 0) with (n =? 0) by lia. }
  split_and!; [exact E| | |done].
  - intros Hlt. rewrite E. apply u64_small. unfold is_u64. subst size. clearbody unit. case_bool; to_prop; nia.
  - intros H0. unfold parse_size, strtol.
    assert (Ed : "-" +:+ fmt_u n +:+ e = fmt_d (- n) +:+ e).
    { unfold fmt_d. replace (- n <? 0) with true by lia. by rewrite Z.opp_involutive. }
    rewrite Ed, scan_int_fmt_d by done. replace (- n <? 0) with true by lia. cbn [sat_i64].
    rewrite Hu. clearbody unit. replace (Z.max _ _ <=? 0) with true by lia. apply u64_small. unfold is_u64. lia.
Qed.

(** 2^34 gigabytes are no bytes at all. *)
Example parse_size_wraps : parse_size "17179869184g" = 0.
Proof. reflexivity. Qed.
