(* ===== verification/Collapsed.v ===== *)
(** decode.c: collapsed stacks (-o collapsed) and their Speedscope export. *)

From Stdlib Require Import ZArith Lia Ascii String.
From stdpp Require Import base list strings sets gmap sorting.
From S2P Require Import Prelude CLib Types Format CallTree Profile.

Definition MAX_COLLAPSED_STACKS : Z := 4096.
Definition MAX_STACK_DEPTH : nat := 256.
Definition STACK_BUF : nat := Z.to_nat 8192.

Record collapsed_entry := { c_stack : string; c_count : Z }.

(** [names] holds [names[0 .. depth - 1]]. *)
Record collapsed := {
  c_entries : list collapsed_entry; c_capacity : Z; names : list string;
  c_prev_class : pt_insn_class }.

(** * Operations *)

Definition collapsed_init : collapsed :=
  {| c_entries := []; c_capacity := 0; names := []; c_prev_class := ptic_error |}.

(** What building the stack string gives: no stack, the text, or a write of
    the terminator past the end of [buf], at the given index. *)
Inductive built := NoStack | Built (s : string) | OutOfBounds (index : nat).

(** The loop over the names: [buf] is the text written so far (cut at the
    buffer's size) and [off] the offset, which counts the characters that did
    not fit. *)
Fixpoint build_loop (first : bool) (nms : list string) (buf : string) (off : nat) : string * nat :=
  match nms with
  | [] => (buf, off)
  | n :: nms =>
      let '(buf, off) :=
        if negb first && (off <? STACK_BUF - 1)%nat then (buf +:+ ";", S off) else (buf, off) in
      let buf := buf +:+ str_take (STACK_BUF - off - 1) n in
      let off := (off + String.length n)%nat in
      if (STACK_BUF - 1 <=? off)%nat then (buf, off) else build_loop false nms buf off
  end.

Definition collapsed_build_stack (col : collapsed) : built :=
  match names col with
  | [] => NoStack
  | nms =>
      let '(buf, off) := build_loop true nms EmptyString 0 in
      if (off <? STACK_BUF)%nat then Built buf else OutOfBounds off
  end.

Definition set_entries (es : list collapsed_entry) (cap : Z) (col : collapsed) : collapsed :=
  {| c_entries := es; c_capacity := cap; names := names col; c_prev_class := c_prev_class col |}.

Definition bump (e : collapsed_entry) : collapsed_entry :=
  {| c_stack := c_stack e; c_count := c_count e + 1 |}.

(** [None] when the terminator is written out of bounds. *)
Definition collapsed_count_stack (col : collapsed) (m : mem) : option (collapsed * mem) :=
  match collapsed_build_stack col with
  | OutOfBounds _ => None
  | NoStack => Some (col, m)
  | Built s =>
      let '(stack, m) := strdup s m in
      match stack with
      | None => Some (col, m)
      | Some stack =>
          let s := chars stack in
          match find_index (fun e => String.eqb (c_stack e) s) (c_entries col) with
          | Some i => Some (set_entries (alter bump i (c_entries col)) (c_capacity col) col, m)
          | None =>
              let e := {| c_stack := s; c_count := 1 |} in
              if c_capacity col <=? Z.of_nat (length (c_entries col)) then
                let newcap := grow 256 (c_capacity col) in
                let newcap := if MAX_COLLAPSED_STACKS <? newcap then MAX_COLLAPSED_STACKS else newcap in
                if newcap <=? Z.of_nat (length (c_entries col)) then Some (col, m)
                else
                  let '(r, m) := malloc m in
                  match r with
                  | None => Some (col, m)
                  | Some _ => Some (set_entries (c_entries col ++ [e]) newcap col, m)
                  end
              else Some (set_entries (c_entries col ++ [e]) (c_capacity col) col, m)
          end
      end
  end.

Definition set_names (ns : list string) (col : collapsed) : collapsed :=
  {| c_entries := c_entries col; c_capacity := c_capacity col; names := ns;
     c_prev_class := c_prev_class col |}.

Definition set_class (c : pt_insn_class) (col : collapsed) : collapsed :=
  {| c_entries := c_entries col; c_capacity := c_capacity col; names := names col;
     c_prev_class := c |}.

Definition collapsed_record (col : collapsed) (ev : insn_event) (m : mem) : option (collapsed * mem) :=
  let col :=
    match ev_sym ev with
    | Some sym =>
        if (ev_ip ev =? s_addr sym) && is_call (c_prev_class col) then
          if (length (names col) <? MAX_STACK_DEPTH)%nat
          then set_names (names col ++ [chars (s_name sym)]) col else col
        else col
    | None => col
    end in
  '(col, m) ← (if is_return (ev_class ev) then
                 '(col, m) ← collapsed_count_stack col m;
                 Some (set_names (removelast (names col)) col, m)
               else Some (col, m));
  Some (set_class (ev_class ev) col, m).

Fixpoint collapsed_record_all (col : collapsed) (evs : list insn_event) (m : mem)
    : option (collapsed * mem) :=
  match evs with
  | [] => Some (col, m)
  | ev :: evs => '(col, m) ← collapsed_record col ev m; collapsed_record_all col evs m
  end.

Definition collapsed_cmp_count (ea eb : collapsed_entry) : Z := i32 (c_count eb - c_count ea).

(** The function part of a frame, after its last colon. *)
Definition frame_func (tok : string) : string := default tok (after_last ":" tok).

(** Whether the filter has a token's function; [None] for a null name. *)
Fixpoint tokens_match (opts : option pt_decode_opts) (toks : list string) : option bool :=
  match toks with
  | [] => Some false
  | tok :: toks =>
      b ← filter_matches opts (Some (frame_func tok));
      if (b : bool) then Some true else tokens_match opts toks
  end.

(** [None] is a crash: the copy of the stack, used unchecked, or a null name
    of the filter. *)
Definition collapsed_stack_matches (stack : string) (opts : option pt_decode_opts) (m : mem)
    : option (bool * mem) :=
  match opts with
  | None => Some (true, m)
  | Some o =>
      match filter_funcs o with
      | [] => Some (true, m)
      | _ =>
          let '(s, m) := strdup stack m in
          s ← s; b ← tokens_match opts (strtok ";" (chars s)); Some (b, m)
      end
  end.

Definition collapsed_line (e : collapsed_entry) : string := c_stack e +:+ " " +:+ fmt_d (c_count e).

Fixpoint print_entries (opts : option pt_decode_opts) (es : list collapsed_entry) (m : mem)
    : option (list string * mem) :=
  match es with
  | [] => Some ([], m)
  | e :: es =>
      '(b, m) ← collapsed_stack_matches (c_stack e) opts m;
      '(out, m) ← print_entries opts es m;
      Some (if (b : bool) then collapsed_line e :: out else out, m)
  end.

Definition collapsed_print `{QSort} (col : collapsed) (opts : option pt_decode_opts) (m : mem)
    : option (list string * mem) :=
  print_entries opts (qsort collapsed_cmp_count (c_entries col)) m.

Definition collapsed_free (col : collapsed) : collapsed :=
  {| c_entries := []; c_capacity := 0; names := names col; c_prev_class := c_prev_class col |}.

(** ** Speedscope *)

(** The loop over the frames; a frame whose copy could not be allocated is a
    null pointer, and [None] is [strcmp] on it. *)
Fixpoint frame_loop (frames : list (option string)) (nm : string) : option (option nat) :=
  match frames with
  | [] => Some None
  | None :: _ => None
  | Some f :: frames =>
      if String.eqb f nm then Some (Some 0%nat) else i ← frame_loop frames nm; Some (option_map S i)
  end.

(** The index of a frame, and the frames with it. *)
Definition speedscope_frame_idx (frames : arr (option string)) (nm : string) (m : mem)
    : option (nat * arr (option string) * mem) :=
  i ← frame_loop (items frames) nm;
  match i with
  | Some i => Some (i, frames, m)
  | None =>
      '(frames, m) ← arr_reserve 64 frames m;
      let '(f, m) := strdup nm m in
      Some (length (items frames), Arr (items frames ++ [chars <$> f]) (room frames), m)
  end.

Fixpoint frame_idxs (frames : arr (option string)) (toks : list string) (m : mem)
    : option (list nat * arr (option string) * mem) :=
  match toks with
  | [] => Some ([], frames, m)
  | t :: toks =>
      '(i, frames, m) ← speedscope_frame_idx frames t m;
      '(idx, frames, m) ← frame_idxs frames toks m;
      Some (i :: idx, frames, m)
  end.

(** One row per stack, whose copy is used unchecked. *)
Fixpoint samples (frames : arr (option string)) (es : list collapsed_entry) (m : mem)
    : option (list (list nat) * arr (option string) * mem) :=
  match es with
  | [] => Some ([], frames, m)
  | e :: es =>
      let '(s, m) := strdup (c_stack e) m in
      s ← s;
      '(idx, frames, m) ← frame_idxs frames (strtok ";" (chars s)) m;
      '(rows, frames, m) ← samples frames es m;
      Some (idx :: rows, frames, m)
  end.

(** The elements, all but the last followed by a comma. *)
Fixpoint commas (l : list string) : list string :=
  match l with
  | [] => []
  | [x] => [x]
  | x :: l => (x +:+ ",") :: commas l
  end.

Definition join (sep : string) (l : list string) : string :=
  match l with
  | [] => EmptyString
  | x :: l => x +:+ foldr (fun y s => sep +:+ y +:+ s) EmptyString l
  end.

(** [None] is a crash: an allocation used unchecked, or a null frame. *)
Definition speedscope_print (col : collapsed) (m : mem) : option (list string * mem) :=
  '(_, frames, m) ← samples no_items (c_entries col) m;
  names ← mapM (fun f => f) (items frames);
  '(rows, _, m) ← samples frames (c_entries col) m;
  Some (["{"; dq "  '$schema': 'https://www.speedscope.app/file-format-spec.json',";
   dq "  'shared': {'frames': ["] ++
  commas (map (fun f => dq "    {'name': '" +:+ json_escape 256 f +:+ dq "'}") names) ++
  ["  ]},"; dq "  'profiles': [{"; dq "    'type': 'sampled',"; dq "    'name': 'bsdtrace',";
   dq "    'unit': 'none',"; dq "    'startValue': 0,";
   dq "    'endValue': " +:+ fmt_d (sum_on c_count (c_entries col)) +:+ ",";
   dq "    'samples': ["] ++
  commas (map (fun r => "      [" +:+ join "," (map (fun i => fmt_d (Z.of_nat i)) r) +:+ "]") rows) ++
  ["    ],";
   dq "    'weights': [" +:+ join "," (map (fun e => fmt_d (c_count e)) (c_entries col)) +:+ "]";
   "  }],"; dq "  'name': 'bsdtrace trace',"; dq "  'exporter': 'bsdtrace'"; "}"], m).

(** * Properties *)

(** ** The stack string *)

(** The text of the names after the first. *)
Definition rest_text (l : list string) : string := foldr (fun y s => ";" +:+ y +:+ s) EmptyString l.

Lemma stack_buf_val : Z.of_nat STACK_BUF = 8192.
Proof. done. Qed.

(** How the loop ends on text [t] that should follow the first [off]
    characters. *)
Definition built_post (buf t : string) (r : string * nat) : Prop :=
  let '(buf', off') := r in
  let full := (String.length buf + String.length t)%nat in
  if (full <? STACK_BUF)%nat then buf' = buf +:+ t /\ off' = full
  else (off' = (STACK_BUF - 1)%nat /\ String.length buf' = off') \/ (STACK_BUF <= off')%nat.

Lemma str_length_0 s : String.length s = 0%nat -> s = EmptyString.
Proof. by destruct s. Qed.

(** One name written after [buf], and the loop on the others. *)
Lemma build_name buf n nms t r :
  (String.length buf <= STACK_BUF - 1)%nat ->
  ((String.length (buf +:+ n) < STACK_BUF - 1)%nat -> built_post (buf +:+ n) t r) ->
  t = rest_text nms ->
  built_post buf (n +:+ t)
    (let o := (String.length buf + String.length n)%nat in
     let b := buf +:+ str_take (STACK_BUF - String.length buf - 1) n in
     if (STACK_BUF - 1 <=? o)%nat then (b, o) else r).
Proof.
  intros Hb Hgo _. cbn zeta. pose proof stack_buf_val as HB. destruct (_ <=? _)%nat eqn:E.
  - apply Nat.leb_le in E. unfold built_post. rewrite str_length_app.
    destruct (_ <? _)%nat eqn:El; [apply Nat.ltb_lt in El|apply Nat.ltb_ge in El].
    + rewrite str_take_all, (str_length_0 t), str_app_nil_r by lia. split; [done|simpl in *; lia].
    + destruct (decide (STACK_BUF <= String.length buf + String.length n)%nat); [by right|left].
      rewrite str_take_all, str_length_app by lia. lia.
  - apply Nat.leb_gt in E. specialize (Hgo ltac:(rewrite str_length_app; lia)). revert Hgo.
    unfold built_post. destruct r as [b' o']. rewrite !str_length_app, str_app_assoc, Nat.add_assoc. done.
Qed.

Lemma build_loop_rest nms buf :
  (String.length buf < STACK_BUF - 1)%nat ->
  built_post buf (rest_text nms) (build_loop false nms buf (String.length buf)).
Proof.
  pose proof stack_buf_val as HB. revert buf. induction nms as [|n nms IH]; intros buf Hl.
  { simpl. unfold built_post. rewrite Nat.add_0_r, str_app_nil_r.
    by rewrite (proj2 (Nat.ltb_lt _ _)) by lia. }
  cbn [build_loop negb andb]. rewrite (proj2 (Nat.ltb_lt _ _)) by lia. cbn [rest_text foldr].
  replace (S (String.length buf)) with (String.length (buf +:+ ";")) by (rewrite str_length_app; simpl; lia).
  pose proof (build_name (buf +:+ ";") n nms (rest_text nms)
    (build_loop false nms (buf +:+ ";" +:+ n) (String.length (buf +:+ ";" +:+ n)))) as Hn.
  rewrite str_app_assoc in Hn. specialize (Hn ltac:(rewrite str_length_app; simpl; lia)).
  specialize (Hn ltac:(intros Hs; by apply IH) eq_refl). cbn zeta in Hn.
  assert (Hpost : forall a b r, built_post (buf +:+ a) b r -> built_post buf (a +:+ b) r).
  { intros a b [b' o']. unfold built_post. by rewrite !str_length_app, str_app_assoc, Nat.add_assoc. }
  apply Hpost. revert Hn. destruct (_ <=? _)%nat eqn:E; [done|].
  apply Nat.leb_gt in E. rewrite str_take_all by lia. rewrite <- str_length_app. done.
Qed.

Lemma build_loop_join nms :
  nms <> [] -> built_post EmptyString (join ";" nms) (build_loop true nms EmptyString 0).
Proof.
  pose proof stack_buf_val as HB. destruct nms as [|n nms]; [done|]. intros _.
  cbn [build_loop negb andb join].
  pose proof (build_name EmptyString n nms (rest_text nms)
    (build_loop false nms (EmptyString +:+ n) (String.length (EmptyString +:+ n)))) as Hn.
  specialize (Hn ltac:(simpl; lia) ltac:(intros Hs; by apply build_loop_rest) eq_refl). cbn zeta in Hn.
  revert Hn. change (EmptyString +:+ ?x) with x. change (String.length EmptyString + ?x)%nat with x.
  change (0 + ?x)%nat with x. change (STACK_BUF - String.length EmptyString - 1)%nat with (STACK_BUF - 0 - 1)%nat.
  destruct (_ <=? _)%nat eqn:E; [done|]. apply Nat.leb_gt in E. rewrite str_take_all by lia. done.
Qed.

(** C27: The stack string is the names joined by semicolons while that fits the
    buffer of 8192 bytes.  A longer one is written past the end of the
    buffer, except when the names seen so far fill it to the byte. *)
Theorem build_stack_bounds col :
  names col <> [] ->
  let t := join ";" (names col) in
  if (String.length t <? STACK_BUF)%nat then collapsed_build_stack col = Built t
  else match collapsed_build_stack col with
       | Built s => String.length s = (STACK_BUF - 1)%nat
       | OutOfBounds i => (STACK_BUF <= i)%nat
       | NoStack => False
       end.
Proof.
  intros Hne. cbn zeta. pose proof (build_loop_join (names col) Hne) as H. unfold collapsed_build_stack.
  destruct (names col) as [|n nms]; [done|]. cbn zeta in H.
  destruct (build_loop true (n :: nms) EmptyString 0) as [buf off]. unfold built_post in H.
  change (String.length EmptyString + ?x)%nat with x in H.
  pose proof stack_buf_val as HB. destruct (_ <? _)%nat eqn:El.
  - destruct H as [-> ->]. by rewrite El.
  - destruct H as [[-> Hb]|H].
    + rewrite (proj2 (Nat.ltb_lt _ _)) by lia. done.
    + rewrite (proj2 (Nat.ltb_ge _ _)) by lia. done.
Qed.

(** ** Counts *)

(** The samples of a stack. *)
Definition stack_count (es : list collapsed_entry) (s : string) : Z :=
  match lookup_by c_stack s es with Some e => c_count e | None => 0 end.

(** The names after the call half of an instruction. *)
Definition names_entered (nms : list string) (prev : pt_insn_class) (ev : insn_event) : list string :=
  match ev_sym ev with
  | Some sym =>
      if (ev_ip ev =? s_addr sym) && is_call prev && (length nms <? MAX_STACK_DEPTH)%nat
      then nms ++ [chars (s_name sym)] else nms
  | None => nms
  end.

(** The stacks sampled: the non-empty ones at each return. *)
Fixpoint sampled (nms : list string) (prev : pt_insn_class) (evs : list insn_event) : list string :=
  match evs with
  | [] => []
  | ev :: evs =>
      let nms := names_entered nms prev ev in
      if is_return (ev_class ev) then
        match nms with
        | [] => sampled [] (ev_class ev) evs
        | _ => join ";" nms :: sampled (removelast nms) (ev_class ev) evs
        end
      else sampled nms (ev_class ev) evs
  end.

(** Entries with distinct stacks, all of them among the samples. *)
Definition table_ok (col : collapsed) (ss : list string) : Prop :=
  NoDup (map c_stack (c_entries col)) /\ (forall e, e ∈ c_entries col -> c_stack e ∈ ss) /\
  Z.of_nat (length (c_entries col)) <= c_capacity col /\ 0 <= c_capacity col <= MAX_COLLAPSED_STACKS.

Lemma table_room col (ss : list string) s :
  table_ok col ss -> s ∈ ss -> lookup_by c_stack s (c_entries col) = None ->
  Z.of_nat (size (list_to_set ss : gset string)) <= MAX_COLLAPSED_STACKS ->
  Z.of_nat (length (c_entries col)) < MAX_COLLAPSED_STACKS.
Proof.
  intros (Hnd & Hin & _) Hs Hnone Hsz.
  assert (Hnd2 : NoDup (s :: map c_stack (c_entries col))).
  { constructor; [|done]. intros (e & -> & He)%list_elem_of_fmap.
    rewrite lookup_by_None in Hnone. by apply (Hnone e He). }
  assert (Hsub : (list_to_set (s :: map c_stack (c_entries col)) : gset string) ⊆ list_to_set ss).
  { intros x. rewrite !elem_of_list_to_set, elem_of_cons. intros [->|(e & -> & He)%list_elem_of_fmap]; auto. }
  apply subseteq_size in Hsub. rewrite (size_list_to_set _ Hnd2) in Hsub. simpl in Hsub.
  rewrite length_map in Hsub. lia.
Qed.

(** A known stack is counted once more. *)
Lemma bump_ok col ss i e :
  table_ok col ss -> c_entries col !! i = Some e ->
  (forall j y, (j < i)%nat -> c_entries col !! j = Some y -> c_stack y <> c_stack e) ->
  let col' := set_entries (alter bump i (c_entries col)) (c_capacity col) col in
  table_ok col' ss /\
  forall q, stack_count (c_entries col') q = stack_count (c_entries col) q + one (bool_decide (q = c_stack e)).
Proof.
  intros Hok Hi Hbefore. split.
  - destruct Hok as (Hnd & Hin & Hc & Hc2).
    assert (Hmap : map c_stack (alter bump i (c_entries col)) = map c_stack (c_entries col)).
    { clear. generalize (c_entries col) i. induction l as [|x l IH]; intros [|k]; try done.
      simpl. f_equal. apply IH. }
    split_and!; cbn [set_entries c_entries c_capacity]; [by rewrite Hmap| |by rewrite length_alter|lia|lia].
    intros e0 He0. assert (c_stack e0 ∈ map c_stack (c_entries col)) as Hx.
    { rewrite <- Hmap. by apply list_elem_of_fmap_2. }
    apply list_elem_of_fmap in Hx as (e1 & -> & He1). by apply Hin.
  - intros q. unfold stack_count. cbn [set_entries c_entries].
    rewrite (lookup_by_alter c_stack bump i _ e) by done. case_decide as E; unfold one.
    + subst q. rewrite (lookup_by_first c_stack _ i e Hi Hbefore), bool_decide_eq_true_2 by done. done.
    + rewrite bool_decide_eq_false_2 by done. lia.
Qed.

(** A new stack goes behind the others. *)
Lemma add_stack_ok col ss s cap :
  table_ok col ss -> s ∈ ss -> lookup_by c_stack s (c_entries col) = None ->
  c_capacity col <= cap <= MAX_COLLAPSED_STACKS -> Z.of_nat (length (c_entries col)) < cap ->
  let col' := set_entries (c_entries col ++ [{| c_stack := s; c_count := 1 |}]) cap col in
  table_ok col' ss /\
  forall q, stack_count (c_entries col') q = stack_count (c_entries col) q + one (bool_decide (q = s)).
Proof.
  intros (Hnd & Hin & Hc & Hc2) Hs Hnone Hcap Hlt. split.
  - split_and!; simpl; [| |rewrite length_app; simpl; lia|lia|lia].
    + rewrite map_app. apply NoDup_app. split_and!; [done| |apply NoDup_singleton].
      intros x Hx ->%list_elem_of_singleton. apply list_elem_of_fmap in Hx as (e & He & Hel).
      rewrite lookup_by_None in Hnone. by apply (Hnone e Hel).
    + intros e [He| ->%list_elem_of_singleton]%elem_of_app; [by apply Hin|done].
  - intros q. unfold stack_count. cbn [set_entries c_entries].
    rewrite (lookup_by_snoc c_stack) by done. cbn [c_stack]. unfold one. case_decide as E.
    + subst q. rewrite Hnone, bool_decide_eq_true_2 by done. done.
    + rewrite bool_decide_eq_false_2 by done. lia.
Qed.

Lemma count_stack_ok col m ss s :
  mem_ok m -> table_ok col ss -> s ∈ ss ->
  Z.of_nat (size (list_to_set ss : gset string)) <= MAX_COLLAPSED_STACKS ->
  collapsed_build_stack col = Built s ->
  exists col' m', collapsed_count_stack col m = Some (col', m') /\ mem_ok m' /\ table_ok col' ss /\
    names col' = names col /\ c_prev_class col' = c_prev_class col /\
    forall q, stack_count (c_entries col') q = stack_count (c_entries col) q + one (bool_decide (q = s)).
Proof.
  intros Hm Hok Hs Hsz Hb. unfold collapsed_count_stack. rewrite Hb.
  destruct (strdup_ok s m Hm) as (m1 & -> & _ & Hm1). cbn [chars].
  destruct (find_index _ (c_entries col)) as [i|] eqn:Ei.
  - apply find_index_Some in Ei as (e & Hi & <-%String.eqb_eq & Hlt).
    assert (Hbefore : forall j y, (j < i)%nat -> c_entries col !! j = Some y -> c_stack y <> c_stack e).
    { intros j y Hj Hy. specialize (Hlt j y Hj Hy). by apply String.eqb_neq. }
    destruct (bump_ok col ss i e Hok Hi Hbefore) as [Ht Hq]. eexists _, m1. by split_and!.
  - assert (Hnone : lookup_by c_stack s (c_entries col) = None).
    { apply lookup_by_None. intros e He Hk. rewrite find_index_None in Ei. specialize (Ei e He).
      apply String.eqb_neq in Ei. done. }
    pose proof (table_room col ss s Hok Hs Hnone Hsz) as Hroom.
    pose proof (fun cap => add_stack_ok col ss s cap Hok Hs Hnone) as Hadd. destruct Hok as (Hnd & Hin & Hc & Hc2).
    unfold MAX_COLLAPSED_STACKS in *.
    pose proof (grow_gt 256 (c_capacity col) ltac:(lia) ltac:(lia)) as Hg.
    destruct (c_capacity col <=? Z.of_nat (length (c_entries col))) eqn:Ecap; to_prop.
    + set (nc := if 4096 <? grow 256 (c_capacity col) then 4096 else grow 256 (c_capacity col)).
      assert (Hnc : c_capacity col <= nc <= 4096 /\ Z.of_nat (length (c_entries col)) < nc).
      { subst nc. case_bool; to_prop; lia. }
      rewrite (proj2 (Z.leb_gt _ _)) by lia. destruct (malloc_ok m1 Hm1) as (m2 & -> & _ & Hm2).
      eexists _, m2. destruct (Hadd nc ltac:(lia) ltac:(lia)) as [Ht Hq]. by split_and!.
    + eexists _, m1. destruct (Hadd (c_capacity col) ltac:(lia) ltac:(lia)) as [Ht Hq]. by split_and!.
Qed.

Lemma record_all_counts evs col m ss :
  mem_ok m -> table_ok col ss ->
  Forall (fun s => (String.length s < STACK_BUF)%nat) (sampled (names col) (c_prev_class col) evs) ->
  (forall s, s ∈ sampled (names col) (c_prev_class col) evs -> s ∈ ss) ->
  Z.of_nat (size (list_to_set ss : gset string)) <= MAX_COLLAPSED_STACKS ->
  exists col' m', collapsed_record_all col evs m = Some (col', m') /\ mem_ok m' /\
    forall q, stack_count (c_entries col') q = stack_count (c_entries col) q +
      Z.of_nat (count_occ string_dec (sampled (names col) (c_prev_class col) evs) q).
Proof.
  revert col m. induction evs as [|ev evs IH]; intros col m Hm Hok Hlen Hss Hsz.
  { exists col, m. split_and!; [done|done|]. intros q. simpl. lia. }
  cbn [collapsed_record_all]. unfold collapsed_record.
  set (col1 := match ev_sym ev with Some sym => _ | None => col end).
  assert (Hcol1 : names col1 = names_entered (names col) (c_prev_class col) ev /\
    c_entries col1 = c_entries col /\ c_capacity col1 = c_capacity col).
  { subst col1. unfold names_entered. destruct (ev_sym ev) as [sym|]; [|done].
    destruct ((ev_ip ev =? s_addr sym) && is_call (c_prev_class col))%bool; [|done]. by case_bool. }
  destruct Hcol1 as (Hn1 & He1 & Hc1). cbn [sampled] in *. rewrite <- Hn1 in *.
  assert (Hok1 : table_ok col1 ss) by (unfold table_ok; rewrite He1, Hc1; exact Hok).
  destruct (is_return (ev_class ev)).
  - destruct (names col1) as [|n0 nms0] eqn:En.
    + unfold collapsed_count_stack, collapsed_build_stack. rewrite En. simpl. rewrite En.
      destruct (IH (set_class (ev_class ev) (set_names [] col1)) m Hm Hok1 Hlen Hss Hsz) as (c2 & m2 & E2 & Hm2 & H2).
      exists c2, m2. split_and!; [exact E2|done|]. intros q. rewrite H2. simpl. by rewrite He1.
    + apply Forall_cons in Hlen as [Hl0 Hlen].
      assert (Hb : collapsed_build_stack col1 = Built (join ";" (n0 :: nms0))).
      { pose proof (build_loop_join (names col1) ltac:(by rewrite En)) as H.
        unfold collapsed_build_stack. rewrite En in *.
        destruct (build_loop true (n0 :: nms0) EmptyString 0) as [buf off]. unfold built_post in H.
        change (String.length EmptyString + ?x)%nat with x in H.
        rewrite (proj2 (Nat.ltb_lt _ _) Hl0) in H. destruct H as [-> ->].
        by rewrite (proj2 (Nat.ltb_lt _ _) Hl0). }
      destruct (count_stack_ok col1 m ss _ Hm Hok1 (Hss _ ltac:(constructor)) Hsz Hb)
        as (col2 & m2 & -> & Hm2 & Hok2 & Hn2 & Hp2 & Hq2).
      cbn [mbind option_bind]. rewrite Hn2, En.
      destruct (IH (set_class (ev_class ev) (set_names (removelast (n0 :: nms0)) col2)) m2 Hm2 Hok2 Hlen
        ltac:(intros s Hs; apply Hss; by constructor) Hsz) as (c3 & m3 & E3 & Hm3 & H3).
      exists c3, m3. split_and!; [exact E3|done|]. intros q. rewrite H3. cbn [set_class set_names c_entries].
      rewrite Hq2, He1. cbn [names c_prev_class set_class set_names].
      generalize (sampled (removelast (n0 :: nms0)) (ev_class ev) evs), (join ";" (n0 :: nms0)).
      intros rest t. unfold one. cbn [count_occ].
      destruct (string_dec t q); [rewrite bool_decide_eq_true_2 by done|rewrite bool_decide_eq_false_2 by congruence];
        lia.
  - simpl. destruct (IH (set_class (ev_class ev) col1) m Hm Hok1 Hlen Hss Hsz) as (c2 & m2 & E2 & Hm2 & H2).
    exists c2, m2. split_and!; [exact E2|done|]. intros q. rewrite H2. simpl. by rewrite He1.
Qed.

(** While every stack text fits the buffer and there are no more than 4096
    of them, the recorder stays in bounds and an entry counts the returns made
    with exactly its stack. *)
Theorem collapsed_counts evs m :
  mem_ok m ->
  let ss := sampled [] ptic_error evs in
  Forall (fun s => (String.length s < STACK_BUF)%nat) ss ->
  Z.of_nat (size (list_to_set ss : gset string)) <= MAX_COLLAPSED_STACKS ->
  exists col m', collapsed_record_all collapsed_init evs m = Some (col, m') /\
    forall s, stack_count (c_entries col) s = Z.of_nat (count_occ string_dec ss s).
Proof.
  intros Hm ss Hlen Hsz.
  destruct (record_all_counts evs collapsed_init m ss Hm) as (col & m' & E & _ & H); [|done|done|done|].
  - split_and!; simpl; [constructor|by intros e ?%elem_of_nil|lia|lia|unfold MAX_COLLAPSED_STACKS; lia].
  - exists col, m'. split; [done|]. intros s. by rewrite H.
Qed.

(** The stack of active calls at each instruction, the call half of the
    instruction included: a function started right after a call is active
    until a return. *)
Fixpoint active (nms : list string) (prev : pt_insn_class) (evs : list insn_event) : list (list string) :=
  match evs with
  | [] => []
  | ev :: evs =>
      let now := match ev_sym ev with
                 | Some sym => if (ev_ip ev =? s_addr sym) && is_call prev
                               then nms ++ [chars (s_name sym)] else nms
                 | None => nms
                 end in
      now :: active (if is_return (ev_class ev) then removelast now else now) (ev_class ev) evs
  end.

(** One stack text for each return, the returning function last; a return
    with no active call has none. *)
Definition returned_stacks (evs : list insn_event) : list string :=
  concat (zip_with (fun ev s => match s with
                                | [] => []
                                | _ => if is_return (ev_class ev) then [join ";" s] else []
                                end) evs (active [] ptic_error evs)).

Lemma sampled_active evs : forall nms prev,
  Forall (fun s => (length s <= MAX_STACK_DEPTH)%nat) (active nms prev evs) ->
  sampled nms prev evs =
  concat (zip_with (fun ev s => match s with
                                | [] => []
                                | _ => if is_return (ev_class ev) then [join ";" s] else []
                                end) evs (active nms prev evs)).
Proof.
  induction evs as [|ev evs IH]; intros nms prev Hd; [done|]. cbn [active zip_with concat sampled] in *.
  match goal with |- context [zip_with _ evs (active (if _ then removelast ?n else _) _ evs)] =>
    set (now := n) in *; assert (names_entered nms prev ev = now) as -> end.
  { apply Forall_cons in Hd as [Hd _]. subst now. unfold names_entered.
    destruct (ev_sym ev) as [sym|]; [|done]. destruct (_ && is_call prev)%bool; [|done]. cbn [andb].
    rewrite length_app in Hd. simpl in Hd. by rewrite (proj2 (Nat.ltb_lt _ _)) by lia. }
  apply Forall_cons in Hd as [_ Hd]. clearbody now.
  destruct (is_return (ev_class ev)); destruct now as [|n now]; cbn [app]; try (by apply IH).
  f_equal. by apply IH.
Qed.

Lemma returned_stacks_sampled evs :
  Forall (fun s => (length s <= MAX_STACK_DEPTH)%nat) (active [] ptic_error evs) ->
  sampled [] ptic_error evs = returned_stacks evs.
Proof. apply sampled_active. Qed.

(** ** Speedscope *)

(** A frame table without null pointers. *)
Definition table (fr : list string) (cap : Z) : arr (option string) := Arr (map Some fr) cap.

Lemma frame_loop_index fr t :
  frame_loop (map Some fr) t = Some (find_index (fun f => String.eqb f t) fr).
Proof. induction fr as [|f fr IH]; [done|]. cbn [map frame_loop find_index]. case_bool; [done|]. by rewrite IH. Qed.

(** A frame that is already there keeps its index. *)
Lemma frame_idx_known fr i t cap m :
  NoDup fr -> fr !! i = Some t -> speedscope_frame_idx (table fr cap) t m = Some (i, table fr cap, m).
Proof.
  intros Hnd Hi. unfold speedscope_frame_idx, table. cbn [items]. rewrite frame_loop_index.
  cbn [mbind option_bind]. destruct (find_index _ fr) as [k|] eqn:E.
  - apply find_index_Some in E as (x & Hx & <-%String.eqb_eq & _). by rewrite (NoDup_lookup _ _ _ _ Hnd Hx Hi).
  - rewrite find_index_None in E. apply list_elem_of_lookup_2 in Hi. specialize (E _ Hi).
    by rewrite String.eqb_refl in E.
Qed.

Lemma frame_idx_spec fr t cap m :
  mem_ok m -> NoDup fr ->
  exists i fr' cap' m', speedscope_frame_idx (table fr cap) t m = Some (i, table fr' cap', m') /\ mem_ok m' /\
    NoDup fr' /\ fr `prefix_of` fr' /\ fr' !! i = Some t.
Proof.
  intros Hm Hnd. destruct (decide (t ∈ fr)) as [(i & Hi)%list_elem_of_lookup|Hn].
  { exists i, fr, cap, m. split_and!; [by apply frame_idx_known|done..]. }
  unfold speedscope_frame_idx, table. cbn [items]. rewrite frame_loop_index.
  destruct (find_index _ fr) as [k|] eqn:E.
  { apply find_index_Some in E as (x & Hx%list_elem_of_lookup_2 & ->%String.eqb_eq & _). done. }
  cbn [mbind option_bind].
  destruct (allocates_ok _ _ _ (arr_reserve_allocates 64 (Arr (map Some fr) cap) m) Hm) as (a & m1 & -> & Ea & Hm1).
  cbn [mbind option_bind]. destruct (strdup_ok t m1 Hm1) as (m2 & -> & _ & Hm2). cbn [items] in Ea.
  exists (length fr), (fr ++ [t]), (room a), m2. rewrite Ea, length_map, map_app. split_and!; [done|done| | |].
  - apply NoDup_app. split_and!; [done| |apply NoDup_singleton]. by intros x Hx ->%list_elem_of_singleton.
  - by apply prefix_app_r.
  - by apply list_lookup_middle.
Qed.

(** Indices that name the tokens in [fr]. *)
Definition names_tokens (fr : list string) (idx : list nat) (toks : list string) : Prop :=
  Forall2 (fun i t => fr !! i = Some t) idx toks.

Lemma names_tokens_mono fr fr' idx toks :
  fr `prefix_of` fr' -> names_tokens fr idx toks -> names_tokens fr' idx toks.
Proof. intros Hp H. eapply Forall2_impl; [exact H|]. intros i t Hi. eapply prefix_lookup_Some; [exact Hi|done]. Qed.

Lemma frame_idxs_spec toks : forall fr cap m,
  mem_ok m -> NoDup fr ->
  exists idx fr' cap' m', frame_idxs (table fr cap) toks m = Some (idx, table fr' cap', m') /\ mem_ok m' /\
    NoDup fr' /\ fr `prefix_of` fr' /\ names_tokens fr' idx toks.
Proof.
  induction toks as [|t toks IH]; intros fr cap m Hm Hnd; cbn [frame_idxs].
  { exists [], fr, cap, m. by repeat constructor. }
  destruct (frame_idx_spec fr t cap m Hm Hnd) as (i & fr1 & c1 & m1 & -> & Hm1 & Hnd1 & Hp1 & Hi).
  cbn [mbind option_bind].
  destruct (IH fr1 c1 m1 Hm1 Hnd1) as (idx & fr2 & c2 & m2 & -> & Hm2 & Hnd2 & Hp2 & Hr). cbn [mbind option_bind].
  exists (i :: idx), fr2, c2, m2. split_and!; [done|done|done|by etrans|].
  constructor; [|done]. eapply prefix_lookup_Some; [exact Hi|done].
Qed.

Lemma frame_idxs_known toks fr idx cap m :
  NoDup fr -> names_tokens fr idx toks -> frame_idxs (table fr cap) toks m = Some (idx, table fr cap, m).
Proof.
  intros Hnd H. induction H as [|i t idx toks Hi _ IH]; [done|]. cbn [frame_idxs].
  rewrite (frame_idx_known fr i t) by done. cbn [mbind option_bind]. by rewrite IH.
Qed.

Definition rows_ok (fr : list string) (rows : list (list nat)) (es : list collapsed_entry) : Prop :=
  Forall2 (fun r e => names_tokens fr r (strtok ";" (c_stack e))) rows es.

Lemma samples_spec es : forall fr cap m,
  mem_ok m -> NoDup fr ->
  exists rows fr' cap' m', samples (table fr cap) es m = Some (rows, table fr' cap', m') /\ mem_ok m' /\
    NoDup fr' /\ fr `prefix_of` fr' /\ rows_ok fr' rows es.
Proof.
  induction es as [|e es IH]; intros fr cap m Hm Hnd; cbn [samples].
  { exists [], fr, cap, m. by repeat constructor. }
  destruct (strdup_ok (c_stack e) m Hm) as (m0 & -> & _ & Hm0). cbn [mbind option_bind chars].
  destruct (frame_idxs_spec (strtok ";" (c_stack e)) fr cap m0 Hm0 Hnd)
    as (idx & fr1 & c1 & m1 & -> & Hm1 & Hnd1 & Hp1 & Hi). cbn [mbind option_bind].
  destruct (IH fr1 c1 m1 Hm1 Hnd1) as (rows & fr2 & c2 & m2 & -> & Hm2 & Hnd2 & Hp2 & Hr). cbn [mbind option_bind].
  exists (idx :: rows), fr2, c2, m2. split_and!; [done|done|done|by etrans|].
  constructor; [|done]. by eapply names_tokens_mono.
Qed.

Lemma samples_known es fr rows cap : NoDup fr -> rows_ok fr rows es ->
  forall m, mem_ok m -> exists m', samples (table fr cap) es m = Some (rows, table fr cap, m') /\ mem_ok m'.
Proof.
  intros Hnd H. induction H as [|r e rows es Hr _ IH]; intros m Hm; [by exists m|]. cbn [samples].
  destruct (strdup_ok (c_stack e) m Hm) as (m0 & -> & _ & Hm0). cbn [mbind option_bind chars].
  rewrite (frame_idxs_known _ _ r) by done. cbn [mbind option_bind].
  destruct (IH m0 Hm0) as (m' & -> & Hm'). by exists m'.
Qed.

(** The exported samples mean the stacks: with memory the frames listed first
    are distinct, the second pass over the stacks adds none, and the indices
    of each sample name the functions of its stack in order. *)
Theorem speedscope_samples es m :
  mem_ok m ->
  exists rows fr cap m1 m2, samples no_items es m = Some (rows, table fr cap, m1) /\
    samples (table fr cap) es m1 = Some (rows, table fr cap, m2) /\ mem_ok m2 /\ NoDup fr /\
    Forall2 (fun r e => map (fun i => fr !! i) r = map Some (strtok ";" (c_stack e))) rows es.
Proof.
  intros Hm. destruct (samples_spec es [] 0 m Hm ltac:(constructor)) as (rows & fr & cap & m1 & E & Hm1 & Hnd & _ & Hr).
  destruct (samples_known es fr rows cap Hnd Hr m1 Hm1) as (m2 & E2 & Hm2).
  exists rows, fr, cap, m1, m2. split_and!; [done|done|done|done|].
  eapply Forall2_impl; [exact Hr|]. intros r e H. induction H as [|i t r ts Hi _ IH]; [done|].
  simpl. by rewrite Hi, IH.
Qed.

(** ** Printing with memory *)

Lemma speedscope_print_total col m :
  mem_ok m -> exists l m', speedscope_print col m = Some (l, m') /\ mem_ok m'.
Proof.
  intros Hm. unfold speedscope_print.
  destruct (speedscope_samples (c_entries col) m Hm) as (rows & fr & cap & m1 & m2 & -> & E2 & Hm2 & _).
  cbn [mbind option_bind items table].
  assert (mapM (fun f => f) (map Some fr) = Some fr) as ->.
  { clear. induction fr as [|f fr IH]; [done|]. cbn [map mapM mbind option_bind]. by rewrite IH. }
  cbn [mbind option_bind]. rewrite E2. by eexists _, _.
Qed.

Lemma collapsed_print_total `{QSort} col opts m :
  filter_ok opts -> mem_ok m -> exists l m', collapsed_print col opts m = Some (l, m') /\ mem_ok m'.
Proof.
  intros Hf. unfold collapsed_print. generalize (qsort collapsed_cmp_count (c_entries col)) as es.
  intros es. revert m. induction es as [|e es IH]; intros m Hm; [by exists [], m|]. cbn [print_entries].
  assert (exists b m', collapsed_stack_matches (c_stack e) opts m = Some (b, m') /\ mem_ok m') as (b & m1 & -> & Hm1).
  { unfold collapsed_stack_matches. destruct opts as [o|]; [|by eexists _, _].
    destruct (filter_funcs o) as [|f fs] eqn:Ef; [by eexists _, _|].
    destruct (strdup_ok (c_stack e) m Hm) as (m1 & -> & _ & Hm1). cbn [mbind option_bind chars].
    generalize (strtok ";" (c_stack e)). intros toks.
    assert (is_Some (tokens_match (Some o) toks)) as [b ->]; [|by exists b, m1].
    induction toks as [|t toks IHt]; [by eexists|]. cbn [tokens_match].
    destruct (filter_matches_total (Some o) (Some (frame_func t)) Hf) as [[] ->]; [by eexists|done]. }
  cbn [mbind option_bind]. destruct (IH m1 Hm1) as (l & m2 & -> & Hm2). by eexists _, _.
Qed.

(** ** Deep recursion *)

(** The symbol of the [n]th function, and the two instructions of calling
    it and of returning. *)
Definition fn (n : nat) : sym_entry :=
  {| s_addr := Z.of_nat n; s_size := 1; s_slide := 0; s_name := CStr n "f"; s_binary := CStr 0 "b" |}.
Definition ev_call (n : nat) : list insn_event :=
  [{| ev_sym := None; ev_ip := 0; ev_class := ptic_call; ev_tsc := 0 |};
   {| ev_sym := Some (fn n); ev_ip := Z.of_nat n; ev_class := ptic_other; ev_tsc := 0 |}].
Definition ev_ret : insn_event := {| ev_sym := None; ev_ip := 0; ev_class := ptic_return; ev_tsc := 0 |}.

(** A chain of 257 calls and one return: the tracker shows 255 active calls
    where 256 are, because the call beyond its depth was not pushed but its
    return pops. *)
Theorem collapsed_depth_drift :
  let evs := concat (map ev_call (seq 1 257)) ++ [ev_ret] in
  length (a_path (a_record_all ptic_error evs a_init)) = 256%nat /\
  (fun r => length (names r.1)) <$> collapsed_record_all collapsed_init evs (Mem 0 []) = Some 255%nat.
Proof. vm_compute. done. Qed.

(** A chain main, foo, bar that returns leaves three samples, one for each
    of its prefixes. *)
Theorem collapsed_prefix_samples :
  let sym n s := {| s_addr := n; s_size := 1; s_slide := 0; s_name := CStr (Z.to_nat n) s;
                    s_binary := CStr 0 "b" |} in
  let call n s := [{| ev_sym := None; ev_ip := 0; ev_class := ptic_call; ev_tsc := 0 |};
                   {| ev_sym := Some (sym n s); ev_ip := n; ev_class := ptic_other; ev_tsc := 0 |}] in
  let evs := call 1 "main" ++ call 2 "foo" ++ call 3 "bar" ++ [ev_ret; ev_ret; ev_ret] in
  (fun r => map collapsed_line (c_entries r.1)) <$> collapsed_record_all collapsed_init evs (Mem 0 []) =
  Some ["main;foo;bar 1"; "main;foo 1"; "main 1"].
Proof. vm_compute. done. Qed.
