(* ===== verification/Callers.v ===== *)
(** decode.c: printing the call tree (-o tree) and the caller/callee view
    (-o callers).

    Both walk the finished tree; [tree_of] is the tree the heap of
    [CallTree.calltree] holds, as a value. *)

From Stdlib Require Import ZArith Lia Ascii String.
From stdpp Require Import base list strings sets gmap sorting.
From S2P Require Import Prelude CLib Types CallTree Profile.

Inductive ctree := CT (nm bn : string) (count tsc : Z) (children : list ctree).

Definition t_name '(CT nm _ _ _ _) : string := nm.
Definition t_binary '(CT _ bn _ _ _) : string := bn.
Definition t_count '(CT _ _ c _ _) : Z := c.
Definition t_tsc '(CT _ _ _ t _) : Z := t.
Definition t_children '(CT _ _ _ _ l) : list ctree := l.

(** Reads the tree below a node, following [children] pointers at most
    [fuel] deep; [None] when the fuel runs out or a pointer dangles. *)
Fixpoint tree_of (fuel : nat) (ct : calltree) (n : ct_node) : option ctree :=
  match fuel with
  | O => None
  | S fuel =>
      l ← children_of ct n;
      cs ← mapM (tree_of fuel ct) l;
      Some (CT (chars (n_name n)) (chars (n_binary n)) (n_count n) (n_total n) cs)
  end.

(** * Printing the tree *)

Definition ct_cmp_count (na nb : ctree) : Z := i32 (t_count nb - t_count na).

Fixpoint spaces (n : nat) : string := match n with O => EmptyString | S n => " " +:+ spaces n end.

Definition node_line (indent : nat) (c : ctree) : string :=
  spaces (indent * 2) +:+ t_binary c +:+ ":" +:+ t_name c +:+ "  (" +:+ fmt_d (t_count c) +:+ ")" +:+
  (if 0 <? t_tsc c then " [" +:+ fmt_u (t_tsc c) +:+ " tsc]" else "").

(** Sorting a node's children leaves the tree's depth alone; fuel is that
    depth. *)
Fixpoint ct_print_node `{QSort} (fuel : nat) (n : ctree) (indent : nat) : list string :=
  match fuel with
  | O => []
  | S fuel =>
      concat (map (fun c => node_line indent c :: ct_print_node fuel c (S indent))
        (if (1 <? length (t_children n))%nat then qsort ct_cmp_count (t_children n)
         else t_children n))
  end.

Fixpoint depth (t : ctree) : nat :=
  match t with
  | CT _ _ _ _ cs => S ((fix go l := match l with [] => 0%nat | c :: l => Nat.max (depth c) (go l) end) cs)
  end.

Definition calltree_print `{QSort} (t : ctree) : list string := ct_print_node (depth t) t 0.

Fixpoint ct_node_count (n : ctree) : Z :=
  match n with
  | CT _ _ _ _ cs =>
      Z.of_nat (length cs) + (fix go l := match l with [] => 0 | c :: l => ct_node_count c + go l end) cs
  end.

(** * Freeing the tree *)

(** The arrays of a subtree are freed below their nodes first; [None] when
    the fuel runs out or an array is used after it was freed, or freed again. *)
Fixpoint ct_node_free (fuel : nat) (n : ct_node) (h : gmap nat (list ct_node))
    : option (gmap nat (list ct_node)) :=
  match fuel with
  | O => None
  | S fuel =>
      match n_children n with
      | None => Some h
      | Some b =>
          l ← h !! b;
          h ← (fix free_all (l : list ct_node) (h : gmap nat (list ct_node)) :=
                 match l with
                 | [] => Some h
                 | c :: l => h ← ct_node_free fuel c h; free_all l h
                 end) l h;
          Some (delete b h)
      end
  end.

Definition calltree_free (ct : calltree) : option calltree :=
  h ← ct_node_free (S (size (heap ct))) (root ct) (heap ct);
  Some {| root := with_children None (n_cap (root ct)) (root ct); heap := h; stack := [];
          stack_cap := stack_cap ct; ct_prev_class := ct_prev_class ct |}.

(** * Callers and callees *)

Record caller_edge := { g_name : string; g_binary : string; g_count : Z; g_tsc : Z }.

Record func_summary := {
  f_name : string; f_binary : string; total_calls : Z; total_tsc : Z;
  callers : arr caller_edge; callees : arr caller_edge }.

(** The index of the function's summary, added at the end if it is new. *)
Definition callers_find_or_add (funcs : arr func_summary) (nm bn : string) (m : mem)
    : option (nat * arr func_summary * mem) :=
  match find_index (fun f => String.eqb (f_name f) nm && String.eqb (f_binary f) bn) (items funcs) with
  | Some i => Some (i, funcs, m)
  | None =>
      '(funcs', m) ← arr_push 64 {| f_name := nm; f_binary := bn; total_calls := 0; total_tsc := 0;
                                    callers := no_items; callees := no_items |} funcs m;
      Some (length (items funcs), funcs', m)
  end.

Definition callers_add_edge (edges : arr caller_edge) (nm bn : string) (count tsc : Z) (m : mem)
    : option (arr caller_edge * mem) :=
  match find_index (fun g => String.eqb (g_name g) nm && String.eqb (g_binary g) bn) (items edges) with
  | Some i =>
      Some (Arr (alter (fun g => {| g_name := g_name g; g_binary := g_binary g; g_count := g_count g + count;
                                    g_tsc := u64 (g_tsc g + tsc) |}) i (items edges)) (room edges), m)
  | None => arr_push 16 {| g_name := nm; g_binary := bn; g_count := count; g_tsc := tsc |} edges m
  end.

Definition add_calls (node : ctree) (parent : option ctree) (f : func_summary) (m : mem)
    : option (func_summary * mem) :=
  '(es, m) ← match parent with
             | None => Some (callers f, m)
             | Some p => callers_add_edge (callers f) (t_name p) (t_binary p) (t_count node) (t_tsc node) m
             end;
  Some ({| f_name := f_name f; f_binary := f_binary f; total_calls := total_calls f + t_count node;
           total_tsc := u64 (total_tsc f + t_tsc node); callers := es; callees := callees f |}, m).

Definition add_callee (child : ctree) (f : func_summary) (m : mem) : option (func_summary * mem) :=
  '(es, m) ← callers_add_edge (callees f) (t_name child) (t_binary child) (t_count child) (t_tsc child) m;
  Some ({| f_name := f_name f; f_binary := f_binary f; total_calls := total_calls f;
           total_tsc := total_tsc f; callers := callers f; callees := es |}, m).

(** The function's summary, updated in place. *)
Definition with_func (funcs : arr func_summary) (nm bn : string)
    (u : func_summary -> mem -> option (func_summary * mem)) (m : mem) : option (arr func_summary * mem) :=
  '(i, funcs, m) ← callers_find_or_add funcs nm bn m;
  f ← items funcs !! i;
  '(f, m) ← u f m;
  Some (Arr (<[i := f]> (items funcs)) (room funcs), m).

(** The names of nodes are never null. *)
Fixpoint ct_collect_edges (parent : option ctree) (node : ctree) (funcs : arr func_summary) (m : mem)
    : option (arr func_summary * mem) :=
  match node with
  | CT nm bn _ _ cs =>
      '(funcs, m) ← with_func funcs nm bn (add_calls node parent) m;
      (fix go (cs : list ctree) (funcs : arr func_summary) (m : mem) : option (arr func_summary * mem) :=
         match cs with
         | [] => Some (funcs, m)
         | child :: cs =>
             '(funcs, m) ← with_func funcs nm bn (add_callee child) m;
             '(funcs, m) ← ct_collect_edges (Some node) child funcs m;
             go cs funcs m
         end) cs funcs m
  end.

Definition callers_cmp (fa fb : func_summary) : Z := i32 (total_calls fb - total_calls fa).
Definition edge_cmp (ea eb : caller_edge) : Z := i32 (g_count eb - g_count ea).

Definition edge_line (g : caller_edge) : string :=
  "    " +:+ g_binary g +:+ ":" +:+ g_name g +:+ "  (" +:+ fmt_d (g_count g) +:+ ")".

Definition func_block `{QSort} (f : func_summary) : list string :=
  ["--- " +:+ f_binary f +:+ ":" +:+ f_name f +:+ "  (" +:+ fmt_d (total_calls f) +:+ " calls" +:+
   (if 0 <? total_tsc f then ", " +:+ fmt_u (total_tsc f) +:+ " tsc" else "") +:+ ")"] ++
  match items (callers f) with [] => [] | es => "  called by:" :: map edge_line (qsort edge_cmp es) end ++
  match items (callees f) with [] => [] | es => "  calls:" :: map edge_line (qsort edge_cmp es) end ++
  [""].

(** [None] is a crash: an allocation that failed, or a null name in the
    filter. *)
Definition callers_print `{QSort} (t : ctree) (opts : option pt_decode_opts) (m : mem)
    : option (list string * mem) :=
  '(funcs, m) ← ct_collect_edges None t no_items m;
  shown ← filter_opt (fun f => filter_matches opts (Some (f_name f))) (qsort callers_cmp (items funcs));
  Some (concat (map func_block shown), m).

(** * Properties *)

(** ** Induction over trees *)

Section ctree_ind.
Context (P : ctree -> Prop) (HP : forall nm bn c t cs, Forall P cs -> P (CT nm bn c t cs)).
Fixpoint ctree_ind' (t : ctree) : P t :=
  match t with
  | CT nm bn c ts cs =>
      HP nm bn c ts cs
        ((fix go l : Forall P l :=
            match l with [] => @List.Forall_nil _ P | x :: l => @List.Forall_cons _ P x l (ctree_ind' x) (go l) end) cs)
  end.
End ctree_ind.

(** ** The edges *)

Definition fid : Type := string * string.
Definition t_id (t : ctree) : fid := (t_name t, t_binary t).
Definition f_id (f : func_summary) : fid := (f_name f, f_binary f).
Definition g_id (g : caller_edge) : fid := (g_name g, g_binary g).

(** Every node of a tree with its parent, in the order of the walk. *)
Fixpoint nodes (parent : option ctree) (t : ctree) : list (option ctree * ctree) :=
  (parent, t) ::
  match t with
  | CT _ _ _ _ cs => (fix go l := match l with [] => [] | c :: l => nodes (Some t) c ++ go l end) cs
  end.

(** The calls of a function, and those made from a caller. *)
Definition calls_of (f : fid) (ns : list (option ctree * ctree)) : Z :=
  sum_on (fun '(_, n) => if decide (t_id n = f) then t_count n else 0) ns.

Definition calls_from (g f : fid) (ns : list (option ctree * ctree)) : Z :=
  sum_on (fun '(p, n) => if decide (t_id n = f /\ t_id <$> p = Some g) then t_count n else 0) ns.

(** What the view holds. *)
Definition edge_of (g : fid) (es : arr caller_edge) : Z :=
  match lookup_by g_id g (items es) with Some e => g_count e | None => 0 end.

Definition shown {A} (d : A) (sel : func_summary -> A) (f : fid) (fs : arr func_summary) : A :=
  match lookup_by f_id f (items fs) with Some s => sel s | None => d end.

Definition shown_calls : fid -> arr func_summary -> Z := shown 0 total_calls.
Definition shown_caller (g : fid) : fid -> arr func_summary -> Z := shown 0 (fun s => edge_of g (callers s)).
Definition shown_callee (g : fid) : fid -> arr func_summary -> Z := shown 0 (fun s => edge_of g (callees s)).

Lemma add_edge_spec es nm bn c t m g :
  allocates m (fun es' => edge_of g es' = edge_of g es + (if decide (g = (nm, bn)) then c else 0))
    (callers_add_edge es nm bn c t m).
Proof.
  assert (Hk : forall e, String.eqb (g_name e) nm && String.eqb (g_binary e) bn = true <-> g_id e = (nm, bn)).
  { intros e. unfold g_id. rewrite andb_true_iff, !String.eqb_eq. naive_solver. }
  unfold callers_add_edge, edge_of. destruct (find_index _ (items es)) as [i|] eqn:Ei.
  - apply allocates_ret. cbn [items]. apply find_index_Some in Ei as (e & Hi & He%Hk & Hlt).
    assert (Hbefore : forall j y, (j < i)%nat -> items es !! j = Some y -> g_id y <> g_id e).
    { intros j y Hj Hy. specialize (Hlt j y Hj Hy). rewrite He. intros Hq%Hk. congruence. }
    pose proof (lookup_by_first g_id _ i e Hi Hbefore) as Hfirst. rewrite He in Hfirst.
    rewrite (lookup_by_alter g_id _ i _ e) by done. rewrite He. case_decide as E; [|lia].
    subst g. by rewrite Hfirst.
  - eapply allocates_impl; [apply arr_push_allocates|]. intros es' ->.
    assert (Hnone : lookup_by g_id (nm, bn) (items es) = None).
    { apply lookup_by_None. intros e He Hq%Hk. rewrite find_index_None in Ei. by rewrite (Ei e He) in Hq. }
    rewrite (lookup_by_snoc g_id) by done.
    change (g_id {| g_name := nm; g_binary := bn; g_count := c; g_tsc := t |}) with (nm, bn).
    case_decide as E; [|lia]. subst g. by rewrite Hnone.
Qed.

(** Updating a function's summary changes only what is shown for it. *)
Lemma with_func_shown {A} (d : A) sel (step : A -> A) fs nm bn u f m :
  sel {| f_name := nm; f_binary := bn; total_calls := 0; total_tsc := 0; callers := no_items;
         callees := no_items |} = d ->
  (forall s m, f_id s = (nm, bn) -> allocates m (fun s' => f_id s' = f_id s /\ sel s' = step (sel s)) (u s m)) ->
  allocates m (fun fs' => shown d sel f fs' =
                 if decide (f = (nm, bn)) then step (shown d sel f fs) else shown d sel f fs)
    (with_func fs nm bn u m).
Proof.
  intros Hd Hu. set (s0 := {| f_name := nm |}) in Hd.
  assert (Hk : forall e, String.eqb (f_name e) nm && String.eqb (f_binary e) bn = true <-> f_id e = (nm, bn)).
  { intros e. unfold f_id. rewrite andb_true_iff, !String.eqb_eq. naive_solver. }
  unfold with_func.
  apply (allocates_bind _ (fun '(i, fs1) => exists s, items fs1 !! i = Some s /\ f_id s = (nm, bn) /\
    (forall j y, (j < i)%nat -> items fs1 !! j = Some y -> f_id y <> f_id s) /\
    forall f, shown d sel f fs1 = shown d sel f fs)).
  { unfold callers_find_or_add. destruct (find_index _ (items fs)) as [i|] eqn:Ei.
    - apply allocates_ret. apply find_index_Some in Ei as (s & Hi & Hs%Hk & Hlt). exists s. split_and!; [done|done| |done].
      intros j y Hj Hy. specialize (Hlt j y Hj Hy). rewrite Hs. intros Hq%Hk. congruence.
    - eapply allocates_bind; [apply arr_push_allocates|]. intros fs1 m1 E. apply allocates_ret. exists s0.
      assert (Hnone : lookup_by f_id (f_id s0) (items fs) = None).
      { apply lookup_by_None. intros e He Hq%Hk. rewrite find_index_None in Ei. by rewrite (Ei e He) in Hq. }
      rewrite E. split_and!; [by apply list_lookup_middle|done| |].
      + intros j y Hj Hy. rewrite lookup_app_l in Hy by done. rewrite lookup_by_None in Hnone.
        apply Hnone. by eapply list_elem_of_lookup_2.
      + intros f0. unfold shown. rewrite E, (lookup_by_snoc f_id) by done. case_decide as Ef; [|done].
        rewrite Ef. fold s0. by rewrite Hnone. }
  intros [i fs1] m1 (s & Hi & Hs & Hbefore & Hsame). cbn [fst snd]. rewrite Hi. cbn [mbind option_bind].
  eapply allocates_bind; [by apply Hu|]. intros s' m2 [Hid Hsel]. apply allocates_ret.
  rewrite <- (Hsame f). unfold shown. cbn [items].
  rewrite (lookup_by_insert f_id i _ s) by done. rewrite Hs. case_decide as Ef; [|done].
  subst f. pose proof (lookup_by_first f_id _ i s Hi Hbefore) as Hfirst. rewrite Hs in Hfirst. by rewrite Hfirst.
Qed.

Lemma add_calls_spec node parent s m :
  allocates m (fun s' => f_id s' = f_id s /\ total_calls s' = total_calls s + t_count node /\
      callees s' = callees s)
    (add_calls node parent s m).
Proof.
  unfold add_calls. apply (allocates_bind _ (fun _ => True)); [|intros es m1 _; by apply allocates_ret].
  destruct parent as [p|]; [|by apply allocates_ret].
  eapply allocates_impl; [apply (add_edge_spec _ _ _ _ _ _ (t_id p))|done].
Qed.

Lemma add_calls_edge node parent s m g :
  allocates m (fun s' => f_id s' = f_id s /\ edge_of g (callers s') =
      edge_of g (callers s) + (if decide (t_id <$> parent = Some g) then t_count node else 0))
    (add_calls node parent s m).
Proof.
  unfold add_calls. apply (allocates_bind _ (fun es => edge_of g es =
      edge_of g (callers s) + (if decide (t_id <$> parent = Some g) then t_count node else 0)));
    [|intros es m1 E; by apply allocates_ret].
  destruct parent as [p|]; cbn [fmap option_fmap option_map].
  - eapply allocates_impl; [apply (add_edge_spec _ _ _ _ _ _ g)|]. intros es ->. f_equal.
    change (t_name p, t_binary p) with (t_id p). repeat case_decide; naive_solver.
  - apply allocates_ret. rewrite decide_False by done. lia.
Qed.

Lemma add_callee_spec child s m g :
  allocates m (fun s' => f_id s' = f_id s /\ total_calls s' = total_calls s /\ callers s' = callers s /\
      edge_of g (callees s') = edge_of g (callees s) + (if decide (g = t_id child) then t_count child else 0))
    (add_callee child s m).
Proof.
  unfold add_callee. eapply allocates_bind; [apply (add_edge_spec _ _ _ _ _ _ g)|]. intros es m1 E. by apply allocates_ret.
Qed.

(** One visit of the walk: its effect on each column. *)
Definition visit (parent : option ctree) (node : ctree) (fs : arr func_summary) (m : mem)
    : option (arr func_summary * mem) :=
  with_func fs (t_name node) (t_binary node) (add_calls node parent) m.

(** Decides which columns a visit changes. *)
Ltac by_ids := unfold t_id in *; repeat case_decide; simplify_eq; intuition (congruence || lia).

Lemma visit_spec parent node fs m f g :
  allocates m (fun fs' => shown_calls f fs' = shown_calls f fs + calls_of f [(parent, node)] /\
      shown_caller g f fs' = shown_caller g f fs + calls_from g f [(parent, node)] /\
      shown_callee g f fs' = shown_callee g f fs)
    (visit parent node fs m).
Proof.
  unfold visit, calls_of, calls_from. cbn [sum_on]. apply allocates_and; [|apply allocates_and].
  - eapply allocates_impl; [apply (with_func_shown 0 total_calls (fun x => x + t_count node)); [done|]|].
    { intros s m1 _. eapply allocates_impl; [apply add_calls_spec|]. by intros s' (? & ? & _). }
    intros fs' Hfs. unfold shown_calls. rewrite Hfs. by_ids.
  - eapply allocates_impl; [apply (with_func_shown 0 (fun s => edge_of g (callers s))
      (fun x => x + (if decide (t_id <$> parent = Some g) then t_count node else 0))); [done|]|].
    { intros s m1 _. apply add_calls_edge. }
    intros fs' Hfs. unfold shown_caller. rewrite Hfs. by_ids.
  - eapply allocates_impl; [apply (with_func_shown 0 (fun s => edge_of g (callees s)) (fun x => x)); [done|]|].
    { intros s m1 _. eapply allocates_impl; [apply add_calls_spec|]. intros s' (? & _ & E). by rewrite E. }
    intros fs' Hfs. unfold shown_callee. rewrite Hfs. by case_decide.
Qed.

(** The callee half, before the walk enters the child. *)
Definition visit_child (node child : ctree) (fs : arr func_summary) (m : mem) : option (arr func_summary * mem) :=
  with_func fs (t_name node) (t_binary node) (add_callee child) m.

Lemma visit_child_spec node child fs m f g :
  allocates m (fun fs' => shown_calls f fs' = shown_calls f fs /\
      shown_caller g f fs' = shown_caller g f fs /\
      shown_callee g f fs' = shown_callee g f fs + calls_from f g [(Some node, child)])
    (visit_child node child fs m).
Proof.
  unfold visit_child, calls_from. cbn [sum_on fmap option_fmap option_map].
  apply allocates_and; [|apply allocates_and].
  - eapply allocates_impl; [apply (with_func_shown 0 total_calls (fun x => x)); [done|]|].
    { intros s m1 _. eapply allocates_impl; [apply (add_callee_spec _ _ _ g)|]. by intros s' (? & ? & _). }
    intros fs' Hfs. unfold shown_calls. rewrite Hfs. by case_decide.
  - eapply allocates_impl; [apply (with_func_shown 0 (fun s => edge_of g (callers s)) (fun x => x)); [done|]|].
    { intros s m1 _. eapply allocates_impl; [apply (add_callee_spec _ _ _ g)|]. intros s' (? & _ & E & _). by rewrite E. }
    intros fs' Hfs. unfold shown_caller. rewrite Hfs. by case_decide.
  - eapply allocates_impl; [apply (with_func_shown 0 (fun s => edge_of g (callees s))
      (fun x => x + (if decide (g = t_id child) then t_count child else 0))); [done|]|].
    { intros s m1 _. eapply allocates_impl; [apply (add_callee_spec _ _ _ g)|]. by intros s' (? & _ & _ & ?). }
    intros fs' Hfs. unfold shown_callee. rewrite Hfs. change (t_name node, t_binary node) with (t_id node).
    repeat case_decide; naive_solver lia.
Qed.

Lemma calls_of_app f a b : calls_of f (a ++ b) = calls_of f a + calls_of f b.
Proof. apply sum_on_app. Qed.
Lemma calls_from_app g f a b : calls_from g f (a ++ b) = calls_from g f a + calls_from g f b.
Proof. apply sum_on_app. Qed.

(** What walking a subtree adds to the columns: its callees come from all
    its nodes but its own root, which the caller of the walk has noted. *)
Definition collects (t : ctree) : Prop := forall parent fs m f g,
  allocates m (fun fs' => shown_calls f fs' = shown_calls f fs + calls_of f (nodes parent t) /\
      shown_caller g f fs' = shown_caller g f fs + calls_from g f (nodes parent t) /\
      shown_callee g f fs' = shown_callee g f fs + calls_from f g (tail (nodes parent t)))
    (ct_collect_edges parent t fs m).

(** The loop over a node's children. *)
Definition collect_children (node : ctree) :=
  fix go (cs : list ctree) (funcs : arr func_summary) (m : mem) : option (arr func_summary * mem) :=
    match cs with
    | [] => Some (funcs, m)
    | child :: cs =>
        '(funcs, m) ← visit_child node child funcs m;
        '(funcs, m) ← ct_collect_edges (Some node) child funcs m;
        go cs funcs m
    end.

Definition child_nodes (node : ctree) :=
  fix go (l : list ctree) : list (option ctree * ctree) :=
    match l with [] => [] | c :: l => nodes (Some node) c ++ go l end.

Lemma nodes_head parent t : nodes parent t = (parent, t) :: tail (nodes parent t).
Proof. by destruct t. Qed.

Lemma collect_children_spec node cs : Forall collects cs -> forall fs m f g,
  allocates m (fun fs' => shown_calls f fs' = shown_calls f fs + calls_of f (child_nodes node cs) /\
      shown_caller g f fs' = shown_caller g f fs + calls_from g f (child_nodes node cs) /\
      shown_callee g f fs' = shown_callee g f fs + calls_from f g (child_nodes node cs))
    (collect_children node cs fs m).
Proof.
  induction 1 as [|ch cs Hch _ IH]; intros fs m f g.
  { apply allocates_ret. unfold calls_of, calls_from. simpl. lia. }
  cbn [collect_children child_nodes]. rewrite calls_of_app, !calls_from_app.
  eapply allocates_bind; [apply (visit_child_spec node ch fs m f g)|]. intros fs1 m1 (E1 & E2 & E3).
  eapply allocates_bind; [apply (Hch (Some node) fs1 m1 f g)|]. intros fs2 m2 (H1 & H2 & H3).
  fold (collect_children node) (child_nodes node).
  eapply allocates_impl; [apply (IH fs2 m2 f g)|]. intros fs3 (G1 & G2 & G3).
  rewrite G1, G2, G3, H1, H2, H3, E1, E2, E3.
  assert (Hsplit : calls_from f g (nodes (Some node) ch) =
    calls_from f g [(Some node, ch)] + calls_from f g (tail (nodes (Some node) ch))).
  { rewrite <- calls_from_app. simpl app. by rewrite <- nodes_head. }
  rewrite Hsplit. lia.
Qed.

Lemma collect_spec t : collects t.
Proof.
  induction t as [nm bn c ts cs IH] using ctree_ind'. intros parent fs m f g.
  set (t := CT nm bn c ts cs).
  change (ct_collect_edges parent t fs m) with
    ('(fs, m) ← visit parent t fs m; collect_children t cs fs m).
  change (nodes parent t) with ([(parent, t)] ++ child_nodes t cs).
  eapply allocates_bind; [apply (visit_spec parent t fs m f g)|]. intros fs1 m1 (E1 & E2 & E3).
  eapply allocates_impl; [apply (collect_children_spec t cs IH fs1 m1 f g)|]. intros fs2 (-> & -> & ->).
  rewrite E1, E2, E3, calls_of_app, calls_from_app. simpl tail. lia.
Qed.

(** C25: The view is exact: a function is shown with the calls of all its nodes in
    the tree, and the calls shown on the edge from a caller are the same on
    both sides, in the caller's list of the callee and the callee's list of
    the caller: the calls of the nodes of the one below the other.  The walk
    crashes only when an allocation fails. *)
Theorem callers_exact t f g m :
  match ct_collect_edges None t no_items m with
  | Some (fs, _) =>
      shown_calls f fs = calls_of f (nodes None t) /\
      shown_caller g f fs = calls_from g f (nodes None t) /\
      shown_callee f g fs = shown_caller g f fs
  | None => ~ mem_ok m
  end.
Proof.
  pose proof (allocates_and _ _ _ _ (collect_spec t None no_items m f g) (collect_spec t None no_items m g f)) as H.
  destruct (ct_collect_edges None t no_items m) as [[fs m1]|]; [|done].
  destruct H as [[(H1 & H2 & _) (_ & _ & H3)] _].
  rewrite H1, H2, H3. split_and!; [done|done|].
  assert (Hsplit : calls_from g f (nodes None t) =
    calls_from g f [(None, t)] + calls_from g f (tail (nodes None t))).
  { rewrite <- calls_from_app. simpl app. by rewrite <- nodes_head. }
  rewrite Hsplit. unfold calls_from at 2. cbn [sum_on fmap option_fmap option_map].
  rewrite decide_False by (by intros [_ [=]]). done.
Qed.

(** With memory and a sound filter the view is printed. *)
Lemma callers_print_total `{QSort} t opts m :
  filter_ok opts -> mem_ok m -> exists l m', callers_print t opts m = Some (l, m') /\ mem_ok m'.
Proof.
  intros Hf Hm. unfold callers_print.
  destruct (allocates_ok _ _ _ (collect_spec t None no_items m ("", "") ("", "")) Hm) as (fs & m1 & -> & _ & Hm1).
  cbn [mbind option_bind].
  destruct (filter_opt_total (fun f => filter_matches opts (Some (f_name f))) (qsort callers_cmp (items fs)))
    as [l ->]; [|by eexists _, _].
  intros f. by apply filter_matches_total.
Qed.

(** ** The tree is well founded *)

(** The arrays on the way to a node: one for each step of its path. *)
Lemma path_blocks addr ct m pi p :
  shape addr ct m -> addr !! pi = Some p ->
  exists S : gset nat, S ⊆ dom (heap ct) /\ size S = length pi /\
    forall b, b ∈ S -> exists pi0 q n, (length pi0 < length pi)%nat /\ addr !! pi0 = Some q /\
      deref ct q = Some n /\ n_children n = Some b.
Proof.
  intros Hs. revert p. induction pi as [|k pi IH]; intros p Hp.
  { exists ∅. split_and!; [set_solver|apply size_empty|set_solver]. }
  destruct (sh_down _ _ _ Hs _ _ _ Hp) as (q & n & b & i & c & A & D & C & _).
  destruct (IH q A) as (S & Hsub & Hsize & Hown).
  destruct (sh_up _ _ _ Hs _ _ _ _ A D C) as [Hb _].
  exists ({[ b ]} ∪ S). split_and!.
  - apply elem_of_dom in Hb. set_solver.
  - rewrite size_union, size_singleton, Hsize; [done|]. intros b0 ->%elem_of_singleton Hb0.
    destruct (Hown b Hb0) as (pi0 & q0 & n0 & Hl & A0 & D0 & C0).
    pose proof (sh_own _ _ _ Hs _ _ _ _ _ _ _ A0 A D0 D C0 C) as ->. lia.
  - intros b0 [->%elem_of_singleton|Hb0]%elem_of_union.
    + exists pi, q, n. simpl. split_and!; [lia|done|done|done].
    + destruct (Hown b0 Hb0) as (pi0 & q0 & n0 & Hl & H). exists pi0, q0, n0. simpl. split; [lia|done].
Qed.

Lemma path_length addr ct m pi p :
  shape addr ct m -> addr !! pi = Some p -> (length pi <= size (heap ct))%nat.
Proof.
  intros Hs Hp. destruct (path_blocks _ _ _ _ _ Hs Hp) as (S & Hsub & <- & _).
  rewrite <- size_dom. by apply subseteq_size.
Qed.

Lemma tree_of_total addr ct m fuel pi p n :
  shape addr ct m -> addr !! pi = Some p -> deref ct p = Some n ->
  (size (heap ct) < fuel + length pi)%nat -> is_Some (tree_of fuel ct n).
Proof.
  intros Hs. revert pi p n. induction fuel as [|fuel IH]; intros pi p n Hp Hn Hf.
  { pose proof (path_length _ _ _ _ _ Hs Hp). lia. }
  cbn [tree_of]. unfold children_of. destruct (n_children n) as [b|] eqn:Eb; [|by eexists].
  destruct (sh_up _ _ _ Hs _ _ _ _ Hp Hn Eb) as [[l Hl] Hch]. rewrite Hl. simpl.
  assert (is_Some (mapM (tree_of fuel ct) l)) as [cs ->]; [|by eexists].
  apply mapM_is_Some_2, Forall_lookup_2. intros i c Hi.
  assert (Hd : deref ct (PChild b i) = Some c) by (simpl; by rewrite Hl).
  apply (IH (node_key c :: pi) (PChild b i)); [by apply Hch|done|simpl; lia].
Qed.

(** After any recording the walks of the tree end: it is as deep as its
    arrays are many, at most. *)
Theorem calltree_walk_ends m ct0 m0 es ct m1 :
  calltree_init m = Some (ct0, m0) -> calltree_record_all ct0 es m0 = Some (ct, m1) ->
  is_Some (tree_of (S (size (heap ct))) ct (root ct)).
Proof.
  intros (addr & Hr)%calltree_init_rep Hall.
  destruct (calltree_record_all_rep es _ _ _ _ Hr) as (ct1 & m2 & addr1 & A1 & Hall1 & Hr1 & _).
  rewrite Hall in Hall1. injection Hall1 as <- <-.
  apply (tree_of_total addr1 ct m1 _ [] PRoot); [apply Hr1|apply (sh_root _ _ _ (rep_shape _ _ _ _ Hr1))|done|].
  simpl. lia.
Qed.

(** ** Freeing *)

Section freeing.
Context (addr : gmap (list key) ptr) (ct : calltree) (m : mem) (Hs : shape addr ct m).

(** The arrays that belong to a node or to a node below it. *)
Definition below (pi : list key) (b : nat) : Prop :=
  exists pi0 q n, addr !! (pi0 ++ pi) = Some q /\ deref ct q = Some n /\ n_children n = Some b.

Lemma addr_up pi0 pi q : addr !! (pi0 ++ pi) = Some q -> is_Some (addr !! pi).
Proof using Hs.
  revert q. induction pi0 as [|k pi0 IH]; intros q Hq; [by eexists|].
  destruct (sh_down _ _ _ Hs _ _ _ Hq) as (q0 & _ & _ & _ & _ & A & _). by apply (IH q0).
Qed.

(** A step down from a node leads through its array. *)
Lemma below_child pi p n b k pi0 q :
  addr !! pi = Some p -> deref ct p = Some n -> n_children n = b -> addr !! (pi0 ++ k :: pi) = Some q ->
  exists b' i c, b = Some b' /\ addr !! (k :: pi) = Some (PChild b' i) /\
    deref ct (PChild b' i) = Some c /\ node_key c = k.
Proof using Hs.
  intros Hp Hn Hb Hq. destruct (addr_up pi0 (k :: pi) q Hq) as [q1 Hq1].
  destruct (sh_down _ _ _ Hs _ _ _ Hq1) as (q0 & n0 & b' & i & c & A & D & C & -> & E & K).
  rewrite Hp in A. injection A as <-. rewrite Hn in D. injection D as <-. exists b', i, c. split_and!; congruence || done.
Qed.

Lemma below_disjoint k1 k2 pi b : below (k1 :: pi) b -> below (k2 :: pi) b -> k1 = k2.
Proof using Hs.
  intros (p1 & q1 & n1 & A1 & D1 & C1) (p2 & q2 & n2 & A2 & D2 & C2).
  pose proof (sh_own _ _ _ Hs _ _ _ _ _ _ _ A1 A2 D1 D2 C1 C2) as E.
  apply (f_equal (@rev key)) in E. rewrite !rev_app_distr in E. simpl in E. rewrite <- !app_assoc in E.
  apply app_inv_head in E. simpl in E. congruence.
Qed.

Lemma below_cases pi p n b :
  addr !! pi = Some p -> deref ct p = Some n ->
  below pi b <-> n_children n = Some b \/ exists k, below (k :: pi) b.
Proof using.
  intros Hp Hn. split.
  - intros (pi0 & q & n0 & A & D & C). destruct pi0 as [|k pi1 _] using rev_ind.
    + left. simpl in A. rewrite Hp in A. injection A as <-. congruence.
    + right. exists k, pi1, q, n0. by rewrite <- app_assoc in A.
  - intros [Hb|(k & pi0 & q & n0 & A & D & C)]; [by exists [], p, n|].
    exists (pi0 ++ [k]), q, n0. by rewrite <- app_assoc.
Qed.

Lemma child_keys b l i j ci cj pi p n :
  addr !! pi = Some p -> deref ct p = Some n -> n_children n = Some b -> heap ct !! b = Some l ->
  l !! i = Some ci -> l !! j = Some cj -> node_key ci = node_key cj -> i = j.
Proof using Hs.
  intros Hp Hn Hb Hl Hi Hj Hk. destruct (sh_up _ _ _ Hs _ _ _ _ Hp Hn Hb) as [_ Hall].
  assert (Hd : forall x c, l !! x = Some c -> addr !! (node_key c :: pi) = Some (PChild b x)).
  { intros x c Hx. apply Hall. simpl. by rewrite Hl. }
  pose proof (Hd _ _ Hi) as A. pose proof (Hd _ _ Hj) as B. congruence.
Qed.

(** Freeing a node frees the arrays below it, once each, and nothing else. *)
Definition frees (fuel : nat) : Prop := forall pi p n h,
  addr !! pi = Some p -> deref ct p = Some n -> (size (heap ct) < fuel + length pi)%nat ->
  (forall b, below pi b -> h !! b = heap ct !! b) ->
  exists h', ct_node_free fuel n h = Some h' /\
    (forall b, below pi b -> h' !! b = None) /\ (forall b, ~ below pi b -> h' !! b = h !! b).

(** The loop over a node's children. *)
Definition free_all (fuel : nat) :=
  fix free_all (l : list ct_node) (h : gmap nat (list ct_node)) : option (gmap nat (list ct_node)) :=
    match l with
    | [] => Some h
    | c :: l => h ← ct_node_free fuel c h; free_all l h
    end.

Lemma free_all_spec fuel pi p n b l :
  frees fuel -> addr !! pi = Some p -> deref ct p = Some n -> n_children n = Some b ->
  heap ct !! b = Some l -> (size (heap ct) < S fuel + length pi)%nat ->
  forall l2 i0 h, (forall i c, l2 !! i = Some c -> l !! (i0 + i)%nat = Some c) ->
  (forall c b, c ∈ l2 -> below (node_key c :: pi) b -> h !! b = heap ct !! b) ->
  exists h', free_all fuel l2 h = Some h' /\
    (forall c b, c ∈ l2 -> below (node_key c :: pi) b -> h' !! b = None) /\
    (forall b, (forall c, c ∈ l2 -> ~ below (node_key c :: pi) b) -> h' !! b = h !! b).
Proof using Hs.
  intros IH Hp Hn Eb Hl Hf. destruct (sh_up _ _ _ Hs _ _ _ _ Hp Hn Eb) as [_ Hch].
  induction l2 as [|c l2 IHl]; intros i0 h0 Hsub Hint.
  { exists h0. split_and!; [done|by intros ? ? ?%elem_of_nil|done]. }
  pose proof (Hsub 0%nat c eq_refl) as Hc. rewrite Nat.add_0_r in Hc.
  assert (Hdc : deref ct (PChild b i0) = Some c) by (simpl; by rewrite Hl).
  destruct (IH (node_key c :: pi) (PChild b i0) c h0) as (h1 & E1 & Hn1 & Hk1); [by apply Hch|done|simpl; lia| |].
  { intros b0. apply Hint. by left. }
  assert (Hdis : forall c2 b0, c2 ∈ l2 -> below (node_key c2 :: pi) b0 -> ~ below (node_key c :: pi) b0).
  { intros c2 b0 (j & Hj)%list_elem_of_lookup Hb2 Hb1. pose proof (below_disjoint _ _ _ _ Hb1 Hb2) as Hk.
    pose proof (Hsub (S j) c2 Hj) as Hj2. pose proof (child_keys b l _ _ _ _ pi p n Hp Hn Eb Hl Hc Hj2 Hk). lia. }
  destruct (IHl (S i0) h1) as (h2 & Hgo2 & Hn2 & Hk2).
  { intros i c2 Hi. rewrite Nat.add_succ_comm. by apply (Hsub (S i)). }
  { intros c2 b0 Hin Hb2. rewrite Hk1 by (by apply (Hdis c2)). apply (Hint c2); [by right|done]. }
  exists h2. cbn [free_all]. rewrite E1. cbn [mbind option_bind]. split_and!; [exact Hgo2| |].
  - intros c2 b0 [->|Hin]%elem_of_cons Hb0; [|by apply (Hn2 c2)].
    rewrite Hk2; [by apply Hn1|]. intros c3 H3 Hb3. by apply (Hdis c3 b0).
  - intros b0 Hno. rewrite Hk2 by (intros c2 Hin; apply Hno; by right). apply Hk1, Hno. by left.
Qed.

Lemma ct_node_free_spec fuel : frees fuel.
Proof using Hs.
  induction fuel as [|fuel IH]; intros pi p n h Hp Hn Hf Hh.
  { pose proof (path_length _ _ _ _ _ Hs Hp). lia. }
  cbn [ct_node_free]. destruct (n_children n) as [b|] eqn:Eb.
  2:{ exists h. split_and!; [done| |done]. intros b [E|(k & pi0 & q & n0 & A & _)]%(below_cases _ _ _ _ Hp Hn);
        [congruence|]. by destruct (below_child pi p n None k pi0 q Hp Hn Eb A) as (? & ? & ? & ? & _). }
  destruct (sh_up _ _ _ Hs _ _ _ _ Hp Hn Eb) as [[l Hl] _].
  rewrite (Hh b), Hl by (apply (below_cases _ _ _ _ Hp Hn); by left). cbn [mbind option_bind].
  fold (free_all fuel).
  destruct (free_all_spec fuel pi p n b l IH Hp Hn Eb Hl Hf l 0%nat h) as (h' & -> & Hn' & Hk'); [done| |].
  { intros c b0 (j & Hj)%list_elem_of_lookup Hb0. apply Hh, (below_cases _ _ _ _ Hp Hn). right. by eexists. }
  exists (delete b h'). cbn [mbind option_bind]. split_and!; [done| |].
  - intros b0 [E|(k & pi0 & q & n0 & A & D & C)]%(below_cases _ _ _ _ Hp Hn).
    + rewrite Eb in E. injection E as <-. apply lookup_delete_eq.
    + destruct (below_child pi p n (Some b) k pi0 q Hp Hn Eb A) as (b1 & i & c & [= <-] & Ac & Dc & <-).
      apply lookup_delete_None. right. apply (Hn' c); [|by exists pi0, q, n0].
      simpl in Dc. rewrite Hl in Dc. by eapply list_elem_of_lookup_2.
  - intros b0 Hno. rewrite lookup_delete_ne by (intros <-; apply Hno, (below_cases _ _ _ _ Hp Hn); by left).
    apply Hk'. intros c _ Hb0. apply Hno, (below_cases _ _ _ _ Hp Hn). right. by eexists.
Qed.
End freeing.

Lemma calltree_free_rep addr ct A m :
  rep addr ct A m ->
  exists ct', calltree_free ct = Some ct' /\ heap ct' = ∅ /\ stack ct' = [] /\ n_children (root ct') = None.
Proof.
  intros [Hs _ _ _ _]. unfold calltree_free.
  destruct (ct_node_free_spec addr ct m Hs (S (size (heap ct))) [] PRoot (root ct) (heap ct))
    as (h & -> & Hnone & Hkeep); [apply (sh_root _ _ _ Hs)|done|simpl; lia|done|].
  eexists. split_and!; [reflexivity| |done|done]. apply map_eq. intros b. rewrite lookup_empty. cbn [heap].
  destruct (heap ct !! b) as [l|] eqn:Eb.
  - apply Hnone. destruct (sh_used _ _ _ Hs b ltac:(by eexists)) as (pi & q & n & C & D & E).
    exists pi, q, n. by rewrite app_nil_r.
  - rewrite Hkeep; [done|]. intros (pi & q & n & C & D & E).
    destruct (sh_up _ _ _ Hs _ _ _ _ C D E) as [[l Hl] _]. congruence.
Qed.

(** C18: After any recording, whichever allocations failed, the walk that frees
    the tree ends, touches no array it has freed, and leaves none behind. *)
Theorem calltree_free_all m ct0 m0 es ct m1 :
  calltree_init m = Some (ct0, m0) -> calltree_record_all ct0 es m0 = Some (ct, m1) ->
  exists ct', calltree_free ct = Some ct' /\ heap ct' = ∅ /\ stack ct' = [] /\ n_children (root ct') = None.
Proof.
  intros (addr & Hr)%calltree_init_rep Hall.
  destruct (calltree_record_all_rep es _ _ _ _ Hr) as (ct1 & m2 & addr1 & A1 & Hall1 & Hr1 & _).
  rewrite Hall in Hall1. injection Hall1 as <- <-. by apply (calltree_free_rep addr1 ct A1 m1).
Qed.
