(* ===== verification/Packets.v ===== *)
(** decode.c, first part: the packet-level decoder, which prints the packets
    of a PT buffer without an image of the program.

    libipt's packet decoder is outside the repository: [PtPacketDecoder] is
    its interface, with the status codes the code tests, and [PacketLaws] the
    progress it documents (a synchronization or a packet consumes trace). *)

From Stdlib Require Import ZArith Lia Ascii String.
From stdpp Require Import base list strings sets gmap sorting.
From S2P Require Import Prelude CLib Types.

(** * libipt's packets *)

Inductive pt_exec_mode := ptem_unknown | ptem_16bit | ptem_32bit | ptem_64bit.

(** The payload of a mode packet: its leaf and that leaf's bits; for
    [pt_mol_exec] the mode [pt_get_exec_mode] reads from them. *)
Inductive pt_mode :=
  | pt_mol_exec (md : pt_exec_mode)
  | pt_mol_tsx (intx abrt : Z)
  | pt_mol_other (leaf : Z).

(** [struct pt_packet] by [enum pt_packet_type], with the payload fields the
    code reads; an IP payload says whether its compression is
    [pt_ipc_suppressed]. *)
Inductive pt_packet :=
  | ppt_psb | ppt_psbend
  | ppt_tip (suppressed : bool) (ip : Z)
  | ppt_tip_pge (suppressed : bool) (ip : Z)
  | ppt_tip_pgd (suppressed : bool) (ip : Z)
  | ppt_fup (suppressed : bool) (ip : Z)
  | ppt_tnt_8 (payload bit_size : Z)
  | ppt_tnt_64 (payload bit_size : Z)
  | ppt_mode (md : pt_mode)
  | ppt_pip (cr3 nr : Z)
  | ppt_tsc (tsc : Z)
  | ppt_cbr (ratio : Z)
  | ppt_tma (ctc fc : Z)
  | ppt_mtc (ctc : Z)
  | ppt_cyc (value : Z)
  | ppt_ovf
  | ppt_ptw (ip payload : Z)
  | ppt_stop
  | ppt_vmcs (vbase : Z)
  | ppt_mnt (payload : Z)
  | ppt_exstop (ip : Z)
  | ppt_pad
  | ppt_other (ty size : Z).

(** * Printing *)

Definition exec_mode_str (md : pt_exec_mode) : string :=
  match md with
  | ptem_16bit => "16-bit"
  | ptem_32bit => "32-bit"
  | ptem_64bit => "64-bit"
  | ptem_unknown => "unknown"
  end.

(** [for (i = bit_size - 1; i >= 0; i--)]. *)
Fixpoint tnt_bits (n : nat) (payload : Z) : string :=
  match n with
  | O => EmptyString
  | S i => String (if Z.testbit payload (Z.of_nat i) then "!" else ".")%char (tnt_bits i payload)
  end.

(** What [tnt_str] leaves in a buffer of [bufsz] bytes. *)
Definition tnt_str (bufsz : Z) (payload bit_size : Z) : string :=
  let bit_size := if bufsz <=? bit_size then u8 (bufsz - 1) else bit_size in
  tnt_bits (Z.to_nat bit_size) payload.

Definition TNT_BUF : Z := 65.

Definition hex16 (v : Z) : string := "0x" +:+ pad0 16 (fmt_x v).

(** The line printed, if any. *)
Definition emit_packet_text (pkt : pt_packet) : option string :=
  match pkt with
  | ppt_psb => Some "  PSB"
  | ppt_psbend => Some "  PSBEND"
  | ppt_tip true _ => Some "  TIP       suppressed"
  | ppt_tip false ip => Some ("  TIP       " +:+ hex16 ip)
  | ppt_tip_pge _ ip => Some ("  TIP.PGE   " +:+ hex16 ip)
  | ppt_tip_pgd true _ => Some "  TIP.PGD   suppressed"
  | ppt_tip_pgd false ip => Some ("  TIP.PGD   " +:+ hex16 ip)
  | ppt_fup true _ => Some "  FUP       suppressed"
  | ppt_fup false ip => Some ("  FUP       " +:+ hex16 ip)
  | ppt_tnt_8 payload bit_size | ppt_tnt_64 payload bit_size =>
      Some ("  TNT       " +:+ tnt_str TNT_BUF payload bit_size)
  | ppt_mode (pt_mol_exec md) => Some ("  MODE.Exec " +:+ exec_mode_str md)
  | ppt_mode (pt_mol_tsx intx abrt) =>
      Some ("  MODE.TSX  intx=" +:+ fmt_d intx +:+ " abrt=" +:+ fmt_d abrt)
  | ppt_mode (pt_mol_other leaf) => Some ("  MODE      leaf=0x" +:+ pad0 2 (fmt_x leaf))
  | ppt_pip cr3 nr => Some ("  PIP       cr3=" +:+ hex16 cr3 +:+ " nr=" +:+ fmt_d nr)
  | ppt_tsc tsc => Some ("  TSC       0x" +:+ fmt_x tsc)
  | ppt_cbr ratio => Some ("  CBR       ratio=" +:+ fmt_u ratio)
  | ppt_tma ctc fc =>
      Some ("  TMA       ctc=0x" +:+ pad0 4 (fmt_x ctc) +:+ " fc=0x" +:+ pad0 4 (fmt_x fc))
  | ppt_mtc ctc => Some ("  MTC       ctc=0x" +:+ pad0 2 (fmt_x ctc))
  | ppt_cyc value => Some ("  CYC       0x" +:+ fmt_x value)
  | ppt_ovf => Some "  OVF"
  | ppt_ptw ip payload => Some ("  PTW       ip=" +:+ fmt_d ip +:+ " payload=" +:+ hex16 payload)
  | ppt_stop => Some "  STOP"
  | ppt_vmcs vbase => Some ("  VMCS      " +:+ hex16 vbase)
  | ppt_mnt payload => Some ("  MNT       " +:+ hex16 payload)
  | ppt_exstop ip => Some ("  EXSTOP    ip=" +:+ fmt_d ip)
  | ppt_pad => None
  | ppt_other ty size => Some ("  ???       type=" +:+ fmt_d ty +:+ " size=" +:+ fmt_u size)
  end.

(** [{"pkt":"<name>","ip":...}]. *)
Definition json_ip (nm : string) (suppressed : bool) (ip : Z) : string :=
  dq "{'pkt':'" +:+ nm +:+ dq "','ip':" +:+
  (if suppressed then "null" else dq "'0x" +:+ fmt_x ip +:+ dq "'") +:+ "}".

Definition emit_packet_json (pkt : pt_packet) : option string :=
  match pkt with
  | ppt_psb => Some (dq "{'pkt':'psb'}")
  | ppt_psbend => Some (dq "{'pkt':'psbend'}")
  | ppt_tip suppressed ip => Some (json_ip "tip" suppressed ip)
  | ppt_tip_pge _ ip => Some (json_ip "tip_pge" false ip)
  | ppt_tip_pgd suppressed ip => Some (json_ip "tip_pgd" suppressed ip)
  | ppt_fup suppressed ip => Some (json_ip "fup" suppressed ip)
  | ppt_tnt_8 payload bit_size | ppt_tnt_64 payload bit_size =>
      Some (dq "{'pkt':'tnt','bits':'" +:+ tnt_str TNT_BUF payload bit_size +:+ dq "'}")
  | ppt_mode (pt_mol_exec md) =>
      Some (dq "{'pkt':'mode_exec','mode':'" +:+ exec_mode_str md +:+ dq "'}")
  | ppt_mode (pt_mol_tsx intx abrt) =>
      Some (dq "{'pkt':'mode_tsx','intx':" +:+ fmt_d intx +:+ dq ",'abrt':" +:+ fmt_d abrt +:+ "}")
  | ppt_mode (pt_mol_other _) => None
  | ppt_pip cr3 nr =>
      Some (dq "{'pkt':'pip','cr3':'0x" +:+ fmt_x cr3 +:+ dq "','nr':" +:+ fmt_d nr +:+ "}")
  | ppt_tsc tsc => Some (dq "{'pkt':'tsc','tsc':" +:+ fmt_u tsc +:+ "}")
  | ppt_cbr ratio => Some (dq "{'pkt':'cbr','ratio':" +:+ fmt_u ratio +:+ "}")
  | ppt_ovf => Some (dq "{'pkt':'ovf'}")
  | ppt_ptw ip payload =>
      Some (dq "{'pkt':'ptw','ip':" +:+ fmt_d ip +:+ dq ",'payload':'0x" +:+ fmt_x payload +:+ dq "'}")
  | ppt_stop => Some (dq "{'pkt':'stop'}")
  | ppt_pad => None
  | _ => None
  end.

(** * The decoder loop *)

(** A negative status is an error; [next] gives a packet with a status that
    is not. *)
Class PtPacketDecoder := {
  pkt_decoder : Type;
  pkt_eos : Z;                                      (* -pte_eos *)
  pt_pkt_alloc_decoder : list Z -> option pkt_decoder;
  pt_pkt_sync_forward : pkt_decoder -> Z * pkt_decoder;
  pt_pkt_next : pkt_decoder -> Z * pt_packet * pkt_decoder;
  pkt_left : pkt_decoder -> nat;                    (* how much trace is left *)
}.

Record packet_state `{PtPacketDecoder} := PacketState {
  pk_dec : pkt_decoder; pk_status : Z; pk_total : Z; pk_errors : Z; pk_syncs : Z;
  pk_out : list string }.

Section loop.
Context `{PtPacketDecoder}.

Definition emit_packet (fmt : bsdtrace_fmt) (pkt : pt_packet) : list string :=
  option_list (if bool_decide (fmt = FMT_JSON) then emit_packet_json pkt else emit_packet_text pkt).

(** [for (;;)]: packets until an error. *)
Fixpoint packets_loop (fuel : nat) (fmt : bsdtrace_fmt) (s : packet_state) : option packet_state :=
  match fuel with
  | O => None
  | S fuel =>
      let '(status, pkt, dec) := pt_pkt_next (pk_dec s) in
      if status <? 0
      then Some (PacketState _ dec status (pk_total s) (pk_errors s) (pk_syncs s) (pk_out s))
      else packets_loop fuel fmt
             (PacketState _ dec status (pk_total s + 1) (pk_errors s) (pk_syncs s)
                (pk_out s ++ emit_packet fmt pkt))
  end.

(** [while (status >= 0)]: one synchronized stretch after another. *)
Fixpoint sync_loop (fuel : nat) (fmt : bsdtrace_fmt) (s : packet_state) : option packet_state :=
  match fuel with
  | O => None
  | S fuel' =>
      if pk_status s <? 0 then Some s
      else
        s ← packets_loop fuel fmt
              (PacketState _ (pk_dec s) (pk_status s) (pk_total s) (pk_errors s) (pk_syncs s + 1)
                 (pk_out s));
        if pk_status s =? pkt_eos then Some s
        else
          let '(status, dec) := pt_pkt_sync_forward (pk_dec s) in
          sync_loop fuel' fmt
            (PacketState _ dec status (pk_total s) (pk_errors s + 1) (pk_syncs s) (pk_out s))
  end.

(** [None] when the decoder never ends; the result code, what is printed and
    the three counters of the summary. *)
Definition decode_pt_buffer (buf : list Z) (fmt : bsdtrace_fmt)
    : option (Z * list string * (Z * Z * Z)) :=
  match buf with
  | [] => Some (-1, [], (0, 0, 0))
  | _ =>
      match pt_pkt_alloc_decoder buf with
      | None => Some (-1, [], (0, 0, 0))
      | Some dec =>
          let '(status, dec) := pt_pkt_sync_forward dec in
          s ← sync_loop (S (S (pkt_left dec))) fmt (PacketState _ dec status 0 0 0 []);
          Some (if 0 <? pk_total s then 0 else -1, pk_out s, (pk_total s, pk_syncs s, pk_errors s))
      end
  end.
End loop.

(** Progress: what succeeds consumes trace, what fails gives none back. *)
Class PacketLaws `{PtPacketDecoder} := {
  pkt_sync_left : forall d,
    let '(status, d') := pt_pkt_sync_forward d in
    (pkt_left d' + (if (0 <=? status)%Z then 1 else 0) <= pkt_left d)%nat;
  pkt_next_left : forall d,
    let '(status, _, d') := pt_pkt_next d in
    (pkt_left d' + (if (0 <=? status)%Z then 1 else 0) <= pkt_left d)%nat;
}.

(** * Properties *)

(** ** Branch bits *)

(** The branches a TNT line shows, as the number its bits spell. *)
Fixpoint tnt_value (acc : Z) (s : string) : Z :=
  match s with
  | EmptyString => acc
  | String c s => tnt_value (2 * acc + Z.b2z (Ascii.eqb c "!")) s
  end.

Lemma tnt_bits_length n payload : String.length (tnt_bits n payload) = n.
Proof. induction n; simpl; auto. Qed.

Lemma tnt_value_bits n payload acc :
  tnt_value acc (tnt_bits n payload) = acc * 2 ^ Z.of_nat n + payload mod 2 ^ Z.of_nat n.
Proof.
  revert acc. induction n as [|n IH]; intros acc.
  - simpl. rewrite Z.mod_1_r. lia.
  - cbn [tnt_bits tnt_value]. rewrite IH. rewrite Nat2Z.inj_succ, Z.pow_succ_r by lia.
    rewrite (Z.mul_comm 2 (2 ^ _)), (Z.rem_mul_r payload (2 ^ Z.of_nat n) 2) by lia.
    assert (Hb : payload / 2 ^ Z.of_nat n mod 2 = Z.b2z (Z.testbit payload (Z.of_nat n))).
    { rewrite Z.testbit_spec' by lia. done. }
    rewrite Hb. destruct (Z.testbit payload (Z.of_nat n)); simpl; lia.
Qed.

(** A TNT packet prints its branches in order and completely, for the 64 bits
    a packet can hold, and never overruns its buffer. *)
Theorem tnt_str_exact payload bit_size :
  0 <= bit_size < 256 ->
  (Z.of_nat (String.length (tnt_str TNT_BUF payload bit_size)) < TNT_BUF) /\
  (bit_size <= 64 ->
   Z.of_nat (String.length (tnt_str TNT_BUF payload bit_size)) = bit_size /\
   tnt_value 0 (tnt_str TNT_BUF payload bit_size) = payload mod 2 ^ bit_size).
Proof.
  intros Hb. unfold tnt_str, TNT_BUF. split.
  - rewrite tnt_bits_length. case_bool; to_prop; [change (u8 (65 - 1)) with 64|]; lia.
  - intros Hs. replace (65 <=? bit_size) with false by lia.
    rewrite tnt_bits_length, tnt_value_bits, Z2Nat.id by lia. lia.
Qed.

(** ** The lines

    What a packet's line says, kind by kind: its name and its fields. *)

Definition quoted (s : string) : string := String dquote s +:+ String dquote EmptyString.

(** A JSON object from its keys and values. *)
Fixpoint members (fs : list (string * string)) : string :=
  match fs with
  | [] => EmptyString
  | [(k, v)] => quoted k +:+ ":" +:+ v
  | (k, v) :: fs => quoted k +:+ ":" +:+ v +:+ "," +:+ members fs
  end.

Definition object (fs : list (string * string)) : string := "{" +:+ members fs +:+ "}".

Definition hex_value (v : Z) : string := quoted ("0x" +:+ fmt_x v).
Definition ip_value (suppressed : bool) (ip : Z) : string := if suppressed then "null" else hex_value ip.

(** The kinds of packet that have no JSON. *)
Definition silent (pkt : pt_packet) : Prop :=
  match pkt with
  | ppt_pad | ppt_tma _ _ | ppt_mtc _ | ppt_cyc _ | ppt_vmcs _ | ppt_mnt _ | ppt_exstop _
  | ppt_other _ _ | ppt_mode (pt_mol_other _) => True
  | _ => False
  end.

#[export] Instance silent_dec pkt : Decision (silent pkt).
Proof. destruct pkt as [| | | | | | | |[]| | | | | | | | | | | | | |]; simpl; first [left; exact I|right; exact id]. Defined.

(** The name and the fields of a packet in JSON. *)
Definition json_fields (pkt : pt_packet) : string * list (string * string) :=
  match pkt with
  | ppt_psb => ("psb", [])
  | ppt_psbend => ("psbend", [])
  | ppt_tip suppressed ip => ("tip", [("ip", ip_value suppressed ip)])
  | ppt_tip_pge _ ip => ("tip_pge", [("ip", hex_value ip)])
  | ppt_tip_pgd suppressed ip => ("tip_pgd", [("ip", ip_value suppressed ip)])
  | ppt_fup suppressed ip => ("fup", [("ip", ip_value suppressed ip)])
  | ppt_tnt_8 payload bits | ppt_tnt_64 payload bits => ("tnt", [("bits", quoted (tnt_str TNT_BUF payload bits))])
  | ppt_mode (pt_mol_exec md) => ("mode_exec", [("mode", quoted (exec_mode_str md))])
  | ppt_mode (pt_mol_tsx intx abrt) => ("mode_tsx", [("intx", fmt_d intx); ("abrt", fmt_d abrt)])
  | ppt_pip cr3 nr => ("pip", [("cr3", hex_value cr3); ("nr", fmt_d nr)])
  | ppt_tsc tsc => ("tsc", [("tsc", fmt_u tsc)])
  | ppt_cbr ratio => ("cbr", [("ratio", fmt_u ratio)])
  | ppt_ovf => ("ovf", [])
  | ppt_ptw ip payload => ("ptw", [("ip", fmt_d ip); ("payload", hex_value payload)])
  | ppt_stop => ("stop", [])
  | _ => ("", [])
  end.

(** The column of names of the text listing, ten wide, and what
    follows; padding has no line. *)
Definition text_fields (pkt : pt_packet) : option (string * option string) :=
  let addr (suppressed : bool) ip := if suppressed then "suppressed" else hex16 ip in
  match pkt with
  | ppt_psb => Some ("PSB", None)
  | ppt_psbend => Some ("PSBEND", None)
  | ppt_tip suppressed ip => Some ("TIP", Some (addr suppressed ip))
  | ppt_tip_pge _ ip => Some ("TIP.PGE", Some (hex16 ip))
  | ppt_tip_pgd suppressed ip => Some ("TIP.PGD", Some (addr suppressed ip))
  | ppt_fup suppressed ip => Some ("FUP", Some (addr suppressed ip))
  | ppt_tnt_8 payload bits | ppt_tnt_64 payload bits => Some ("TNT", Some (tnt_str TNT_BUF payload bits))
  | ppt_mode (pt_mol_exec md) => Some ("MODE.Exec", Some (exec_mode_str md))
  | ppt_mode (pt_mol_tsx intx abrt) => Some ("MODE.TSX", Some ("intx=" +:+ fmt_d intx +:+ " abrt=" +:+ fmt_d abrt))
  | ppt_mode (pt_mol_other leaf) => Some ("MODE", Some ("leaf=0x" +:+ pad0 2 (fmt_x leaf)))
  | ppt_pip cr3 nr => Some ("PIP", Some ("cr3=" +:+ hex16 cr3 +:+ " nr=" +:+ fmt_d nr))
  | ppt_tsc tsc => Some ("TSC", Some ("0x" +:+ fmt_x tsc))
  | ppt_cbr ratio => Some ("CBR", Some ("ratio=" +:+ fmt_u ratio))
  | ppt_tma ctc fc => Some ("TMA", Some ("ctc=0x" +:+ pad0 4 (fmt_x ctc) +:+ " fc=0x" +:+ pad0 4 (fmt_x fc)))
  | ppt_mtc ctc => Some ("MTC", Some ("ctc=0x" +:+ pad0 2 (fmt_x ctc)))
  | ppt_cyc value => Some ("CYC", Some ("0x" +:+ fmt_x value))
  | ppt_ovf => Some ("OVF", None)
  | ppt_ptw ip payload => Some ("PTW", Some ("ip=" +:+ fmt_d ip +:+ " payload=" +:+ hex16 payload))
  | ppt_stop => Some ("STOP", None)
  | ppt_vmcs vbase => Some ("VMCS", Some (hex16 vbase))
  | ppt_mnt payload => Some ("MNT", Some (hex16 payload))
  | ppt_exstop ip => Some ("EXSTOP", Some ("ip=" +:+ fmt_d ip))
  | ppt_pad => None
  | ppt_other ty size => Some ("???", Some ("type=" +:+ fmt_d ty +:+ " size=" +:+ fmt_u size))
  end.

(** The line of a packet: in JSON the silent kinds have none. *)
Definition packet_line (fmt : bsdtrace_fmt) (pkt : pt_packet) : list string :=
  if bool_decide (fmt = FMT_JSON) then
    if decide (silent pkt) then []
    else [object (("pkt", quoted (json_fields pkt).1) :: (json_fields pkt).2)]
  else
    match text_fields pkt with
    | None => []
    | Some (nm, None) => ["  " +:+ nm]
    | Some (nm, Some val) => ["  " +:+ padr 10 nm +:+ val]
    end.

Lemma emit_packet_line fmt pkt : emit_packet fmt pkt = packet_line fmt pkt.
Proof.
  unfold emit_packet, packet_line. case_bool; destruct pkt as [| |[]|[]|[]|[]| | |[]| | | | | | | | | | | | | |];
    try reflexivity; unfold object, members, quoted, ip_value, hex_value, json_ip, quoted;
    repeat (progress (cbn -[fmt_x fmt_u fmt_d tnt_str exec_mode_str hex16 pad0]; rewrite <- ?str_app_assoc));
    reflexivity.
Qed.

(** ** The run *)

Section run.
Context `{PtPacketDecoder}.

(** The packets read until an error, and that error. *)
Inductive stretch : pkt_decoder -> list pt_packet -> Z -> pkt_decoder -> Prop :=
  | stretch_end d status pkt d' :
      pt_pkt_next d = (status, pkt, d') -> status < 0 -> stretch d [] status d'
  | stretch_packet d status pkt d' pkts e d'' :
      pt_pkt_next d = (status, pkt, d') -> 0 <= status ->
      stretch d' pkts e d'' -> stretch d (pkt :: pkts) e d''.

(** The stretches between synchronizations, each with the error that ended
    it, from a decoder and the status of the last synchronization. *)
Inductive stretches : Z -> pkt_decoder -> list (list pt_packet * Z) -> Prop :=
  | stretches_none status d : status < 0 -> stretches status d []
  | stretches_eos status d pkts d' :
      0 <= status -> stretch d pkts pkt_eos d' -> stretches status d [(pkts, pkt_eos)]
  | stretches_more status d pkts e d' status' d'' rest :
      0 <= status -> stretch d pkts e d' -> e <> pkt_eos ->
      pt_pkt_sync_forward d' = (status', d'') ->
      stretches status' d'' rest -> stretches status d ((pkts, e) :: rest).

Definition failed_stretches (l : list (list pt_packet * Z)) : Z :=
  Z.of_nat (length (List.filter (fun s => negb (snd s =? pkt_eos)) l)).

Lemma packets_loop_spec `{!PacketLaws} fuel fmt s :
  (pkt_left (pk_dec s) < fuel)%nat ->
  exists pkts e d', stretch (pk_dec s) pkts e d' /\ (pkt_left d' <= pkt_left (pk_dec s))%nat /\
    packets_loop fuel fmt s =
      Some (PacketState _ d' e (pk_total s + Z.of_nat (length pkts)) (pk_errors s) (pk_syncs s)
              (pk_out s ++ concat (map (emit_packet fmt) pkts))).
Proof.
  revert s. induction fuel as [|fuel IH]; intros s Hf; [lia|]. cbn [packets_loop].
  pose proof (pkt_next_left (pk_dec s)) as Hl.
  destruct (pt_pkt_next (pk_dec s)) as [[status pkt] d] eqn:En.
  destruct (status <? 0) eqn:Es; to_prop.
  - exists [], status, d. split_and!; [by econstructor|lia|].
    cbn [concat map length]. by rewrite app_nil_r, Z.add_0_r.
  - replace (0 <=? status) with true in Hl by lia.
    destruct (IH (PacketState _ d status (pk_total s + 1) (pk_errors s) (pk_syncs s)
                    (pk_out s ++ emit_packet fmt pkt))) as (pkts & e & d' & Hs & Hd & ->); [simpl; lia|].
    cbn [pk_dec pk_total pk_errors pk_syncs pk_out] in *.
    exists (pkt :: pkts), e, d'. split_and!; [by econstructor|lia|].
    cbn [map concat length]. rewrite <- app_assoc. do 2 f_equal. lia.
Qed.

Lemma sync_loop_spec `{!PacketLaws} fuel fmt s :
  (pkt_left (pk_dec s) + (if (0 <=? pk_status s)%Z then 1 else 0) < fuel)%nat ->
  exists l d e,
    stretches (pk_status s) (pk_dec s) l /\
    sync_loop fuel fmt s =
      Some (PacketState _ d e (pk_total s + Z.of_nat (length (concat (map fst l))))
              (pk_errors s + failed_stretches l) (pk_syncs s + Z.of_nat (length l))
              (pk_out s ++ concat (map (emit_packet fmt) (concat (map fst l))))).
Proof.
  revert s. induction fuel as [|fuel IH]; intros s Hf; [lia|].
  cbn [sync_loop]. destruct (pk_status s <? 0) eqn:E0; to_prop.
  { exists [], (pk_dec s), (pk_status s). split; [by constructor|]. destruct s. cbn.
    by rewrite app_nil_r, !Z.add_0_r. }
  replace (0 <=? pk_status s) with true in Hf by lia.
  match goal with |- context [packets_loop (S fuel) fmt ?x] =>
    destruct (packets_loop_spec (S fuel) fmt x) as (pkts & e & d' & Hs & Hd & ->); [simpl; lia|] end.
  cbn [mbind option_bind pk_dec pk_status pk_total pk_errors pk_syncs pk_out] in *.
  destruct (e =? pkt_eos) eqn:Ee; to_prop.
  - subst e. exists [(pkts, pkt_eos)], d', pkt_eos. split; [by econstructor|].
    unfold failed_stretches. simpl. rewrite Z.eqb_refl, app_nil_r. simpl. do 2 f_equal; lia.
  - pose proof (pkt_sync_left d') as Hl. destruct (pt_pkt_sync_forward d') as [status d2] eqn:Ey.
    match goal with |- context [sync_loop fuel fmt ?x] =>
      destruct (IH x) as (l & d3 & e3 & Hr & ->); [simpl; case_bool; lia|] end.
    cbn [pk_dec pk_status pk_total pk_errors pk_syncs pk_out] in *.
    exists ((pkts, e) :: l), d3, e3. split; [by econstructor|].
    unfold failed_stretches. cbn [map concat fst snd List.filter length].
    replace (e =? pkt_eos) with false by lia. cbn [negb length].
    rewrite length_app, map_app, concat_app, <- app_assoc. do 2 f_equal; lia.
Qed.

Lemma decode_pt_buffer_total `{!PacketLaws} buf fmt : is_Some (decode_pt_buffer buf fmt).
Proof.
  unfold decode_pt_buffer. destruct buf as [|b buf]; [done|].
  destruct (pt_pkt_alloc_decoder _) as [d|]; [|done]. destruct (pt_pkt_sync_forward d) as [status d0].
  match goal with |- context [sync_loop ?f fmt ?x] =>
    destruct (sync_loop_spec f fmt x) as (l & d1 & e & _ & ->); [simpl; case_bool; lia|] end.
  by eexists.
Qed.

(** C21: The packet decoder ends and prints the lines of the packets it can
    reach, those of each synchronized stretch, in order: in text one for each
    packet but padding, in JSON none for the silent kinds (padding, timing
    packets other than TSC and CBR, VMCS, MNT, EXSTOP, modes other than Exec
    and TSX, unknown types).  It resynchronizes after every error, counts the
    errors, and stops at the end of the trace or when no further
    synchronization point is found.  It succeeds when it read a packet. *)
Theorem decode_pt_buffer_spec `{!PacketLaws} buf fmt d status d0 :
  buf <> [] -> pt_pkt_alloc_decoder buf = Some d -> pt_pkt_sync_forward d = (status, d0) ->
  exists l, stretches status d0 l /\
    let pkts := concat (map fst l) in
    decode_pt_buffer buf fmt =
      Some (if bool_decide (pkts = []) then -1 else 0, concat (map (packet_line fmt) pkts),
            (Z.of_nat (length pkts), Z.of_nat (length l), failed_stretches l)).
Proof.
  intros Hb Ha Hs. unfold decode_pt_buffer. destruct buf as [|b buf]; [done|]. rewrite Ha, Hs.
  match goal with |- context [sync_loop ?f fmt ?x] =>
    destruct (sync_loop_spec f fmt x) as (l & d1 & e & Hr & ->); [simpl; case_bool; lia|] end.
  exists l. split; [exact Hr|]. cbn [mbind option_bind pk_total pk_out pk_syncs pk_errors].
  rewrite !Z.add_0_l, (map_ext _ _ (emit_packet_line fmt)). do 3 f_equal. destruct (concat (map fst l)); [done|].
  rewrite bool_decide_eq_false_2 by done. case_bool; [done|]. simpl in E. to_prop. lia.
Qed.
End run.
