(* ===== verification/Image.v ===== *)
(** decode.c: the image libipt decodes against, built from the sections of a
    trace together with the symbol table, and the helpers that classify
    instructions and recognise the traced program's own binaries. *)

From Stdlib Require Import ZArith Lia Ascii String.
From stdpp Require Import base list strings sets gmap sorting.
From S2P Require Import Prelude CLib Types Elf Symbols.

(** * Image *)

Section image.
Context `{LibElf} `{PtImage} `{QSort}.

(** The symbols of a file that is loaded at [load], with the slide of its
    segments. *)
Definition load_symbols (st : sym_table) (p : string) (load : Z) (m : mem) : sym_table * mem :=
  match open_elf p with
  | None => (st, m)
  | Some elf =>
      match elf_base_vaddr elf with
      | Some base_vaddr => sym_table_add_elf st p (i64 (load - base_vaddr)) m
      | None => (st, m)
      end
  end.

(** The image, the symbols and the number of segments so far. *)
Record building := { bd_image : pt_image; bd_syms : sym_table; bd_total : Z }.

(** [add_elf_to_image] and the symbols, for a section's file and for the
    interpreter alike. *)
Definition add_binary (b : building) (p : string) (load : Z) (m : mem) : building * mem :=
  let '(segs, image) := add_elf_to_image (bd_image b) p load in
  let '(st, m) := load_symbols (bd_syms b) p load m in
  ({| bd_image := image; bd_syms := st; bd_total := bd_total b + segs |}, m).

(** The EXEC part of one iteration: the dynamic linker, unless it has an MMAP
    section of its own. *)
Definition add_interp (sections : list pt_image_info) (sec : pt_image_info) (load : Z)
    (b : building) (m : mem) : building * mem :=
  if has_type HWT_RECORD_EXECUTABLE sec && is_user_addr (base_addr sec) &&
     negb (base_addr sec =? load)
  then match elf_get_interp (path sec) (Z.of_nat MAXPATHLEN) with
       | None => (b, m)
       | Some interp =>
           if has_interp_mmap sections interp then (b, m)
           else add_binary b interp (base_addr sec) m
       end
  else (b, m).

Definition add_section (sections : list pt_image_info) (i : nat) (b : building) (m : mem)
    : building * mem :=
  if negb (section_should_use sections i) then (b, m)
  else match sections !! i with
  | None => (b, m)
  | Some sec =>
      match open_elf (path sec) with
      | None => (b, m)
      | Some elf =>
          match elf_effective_load_addr elf (type sec) (load_addr sec) with
          | None => (b, m)
          | Some load =>
              let '(b, m) := add_binary b (path sec) load m in
              add_interp sections sec load b m
          end
      end
  end.

Fixpoint image_loop (sections : list pt_image_info) (idxs : list nat) (b : building) (m : mem)
    : building * mem :=
  match idxs with
  | [] => (b, m)
  | i :: idxs => let '(b, m) := add_section sections i b m in image_loop sections idxs b m
  end.

(** The image, if there is anything in it, and the sorted symbols. *)
Definition build_pt_image (sections : list pt_image_info) (st : sym_table) (m : mem)
    : option pt_image * sym_table * mem :=
  if negb elf_version_ok then (None, st, m)
  else
    let '(p, m) := malloc m in
    match p with
    | None => (None, st, m)
    | Some _ =>
        let '(b, m) := image_loop sections (seq 0 (length sections))
                         {| bd_image := pt_image_empty; bd_syms := st; bd_total := 0 |} m in
        let st := sym_table_sort (bd_syms b) in
        (if bd_total b =? 0 then None else Some (bd_image b), st, m)
    end.
End image.

(** * Helpers *)

Definition insn_class_str (iclass : pt_insn_class) : option string :=
  match iclass with
  | ptic_call => Some "CALL"
  | ptic_return => Some "RETURN"
  | ptic_jump => Some "JUMP"
  | ptic_cond_jump => Some "CJMP"
  | ptic_far_call => Some "SYSCALL"
  | ptic_far_return => Some "SYSRET"
  | ptic_far_jump => Some "FARJMP"
  | ptic_ptwrite => Some "PTWRITE"
  | _ => None
  end.

(** The text after the last slash, if there is any. *)
Definition path_basename (p : string) : string :=
  match after_last "/" p with
  | Some EmptyString | None => p
  | Some bn => bn
  end.

(** The names of the EXEC sections' binaries, cut to the 63 characters of an
    array element; a name is compared before it is cut. *)
Fixpoint collect_exec_binaries (sections : list pt_image_info) (maxbins : nat)
    (exec_bins : list string) : list string :=
  match sections with
  | [] => exec_bins
  | sec :: sections =>
      if (maxbins <=? length exec_bins)%nat then exec_bins
      else if negb (has_type HWT_RECORD_EXECUTABLE sec) then
        collect_exec_binaries sections maxbins exec_bins
      else if String.eqb (path sec) EmptyString then
        collect_exec_binaries sections maxbins exec_bins
      else
        let bn := path_basename (path sec) in
        if existsb (fun b => String.eqb b bn) exec_bins
        then collect_exec_binaries sections maxbins exec_bins
        else collect_exec_binaries sections maxbins (exec_bins ++ [strlcpy 64 bn])
  end.

Definition is_exec_binary (binary : option string) (exec_bins : list string) : bool :=
  match binary with
  | None | Some EmptyString => false
  | Some b => existsb (fun e => String.eqb e b) exec_bins
  end.

(** * Properties *)

(** ** What is loaded *)

Section loads.
Context `{LibElf} `{PtImage}.

(** The files one section stands for, each with the address it is loaded at:
    its own and, for an EXEC record, its interpreter's. *)
Definition interp_loads (sections : list pt_image_info) (sec : pt_image_info) (load : Z)
    : list (string * Z) :=
  if has_type HWT_RECORD_EXECUTABLE sec && is_user_addr (base_addr sec) &&
     negb (base_addr sec =? load)
  then match elf_get_interp (path sec) (Z.of_nat MAXPATHLEN) with
       | Some interp => if has_interp_mmap sections interp then [] else [(interp, base_addr sec)]
       | None => []
       end
  else [].

Definition section_loads (sections : list pt_image_info) (i : nat) : list (string * Z) :=
  if section_should_use sections i then
    match sections !! i with
    | None => []
    | Some sec =>
        match open_elf (path sec) ≫= fun elf => elf_effective_load_addr elf (type sec) (load_addr sec) with
        | None => []
        | Some load => (path sec, load) :: interp_loads sections sec load
        end
    end
  else [].

Definition loads (sections : list pt_image_info) (idxs : list nat) : list (string * Z) :=
  concat (map (section_loads sections) idxs).

(** The program headers of a file and its slide at a load address. *)
Definition load_phdrs (l : string * Z) : option (Z * list (option GElf_Phdr)) :=
  elf ← open_elf l.1; b ← elf_base_vaddr elf; phs ← elf_phdrs elf; Some (i64 (l.2 - b), phs).

(** The segments of a file at a load address. *)
Definition load_segments (l : string * Z) : list segment :=
  match load_phdrs l with
  | Some (slide, phs) =>
      map (fun ph => (l.1, p_offset ph, p_filesz ph, u64 (p_vaddr ph + slide))) (exec_segments phs)
  | None => []
  end.

(** The functions of a file at a load address. *)
Definition load_functions (l : string * Z) : list (Z * Z * Z * string * string) :=
  match (elf ← open_elf l.1; b ← elf_base_vaddr elf; Some (elf, b)) with
  | Some (elf, b) =>
      map (symbol_view (i64 (l.2 - b)) (basename l.1))
        (concat (map (func_symbol elf)
           (concat (map (section_symbols (elf_preferred_symtab_type elf)) (elf_scns elf)))))
  | None => []
  end.


(** ** The image *)

Lemma add_elf_adds im p load :
  elf_version_ok = true ->
  add_elf_to_image im p load =
    (accepted im (load_segments (p, load)), image_adds im (load_segments (p, load))).
Proof.
  intros Hv. unfold add_elf_to_image, load_segments, load_phdrs. rewrite Hv. cbn [fst snd negb].
  destruct (open_elf p) as [elf|]; cbn [mbind option_bind]; [|done].
  destruct (elf_base_vaddr elf) as [b|]; cbn [mbind option_bind]; [|done].
  destruct (elf_phdrs elf) as [phs|]; cbn [mbind option_bind]; [|done].
  by rewrite add_segments_adds.
Qed.

(** What is built after more segments were added. *)
Definition grown (b : building) (segs : list segment) (st : sym_table) : building :=
  {| bd_image := image_adds (bd_image b) segs; bd_syms := st;
     bd_total := bd_total b + accepted (bd_image b) segs |}.

Lemma grown_nil (b : building) : grown b [] (bd_syms b) = b.
Proof. unfold grown. cbn [accepted image_adds foldl]. rewrite Z.add_0_r. by destruct b. Qed.

Lemma grown_app (b : building) l1 st1 l2 st2 : grown (grown b l1 st1) l2 st2 = grown b (l1 ++ l2) st2.
Proof. unfold grown. cbn [bd_image bd_total]. rewrite image_adds_app, accepted_app. f_equal. lia. Qed.

Lemma add_sections_mem elf bn slide syms st m :
  mem_ok m -> mem_ok (add_sections elf bn slide syms st m).2.
Proof.
  revert st m. induction syms as [|[link os] syms IH]; intros st m Hm; [done|]. cbn [add_sections].
  assert (Hs : mem_ok (add_symbol elf link bn slide os st m).2).
  { unfold add_symbol. destruct os as [sym|]; [|done]. repeat (case_bool; [done|]).
    destruct (elf_strptr elf link (st_name sym)) as [[|c nm]|]; [done| |done].
    by destruct (sym_table_add_ok st (u64 (st_value sym + slide)) (st_size sym) c nm bn slide m Hm)
      as (? & ? & -> & ? & _). }
  destruct (add_symbol elf link bn slide os st m). by apply IH.
Qed.

Lemma load_symbols_spec st p load m :
  elf_version_ok = true -> mem_ok m ->
  mem_ok (load_symbols st p load m).2 /\
  map entry_view (entries (load_symbols st p load m).1) =
    map entry_view (entries st) ++ load_functions (p, load).
Proof.
  intros Hv Hm. unfold load_symbols, load_functions. cbn [fst snd].
  destruct (open_elf p) as [elf|] eqn:Eo; cbn [mbind option_bind]; [|by rewrite app_nil_r].
  destruct (elf_base_vaddr elf) as [b|]; cbn [mbind option_bind]; [|by rewrite app_nil_r].
  rewrite <- (sym_table_add_elf_complete st p elf _ m Hv Eo Hm). split; [|done].
  unfold sym_table_add_elf. rewrite Hv, Eo. cbn [negb].
  destruct (strdup_ok p m Hm) as (m1 & -> & _ & Hm1). by apply add_sections_mem.
Qed.

Lemma add_binary_spec (b : building) p load m :
  elf_version_ok = true -> mem_ok m ->
  exists st m', add_binary b p load m = (grown b (load_segments (p, load)) st, m') /\
    mem_ok m' /\ map entry_view (entries st) = map entry_view (entries (bd_syms b)) ++ load_functions (p, load).
Proof.
  intros Hv Hm. unfold add_binary. rewrite add_elf_adds by done.
  destruct (load_symbols_spec (bd_syms b) p load m Hv Hm) as [H1 H2].
  destruct (load_symbols (bd_syms b) p load m) as [st m']. by exists st, m'.
Qed.

(** What a step that adds the files [ls] does. *)
Definition adds_loads (b : building) (ls : list (string * Z)) (r : building * mem) : Prop :=
  exists st m', r = (grown b (concat (map load_segments ls)) st, m') /\
    mem_ok m' /\ map entry_view (entries st) = map entry_view (entries (bd_syms b)) ++
      concat (map load_functions ls).

Lemma adds_nothing (b : building) m : mem_ok m -> adds_loads b [] (b, m).
Proof. intros Hm. exists (bd_syms b), m. cbn [map concat]. by rewrite app_nil_r, grown_nil. Qed.

Lemma adds_then (b : building) ls1 st1 m1 ls2 r :
  map entry_view (entries st1) = map entry_view (entries (bd_syms b)) ++ concat (map load_functions ls1) ->
  adds_loads (grown b (concat (map load_segments ls1)) st1) ls2 r ->
  mem_ok m1 -> adds_loads b (ls1 ++ ls2) r.
Proof.
  intros E1 (st2 & m2 & -> & Hm2 & E2) _. exists st2, m2. cbn [bd_syms grown] in E2.
  rewrite !map_app, !concat_app, grown_app. split_and!; [done|done|]. by rewrite E2, E1, app_assoc.
Qed.

Lemma add_interp_spec sections sec load (b : building) m :
  elf_version_ok = true -> mem_ok m ->
  adds_loads b (interp_loads sections sec load) (add_interp sections sec load b m).
Proof.
  intros Hv Hm. unfold add_interp, interp_loads. case_bool; [|by apply adds_nothing].
  destruct (elf_get_interp _ _) as [interp|]; [|by apply adds_nothing]. case_bool; [by apply adds_nothing|].
  destruct (add_binary_spec b interp (base_addr sec) m Hv Hm) as (st & m' & -> & Hm' & Ev).
  exists st, m'. cbn [map concat]. by rewrite !app_nil_r.
Qed.

Lemma add_section_spec sections i (b : building) m :
  elf_version_ok = true -> mem_ok m ->
  adds_loads b (section_loads sections i) (add_section sections i b m).
Proof.
  intros Hv Hm. unfold add_section, section_loads.
  destruct (section_should_use sections i); [|by apply adds_nothing]. cbn [negb].
  destruct (sections !! i) as [sec|]; [|by apply adds_nothing].
  destruct (open_elf (path sec)) as [elf|]; [|by apply adds_nothing]. cbn [mbind option_bind].
  destruct (elf_effective_load_addr elf (type sec) (load_addr sec)) as [load|]; [|by apply adds_nothing].
  destruct (add_binary_spec b (path sec) load m Hv Hm) as (st1 & m1 & -> & Hm1 & E1).
  change (?x :: ?l) with ([x] ++ l). apply (adds_then b [(path sec, load)] st1 m1); [..|done].
  - cbn [map concat]. by rewrite app_nil_r.
  - cbn [map concat]. rewrite app_nil_r. by apply add_interp_spec.
Qed.

Lemma image_loop_spec sections idxs : forall (b : building) m,
  elf_version_ok = true -> mem_ok m ->
  adds_loads b (loads sections idxs) (image_loop sections idxs b m).
Proof.
  induction idxs as [|i idxs IH]; intros b m Hv Hm; cbn [image_loop]; [by apply adds_nothing|].
  destruct (add_section_spec sections i b m Hv Hm) as (st1 & m1 & -> & Hm1 & E1).
  unfold loads. cbn [map concat]. by apply (adds_then b _ st1 m1); [..|apply IH|].
Qed.

(** ** The ranges *)

Lemma range_loop_mem phs nm n slide b maxr ranges m :
  names nm n -> mem_ok m -> mem_ok (range_loop phs nm slide b maxr ranges m).2.
Proof.
  intros [_ Hn]. revert ranges m. induction phs as [|[ph|] phs IH]; intros ranges m Hm; [done| |];
    cbn [range_loop]; (case_bool; [done|]); [|by apply IH].
  case_bool; [by apply IH|]. destruct (Hn m Hm) as (m' & -> & Hm'). by apply IH.
Qed.






(** ** Agreement *)


(** C20: The symbol table that comes with an image is sorted and holds the
    functions of exactly the files whose segments were given to libipt, each
    moved by the slide of its file. *)
Theorem image_symbols `{QSort} sections m im st' m' :
  mem_ok m -> build_pt_image sections sym_table_init m = (Some im, st', m') ->
  let files := loads sections (seq 0 (length sections)) in
  im = image_adds pt_image_empty (concat (map load_segments files)) /\
  accepted pt_image_empty (concat (map load_segments files)) <> 0 /\
  addr_sorted (entries st') /\
  map entry_view (entries st') ≡ₚ concat (map load_functions files).
Proof.
  intros Hm. unfold build_pt_image. destruct elf_version_ok eqn:Hv; cbn [negb]; [|done].
  destruct (malloc_ok m Hm) as (m1 & -> & _ & Hm1).
  match goal with |- context [image_loop sections ?idxs ?b m1] =>
    destruct (image_loop_spec sections idxs b m1 Hv Hm1) as (st1 & m3 & -> & _ & E) end.
  cbn [bd_image bd_syms bd_total grown] in *. case_bool; [done|]. to_prop. intros [= <- <- <-].
  split_and!; [done|lia|apply sym_table_sort_sorted|].
  rewrite sym_table_sort_perm. by rewrite E.
Qed.
End loads.

(** ** Memory *)

Lemma load_symbols_mem `{LibElf} st p load m : mem_ok m -> mem_ok (load_symbols st p load m).2.
Proof.
  intros Hm. destruct elf_version_ok eqn:Hv; [by apply load_symbols_spec|].
  unfold load_symbols. destruct (open_elf p); [|done]. destruct (elf_base_vaddr _); [|done].
  unfold sym_table_add_elf. by rewrite Hv.
Qed.

Lemma add_binary_mem `{LibElf, PtImage} b p load m : mem_ok m -> mem_ok (add_binary b p load m).2.
Proof.
  intros Hm. unfold add_binary. destruct (add_elf_to_image _ p load) as [segs im].
  pose proof (load_symbols_mem (bd_syms b) p load m Hm) as H1. by destruct (load_symbols _ p load m).
Qed.

Lemma add_section_mem `{LibElf, PtImage} sections i b m :
  mem_ok m -> mem_ok (add_section sections i b m).2.
Proof.
  intros Hm. unfold add_section. case_bool; [done|]. destruct (sections !! i) as [sec|]; [|done].
  destruct (open_elf (path sec)); [|done]. destruct (elf_effective_load_addr _ _ _) as [load|]; [|done].
  pose proof (add_binary_mem b (path sec) load m Hm) as H1. destruct (add_binary b (path sec) load m) as [b1 m1].
  unfold add_interp. case_bool; [|done]. destruct (elf_get_interp _ _); [|done]. case_bool; [done|].
  by apply add_binary_mem.
Qed.

(** Building an image ends with memory still available, if it was. *)
Lemma build_pt_image_mem `{LibElf, PtImage, QSort} sections st m :
  mem_ok m -> mem_ok (build_pt_image sections st m).2.
Proof.
  intros Hm. unfold build_pt_image. case_bool; [done|].
  destruct (malloc_ok m Hm) as (m1 & -> & _ & Hm1).
  assert (Hl : forall idxs b m, mem_ok m -> mem_ok (image_loop sections idxs b m).2).
  { induction idxs as [|i idxs IH]; intros b m0 Hm0; [done|]. cbn [image_loop].
    pose proof (add_section_mem sections i b m0 Hm0). destruct (add_section sections i b m0). by apply IH. }
  match goal with |- context [image_loop sections ?idxs ?b m1] =>
    specialize (Hl idxs b m1 Hm1); destruct (image_loop sections idxs b m1) end. exact Hl.
Qed.

Lemma section_ranges_mem `{LibElf} sections i maxr ranges m :
  mem_ok m -> mem_ok (section_ranges sections i maxr ranges m).2.
Proof.
  intros Hm. unfold section_ranges. case_bool; [done|]. destruct (sections !! i) as [sec|]; [|done].
  destruct (open_elf (path sec)) as [elf|]; [|done]. destruct (elf_base_vaddr elf) as [b|]; [|done].
  destruct (elf_effective_load_addr _ _ _) as [load|]; [|done]. cbv zeta.
  assert (H1 : mem_ok (match elf_phdrs elf with
    | Some phs => range_loop phs (path_name (path sec)) (i64 (load - b)) load maxr ranges m
    | None => (ranges, m) end).2).
  { destruct (elf_phdrs elf); [|done]. eapply range_loop_mem; eauto with bsdtrace. }
  destruct (match elf_phdrs elf with Some _ => _ | None => _ end) as [r1 m1]. cbn [snd] in H1.
  unfold interp_ranges. case_bool; [|done]. destruct (elf_get_interp _ _) as [ip|]; [|done]. case_bool; [done|].
  destruct (open_elf ip) as [elf2|]; [|done]. destruct (elf_base_vaddr elf2); [|done].
  destruct (elf_phdrs elf2); [|done]. eapply range_loop_mem; eauto with bsdtrace.
Qed.

(** So does making the ranges. *)
Lemma build_bin_ranges_mem `{LibElf} sections maxr m : mem_ok m -> mem_ok (build_bin_ranges sections maxr m).2.
Proof.
  intros Hm. unfold build_bin_ranges. case_bool; [done|]. generalize (@nil bin_range). revert m Hm.
  generalize (seq 0 (length sections)) as idxs. induction idxs as [|i idxs IH]; intros m Hm r; [done|].
  cbn [bin_ranges_loop]. case_bool; [done|]. pose proof (section_ranges_mem sections i maxr r m Hm) as H1.
  destruct (section_ranges sections i maxr r m). by apply IH.
Qed.

(** ** Independence of memory *)

Lemma add_section_image `{LibElf, PtImage} sections i b b' m m' :
  bd_image b = bd_image b' -> bd_total b = bd_total b' ->
  bd_image (add_section sections i b m).1 = bd_image (add_section sections i b' m').1 /\
  bd_total (add_section sections i b m).1 = bd_total (add_section sections i b' m').1.
Proof.
  assert (Hadd : forall p load b b' m m', bd_image b = bd_image b' -> bd_total b = bd_total b' ->
    bd_image (add_binary b p load m).1 = bd_image (add_binary b' p load m').1 /\
    bd_total (add_binary b p load m).1 = bd_total (add_binary b' p load m').1).
  { intros p load c c' n n' E1 E2. unfold add_binary. rewrite E1.
    destruct (add_elf_to_image _ p load) as [segs im]. destruct (load_symbols (bd_syms c) p load n).
    destruct (load_symbols (bd_syms c') p load n'). cbn. by rewrite E2. }
  intros E1 E2. unfold add_section. case_bool; [done|]. destruct (sections !! i) as [sec|]; [|done].
  destruct (open_elf (path sec)); [|done]. destruct (elf_effective_load_addr _ _ _) as [load|]; [|done].
  pose proof (Hadd (path sec) load b b' m m' E1 E2) as [F1 F2].
  destruct (add_binary b (path sec) load m) as [c n]. destruct (add_binary b' (path sec) load m') as [c' n'].
  unfold add_interp. case_bool; [|done]. destruct (elf_get_interp _ _); [|done]. case_bool; [done|].
  by apply Hadd.
Qed.

(** The image depends on the files alone: not on the symbols so far, nor on
    memory once it is allocated. *)
Lemma build_pt_image_indep `{LibElf, PtImage, QSort} sections st st' m m' :
  mem_ok m -> mem_ok m' -> (build_pt_image sections st m).1.1 = (build_pt_image sections st' m').1.1.
Proof.
  intros Hm Hm'. unfold build_pt_image. case_bool; [done|].
  destruct (malloc_ok m Hm) as (m1 & -> & _). destruct (malloc_ok m' Hm') as (m1' & -> & _).
  assert (Hl : forall idxs b b' m m', bd_image b = bd_image b' -> bd_total b = bd_total b' ->
    bd_image (image_loop sections idxs b m).1 = bd_image (image_loop sections idxs b' m').1 /\
    bd_total (image_loop sections idxs b m).1 = bd_total (image_loop sections idxs b' m').1).
  { induction idxs as [|i idxs IH]; intros b b' n n' E1 E2; [done|]. cbn [image_loop].
    pose proof (add_section_image sections i b b' n n' E1 E2) as [F1 F2].
    destruct (add_section sections i b n), (add_section sections i b' n'). by apply IH. }
  match goal with |- context [image_loop sections ?idxs ?b m1] => match goal with |- context [image_loop sections idxs ?b' m1'] =>
    destruct (Hl idxs b b' m1 m1' eq_refl eq_refl) as [F1 F2];
    destruct (image_loop sections idxs b m1), (image_loop sections idxs b' m1') end end.
  cbn [fst snd] in F1, F2 |- *. by rewrite F1, F2.
Qed.

(** ** The program's own binaries *)

(** The names of the EXEC sections' files. *)
Definition exec_names (sections : list pt_image_info) : list string :=
  map (fun s => path_basename (path s))
    (List.filter (fun s => has_type HWT_RECORD_EXECUTABLE s && negb (String.eqb (path s) EmptyString)) sections).

Lemma strlcpy_short n s : (String.length s < n)%nat -> strlcpy n s = s.
Proof. intros H. unfold strlcpy. apply str_take_all. lia. Qed.

Lemma collect_exec_binaries_set sections maxbins bins :
  NoDup bins -> Forall (fun n => (String.length n < 64)%nat) (exec_names sections) ->
  (size (list_to_set (bins ++ exec_names sections) : gset string) <= maxbins)%nat ->
  forall n, n ∈ collect_exec_binaries sections maxbins bins <-> n ∈ bins ++ exec_names sections.
Proof.
  revert bins. induction sections as [|sec sections IH]; intros bins Hnd Hall Hsz n.
  { simpl. by rewrite app_nil_r. }
  cbn [collect_exec_binaries]. destruct (maxbins <=? length bins)%nat eqn:E0.
  { apply Nat.leb_le in E0.
    assert (Hfull : (list_to_set bins : gset string) = list_to_set (bins ++ exec_names (sec :: sections))).
    { apply set_subseteq_size_eq; [set_solver|]. rewrite (size_list_to_set bins) by done. lia. }
    rewrite <- !(elem_of_list_to_set (C := gset string)), Hfull. done. }
  unfold exec_names in Hall, Hsz |- *. cbn [List.filter] in *.
  destruct (has_type HWT_RECORD_EXECUTABLE sec); cbn [negb andb] in *; [|by apply IH].
  destruct (String.eqb (path sec) EmptyString); cbn [negb] in *; [by apply IH|].
  cbn [map] in *. fold (exec_names sections) in *. inversion Hall as [|? ? Hs Hall']; subst.
  destruct (existsb _ bins) eqn:E1.
  - apply existsb_exists in E1 as (b & Hb%list_elem_of_In & Eb). to_prop. subst b.
    rewrite IH; [set_solver|done|done|].
    etrans; [|exact Hsz]. apply subseteq_size. set_solver.
  - rewrite strlcpy_short by done. rewrite IH; [set_solver| |done|].
    + apply NoDup_app. split_and!; [done| |apply NoDup_singleton].
      intros x Hx ->%list_elem_of_singleton. apply not_true_iff_false in E1. apply E1, existsb_exists.
      exists (path_basename (path sec)). split; [by apply list_elem_of_In|by apply String.eqb_eq].
    + etrans; [|exact Hsz]. apply subseteq_size. set_solver.
Qed.

(** The probe's notion of the traced program's own code: while the names of
    its EXEC sections' files are shorter than 64 characters and at most as
    many as the array holds, a binary is recognised exactly when it is one of
    them. *)
Theorem is_exec_binary_exact sections maxbins b :
  Forall (fun n => (String.length n < 64)%nat) (exec_names sections) ->
  (size (list_to_set (exec_names sections) : gset string) <= maxbins)%nat -> b <> EmptyString ->
  is_exec_binary (Some b) (collect_exec_binaries sections maxbins []) = true <-> b ∈ exec_names sections.
Proof.
  intros Hall Hsz Hb. rewrite <- (collect_exec_binaries_set sections maxbins [] (NoDup_nil_2) Hall Hsz b).
  unfold is_exec_binary. destruct b as [|c b]; [done|]. rewrite existsb_exists. split.
  - intros (x & Hx%list_elem_of_In & E). to_prop. by subst.
  - intros Hin. exists (String c b). split; [by apply list_elem_of_In|by apply String.eqb_eq].
Qed.

(** A longer name is never recognised: it is cut in the array but not in the
    comparison. *)
Theorem long_binary_unrecognised sections maxbins b :
  (64 <= String.length b)%nat ->
  is_exec_binary (Some b) (collect_exec_binaries sections maxbins []) = false.
Proof.
  intros Hl. assert (Hs : forall bins, Forall (fun n => (String.length n < 64)%nat) bins ->
    Forall (fun n => (String.length n < 64)%nat) (collect_exec_binaries sections maxbins bins)).
  { induction sections as [|sec sections IH]; intros bins Hb; [done|]. cbn [collect_exec_binaries].
    repeat (case_bool; [auto|]). apply IH, Forall_app. split; [done|]. constructor; [|constructor].
    unfold strlcpy. rewrite str_take_length. lia. }
  unfold is_exec_binary. destruct b as [|c b]; [done|].
  apply not_true_iff_false. rewrite existsb_exists. intros (x & Hx%list_elem_of_In & E). to_prop. subst x.
  pose proof (proj1 (Forall_forall _ _) (Hs [] ltac:(constructor)) _ Hx) as Hlt. cbn beta in Hlt. lia.
Qed.
