(* ===== verification/Snapshot.v ===== *)
(** trace.c, second part: how much of the PT buffer to keep, saving and
    decoding it, and the helpers exec and trace share.

    The decoder (decode.c) is an interface here: [Decoder] is the outcome of
    a probe ([None] when it fails) and of a decode ([None] when it follows a
    null pointer for want of memory); [DecoderLaws] is what trace.c relies on.
    Decode.v implements both. *)

From Stdlib Require Import ZArith Lia Ascii String.
From stdpp Require Import base list strings sets gmap sorting.
From S2P Require Import Prelude CLib Types Format Meta Resolve Hwt Trace Profile.

(** [struct decode_probe_result]. *)
Record decode_probe_result := { pr_total : Z; pr_exec_hits : Z }.

(** The counters of an instruction decode. *)
Record insn_counts := InsnCounts {
  ic_total : Z; ic_calls : Z; ic_branches : Z; ic_returns : Z; ic_syscalls : Z; ic_nomaps : Z;
  ic_errors : Z; ic_ovf : Z; ic_lost_mtc : Z; ic_lost_cyc : Z }.

(** What the summary on stderr reports. *)
Inductive dec_summary :=
  | NoSummary
  | PacketSummary (total syncs errors : Z)
  | InsnSummary (n : insn_counts).

(** A decode's result code, the lines on stdout and the summary. *)
Record decoded := { dec_rc : Z; dec_out : list string; dec_sum : dec_summary }.

Class Decoder := {
  decode_pt_probe : list Z -> list pt_image_info -> mem -> option decode_probe_result * mem;
  decode_pt_insn : list Z -> list pt_image_info -> bsdtrace_fmt -> option pt_decode_opts -> mem ->
    option (decoded * mem);
}.

(** The formats that build stack texts in a fixed buffer, which they may
    overrun ([Collapsed.build_stack_bounds]). *)
Definition builds_stacks (fmt : bsdtrace_fmt) : bool :=
  match fmt with FMT_COLLAPSED | FMT_SPEEDSCOPE => true | _ => false end.

Class DecoderLaws `{Decoder} := {
  probe_mem : forall buf ss m, mem_ok m -> mem_ok (decode_pt_probe buf ss m).2;
  decode_ends : forall buf ss fmt opts m, builds_stacks fmt = false -> filter_ok opts -> mem_ok m ->
    exists d m', decode_pt_insn buf ss fmt opts m = Some (d, m') /\ mem_ok m';
}.

(** The stdio files of the sidecars: [fopen] succeeds or not, and [fclose]
    leaves the text in the file. *)
Class Files `{Kernel} := {
  k_fopen : string -> kernel -> bool * kernel;
  k_fclose : string -> string -> kernel -> kernel;
}.

(** * Choosing the length *)

(** [while (len > 0 && buf[len - 1] == 0) len--]. *)
Fixpoint scan_last_nonzero (buf : list Z) (len : nat) : nat :=
  match len with
  | O => 0%nat
  | S n => if default 0 (buf !! n) =? 0 then scan_last_nonzero buf n else len
  end.

Definition pt_scan_last_nonzero (buf : list Z) : nat := scan_last_nonzero buf (length buf).

Definition probe_result_better (a b : decode_probe_result) : bool :=
  if negb (pr_exec_hits a =? pr_exec_hits b) then pr_exec_hits b <? pr_exec_hits a
  else pr_total b <? pr_total a.

(** The candidate taken: by probing both when there are images, else the
    smaller one. *)
Definition choose_candidate `{Decoder} (buf : list Z) (base_len scan_end : Z)
    (sections : list pt_image_info) (m : mem) : Z * mem :=
  match sections with
  | [] => (if scan_end <? base_len then scan_end else base_len, m)
  | _ =>
      let '(base_probe, m) := decode_pt_probe (take (Z.to_nat base_len) buf) sections m in
      let '(scan_probe, m) := decode_pt_probe (take (Z.to_nat scan_end) buf) sections m in
      (match base_probe, scan_probe with
       | None, Some _ => scan_end
       | Some b, Some s => if probe_result_better s b then scan_end else base_len
       | None, None => if scan_end <? base_len then scan_end else base_len
       | Some _, None => base_len
       end, m)
  end.

(** [buf] is the whole mapping, of [bufsz] bytes. *)
Definition choose_snapshot_len `{Decoder} (buf : list Z) (base_len : Z)
    (sections : list pt_image_info) (m : mem) : Z * mem :=
  let bufsz := Z.of_nat (length buf) in
  if bufsz =? 0 then (0, m)
  else
    let base_len := if bufsz <? base_len then bufsz else base_len in
    let scan_end := Z.of_nat (pt_scan_last_nonzero buf) in
    if base_len =? 0 then (scan_end, m)
    else if (scan_end =? 0) || (scan_end =? base_len) then (base_len, m)
    else
      let '(chosen, m) := choose_candidate buf base_len scan_end sections m in
      (if (chosen =? base_len) && (base_len <? PAGE_SIZE) && (base_len <? scan_end)
       then scan_end else chosen, m).

(** * Paths *)

Definition ends_with_pt (p : string) : bool :=
  let n := String.length p in (3 <? n)%nat && String.eqb (str_drop (n - 3) p) ".pt".

(** The path without its ".pt". *)
Definition pt_base (p : string) : string :=
  if ends_with_pt p then str_take (String.length p - 3) p else p.

Definition derive_meta_path (pt_output : string) (size : nat) : string :=
  str_take (size - 1) (pt_base pt_output +:+ ".meta").

Definition thread_pt_path (pt_output : string) (tid : Z) : string :=
  str_take (MAXPATHLEN - 1) (pt_base pt_output +:+ "-tid" +:+ fmt_d tid +:+ ".pt").

(** * Snapshot *)

(** The extent the kernel reported: the stop pointer unless it is out of the
    buffer, zero, or behind the last BUFFER record. *)
Definition known_end (bufsize : Z) (stop : option (Z * Z)) (last_page last_offset : Z) : Z :=
  let stop_len := match stop with
                  | None => 0
                  | Some (page, off) => u64 (page * PAGE_SIZE + off)
                  end in
  let record_len := if 0 <=? last_page then u64 (last_page * PAGE_SIZE + last_offset) else 0 in
  let stop_len := if bufsize <? stop_len then 0 else stop_len in
  let record_len := if bufsize <? record_len then 0 else record_len in
  if (stop_len =? 0) || ((0 <? record_len) && (stop_len <? record_len)) then record_len else stop_len.

Definition snapshot_opts (c : hwt_ctx) (opts : option pt_decode_opts) : pt_decode_opts :=
  {| opt_tid := match opts with Some o => opt_tid o | None => ctx_tid c end;
     opt_mtc_freq := u8 (mtc_freq c); opt_cyc_thresh := u8 (cyc_thresh c);
     filter_funcs := match opts with Some o => filter_funcs o | None => [] end |}.

Definition set_opt_tid (tid : Z) (o : pt_decode_opts) : pt_decode_opts :=
  {| opt_tid := tid; opt_mtc_freq := opt_mtc_freq o; opt_cyc_thresh := opt_cyc_thresh o;
     filter_funcs := filter_funcs o |}.

(** The sidecar of one thread. *)
Definition write_thread_meta `{Files} (c : hwt_ctx) (ts : trace_state) (tid : Z) (tpath : string)
    (m : mem) (k : kernel) : mem * kernel :=
  let tmeta := derive_meta_path tpath MAXPATHLEN in
  let '(p, m1) := malloc m in
  match p with
  | None => (m1, k)
  | Some _ =>
      let '(ok, k) := k_fopen tmeta k in
      if ok then
        let mw := meta_writer_header (Some EmptyString) (ctx_pid c) tid in
        let mw := meta_writer_timing mw (u8 (mtc_freq c)) (u8 (cyc_thresh c)) in
        let mw := meta_writer_sections mw (ts_sections ts) in
        (m1, k_fclose tmeta (default EmptyString mw) k)
      else (m1, k)
  end.

(** What a thread's pass yields. *)
Record thread_result := {
  tr_thread : hwt_thread_ctx;   (* with its buffer mapped *)
  tr_saved : Z;                 (* bytes saved and decoded *)
  tr_out : list string }.

Definition snapshot_thread `{Decoder, Files} (c : hwt_ctx) (ts : trace_state) (pt_output : string)
    (fmt : bsdtrace_fmt) (dopts : pt_decode_opts) (tc : hwt_thread_ctx) (m : mem) (k : kernel)
    : option (thread_result * mem * kernel) :=
  let '(bp, k) := k_bufptr_get (t_fd tc) k in
  let tlen := match bp with None => 0 | Some (page, off) => u64 (page * PAGE_SIZE + off) end in
  let tlen := if bufsize c <? tlen then 0 else tlen in
  let '(buf, k) :=
    match t_trace_buf tc with
    | Some p => (Some p, k)
    | None => k_mmap (t_fd tc) (bufsize c) k
    end in
  match buf with
  | None => Some ({| tr_thread := tc; tr_saved := 0; tr_out := [] |}, m, k)
  | Some buf =>
      let tc := {| t_fd := t_fd tc; t_thread_id := t_thread_id tc; t_trace_buf := Some buf |} in
      let '(tlen, m) := choose_snapshot_len (k_bytes buf k) tlen (ts_sections ts) m in
      if tlen =? 0 then Some ({| tr_thread := tc; tr_saved := 0; tr_out := [] |}, m, k)
      else
        let tpath := thread_pt_path pt_output (t_thread_id tc) in
        let '(tfd, k) := k_open tpath k in
        match tfd with
        | None => Some ({| tr_thread := tc; tr_saved := 0; tr_out := [] |}, m, k)
        | Some tfd =>
            let data := take (Z.to_nat tlen) (k_bytes buf k) in
            let '(r, k) := write_loop (S (length data)) tfd data k in
            match r with
            | None => None
            | Some false =>
                Some ({| tr_thread := tc; tr_saved := 0; tr_out := [] |}, m, k_close tfd k)
            | Some true =>
                let k := k_close tfd k in
                let '(m, k) := write_thread_meta c ts (t_thread_id tc) tpath m k in
                let dopts := set_opt_tid (t_thread_id tc) dopts in
                '(d, m) ← decode_pt_insn data (ts_sections ts) fmt (Some dopts) m;
                Some ({| tr_thread := tc; tr_saved := tlen;
                         tr_out := (if bool_decide (fmt = FMT_TEXT)
                                    then ["Thread " +:+ fmt_d (t_thread_id tc) +:+ ":"] else []) ++
                                   dec_out d |}, m, k)
            end
        end
  end.

(** The loop over [ctx->threads]. *)
Fixpoint snapshot_threads `{Decoder, Files} (c : hwt_ctx) (ts : trace_state) (pt_output : string)
    (fmt : bsdtrace_fmt) (dopts : pt_decode_opts) (tcs : list hwt_thread_ctx) (saved : Z) (m : mem)
    (k : kernel) : option (list hwt_thread_ctx * Z * list string * mem * kernel) :=
  match tcs with
  | [] => Some ([], saved, [], m, k)
  | tc :: tcs =>
      '(r, m, k) ← snapshot_thread c ts pt_output fmt dopts tc m k;
      let saved := if 0 <=? saved then saved + tr_saved r else saved in
      '(tcs, saved, out, m, k) ← snapshot_threads c ts pt_output fmt dopts tcs saved m k;
      Some (tr_thread r :: tcs, saved, tr_out r ++ out, m, k)
  end.

(** The bytes saved or -1, what is printed, and the new state; [None] when a
    write loop runs out of fuel (it does not) or a decode crashes. *)
Definition snapshot_and_decode `{Decoder, Files} (c : hwt_ctx) (ts : trace_state)
    (pt_output : string) (fmt : bsdtrace_fmt) (opts : option pt_decode_opts) (m : mem) (k : kernel)
    : option (Z * list string * hwt_ctx * mem * kernel) :=
  let '(stop, k) := hwt_ctx_bufptr_get c k in
  let len := known_end (bufsize c) stop (last_buf_page ts) (last_buf_offset ts) in
  let '(buf, c, k) := hwt_ctx_map_buffer c k in
  match buf with
  | None => Some (-1, [], c, m, k)
  | Some buf =>
      let dopts := snapshot_opts c opts in
      let '(actual_len, m) := choose_snapshot_len (k_bytes buf k) len (ts_sections ts) m in
      if actual_len =? 0 then Some (0, [], c, m, k)
      else
        let '(saved, c, k) :=
          hwt_ctx_snapshot_buffer c pt_output (i32 (actual_len / PAGE_SIZE)) (actual_len mod PAGE_SIZE) k in
        saved ← saved;
        '(out, m) ← (if 0 <? saved
                     then '(d, m) ← decode_pt_insn (take (Z.to_nat saved) (k_bytes buf k)) (ts_sections ts)
                                      fmt (Some dopts) m;
                          Some (dec_out d, m)
                     else Some ([], m));
        if all_threads c || negb (bool_decide (requested_tids c = [])) then
          '(tcs, saved, tout, m, k) ← snapshot_threads c ts pt_output fmt dopts (threads c) saved m k;
          Some (saved, out ++ tout, set_bufs (trace_buf c) tcs c, m, k)
        else Some (saved, out, c, m, k)
  end.

(** * Shared helpers *)

(** Prints the record at the time it is read, resumes a paused target, opens
    a wanted new thread, and accumulates.  The text is [None] if printing
    would overrun the line buffer (Format.v shows that it does not). *)
Definition emit_and_process `{Kernel} (now : tm) (rec : bsdtrace_record) (pid : Z)
    (fmt : bsdtrace_fmt) (pause_on_mmap : bool) (c : hwt_ctx) (ts : trace_state) (m : mem) (k : kernel)
    : option string * hwt_ctx * trace_state * mem * kernel :=
  let out := match fmt with
             | FMT_JSON => fmt_record_json now rec pid
             | FMT_TEXT => Some (fmt_record_text now rec pid)
             | _ => Some EmptyString
             end in
  let k := if pause_on_mmap &&
              (type_eqb (r_type rec) HWT_RECORD_MMAP || type_eqb (r_type rec) HWT_RECORD_EXECUTABLE)
           then (hwt_ctx_wakeup c k).2 else k in
  let '(c, k) :=
    if type_eqb (r_type rec) HWT_RECORD_THREAD_CREATE && negb (r_thread_id rec =? ctx_tid c) then
      let want := all_threads c || existsb (fun t => t =? r_thread_id rec) (requested_tids c) in
      if want then let '(_, c, k) := hwt_ctx_open_thread c (r_thread_id rec) k in (c, k) else (c, k)
    else (c, k) in
  let '(ts, m) := trace_state_process ts rec m in
  (out, c, ts, m, k).

(** The loop over a poll's records; [now i] is the clock when the [i]th is
    printed. *)
Fixpoint emit_all `{Kernel} (now : nat -> tm) (recs : list bsdtrace_record) (pid : Z)
    (fmt : bsdtrace_fmt) (pause_on_mmap : bool) (c : hwt_ctx) (ts : trace_state) (m : mem) (k : kernel)
    : list (option string) * hwt_ctx * trace_state * mem * kernel :=
  match recs with
  | [] => ([], c, ts, m, k)
  | rec :: recs =>
      let '(o, c, ts, m, k) := emit_and_process (now 0%nat) rec pid fmt pause_on_mmap c ts m k in
      let '(os, c, ts, m, k) := emit_all (fun i => now (S i)) recs pid fmt pause_on_mmap c ts m k in
      (o :: os, c, ts, m, k)
  end.

(** The backend to use and the string to free. *)
Definition resolve_backend `{Kernel, SysInfo} (explicit_name : option string) (m : mem) (k : kernel)
    : option string * option cstr * mem * kernel :=
  let '(ok, k) := hwt_available k in
  if negb ok then (None, None, m, k)
  else match explicit_name with
       | Some b => (Some b, None, m, k)
       | None => let '(d, m) := hwt_detect_backend m in (chars <$> d, d, m, k)
       end.

Definition check_hwt_hooks `{SysInfo} (dryrun : bool) (m : mem) : Z * mem :=
  let '(hooks, m) := hwt_hooks_enabled m in
  (if hooks =? 0 then (if dryrun then 0 else -1) else 0, m).

Definition kernel_path : string := "/boot/kernel/kernel".

Definition trace_state_ensure_kernel `{SysInfo} (ts : trace_state) (m : mem) : trace_state * mem :=
  if existsb (fun s => type_eqb (type s) HWT_RECORD_KERNEL) (ts_sections ts) then (ts, m)
  else match kern_base_address with
       | None => (ts, m)
       | Some kbase =>
           let '(_, ts, m) := trace_state_add_section ts kernel_path kbase 0 HWT_RECORD_KERNEL m in
           (ts, m)
       end.

Inductive warning := WarnWrapped | WarnOverflow (n : Z) | WarnShort (saved : Z).

Definition POLL_RECORDS : Z := 256.

(** The result of the command, what it printed, and the final state; the
    sidecar is closed by then, so its text is final. *)
Record finalized `{Kernel} := {
  fin_result : Z; fin_records : list (option string); fin_decoded : list string;
  fin_warnings : list warning; fin_meta : meta_writer; fin_ctx : hwt_ctx; fin_kernel : kernel }.

Definition trace_finalize `{Decoder, Files, SysInfo} (fuel : nat) (now : nat -> tm) (c : hwt_ctx)
    (ts : trace_state) (pt_output : string) (pid : Z) (fmt : bsdtrace_fmt) (totalrecords : Z)
    (opts : option pt_decode_opts) (m : mem) (k : kernel) : option finalized :=
  let '(r, m, k) := hwt_ctx_poll_records c POLL_RECORDS false m k in
  let recs := default [] r in
  let totalrecords := totalrecords + Z.of_nat (length recs) in
  let '(out, c, ts, m, k) := emit_all now recs pid fmt true c ts m k in
  let '(_, k) := hwt_ctx_stop c k in
  '(drained, ts, m, k) ← trace_state_drain_post_stop fuel c ts m k;
  let totalrecords := totalrecords + drained in
  let '(ts, m) := if os_trace c then trace_state_ensure_kernel ts m else (ts, m) in
  '(saved, dec, c, m, k) ← snapshot_and_decode c ts pt_output fmt opts m k;
  let warnings :=
    (if buf_wrapped ts then [WarnWrapped] else []) ++
    (if 0 <? overflow_count ts then [WarnOverflow (overflow_count ts)] else []) ++
    (if negb (bool_decide (filter c = [])) && (0 <=? saved) && (saved <? 2048)
     then [WarnShort saved] else []) in
  let '(c, k) := hwt_ctx_close c k in
  Some {| fin_result := if saved <? 0 then -1 else totalrecords; fin_records := out;
          fin_decoded := dec; fin_warnings := warnings; fin_meta := ts_meta ts; fin_ctx := c;
          fin_kernel := k |}.

(** * Properties *)

(** ** Length *)

Lemma scan_last_nonzero_spec buf n :
  (n <= length buf)%nat ->
  let r := scan_last_nonzero buf n in
  (r <= n)%nat /\ (forall i, (r <= i < n)%nat -> buf !! i = Some 0) /\
  (r = 0%nat \/ exists v, buf !! (r - 1)%nat = Some v /\ v <> 0).
Proof.
  induction n as [|n IH]; intros Hn; cbn zeta; cbn [scan_last_nonzero].
  { split_and!; [lia|lia|by left]. }
  destruct (lookup_lt_is_Some_2 buf n ltac:(lia)) as [v Hv]. rewrite Hv. simpl default.
  destruct (v =? 0) eqn:E; to_prop.
  - subst v. destruct (IH ltac:(lia)) as (Hr & Hz & Hnz). split_and!; [lia| |done].
    intros i Hi. destruct (decide (i = n)) as [->|]; [done|]. apply Hz. lia.
  - split_and!; [lia|lia|]. right. exists v. split; [|done]. by replace (S n - 1)%nat with n by lia.
Qed.

Lemma choose_candidate_in `{Decoder} buf base scan sections m :
  (choose_candidate buf base scan sections m).1 = base \/
  (choose_candidate buf base scan sections m).1 = scan.
Proof.
  unfold choose_candidate. destruct sections; [simpl; case_bool; auto|].
  destruct (decode_pt_probe _ _ m) as [[b|] m1]; destruct (decode_pt_probe _ _ m1) as [[s1|] m2];
    simpl; try case_bool; auto.
Qed.

Lemma choose_len_mem `{DecoderLaws} buf base_len sections m :
  mem_ok m -> mem_ok (choose_snapshot_len buf base_len sections m).2.
Proof.
  intros Hm. unfold choose_snapshot_len, choose_candidate. repeat (case_bool; [done|]).
  destruct sections as [|s ss]; [done|].
  pose proof (fun b m => probe_mem b (s :: ss) m) as Hp.
  match goal with |- context [decode_pt_probe ?a _ m] => pose proof (Hp a m Hm) as H1;
    destruct (decode_pt_probe a (s :: ss) m) as [r1 m1] end.
  match goal with |- context [decode_pt_probe ?a _ m1] => pose proof (Hp a m1 H1) as H2;
    destruct (decode_pt_probe a (s :: ss) m1) as [r2 m2] end. exact H2.
Qed.

Lemma choose_len_cases `{Decoder} buf base_len sections m :
  0 <= base_len ->
  let n := (choose_snapshot_len buf base_len sections m).1 in
  let base := Z.min base_len (Z.of_nat (length buf)) in
  let scan := Z.of_nat (pt_scan_last_nonzero buf) in
  (n = base \/ n = scan) /\
  (n = 0 -> base = 0 /\ scan = 0) /\
  (base <> 0 -> scan <> 0 -> n < base -> n = scan) /\
  (base < PAGE_SIZE -> base < scan -> n = scan).
Proof.
  intros Hb. cbn zeta. unfold choose_snapshot_len.
  destruct (scan_last_nonzero_spec buf (length buf) ltac:(lia)) as (Hr & _ & _).
  unfold pt_scan_last_nonzero in *. set (scan := Z.of_nat (scan_last_nonzero buf (length buf))) in *.
  assert (Hs : 0 <= scan <= Z.of_nat (length buf)) by lia.
  replace (if Z.of_nat (length buf) <? base_len then Z.of_nat (length buf) else base_len)
    with (Z.min base_len (Z.of_nat (length buf))) by (case_bool; to_prop; lia).
  set (base := Z.min base_len (Z.of_nat (length buf))).
  destruct (Z.of_nat (length buf) =? 0) eqn:E0; to_prop; [subst base; cbn [fst]; lia|].
  destruct (base =? 0) eqn:E1; to_prop; [cbn [fst]; lia|].
  destruct ((scan =? 0) || (scan =? base))%bool eqn:E2;
    [cbn [fst]; apply orb_true_iff in E2 as [?|?]; to_prop; lia|to_prop].
  pose proof (choose_candidate_in buf base scan sections m) as Hc.
  destruct (choose_candidate buf base scan sections m) as [chosen m1]. cbn [fst] in *.
  case_bool; [apply andb_true_iff in E as [[? ?]%andb_true_iff ?]; to_prop; lia|].
  apply andb_false_iff in E. rewrite andb_false_iff in E. destruct E as [[?|?]|?]; to_prop; lia.
Qed.

(** C28: The length kept is one of the two candidates, the reported extent (cut to
    the buffer) or the last non-zero byte; it never leaves the buffer, it is
    zero only when both are, and a reported extent of less than a page never
    hides data behind it. *)
Theorem choose_len_spec `{Decoder} buf base_len sections m :
  0 <= base_len ->
  let n := (choose_snapshot_len buf base_len sections m).1 in
  let base := Z.min base_len (Z.of_nat (length buf)) in
  let scan := Z.of_nat (pt_scan_last_nonzero buf) in
  0 <= n <= Z.of_nat (length buf) /\ (n = base \/ n = scan) /\
  (n = 0 -> base = 0 /\ forall i, (i < length buf)%nat -> buf !! i = Some 0) /\
  (base < PAGE_SIZE -> base < scan -> n = scan).
Proof.
  intros Hb. pose proof (choose_len_cases buf base_len sections m Hb) as (H1 & H2 & _ & H4). cbn zeta in *.
  destruct (scan_last_nonzero_spec buf (length buf) ltac:(lia)) as (Hr & Hz & _).
  unfold pt_scan_last_nonzero in *. split_and!; [lia|lia|done| |done].
  intros Hn. destruct (H2 Hn) as [Hb0 Hs0]. split; [done|]. intros i Hi. apply Hz. lia.
Qed.

(** With images to decode against, a candidate that decodes is preferred to
    one that does not, and the better of two that do; only a reported extent
    of less than a page is overridden by data behind it. *)
Theorem choose_len_probe `{Decoder} buf base_len sections m :
  sections <> [] ->
  let base := Z.min base_len (Z.of_nat (length buf)) in
  let scan := Z.of_nat (pt_scan_last_nonzero buf) in
  0 < base_len -> 0 < scan -> PAGE_SIZE <= base -> base <> scan ->
  let n := (choose_snapshot_len buf base_len sections m).1 in
  let '(b, m1) := decode_pt_probe (take (Z.to_nat base) buf) sections m in
  let '(s, _) := decode_pt_probe (take (Z.to_nat scan) buf) sections m1 in
  match b, s with
  | Some b, Some s => n = (if probe_result_better s b then scan else base)
  | Some _, None => n = base
  | None, Some _ => n = scan
  | None, None => n = Z.min base scan
  end.
Proof.
  intros Hne base scan Hb Hs Hp Hbs n. subst n. unfold choose_snapshot_len.
  fold scan. unfold PAGE_SIZE in *.
  replace (if Z.of_nat (length buf) <? base_len then Z.of_nat (length buf) else base_len)
    with base by (subst base; case_bool; to_prop; lia).
  replace (Z.of_nat (length buf) =? 0) with false by lia.
  replace (base =? 0) with false by lia. replace (scan =? 0) with false by lia. cbn [orb].
  replace (scan =? base) with false by lia.
  destruct sections as [|s0 ss]; [done|]. unfold choose_candidate. set (sections := s0 :: ss) in *.
  destruct (decode_pt_probe _ _ m) as [b m1]. destruct (decode_pt_probe _ _ m1) as [s m2].
  replace (base <? 4096) with false by lia. rewrite andb_false_r. cbn [andb fst].
  destruct b, s; try done. case_bool; to_prop; lia.
Qed.

Lemma known_end_bounds bufsize stop page off :
  0 <= bufsize -> 0 <= known_end bufsize stop page off <= bufsize.
Proof.
  intros Hb. unfold known_end.
  set (s := match stop with Some _ => _ | None => 0 end). set (r := if 0 <=? page then _ else 0).
  assert (0 <= s) by (subst s; destruct stop as [[p o]|]; [apply u64_range|lia]).
  assert (0 <= r) by (subst r; case_bool; [apply u64_range|lia]).
  repeat case_bool; to_prop; lia.
Qed.

(** ** Paths *)

Lemma ends_with_pt_app b : b <> EmptyString -> ends_with_pt (b +:+ ".pt") = true.
Proof.
  intros Hb. unfold ends_with_pt. rewrite str_length_app. change (String.length ".pt") with 3%nat.
  replace (String.length b + 3 - 3)%nat with (String.length b) by lia. rewrite str_drop_app.
  destruct b as [|c b]; [done|]. rewrite String.eqb_refl, andb_true_r. apply Nat.ltb_lt. simpl. lia.
Qed.

Lemma pt_base_app b : b <> EmptyString -> pt_base (b +:+ ".pt") = b.
Proof.
  intros Hb. unfold pt_base. rewrite ends_with_pt_app by done. rewrite str_length_app.
  change (String.length ".pt") with 3%nat. replace (String.length b + 3 - 3)%nat with (String.length b) by lia.
  apply str_take_app.
Qed.

Lemma app_nonempty a b : a <> EmptyString -> a +:+ b <> EmptyString.
Proof. by destruct a. Qed.

(** Each saved file has its sidecar beside it: [b.pt] has [b.meta], and the
    file of a thread, [b-tidN.pt], has [b-tidN.meta]; a replay that derives
    the sidecar from the file name finds it. *)
Theorem sidecar_paths b tid :
  b <> EmptyString -> (String.length b <= 990)%nat -> is_i32 tid ->
  derive_meta_path (b +:+ ".pt") MAXPATHLEN = b +:+ ".meta" /\
  thread_pt_path (b +:+ ".pt") tid = b +:+ "-tid" +:+ fmt_d tid +:+ ".pt" /\
  derive_meta_path (thread_pt_path (b +:+ ".pt") tid) MAXPATHLEN = b +:+ "-tid" +:+ fmt_d tid +:+ ".meta".
Proof.
  intros Hb Hl Ht. pose proof (fmt_d_length tid Ht) as Hd.
  assert (Hthread : thread_pt_path (b +:+ ".pt") tid = b +:+ "-tid" +:+ fmt_d tid +:+ ".pt").
  { unfold thread_pt_path. rewrite pt_base_app by done. apply str_take_all. rewrite !str_length_app.
    unfold MAXPATHLEN. simpl. lia. }
  assert (Hmeta : forall q, q <> EmptyString -> (String.length q + 5 <= 1023)%nat ->
    derive_meta_path (q +:+ ".pt") MAXPATHLEN = q +:+ ".meta").
  { intros q Hq Hlq. unfold derive_meta_path. rewrite pt_base_app by done. apply str_take_all.
    rewrite str_length_app. unfold MAXPATHLEN. simpl. lia. }
  split_and!; [apply Hmeta; [done|lia]|done|]. rewrite Hthread.
  rewrite !str_app_assoc. apply Hmeta; [by apply app_nonempty, app_nonempty|].
  rewrite !str_length_app. simpl. lia.
Qed.

(** ** Per-thread sidecars *)

(** The sidecar written for a thread. *)
Definition thread_meta (c : hwt_ctx) (ts : trace_state) (tid : Z) : meta_writer :=
  meta_writer_sections
    (meta_writer_timing (meta_writer_header (Some EmptyString) (ctx_pid c) tid) (u8 (mtc_freq c))
       (u8 (cyc_thresh c))) (ts_sections ts).

Lemma u8_u64 x : is_u64 (u8 x).
Proof. unfold is_u64, u8. pose proof (Z.mod_pos_bound x 256). lia. Qed.

(** A thread's trace replays with the thread's own index and the images of
    the live run. *)
Theorem thread_meta_replays c ts tid m :
  is_i32 (ctx_pid c) -> is_i32 tid -> Forall writable (ts_sections ts) ->
  exec_at_head (ts_sections ts) -> mem_ok m ->
  meta_read_tid (thread_meta c ts tid) = tid /\
  (meta_read_sections (thread_meta c ts tid) m).1 = Some (ts_sections ts).
Proof.
  intros Hp Ht Hw He Hm. split.
  - unfold thread_meta. set (mw := meta_writer_timing _ _ _).
    assert (exists rest, meta_writer_sections mw (ts_sections ts) =
      put (meta_writer_header (Some EmptyString) (ctx_pid c) tid) rest) as [rest ->].
    { subst mw. unfold meta_writer_timing. case_bool; cbn [put meta_writer_header fmap option_fmap option_map];
        rewrite meta_writer_sections_cat; [by eexists|]. rewrite <- str_app_assoc. by eexists. }
    by apply header_tid.
  - apply synced_read; [|done].
    pose proof (sections_synced _ [] _ Hw (meta_start_synced (ctx_pid c) tid (u8 (mtc_freq c))
      (u8 (cyc_thresh c)) Hp Ht (u8_u64 _) (u8_u64 _))) as Hs.
    rewrite (at_head_sections _ He) in Hs. exact Hs.
Qed.

(** ** The kernel section *)

(** For a kernel trace without a kernel record, the fallback adds the kernel
    to the sections decoded now but not to the sidecar: the replay lacks it. *)
Theorem ensure_kernel_offline_gap `{SysInfo} ts kbase m :
  mem_ok m -> kern_base_address = Some kbase -> synced (ts_meta ts) (ts_sections ts) ->
  Forall (fun s => type s <> HWT_RECORD_KERNEL) (ts_sections ts) ->
  let ts' := (trace_state_ensure_kernel ts m).1 in
  ts_sections ts' = ts_sections ts ++
    [{| path := kernel_path; load_addr := kbase; base_addr := 0; type := HWT_RECORD_KERNEL |}] /\
  (meta_read_sections (ts_meta ts') m).1 = Some (ts_sections ts).
Proof.
  intros Hm Hk Hs Hno. unfold trace_state_ensure_kernel.
  destruct (existsb _ (ts_sections ts)) eqn:E.
  { apply existsb_exists in E as (s & Hin%list_elem_of_In & Ht%type_eqb_eq).
    rewrite Forall_forall in Hno. by destruct (Hno s Hin). }
  rewrite Hk.
  destruct (add_section_ok ts kernel_path kbase 0 HWT_RECORD_KERNEL m Hm ltac:(done))
    as (ts' & m' & -> & _ & Hsec & Hmeta).
  cbn [fst]. rewrite Hsec, Hmeta. split; [done|by apply synced_read].
Qed.

(** ** Threads and the primary buffer *)

(** When nothing is kept of the primary thread's buffer, no other thread is
    saved either: the call returns before their loop. *)
Theorem idle_primary_drops_threads `{Decoder, Files} c ts pt_output fmt opts m k buf :
  trace_buf c = Some buf ->
  (forall i, (i < length (k_bytes buf (hwt_ctx_bufptr_get c k).2))%nat ->
     k_bytes buf (hwt_ctx_bufptr_get c k).2 !! i = Some 0) ->
  (hwt_ctx_bufptr_get c k).1 = Some (0, 0) -> last_buf_page ts = -1 ->
  snapshot_and_decode c ts pt_output fmt opts m k =
    Some (0, [], c, (choose_snapshot_len (k_bytes buf (hwt_ctx_bufptr_get c k).2) 0 (ts_sections ts) m).2,
          (hwt_ctx_bufptr_get c k).2).
Proof.
  intros Hb Hz Hst Hl. unfold snapshot_and_decode. destruct (hwt_ctx_bufptr_get c k) as [stop k1].
  cbn [fst snd] in *. subst stop. rewrite Hl. unfold hwt_ctx_map_buffer. rewrite Hb. cbv beta iota zeta.
  assert (Hlen : known_end (bufsize c) (Some (0, 0)) (-1) (last_buf_offset ts) = 0).
  { unfold known_end. simpl. by repeat case_bool. }
  rewrite Hlen.
  enough (E : (choose_snapshot_len (k_bytes buf k1) 0 (ts_sections ts) m).1 = 0)
    by (destruct (choose_snapshot_len _ _ _ m); cbn [fst] in E; by rewrite E).
  destruct (choose_len_cases (k_bytes buf k1) 0 (ts_sections ts) m ltac:(lia)) as ([E|E] & _); rewrite E; [lia|].
  destruct (scan_last_nonzero_spec (k_bytes buf k1) (length (k_bytes buf k1)) ltac:(lia)) as (Hr & _ & Hnz).
  unfold pt_scan_last_nonzero. destruct Hnz as [->|(v & Hv & Hne)]; [done|].
  rewrite Hz in Hv; [congruence|]. by apply lookup_lt_Some in Hv.
Qed.

(** ** Finalizing *)

Class FileLaws `{Files} `{!FdTable} := {
  fopen_fds : forall p k, fds (k_fopen p k).2 = fds k;
  fclose_fds : forall p t k, fds (k_fclose p t k) = fds k;
}.

Section finalize.
Context `{KL : KernelLaws} `{!WriteLaws} `{!RecordQueue} `{!Files} `{!FileLaws} `{DL : DecoderLaws} `{!SysInfo}.

Lemma emit_ok before now rec pid fmt pause c ts m k :
  ctx_ok before c k -> mem_ok m ->
  let '(_, c', _, m', k') := emit_and_process now rec pid fmt pause c ts m k in
  ctx_ok before c' k' /\ mem_ok m'.
Proof.
  intros Hok Hm. unfold emit_and_process.
  set (k1 := if (pause && _)%bool then _ else k).
  assert (Hok1 : ctx_ok before c k1).
  { subst k1. case_bool; [|done]. eapply ctx_ok_fds; [apply wakeup_fds|done]. }
  clearbody k1. pose proof (process_mem ts rec m m Hm Hm) as [_ Hm'].
  assert (Hth : ctx_ok before
      (let '(_, c', k') := hwt_ctx_open_thread c (r_thread_id rec) k1 in (c', k')).1
      (let '(_, c', k') := hwt_ctx_open_thread c (r_thread_id rec) k1 in (c', k')).2).
  { pose proof (open_thread_ok before c (r_thread_id rec) k1 Hok1) as Ho.
    by destruct (hwt_ctx_open_thread c (r_thread_id rec) k1) as [[r c1] k2]. }
  destruct (hwt_ctx_open_thread c (r_thread_id rec) k1) as [[r c1] k2]. simpl in Hth.
  destruct (trace_state_process ts rec m) as [ts' m']. simpl in Hm'.
  destruct (_ && _)%bool; [|done]. cbv zeta. by destruct (_ || _)%bool.
Qed.

Lemma emit_all_ok before recs : forall now pid fmt pause c ts m k,
  ctx_ok before c k -> mem_ok m ->
  let '(_, c', _, m', k') := emit_all now recs pid fmt pause c ts m k in
  ctx_ok before c' k' /\ mem_ok m'.
Proof.
  induction recs as [|rec recs IH]; intros now pid fmt pause c ts m k Hok Hm; [done|].
  cbn [emit_all]. pose proof (emit_ok before (now 0%nat) rec pid fmt pause c ts m k Hok Hm) as Ho.
  destruct (emit_and_process _ rec pid fmt pause c ts m k) as [[[[o c1] ts1] m1] k1]. destruct Ho as [Hok1 Hm1].
  pose proof (IH (fun i => now (S i)) pid fmt pause c1 ts1 m1 k1 Hok1 Hm1) as Ho2.
  by destruct (emit_all _ recs pid fmt pause c1 ts1 m1 k1) as [[[[os c2] ts2] m2] k2].
Qed.

Lemma poll_fds c n w m k : fds (hwt_ctx_poll_records c n w m k).2 = fds k.
Proof.
  unfold hwt_ctx_poll_records. destruct (malloc m) as [[l|] m1]; [|done].
  match goal with |- context [k_record_get ?f ?n ?w k] =>
    pose proof (record_get_fds f n w k) as E; destruct (k_record_get f n w k) as [r k1] end.
  exact E.
Qed.

Lemma drain_fds fuel : forall e total c ts m k r,
  drain_loop fuel e total c ts m k = Some r -> fds r.2 = fds k.
Proof.
  induction fuel as [|fuel IH]; intros e total c ts m k r; [done|]. cbn [drain_loop].
  case_bool; [by intros [= <-]|].
  pose proof (poll_fds c POST_STOP_MAX_RECORDS false m k) as E0.
  destruct (hwt_ctx_poll_records c POST_STOP_MAX_RECORDS false m k) as [[[[|r0 rs]|] m1] k1]; simpl in E0.
  - intros Hr%IH. congruence.
  - destruct (process_all ts (r0 :: rs) m1) as [ts2 m2]. intros Hr%IH. congruence.
  - by intros [= <-].
Qed.

Lemma drain_mem fuel : forall e total c ts m k r,
  mem_ok m -> drain_loop fuel e total c ts m k = Some r -> mem_ok r.1.2.
Proof.
  induction fuel as [|fuel IH]; intros e total c ts m k r Hm; [done|]. cbn [drain_loop].
  case_bool; [by intros [= <-]|].
  destruct (hwt_ctx_poll_records c POST_STOP_MAX_RECORDS false m k) as [[[[|r0 rs]|] m1] k1] eqn:Ep;
    pose proof (poll_mem _ _ _ _ _ _ _ _ Ep Hm) as Hm1.
  - by apply IH.
  - destruct (process_all_mem (r0 :: rs) ts m1 m1 Hm1 Hm1) as [_ Hm2].
    destruct (process_all ts (r0 :: rs) m1) as [ts2 m2]. by apply IH.
  - by intros [= <-].
Qed.

Lemma ensure_kernel_mem ts m : mem_ok m -> mem_ok (trace_state_ensure_kernel ts m).2.
Proof.
  intros Hm. unfold trace_state_ensure_kernel. case_bool; [done|]. destruct kern_base_address; [|done].
  unfold trace_state_add_section. case_bool; [done|]. case_bool; [|done].
  by destruct (malloc_ok m Hm) as (m1 & -> & _ & Hm1).
Qed.

Lemma thread_meta_fds c ts tid p m k :
  mem_ok m -> fds (write_thread_meta c ts tid p m k).2 = fds k /\ mem_ok (write_thread_meta c ts tid p m k).1.
Proof.
  intros Hm. unfold write_thread_meta. destruct (malloc_ok m Hm) as (m1 & -> & _ & Hm1).
  pose proof (fopen_fds (derive_meta_path p MAXPATHLEN) k) as E.
  destruct (k_fopen _ k) as [[] k1]; simpl in E |- *; [by rewrite fclose_fds|done].
Qed.

(** A thread's pass: it ends, and leaves the descriptors as they were. *)
Lemma snapshot_thread_ok c ts p fmt dopts tc m k :
  builds_stacks fmt = false -> filter_ok (Some dopts) -> mem_ok m ->
  exists r m' k', snapshot_thread c ts p fmt dopts tc m k = Some (r, m', k') /\ fds k' = fds k /\
    t_fd (tr_thread r) = t_fd tc /\ t_thread_id (tr_thread r) = t_thread_id tc /\ mem_ok m'.
Proof.
  intros Hfmt Hfl Hm. unfold snapshot_thread.
  pose proof (bufptr_fds (t_fd tc) k) as E0. destruct (k_bufptr_get (t_fd tc) k) as [bp k0]. simpl in E0.
  cbv zeta. set (tl := if bufsize c <? _ then 0 else _).
  assert (E1 : fds (match t_trace_buf tc with Some p => (Some p, k0)
                    | None => k_mmap (t_fd tc) (bufsize c) k0 end).2 = fds k).
  { destruct (t_trace_buf tc); [done|]. by rewrite mmap_fds. }
  destruct (match t_trace_buf tc with Some p => _ | None => _ end) as [[buf|] k1]; simpl in E1;
    [|by eexists _, _, _].
  pose proof (choose_len_mem (k_bytes buf k1) tl (ts_sections ts) m Hm) as Hm1.
  destruct (choose_snapshot_len _ tl _ m) as [n m1]. cbn [snd] in Hm1.
  case_bool; [by eexists _, _, _|].
  pose proof (open_gains (thread_pt_path p (t_thread_id tc)) k1) as G. cbn [t_thread_id t_fd].
  destruct (k_open _ k1) as [[tfd|] k2]; [|eexists _, _, _; split_and!; [done| |done..]; simpl in G; congruence].
  cbn [fst snd] in G.
  match goal with |- context [write_loop (S (length ?d)) tfd ?d k2] =>
    pose proof (write_loop_done (S (length d)) tfd d k2 ltac:(lia)) as Hd;
    pose proof (write_loop_fds (S (length d)) tfd d k2) as Hf;
    destruct (write_loop (S (length d)) tfd d k2) as [[[]|] k3]; [| |done] end;
  pose proof (open_close_fds tfd k1 k2 k3 G Hf) as Hc.
  - destruct (thread_meta_fds c ts (t_thread_id tc) (thread_pt_path p (t_thread_id tc)) m1 (k_close tfd k3) Hm1)
      as [Hw Hm4].
    destruct (write_thread_meta _ _ _ _ m1 (k_close tfd k3)) as [m4 k4]. cbn [fst snd] in Hw, Hm4.
    match goal with |- context [decode_pt_insn ?b ?ss ?f ?o m4] =>
      destruct (decode_ends b ss f o m4 Hfmt Hfl Hm4) as (d & m5 & -> & Hm5) end.
    eexists _, _, _. split_and!; [done|congruence|done..].
  - eexists _, _, _. split_and!; [done|congruence|done..].
Qed.

Lemma snapshot_threads_ok c ts p fmt dopts tcs :
  builds_stacks fmt = false -> filter_ok (Some dopts) -> forall saved m k,
  mem_ok m ->
  exists tcs' saved' out m' k', snapshot_threads c ts p fmt dopts tcs saved m k =
      Some (tcs', saved', out, m', k') /\ fds k' = fds k /\
    map t_fd tcs' = map t_fd tcs /\ map t_thread_id tcs' = map t_thread_id tcs.
Proof.
  intros Hfmt Hfl. induction tcs as [|tc tcs IH]; intros saved m k Hm; [by eexists _, _, _, _, _|].
  cbn [snapshot_threads]. destruct (snapshot_thread_ok c ts p fmt dopts tc m k Hfmt Hfl Hm) as (r & m1 & k1 & -> & E1 & E2 & E3 & Hm1). simpl.
  destruct (IH (if 0 <=? saved then saved + tr_saved r else saved) m1 k1 Hm1)
    as (tcs' & s' & out & m2 & k2 & -> & E4 & E5 & E6). simpl.
  eexists _, _, _, _, _. split_and!; [done|congruence| |]; simpl; congruence.
Qed.

Lemma ctx_ok_threads before c k b tcs :
  map t_fd tcs = map t_fd (threads c) -> map t_thread_id tcs = map t_thread_id (threads c) ->
  ctx_ok before c k -> ctx_ok before (set_bufs b tcs c) k.
Proof.
  intros Ef Ei [[Hf Hd] [Hl Hn]].
  assert (Hc : ctx_fds (set_bufs b tcs c) = ctx_fds c) by (unfold ctx_fds; simpl; by rewrite Ef).
  split; [split; by rewrite Hc|]. split; simpl; [|by rewrite Ei].
  rewrite <- (length_map t_fd tcs), Ef, length_map. exact Hl.
Qed.

Lemma snapshot_and_decode_ok before c ts p fmt opts m k :
  builds_stacks fmt = false -> filter_ok opts -> ctx_ok before c k -> mem_ok m ->
  exists saved out c' m' k', snapshot_and_decode c ts p fmt opts m k = Some (saved, out, c', m', k') /\
    ctx_ok before c' k'.
Proof.
  intros Hfmt Hfl Hok Hm0. unfold snapshot_and_decode, hwt_ctx_bufptr_get.
  assert (Hfo : forall c, filter_ok (Some (snapshot_opts c opts))) by (intros c0; destruct opts; [exact Hfl|constructor]).
  pose proof (bufptr_fds (ctx_fd c) k) as E0. destruct (k_bufptr_get (ctx_fd c) k) as [stop k0]. simpl in E0.
  pose proof (map_buffer_ok before c k0 (ctx_ok_fds _ _ _ _ E0 Hok)) as Hm.
  destruct (hwt_ctx_map_buffer c k0) as [[[buf|] c1] k1]; [|by eexists _, _, _, _, _; destruct Hm].
  destruct Hm as [Hok1 _]. cbv zeta.
  match goal with |- context [choose_snapshot_len ?b ?l ?ss m] =>
    pose proof (choose_len_mem b l ss m Hm0) as Hm1; destruct (choose_snapshot_len b l ss m) as [n m1] end.
  cbn [snd] in Hm1. case_bool; [by eexists _, _, _, _, _|].
  match goal with |- context [hwt_ctx_snapshot_buffer c1 p ?a ?b k1] =>
    pose proof (snapshot_ok before c1 p a b k1 Hok1) as Hs;
    destruct (hwt_ctx_snapshot_buffer c1 p a b k1) as [[[saved|] c2] k2]; [|by destruct Hs] end.
  destruct Hs as (_ & Hok2 & _). cbn [mbind option_bind].
  match goal with |- context [mbind _ ?x] =>
    assert (Hd : exists out m2, x = Some (out, m2) /\ mem_ok m2) end.
  { case_bool; [|by eexists _, _]. match goal with |- context [decode_pt_insn ?b ?ss ?f ?o m1] =>
      destruct (decode_ends b ss f o m1 Hfmt (Hfo _) Hm1) as (d & m2 & -> & Hm2) end. by eexists _, _. }
  destruct Hd as (out0 & m2 & -> & Hm2). cbn [mbind option_bind].
  case_bool; [|by eexists _, _, _, _, _].
  match goal with |- context [snapshot_threads c2 ts p fmt ?o (threads c2) saved m2 k2] =>
    destruct (snapshot_threads_ok c2 ts p fmt o (threads c2) Hfmt (Hfo _) saved m2 k2 Hm2)
      as (tcs' & s' & out & m3 & k3 & -> & E3 & E4 & E5) end.
  simpl. eexists _, _, _, _, _. split; [done|]. apply ctx_ok_threads; [done|done|].
  by eapply ctx_ok_fds.
Qed.

(** A traced session always ends, with the descriptors of its context, its
    threads and its files given back: finalizing drains what is left,
    saves, decodes and closes, whatever fails on the way (in the formats whose
    recorder stays in bounds). *)
Theorem finalize_ends_clean before now c ts p pid fmt total opts m k :
  builds_stacks fmt = false -> filter_ok opts -> ctx_ok before c k -> mem_ok m ->
  exists fuel fin, trace_finalize fuel now c ts p pid fmt total opts m k = Some fin /\
    fds (fin_kernel fin) = before.
Proof.
  intros Hfmt Hfl Hok Hm. unfold trace_finalize.
  pose proof (poll_fds c POLL_RECORDS false m k) as E0.
  destruct (hwt_ctx_poll_records c POLL_RECORDS false m k) as [[r m0] k0] eqn:Ep. simpl in E0.
  pose proof (poll_mem _ _ _ _ _ _ _ _ Ep Hm) as Hm0. cbv zeta.
  pose proof (emit_all_ok before (default [] r) now pid fmt true c ts m0 k0
    (ctx_ok_fds _ _ _ _ E0 Hok) Hm0) as Ha.
  destruct (emit_all now (default [] r) pid fmt true c ts m0 k0) as [[[[out c1] ts1] m1] k1].
  destruct Ha as [Hok1 Hm1].
  assert (Es : fds (hwt_ctx_stop c1 k1).2 = fds k1).
  { unfold hwt_ctx_stop. case_bool; [done|apply stop_fds]. }
  destruct (hwt_ctx_stop c1 k1) as [ok k2]. simpl in Es.
  destruct (drain_loop_spec (41 * pending k2 + 41) 0 0 c1 ts1 m1 k2 Hm1 ltac:(lia) ltac:(lia))
    as (total' & ts2 & m2 & k3 & rss & Ed & _).
  exists (41 * pending k2 + 41)%nat.
  pose proof (drain_fds _ _ _ _ _ _ _ _ Ed) as Ef. simpl in Ef.
  unfold trace_state_drain_post_stop. rewrite Ed. cbn [mbind option_bind].
  pose proof (drain_mem _ _ _ _ _ _ _ _ Hm1 Ed) as Hm2. cbn [fst snd] in Hm2.
  assert (Hm3 : mem_ok (if os_trace c1 then trace_state_ensure_kernel ts2 m2 else (ts2, m2)).2).
  { case_bool; [by apply ensure_kernel_mem|done]. }
  destruct (if os_trace c1 then trace_state_ensure_kernel ts2 m2 else (ts2, m2)) as [ts3 m3].
  destruct (snapshot_and_decode_ok before c1 ts3 p fmt opts m3 k3) as (saved & dec & c2 & m4 & k4 & -> & Hok4);
    [done|done|eapply ctx_ok_fds; [|exact Hok1]; congruence|done|].
  cbn [mbind option_bind]. pose proof (close_owned before c2 k4 (proj1 Hok4)) as Hcl.
  destruct (hwt_ctx_close c2 k4) as [c3 k5]. eexists. split; [done|]. exact Hcl.
Qed.
End finalize.
