(* ===== verification/Kept.v ===== *)
(** A frame rule for the trace code: what every system call it makes on
    descriptors, buffers and files leaves alone, its functions leave alone.

    [Kept f] states it of a part [f] of the kernel's state, call by call; the
    lemmas carry it from hwt.c to [trace_finalize].  Configuring and starting
    a context are not among the calls: only the commands make them. *)

From Stdlib Require Import ZArith Lia Ascii String.
From stdpp Require Import base list strings sets gmap sorting.
From S2P Require Import Prelude CLib Types Meta Resolve Hwt Trace Profile Snapshot.

Class Kept `{Files} {A} (f : kernel -> A) : Prop := {
  kept_open : forall p k, f (k_open p k).2 = f k;
  kept_kqueue : forall k, f (k_kqueue k).2 = f k;
  kept_close : forall fd k, f (k_close fd k) = f k;
  kept_mmap : forall fd len k, f (k_mmap fd len k).2 = f k;
  kept_munmap : forall p k, f (k_munmap p k) = f k;
  kept_write : forall fd d k, f (k_write fd d k).2 = f k;
  kept_alloc : forall fd a k, f (k_alloc fd a k).2 = f k;
  kept_stop : forall fd k, f (k_stop fd k).2 = f k;
  kept_wakeup : forall fd k, f (k_wakeup fd k).2 = f k;
  kept_record_get : forall fd n w k, f (k_record_get fd n w k).2 = f k;
  kept_bufptr : forall fd k, f (k_bufptr_get fd k).2 = f k;
  kept_fopen : forall p k, f (k_fopen p k).2 = f k;
  kept_fclose : forall p t k, f (k_fclose p t k) = f k;
}.

(** In a goal about [f k], one call on [k] is run and the goal moves to the
    kernel after it. *)
Ltac keep_call law op :=
  let E := fresh "E" in
  pose proof law as E; destruct op as [? ?]; cbn [fst snd] in E; rewrite <- ?E; clear E.

Ltac keep_with f k :=
  match goal with
  | |- context [k_open ?p k] => keep_call (kept_open (f := f) p k) (k_open p k)
  | |- context [k_kqueue k] => keep_call (kept_kqueue (f := f) k) (k_kqueue k)
  | |- context [k_mmap ?a ?b k] => keep_call (kept_mmap (f := f) a b k) (k_mmap a b k)
  | |- context [k_write ?a ?b k] => keep_call (kept_write (f := f) a b k) (k_write a b k)
  | |- context [k_alloc ?a ?b k] => keep_call (kept_alloc (f := f) a b k) (k_alloc a b k)
  | |- context [k_stop ?a k] => keep_call (kept_stop (f := f) a k) (k_stop a k)
  | |- context [k_wakeup ?a k] => keep_call (kept_wakeup (f := f) a k) (k_wakeup a k)
  | |- context [k_record_get ?a ?b ?c k] => keep_call (kept_record_get (f := f) a b c k) (k_record_get a b c k)
  | |- context [k_bufptr_get ?a k] => keep_call (kept_bufptr (f := f) a k) (k_bufptr_get a k)
  | |- context [k_fopen ?a k] => keep_call (kept_fopen (f := f) a k) (k_fopen a k)
  end.

(** The cases of an answer. *)
Ltac on_answer := match goal with |- context [match ?x with _ => _ end] => is_var x; destruct x end.

Section kept.
Context `{KF : Kept (A := A) f}.

Lemma close_if_open_kept fd k : f (close_if_open fd k) = f k.
Proof. unfold close_if_open. case_bool; [apply kept_close|done]. Qed.

Lemma close_threads_kept ts k : f (close_threads ts k) = f k.
Proof.
  revert k. induction ts as [|t ts IH]; intros k; [done|]. cbn [close_threads]. rewrite IH.
  destruct (t_trace_buf t); rewrite ?close_if_open_kept, ?kept_munmap; try done;
    case_bool; rewrite ?kept_close, ?kept_munmap; done.
Qed.

Lemma ctx_close_kept c k : f (hwt_ctx_close c k).2 = f k.
Proof.
  unfold hwt_ctx_close. cbn [snd]. rewrite !close_if_open_kept.
  destruct (trace_buf c); rewrite ?kept_munmap, close_threads_kept; (case_bool; [apply kept_stop|done]).
Qed.

Lemma ctx_alloc_kept md pid tid size b k : f (hwt_ctx_alloc md pid tid size b k).2 = f k.
Proof.
  assert (Hfail : forall c k, f (let '(c, k) := hwt_ctx_close c k in (false, c, k)).2 = f k).
  { intros c k'. pose proof (ctx_close_kept c k') as E. by destruct (hwt_ctx_close c k'). }
  unfold hwt_ctx_alloc. destruct b as [[|ch b]|]; [done| |done]. case_bool; [done|].
  keep_with f k. on_answer; [|done]. keep_with f k0. on_answer; [|by rewrite Hfail].
  keep_with f k1. on_answer; [|by rewrite Hfail]. keep_with f k2. on_answer; [done|by rewrite Hfail].
Qed.

Lemma map_buffer_kept c k : f (hwt_ctx_map_buffer c k).2 = f k.
Proof. unfold hwt_ctx_map_buffer. destruct (trace_buf c); [done|]. keep_with f k. by on_answer. Qed.

Lemma write_loop_kept fuel fd d k : f (write_loop fuel fd d k).2 = f k.
Proof.
  revert d k. induction fuel as [|n IH]; intros d k; [done|]. cbn [write_loop].
  destruct d as [|x d]; [done|]. keep_with f k. on_answer; [|done]. apply IH.
Qed.

Lemma snapshot_buffer_kept c p a b k : f (hwt_ctx_snapshot_buffer c p a b k).2 = f k.
Proof.
  unfold hwt_ctx_snapshot_buffer. case_bool; [done|]. rewrite <- (map_buffer_kept c k).
  destruct (hwt_ctx_map_buffer c k) as [[[buf|] c1] k1]; [|done]. case_bool; [done|]. cbn [snd].
  keep_with f k1. on_answer; [|done].
  match goal with |- context [write_loop ?n ?fd ?d ?k] =>
    rewrite <- (write_loop_kept n fd d k); destruct (write_loop n fd d k) as [[[]|] k2] end;
    cbn [snd]; by rewrite ?kept_close.
Qed.

Lemma open_thread_kept c t k : f (hwt_ctx_open_thread c t k).2 = f k.
Proof. unfold hwt_ctx_open_thread. repeat (case_bool; [done|]). keep_with f k. by on_answer. Qed.

Lemma poll_kept c n w m k : f (hwt_ctx_poll_records c n w m k).2 = f k.
Proof. unfold hwt_ctx_poll_records. destruct (malloc m) as [[l|] m1]; [|done]. by keep_with f k. Qed.

Lemma emit_kept now rec pid fmt pause c ts m k : f (emit_and_process now rec pid fmt pause c ts m k).2 = f k.
Proof.
  unfold emit_and_process.
  set (k1 := if (pause && _)%bool then _ else k).
  assert (E1 : f k1 = f k) by (subst k1; case_bool; [apply kept_wakeup|done]). clearbody k1. rewrite <- E1.
  pose proof (open_thread_kept c (r_thread_id rec) k1) as E2.
  destruct (hwt_ctx_open_thread c (r_thread_id rec) k1) as [[r c1] k2].
  destruct (trace_state_process ts rec m) as [ts1 m1].
  repeat case_bool; cbn [snd] in *; done.
Qed.

Lemma emit_all_kept recs : forall now pid fmt pause c ts m k,
  f (emit_all now recs pid fmt pause c ts m k).2 = f k.
Proof.
  induction recs as [|rec recs IH]; intros now pid fmt pause c ts m k; [done|]. cbn [emit_all].
  rewrite <- (emit_kept (now 0%nat) rec pid fmt pause c ts m k).
  destruct (emit_and_process _ rec pid fmt pause c ts m k) as [[[[o c1] ts1] m1] k1]. cbn [snd].
  rewrite <- (IH (fun i => now (S i)) pid fmt pause c1 ts1 m1 k1).
  by destruct (emit_all _ recs pid fmt pause c1 ts1 m1 k1) as [[[[os c2] ts2] m2] k2].
Qed.

Lemma drain_kept fuel : forall e total c ts m k r,
  drain_loop fuel e total c ts m k = Some r -> f r.2 = f k.
Proof.
  induction fuel as [|fuel IH]; intros e total c ts m k r; [done|]. cbn [drain_loop].
  case_bool; [by intros [= <-]|]. pose proof (poll_kept c POST_STOP_MAX_RECORDS false m k) as E0.
  destruct (hwt_ctx_poll_records c _ false m k) as [[[[|r0 rs]|] m1] k1]; cbn [snd] in E0.
  - intros Hr%IH. congruence.
  - destruct (process_all ts (r0 :: rs) m1) as [ts2 m2]. intros Hr%IH. congruence.
  - by intros [= <-].
Qed.

Lemma thread_meta_kept c ts tid p m k : f (write_thread_meta c ts tid p m k).2 = f k.
Proof.
  unfold write_thread_meta. destruct (malloc m) as [[l|] m1]; [|done]. keep_with f k.
  case_bool; [apply kept_fclose|done].
Qed.

Lemma snapshot_thread_kept `{Decoder} c ts p fmt dopts tc m k r m' k' :
  snapshot_thread c ts p fmt dopts tc m k = Some (r, m', k') -> f k' = f k.
Proof.
  unfold snapshot_thread. intros E. revert E. keep_with f k. cbv zeta.
  set (tl := if bufsize c <? _ then 0 else _).
  assert (E1 : f (match t_trace_buf tc with Some p => (Some p, k0)
                  | None => k_mmap (t_fd tc) (bufsize c) k0 end).2 = f k0).
  { destruct (t_trace_buf tc); [done|]. apply kept_mmap. }
  destruct (match t_trace_buf tc with Some p => _ | None => _ end) as [[buf|] k1]; cbn [snd] in E1;
    [|by intros [= <- <- <-]].
  destruct (choose_snapshot_len _ tl _ m) as [n m1]. rewrite <- E1. case_bool; [by intros [= <- <- <-]|].
  keep_with f k1. on_answer; [|by intros [= <- <- <-]].
  match goal with |- context [write_loop ?n ?fd ?d ?k] =>
    rewrite <- (write_loop_kept n fd d k); destruct (write_loop n fd d k) as [[[]|] k3] end; [| |done];
    cbn [snd]; [|intros [= <- <- <-]; apply kept_close].
  match goal with |- context [write_thread_meta ?a ?b ?d ?e ?g ?k] =>
    pose proof (thread_meta_kept a b d e g k) as E2; destruct (write_thread_meta a b d e g k) as [m4 k4] end.
  rewrite kept_close in E2. destruct (decode_pt_insn _ _ _ _ m4) as [[d m5]|]; [|done].
  by intros [= <- <- <-].
Qed.

Lemma snapshot_threads_kept `{Decoder} c ts p fmt dopts tcs : forall saved m k r m' k',
  snapshot_threads c ts p fmt dopts tcs saved m k = Some (r, m', k') -> f k' = f k.
Proof.
  induction tcs as [|tc tcs IH]; intros saved m k r m' k'; cbn [snapshot_threads]; [by intros [= <- <- <-]|].
  destruct (snapshot_thread c ts p fmt dopts tc m k) as [[[r1 m1] k1]|] eqn:E1; [|done].
  apply snapshot_thread_kept in E1. cbn [mbind option_bind].
  destruct (snapshot_threads c ts p fmt dopts tcs _ m1 k1) as [[[[[tcs' s'] out] m2] k2]|] eqn:E2; [|done].
  apply IH in E2. cbn [mbind option_bind]. intros [= <- <- <-]. congruence.
Qed.

Lemma snapshot_and_decode_kept `{Decoder} c ts p fmt opts m k r k' :
  snapshot_and_decode c ts p fmt opts m k = Some (r, k') -> f k' = f k.
Proof.
  unfold snapshot_and_decode, hwt_ctx_bufptr_get. intros E. revert E. keep_with f k.
  rewrite <- (map_buffer_kept c k0). destruct (hwt_ctx_map_buffer c k0) as [[[buf|] c1] k1];
    [|by intros [= <- <-]]. cbv zeta. destruct (choose_snapshot_len _ _ _ m) as [n m1].
  case_bool; [by intros [= <- <-]|]. cbn [snd].
  match goal with |- context [hwt_ctx_snapshot_buffer c1 p ?a ?b k1] =>
    rewrite <- (snapshot_buffer_kept c1 p a b k1); destruct (hwt_ctx_snapshot_buffer c1 p a b k1) as [[[saved|] c2] k2] end;
    [|done]. cbn [mbind option_bind snd].
  match goal with |- context [mbind _ ?x] => destruct x as [[out m2]|]; [|done] end. cbn [mbind option_bind].
  case_bool; [|by intros [= <- <-]].
  match goal with |- context [snapshot_threads ?a ?b ?d ?e ?g ?h ?i ?j k2] =>
    destruct (snapshot_threads a b d e g h i j k2) as [[[[[tcs' s'] tout] m3] k3]|] eqn:Et; [|done] end.
  apply snapshot_threads_kept in Et. cbn [mbind option_bind]. intros [= <- <-]. congruence.
Qed.

(** So does the end of a session. *)
Lemma finalize_kept `{Decoder, SysInfo} fuel now c ts p pid fmt total opts m k fin :
  trace_finalize fuel now c ts p pid fmt total opts m k = Some fin -> f (fin_kernel fin) = f k.
Proof.
  unfold trace_finalize. rewrite <- (poll_kept c POLL_RECORDS false m k).
  destruct (hwt_ctx_poll_records c POLL_RECORDS false m k) as [[r m0] k0]. cbv zeta. cbn [snd].
  rewrite <- (emit_all_kept (default [] r) now pid fmt true c ts m0 k0).
  destruct (emit_all now (default [] r) pid fmt true c ts m0 k0) as [[[[out c1] ts1] m1] k1]. cbn [snd].
  assert (Es : f (hwt_ctx_stop c1 k1).2 = f k1) by (unfold hwt_ctx_stop; case_bool; [done|apply kept_stop]).
  destruct (hwt_ctx_stop c1 k1) as [ok k2]. cbn [snd] in Es. rewrite <- Es.
  unfold trace_state_drain_post_stop.
  destruct (drain_loop fuel 0 0 c1 ts1 m1 k2) as [[[[dr ts2] m2] k3]|] eqn:Ed; [|done].
  apply drain_kept in Ed. cbn [mbind option_bind snd] in *.
  destruct (if os_trace c1 then trace_state_ensure_kernel ts2 m2 else (ts2, m2)) as [ts3 m3].
  destruct (snapshot_and_decode c1 ts3 p fmt opts m3 k3) as [[[[[saved dec] c2] m4] k4]|] eqn:Ess; [|done].
  apply snapshot_and_decode_kept in Ess. cbn [mbind option_bind].
  pose proof (ctx_close_kept c2 k4) as Ec. destruct (hwt_ctx_close c2 k4) as [c3 k5].
  intros [= <-]. cbn [fin_kernel snd] in *. congruence.
Qed.
End kept.
