(* ===== verification/Decode.v ===== *)
(** decode.c, the instruction decoder: the probe that compares candidate
    lengths and the decode that feeds the recorders or prints instructions.

    libipt's instruction decoder is outside the repository:
    [PtInsnDecoder] is its interface and [InsnLaws] the progress it documents.
    The two loops of the code share their control; [insn_loop] is that loop,
    with what each does on an event, an error and an instruction. *)

From Stdlib Require Import ZArith Lia Ascii String.
From stdpp Require Import base list strings sets gmap sorting.
From S2P Require Import Prelude CLib Types Elf Symbols Format Trace CallTree Profile Collapsed.
From S2P Require Import Callers Packets Image Snapshot.

(** * libipt *)

Inductive pt_event := ptev_overflow | ptev_ptwrite (payload ip : Z) | ptev_other.

Record pt_insn := { insn_ip : Z; iclass : pt_insn_class }.

(** What [pt_insn_time] leaves in [tsc], [lost_mtc] and [lost_cyc], which are
    zero before the call. *)
Record pt_time := { t_now : Z; t_lost_mtc : Z; t_lost_cyc : Z }.

(** A negative status is an error; events are pending when the status has the
    bits of [pts_event_pending].  A decoder is allocated for a buffer and the
    MTC frequency to assume (0 when unknown). *)
Class PtInsnDecoder `{PtImage} := {
  insn_decoder : Type;
  pts_event_pending : Z;
  insn_eos : Z;                                     (* -pte_eos *)
  insn_nomap : Z;                                   (* -pte_nomap *)
  pt_insn_alloc_decoder : list Z -> Z -> option insn_decoder;
  pt_insn_set_image : insn_decoder -> pt_image -> Z * insn_decoder;
  pt_insn_sync_forward : insn_decoder -> Z * insn_decoder;
  pt_insn_event : insn_decoder -> Z * pt_event * insn_decoder;
  pt_insn_next : insn_decoder -> Z * pt_insn * insn_decoder;
  pt_insn_time : insn_decoder -> pt_time;
  insn_left : insn_decoder -> nat;                  (* how much trace is left *)
}.

(** * The loop *)

Section loop.
Context `{PtInsnDecoder} {A : Type}.
Context (on_event : pt_event -> A -> A) (on_error : Z -> A -> A).
Context (on_insn : pt_insn -> pt_time -> A -> option A).

Definition events_pending (status : Z) : bool := negb (Z.land status pts_event_pending =? 0).

(** [while (status & pts_event_pending)]. *)
Fixpoint events_loop (fuel : nat) (status : Z) (dec : insn_decoder) (a : A)
    : option (Z * insn_decoder * A) :=
  match fuel with
  | O => None
  | S fuel =>
      if negb (events_pending status) then Some (status, dec, a)
      else
        let '(status, ev, dec) := pt_insn_event dec in
        if status <? 0 then Some (status, dec, a)
        else events_loop fuel status dec (on_event ev a)
  end.

(** [while (status >= 0)]; [None] when the fuel runs out or an instruction's
    handling fails. *)
Fixpoint insn_loop (fuel : nat) (status : Z) (dec : insn_decoder) (a : A) : option A :=
  match fuel with
  | O => None
  | S fuel' =>
      if status <? 0 then Some a
      else
        '(status, dec, a) ← events_loop fuel status dec a;
        if status <? 0 then Some a
        else
          let '(status, insn, dec) := pt_insn_next dec in
          if status <? 0 then
            if status =? insn_eos then Some a
            else
              let a := on_error status a in
              let '(status, dec) := pt_insn_sync_forward dec in
              insn_loop fuel' status dec a
          else
            a ← on_insn insn (pt_insn_time dec) a;
            insn_loop fuel' status dec a
  end.
End loop.

(** Progress: what succeeds consumes trace, what fails gives none back. *)
Class InsnLaws `{PtInsnDecoder} := {
  insn_image_left : forall d im,
    (insn_left (pt_insn_set_image d im).2 <= insn_left d)%nat;
  insn_sync_left : forall d,
    let '(status, d') := pt_insn_sync_forward d in
    (insn_left d' + (if (0 <=? status)%Z then 1 else 0) <= insn_left d)%nat;
  insn_event_left : forall d,
    let '(status, _, d') := pt_insn_event d in
    (insn_left d' + (if (0 <=? status)%Z then 1 else 0) <= insn_left d)%nat;
  insn_next_left : forall d,
    let '(status, _, d') := pt_insn_next d in
    (insn_left d' + (if (0 <=? status)%Z then 1 else 0) <= insn_left d)%nat;
}.

(** Enough for the loop ([insn_loop_run]). *)
Definition insn_fuel `{PtInsnDecoder} (d : insn_decoder) : nat := S (S (insn_left d)).

(** * The probe *)

Definition EXEC_BINS : nat := 16.

(** Whether an instruction is in one of the program's own binaries. *)
Definition probe_hit (st : sym_table) (ranges : list bin_range) (exec_bins : list string)
    (insn : pt_insn) : bool :=
  match sym_table_lookup st (insn_ip insn) with
  | Some sym => is_exec_binary (Some (chars (s_binary sym))) exec_bins
  | None =>
      match find_binary_for_ip ranges (insn_ip insn) with
      | Some (bn, _) => is_exec_binary (Some bn) exec_bins
      | None => false
      end
  end.

Definition probe_insn (st : sym_table) (ranges : list bin_range) (exec_bins : list string)
    (insn : pt_insn) (pr : decode_probe_result) : decode_probe_result :=
  {| pr_total := pr_total pr + 1;
     pr_exec_hits := if probe_hit st ranges exec_bins insn then pr_exec_hits pr + 1 else pr_exec_hits pr |}.

Section probe.
Context `{LibElf} `{PtInsnDecoder} `{QSort}.

(** [None] when the loop does not end; else the result, if the probe
    succeeds. *)
Definition probe_buffer (buf : list Z) (sections : list pt_image_info) (m : mem)
    : option (option decode_probe_result) * mem :=
  match buf, sections with
  | [], _ | _, [] => (Some None, m)
  | _, _ =>
      let '(image, st, m) := build_pt_image sections sym_table_init m in
      match image with
      | None => (Some None, m)
      | Some image =>
          let exec_bins := collect_exec_binaries sections EXEC_BINS [] in
          let '(ranges, m) := build_bin_ranges sections MAX_BIN_RANGES m in
          match pt_insn_alloc_decoder buf 0 with
          | None => (Some None, m)
          | Some dec =>
              let '(status, dec) := pt_insn_set_image dec image in
              if status <? 0 then (Some None, m)
              else
                let '(status, dec) := pt_insn_sync_forward dec in
                (pr ← insn_loop (fun _ pr => pr) (fun _ pr => pr)
                        (fun insn _ pr => Some (probe_insn st ranges exec_bins insn pr))
                        (insn_fuel dec) status dec {| pr_total := 0; pr_exec_hits := 0 |};
                 Some (if 0 <? pr_total pr then Some pr else None), m)
          end
      end
  end.
End probe.

(** * Printing an instruction *)

Definition SYSCALL_PREFIX : string := "__sys_".

(** The name of the system call a wrapper makes. *)
Definition syscall_name (cls : pt_insn_class) (sym : option sym_entry) : option string :=
  match cls, sym with
  | ptic_far_call, Some s =>
      if String.eqb (str_take (String.length SYSCALL_PREFIX) (chars (s_name s))) SYSCALL_PREFIX
      then Some (str_drop (String.length SYSCALL_PREFIX) (chars (s_name s))) else None
  | _, _ => None
  end.

(** The JSON object of an instruction: located by its symbol, else by its
    binary, else by its address alone. *)
Definition insn_json (label : string) (insn : pt_insn) (sym : option sym_entry)
    (bn : option (string * Z)) (sysname : option string) (tsc tid : Z) : string :=
  let hd := dq "{'insn':'" +:+ label +:+ dq "','ip':'0x" +:+ fmt_x (insn_ip insn) +:+ dq "'" in
  let place :=
    match sym, bn with
    | Some s, _ =>
        dq ",'sym':'" +:+ json_escape 256 (chars (s_name s)) +:+ dq "','off':" +:+
        fmt_u (u64 (insn_ip insn - s_addr s)) +:+
        dq ",'bin':'" +:+ json_escape 256 (chars (s_binary s)) +:+ dq "'" +:+
        match sysname with
        | Some n => dq ",'syscall':'" +:+ json_escape 256 n +:+ dq "'"
        | None => EmptyString
        end
    | None, Some (b, off) =>
        dq ",'off':" +:+ fmt_u off +:+ dq ",'bin':'" +:+ json_escape 256 b +:+ dq "'"
    | None, None => EmptyString
    end in
  hd +:+ place +:+
  (if 0 <? tsc then dq ",'tsc':" +:+ fmt_u tsc else EmptyString) +:+
  (if 0 <=? tid then dq ",'tid':" +:+ fmt_d tid else EmptyString) +:+ "}".

Definition insn_text (label : string) (insn : pt_insn) (sym : option sym_entry)
    (bn : option (string * Z)) (sysname : option string) : string :=
  "  " +:+ padr 9 label +:+ " " +:+
  match sym, bn with
  | Some s, _ =>
      let off := u64 (insn_ip insn - s_addr s) in
      let fn := chars (s_binary s) +:+ ":" +:+ chars (s_name s) +:+
                (if off =? 0 then EmptyString else "+0x" +:+ fmt_x off) in
      match sysname with
      | Some n => n +:+ " (" +:+ fn +:+ ")"
      | None => fn
      end
  | None, Some (b, off) => b +:+ "+0x" +:+ fmt_x off
  | None, None => hex16 (insn_ip insn)
  end.

(** The line of an instruction, unless it has no label or is filtered out;
    [None] when the filter compares with a null name. *)
Definition insn_line (fmt : bsdtrace_fmt) (opts : option pt_decode_opts) (tid : Z) (st : sym_table)
    (ranges : list bin_range) (insn : pt_insn) (tsc : Z) : option (list string) :=
  match insn_class_str (iclass insn) with
  | None => Some []
  | Some label =>
      let sym := sym_table_lookup st (insn_ip insn) in
      matches ← filter_matches opts ((fun s => chars (s_name s)) <$> sym);
      if negb matches then Some []
      else
        let bn := match sym with
                  | Some _ => None
                  | None => find_binary_for_ip ranges (insn_ip insn)
                  end in
        let sysname := syscall_name (iclass insn) sym in
        Some [if bool_decide (fmt = FMT_JSON) then insn_json label insn sym bn sysname tsc tid
              else insn_text label insn sym bn sysname]
  end.

Definition ptwrite_line (fmt : bsdtrace_fmt) (payload ip : Z) : list string :=
  match fmt with
  | FMT_JSON => [dq "{'ptwrite':'0x" +:+ fmt_x payload +:+ dq "','ip':'0x" +:+ fmt_x ip +:+ dq "'}"]
  | FMT_TEXT => ["  PTWRITE   " +:+ hex16 payload +:+ "  ip=0x" +:+ fmt_x ip]
  | _ => []
  end.

(** * The decode *)

(** The locals of the loop: the counters, the three recorders, what was
    printed, and memory. *)
Record dstate := DState {
  ds_n : insn_counts; ds_prof : profile; ds_ct : calltree; ds_col : collapsed;
  ds_out : list string; ds_mem : mem }.

Definition set_n (n : insn_counts) (s : dstate) : dstate :=
  DState n (ds_prof s) (ds_ct s) (ds_col s) (ds_out s) (ds_mem s).

Definition put_out (l : list string) (s : dstate) : dstate :=
  DState (ds_n s) (ds_prof s) (ds_ct s) (ds_col s) (ds_out s ++ l) (ds_mem s).

Definition count_ovf (n : insn_counts) : insn_counts :=
  InsnCounts (ic_total n) (ic_calls n) (ic_branches n) (ic_returns n) (ic_syscalls n) (ic_nomaps n)
    (ic_errors n) (ic_ovf n + 1) (ic_lost_mtc n) (ic_lost_cyc n).

Definition count_error (nomap : bool) (n : insn_counts) : insn_counts :=
  InsnCounts (ic_total n) (ic_calls n) (ic_branches n) (ic_returns n) (ic_syscalls n)
    (if nomap then ic_nomaps n + 1 else ic_nomaps n) (if nomap then ic_errors n else ic_errors n + 1)
    (ic_ovf n) (ic_lost_mtc n) (ic_lost_cyc n).

(** The time, the total and the switch on the class. *)
Definition count_insn (cls : pt_insn_class) (t : pt_time) (n : insn_counts) : insn_counts :=
  let one b x := if (b : bool) then x + 1 else x in
  InsnCounts (ic_total n + 1)
    (one (bool_decide (cls = ptic_call)) (ic_calls n))
    (one (bool_decide (cls = ptic_jump) || bool_decide (cls = ptic_cond_jump)) (ic_branches n))
    (one (bool_decide (cls = ptic_return)) (ic_returns n))
    (one (bool_decide (cls = ptic_far_call)) (ic_syscalls n))
    (ic_nomaps n) (ic_errors n) (ic_ovf n)
    (u32 (ic_lost_mtc n + t_lost_mtc t)) (u32 (ic_lost_cyc n + t_lost_cyc t)).

Definition on_event (fmt : bsdtrace_fmt) (ev : pt_event) (s : dstate) : dstate :=
  match ev with
  | ptev_overflow => set_n (count_ovf (ds_n s)) s
  | ptev_ptwrite payload ip => put_out (ptwrite_line fmt payload ip) s
  | ptev_other => s
  end.

(** An instruction as the recorders see it. *)
Definition event_of (st : sym_table) (insn : pt_insn) (tsc : Z) : insn_event :=
  {| ev_sym := sym_table_lookup st (insn_ip insn); ev_ip := insn_ip insn; ev_class := iclass insn;
     ev_tsc := tsc |}.

Section decode.
Context `{LibElf} `{PtInsnDecoder} `{QSort} `{DwarfLines} `{PtPacketDecoder}.

Definition on_error (status : Z) (s : dstate) : dstate :=
  set_n (count_error (status =? insn_nomap) (ds_n s)) s.

(** The body of the loop for one instruction: the format's recorder, or a
    line; [None] is a null or dangling pointer in the call tree, a write past
    the stack buffer, or a null name in the filter. *)
Definition on_insn (fmt : bsdtrace_fmt) (opts : option pt_decode_opts) (tid : Z) (st : sym_table)
    (ranges : list bin_range) (sections : list pt_image_info) (insn : pt_insn) (t : pt_time)
    (s : dstate) : option dstate :=
  let s := set_n (count_insn (iclass insn) t (ds_n s)) s in
  let ev := event_of st insn (t_now t) in
  match fmt with
  | FMT_PROFILE =>
      let '(p, m) := profile_record (ds_prof s) ev (Some sections) (ds_mem s) in
      Some (DState (ds_n s) p (ds_ct s) (ds_col s) (ds_out s) m)
  | FMT_TREE | FMT_CALLERS =>
      '(ct, m) ← calltree_record (ds_ct s) ev (ds_mem s);
      Some (DState (ds_n s) (ds_prof s) ct (ds_col s) (ds_out s) m)
  | FMT_COLLAPSED | FMT_SPEEDSCOPE =>
      '(col, m) ← collapsed_record (ds_col s) ev (ds_mem s);
      Some (DState (ds_n s) (ds_prof s) (ds_ct s) col (ds_out s) m)
  | FMT_TEXT | FMT_JSON =>
      line ← insn_line fmt opts tid st ranges insn (t_now t); Some (put_out line s)
  end.

(** What is printed at the end, and the memory left; [None] is a crash: an
    allocation that failed unchecked, or a null name in the filter. *)
Definition report (fmt : bsdtrace_fmt) (opts : option pt_decode_opts) (tid : Z) (s : dstate)
    : option (list string * mem) :=
  let head := if 0 <=? tid then ["Thread " +:+ fmt_d tid +:+ ":"] else [] in
  let tree := tree_of (S (size (heap (ds_ct s)))) (ds_ct s) (root (ds_ct s)) in
  match fmt with
  | FMT_PROFILE => out ← profile_print (ds_prof s) opts; Some (head ++ out, ds_mem s)
  | FMT_TREE => t ← tree; Some (head ++ calltree_print t, ds_mem s)
  | FMT_CALLERS => t ← tree; '(out, m) ← callers_print t opts (ds_mem s); Some (head ++ out, m)
  | FMT_COLLAPSED => collapsed_print (ds_col s) opts (ds_mem s)
  | FMT_SPEEDSCOPE => speedscope_print (ds_col s) (ds_mem s)
  | FMT_TEXT | FMT_JSON => Some ([], ds_mem s)
  end.

Definition packet_fallback (buf : list Z) (fmt : bsdtrace_fmt) (m : mem) : option (decoded * mem) :=
  '(rc, out, (total, syncs, errors)) ← decode_pt_buffer buf fmt;
  Some ({| dec_rc := rc; dec_out := out; dec_sum := PacketSummary total syncs errors |}, m).

Definition failed (m : mem) : option (decoded * mem) :=
  Some ({| dec_rc := -1; dec_out := []; dec_sum := NoSummary |}, m).

(** [None] is a crash: no memory for the call tree's stack or for what a
    report allocates, a bad access of a recorder, or an array freed twice. *)
Definition decode_buffer (buf : list Z) (sections : list pt_image_info) (fmt : bsdtrace_fmt)
    (opts : option pt_decode_opts) (m : mem) : option (decoded * mem) :=
  match buf, sections with
  | [], _ => failed m
  | _, [] => match fmt with
             | FMT_TEXT | FMT_JSON => packet_fallback buf fmt m
             | _ => failed m
             end
  | _, _ =>
      '(ct, m) ← calltree_init m;
      let '(image, st, m) := build_pt_image sections sym_table_init m in
      match image with
      | None => packet_fallback buf fmt m
      | Some image =>
          let '(ranges, m) := build_bin_ranges sections MAX_BIN_RANGES m in
          let tid := match opts with Some o => opt_tid o | None => -1 end in
          let mtc := match opts with Some o => opt_mtc_freq o | None => 0 end in
          match pt_insn_alloc_decoder buf mtc with
          | None => failed m
          | Some dec =>
              let '(status, dec) := pt_insn_set_image dec image in
              if status <? 0 then failed m
              else
                let '(status, dec) := pt_insn_sync_forward dec in
                s ← insn_loop (on_event fmt) on_error (on_insn fmt opts tid st ranges sections)
                      (insn_fuel dec) status dec
                      (DState (InsnCounts 0 0 0 0 0 0 0 0 0 0) profile_init ct collapsed_init [] m);
                '(out, m) ← report fmt opts tid s;
                _ ← calltree_free (ds_ct s);
                Some ({| dec_rc := if 0 <? ic_total (ds_n s) then 0 else -1;
                         dec_out := ds_out s ++ out; dec_sum := InsnSummary (ds_n s) |}, m)
          end
      end
  end.
End decode.

(** * Properties *)

(** ** The loop as a fold over a run *)

(** What the loop meets: the events and instructions of the trace in order,
    and the errors after which it synchronizes again. *)
Inductive step :=
  | StepEvent (ev : pt_event)
  | StepInsn (insn : pt_insn) (t : pt_time)
  | StepError (status : Z).

Section run.
Context `{PtInsnDecoder}.

(** The run from a status and a decoder: it ends when a synchronization
    fails, an event cannot be read, or the trace is over. *)
Inductive run : Z -> insn_decoder -> list step -> Prop :=
  | run_end status d : status < 0 -> run status d []
  | run_event status d status' ev d' l :
      0 <= status -> events_pending status = true -> pt_insn_event d = (status', ev, d') -> 0 <= status' ->
      run status' d' l -> run status d (StepEvent ev :: l)
  | run_event_fails status d status' ev d' :
      0 <= status -> events_pending status = true -> pt_insn_event d = (status', ev, d') -> status' < 0 ->
      run status d []
  | run_insn status d status' insn d' l :
      0 <= status -> events_pending status = false -> pt_insn_next d = (status', insn, d') -> 0 <= status' ->
      run status' d' l -> run status d (StepInsn insn (pt_insn_time d') :: l)
  | run_eos status d insn d' :
      0 <= status -> events_pending status = false -> pt_insn_next d = (insn_eos, insn, d') -> insn_eos < 0 ->
      run status d []
  | run_error status d status' insn d' status2 d2 l :
      0 <= status -> events_pending status = false -> pt_insn_next d = (status', insn, d') -> status' < 0 ->
      status' <> insn_eos -> pt_insn_sync_forward d' = (status2, d2) ->
      run status2 d2 l -> run status d (StepError status' :: l).

Context {A : Type} (on_ev : pt_event -> A -> A) (on_err : Z -> A -> A).
Context (on_in : pt_insn -> pt_time -> A -> option A).

Definition do_step (s : step) (a : A) : option A :=
  match s with
  | StepEvent ev => Some (on_ev ev a)
  | StepInsn insn t => on_in insn t a
  | StepError status => Some (on_err status a)
  end.

Fixpoint do_steps (l : list step) (a : A) : option A :=
  match l with
  | [] => Some a
  | s :: l => a ← do_step s a; do_steps l a
  end.

(** A run is determined by where it starts. *)
Lemma run_functional status d l l' : run status d l -> run status d l' -> l = l'.
Proof.
  intros Hr. revert l'. induction Hr; intros l' Hr'; inversion Hr'; subst; try lia; try congruence;
    try match goal with E1 : ?x = _, E2 : ?x = _ |- _ => rewrite E1 in E2; simplify_eq end;
    try lia; try done; try (f_equal; eauto).
  all: match goal with E1 : ?x = _, E2 : ?x = _ |- _ => rewrite E1 in E2; simplify_eq end; eauto.
Qed.

Lemma events_loop_run `{!InsnLaws} fuel status d :
  0 <= status -> (insn_left d < fuel)%nat ->
  exists evs status' d',
    (forall a, events_loop on_ev fuel status d a = Some (status', d', foldl (fun a e => on_ev e a) a evs)) /\
    (insn_left d' <= insn_left d)%nat /\
    (0 <= status' -> events_pending status' = false) /\
    forall l, (if status' <? 0 then l = [] else run status' d' l) -> run status d (map StepEvent evs ++ l).
Proof.
  revert status d. induction fuel as [|fuel IH]; intros status d Hs Hf; [lia|].
  destruct (events_pending status) eqn:Ep.
  - pose proof (insn_event_left d) as Hl. destruct (pt_insn_event d) as [[status' ev] d'] eqn:Ee.
    destruct (status' <? 0) eqn:E0; to_prop.
    + exists [], status', d'. split_and!; [|lia|lia|].
      { intros a. cbn [events_loop]. rewrite Ep, Ee. cbn [negb]. by replace (status' <? 0) with true by lia. }
      replace (status' <? 0) with true by lia. intros l ->. by eapply run_event_fails.
    + replace (0 <=? status') with true in Hl by lia.
      destruct (IH status' d') as (evs & s2 & d2 & He & Hd & Hp & Hr); [lia|lia|].
      exists (ev :: evs), s2, d2. split_and!; [|lia|done|].
      { intros a. cbn [events_loop foldl]. rewrite Ep, Ee. cbn [negb]. replace (status' <? 0) with false by lia.
        apply He. }
      intros l Hrun%Hr. by eapply run_event.
  - exists [], status, d. split_and!; [|lia|done|].
    { intros a. cbn [events_loop]. by rewrite Ep. }
    replace (status <? 0) with false by lia. done.
Qed.

Lemma do_steps_events evs l a :
  do_steps (map StepEvent evs ++ l) a = do_steps l (foldl (fun a e => on_ev e a) a evs).
Proof. revert a. induction evs as [|e evs IH]; intros a; [done|]. simpl. by rewrite IH. Qed.

(** The loop ends and does what its handlers do along the run. *)
Lemma insn_loop_run `{!InsnLaws} fuel status d :
  (insn_left d + (if (0 <=? status)%Z then 1 else 0) < fuel)%nat ->
  exists l, run status d l /\
    forall a, insn_loop on_ev on_err on_in fuel status d a = do_steps l a.
Proof.
  revert status d. induction fuel as [|fuel IH]; intros status d Hf; [lia|]. cbn [insn_loop].
  destruct (status <? 0) eqn:E0; to_prop.
  { exists []. split; [by constructor|done]. }
  replace (0 <=? status) with true in Hf by lia.
  destruct (events_loop_run (S fuel) status d ltac:(lia) ltac:(lia)) as (evs & s1 & d1 & He & Hd & Hp & Hr).
  destruct (s1 <? 0) eqn:E1; to_prop.
  { exists (map StepEvent evs ++ []). split; [by apply Hr|]. intros a. rewrite He. cbn [mbind option_bind].
    replace (s1 <? 0) with true by lia. by rewrite do_steps_events. }
  specialize (Hp ltac:(lia)). pose proof (insn_next_left d1) as Hl.
  destruct (pt_insn_next d1) as [[s2 insn] d2] eqn:En.
  assert (Hgo : forall l, run s1 d1 l ->
    (forall a, (if s2 <? 0 then
                  if s2 =? insn_eos then Some a
                  else let a := on_err s2 a in
                       let '(status, dec) := pt_insn_sync_forward d2 in
                       insn_loop on_ev on_err on_in fuel status dec a
                else a ← on_in insn (pt_insn_time d2) a; insn_loop on_ev on_err on_in fuel s2 d2 a) =
               do_steps l a) ->
    exists l', run status d l' /\ forall a,
      ('(status, dec, a) ← events_loop on_ev (S fuel) status d a;
       if status <? 0 then Some a
       else let '(status, insn, dec) := pt_insn_next dec in
            if status <? 0 then
              if status =? insn_eos then Some a
              else let a := on_err status a in
                   let '(status, dec) := pt_insn_sync_forward dec in
                   insn_loop on_ev on_err on_in fuel status dec a
            else a ← on_in insn (pt_insn_time dec) a; insn_loop on_ev on_err on_in fuel status dec a) =
      do_steps l' a).
  { intros l Hl1 Hx. exists (map StepEvent evs ++ l). split; [apply Hr; by replace (s1 <? 0) with false by lia|].
    intros a. rewrite He, do_steps_events. cbn [mbind option_bind]. replace (s1 <? 0) with false by lia.
    rewrite En. apply Hx. }
  destruct (s2 <? 0) eqn:E2; to_prop.
  - destruct (s2 =? insn_eos) eqn:E3; to_prop.
    + subst s2. apply (Hgo []); [by eapply run_eos|done].
    + pose proof (insn_sync_left d2) as Hl2. destruct (pt_insn_sync_forward d2) as [s3 d3] eqn:Ey.
      destruct (IH s3 d3) as (l & Hl3 & Hx); [case_bool; lia|].
      apply (Hgo (StepError s2 :: l)); [by eapply run_error|]. intros a. apply Hx.
  - replace (0 <=? s2) with true in Hl by lia.
    destruct (IH s2 d2) as (l & Hl3 & Hx); [case_bool; lia|].
    apply (Hgo (StepInsn insn (pt_insn_time d2) :: l)); [by eapply run_insn|].
    intros a. cbn [do_steps do_step]. destruct (on_in insn (pt_insn_time d2) a); [apply Hx|done].
Qed.
End run.

(** ** The state after a run *)

Section outcome.
Context `{LibElf} `{PtInsnDecoder} `{QSort} `{DwarfLines} `{PtPacketDecoder}.

(** What the recorders see of a run. *)
Definition trace (st : sym_table) (l : list step) : list insn_event :=
  concat (map (fun s => match s with
                        | StepInsn insn t => [event_of st insn (t_now t)]
                        | _ => []
                        end) l).

(** What a step prints. *)
Definition step_lines (fmt : bsdtrace_fmt) (opts : option pt_decode_opts) (tid : Z) (st : sym_table)
    (ranges : list bin_range) (s : step) : option (list string) :=
  match s, fmt with
  | StepEvent (ptev_ptwrite payload ip), _ => Some (ptwrite_line fmt payload ip)
  | StepInsn insn t, (FMT_TEXT | FMT_JSON) => insn_line fmt opts tid st ranges insn (t_now t)
  | _, _ => Some []
  end.

(** What a step counts. *)
Definition count_step (n : insn_counts) (s : step) : insn_counts :=
  match s with
  | StepEvent ptev_overflow => count_ovf n
  | StepEvent _ => n
  | StepInsn insn t => count_insn (iclass insn) t n
  | StepError e => count_error (e =? insn_nomap) n
  end.

(** The format's recorder over the whole trace. *)
Definition record_all (fmt : bsdtrace_fmt) (sections : list pt_image_info) (evs : list insn_event)
    (r : profile * calltree * collapsed) (m : mem) : option (profile * calltree * collapsed * mem) :=
  let '(p, ct, col) := r in
  match fmt with
  | FMT_PROFILE =>
      let '(p, m) := profile_record_all p evs (Some sections) m in Some (p, ct, col, m)
  | FMT_TREE | FMT_CALLERS => '(ct, m) ← calltree_record_all ct evs m; Some (p, ct, col, m)
  | FMT_COLLAPSED | FMT_SPEEDSCOPE =>
      '(col, m) ← collapsed_record_all col evs m; Some (p, ct, col, m)
  | FMT_TEXT | FMT_JSON => Some (p, ct, col, m)
  end.

(** The decode's handlers along a run: the counters count each step, the
    lines of the steps are printed in order, and the recorder sees the trace. *)
Lemma do_steps_decode fmt opts tid st ranges sections l : forall s,
  do_steps (on_event fmt) on_error (on_insn fmt opts tid st ranges sections) l s =
    ('(p, ct, col, m) ← record_all fmt sections (trace st l) (ds_prof s, ds_ct s, ds_col s) (ds_mem s);
     ls ← mapM (step_lines fmt opts tid st ranges) l;
     Some (DState (foldl count_step (ds_n s) l) p ct col (ds_out s ++ concat ls) m)).
Proof.
  induction l as [|x l IH]; intros s.
  { destruct s, fmt; cbn; by rewrite app_nil_r. }
  cbn [do_steps].
  assert (Hskip : forall (s1 : dstate) ln,
    ds_n s1 = count_step (ds_n s) x -> trace st [x] = [] -> ds_mem s1 = ds_mem s ->
    (ds_prof s1, ds_ct s1, ds_col s1) = (ds_prof s, ds_ct s, ds_col s) ->
    step_lines fmt opts tid st ranges x = Some ln -> ds_out s1 = ds_out s ++ ln ->
    do_steps (on_event fmt) on_error (on_insn fmt opts tid st ranges sections) l s1 =
    ('(p, ct, col, m) ← record_all fmt sections (trace st (x :: l)) (ds_prof s, ds_ct s, ds_col s) (ds_mem s);
     ls ← mapM (step_lines fmt opts tid st ranges) (x :: l);
     Some (DState (foldl count_step (ds_n s) (x :: l)) p ct col (ds_out s ++ concat ls) m))).
  { intros s1 ln En Et Em Er El Eo. rewrite IH, En, Em, Er, Eo. cbn [mapM foldl]. rewrite El.
    unfold trace in Et |- *. cbn [map concat] in *. rewrite app_nil_r in Et. rewrite Et. cbn [app].
    destruct (record_all _ _ _ _ _) as [[[[p ct] col] m]|]; cbn [mbind option_bind]; [|done].
    destruct (mapM _ l) as [ls|]; cbn [mbind option_bind mret option_ret concat]; [|done].
    by rewrite <- app_assoc. }
  destruct x as [ev|insn t|e]; cbn [do_step].
  - cbn [mbind option_bind]. destruct s, ev; cbn [on_event];
      (eapply Hskip; [done|done|done|done|by destruct fmt|]); cbn; by rewrite ?app_nil_r.
  - unfold on_insn. destruct s as [n p ct col out m].
    destruct fmt; cbn [mbind option_bind trace map concat app record_all profile_record_all mapM step_lines
      calltree_record_all collapsed_record_all set_n put_out ds_n ds_prof ds_ct ds_col ds_out ds_mem] in *.
    all: try (destruct (profile_record p _ _ m) as [p1 m1]).
    all: try (destruct (calltree_record ct _ m) as [[ct1 m1]|]; [|done]).
    all: try (destruct (collapsed_record col _ m) as [[c1 m1]|]; [|done]).
    all: try (destruct (insn_line _ _ _ _ _ _ _) as [line|]; [|done]).
    all: cbn [mbind option_bind]; rewrite IH; clear IH Hskip;
      cbn [ds_n ds_prof ds_ct ds_col ds_out ds_mem put_out record_all foldl count_step];
      fold (trace st l).
    all: try (destruct (profile_record_all _ _ _ _)).
    all: try (destruct (calltree_record_all _ _ _) as [[??]|]; [|done]).
    all: try (destruct (collapsed_record_all _ _ _) as [[??]|]; [|done]).
    all: cbn [mbind option_bind]; destruct (mapM _ l) as [ls|]; cbn [mbind option_bind mret option_ret concat];
      by rewrite <- ?app_assoc.
  - cbn [mbind option_bind]. destruct s;
      (eapply Hskip; [done|done|done|done|by destruct fmt|]); cbn; by rewrite ?app_nil_r.
Qed.

(** ** From a buffer to a run *)

Record session := Session {
  su_ct : calltree; su_syms : sym_table; su_ranges : list bin_range; su_status : Z; su_dec : insn_decoder;
  su_mem : mem }.

(** Everything before the loop; [None] when a step fails. *)
Definition setup (buf : list Z) (sections : list pt_image_info) (opts : option pt_decode_opts) (m : mem)
    : option session :=
  '(ct, m) ← calltree_init m;
  let '(image, st, m) := build_pt_image sections sym_table_init m in
  im ← image;
  let '(ranges, m) := build_bin_ranges sections MAX_BIN_RANGES m in
  dec ← pt_insn_alloc_decoder buf (match opts with Some o => opt_mtc_freq o | None => 0 end);
  let '(status, dec) := pt_insn_set_image dec im in
  if status <? 0 then None
  else let '(status, dec) := pt_insn_sync_forward dec in Some (Session ct st ranges status dec m).

Definition session_run (su : session) (l : list step) : Prop := run (su_status su) (su_dec su) l.

Definition no_counts : insn_counts := InsnCounts 0 0 0 0 0 0 0 0 0 0.
Definition opts_tid (opts : option pt_decode_opts) : Z := match opts with Some o => opt_tid o | None => -1 end.

(** What the decode gives once a run is recorded. *)
Definition finish (fmt : bsdtrace_fmt) (opts : option pt_decode_opts) (s : dstate) : option (decoded * mem) :=
  '(out, m) ← report fmt opts (opts_tid opts) s;
  _ ← calltree_free (ds_ct s);
  Some ({| dec_rc := if 0 <? ic_total (ds_n s) then 0 else -1; dec_out := ds_out s ++ out;
           dec_sum := InsnSummary (ds_n s) |}, m).

(** The decode is its recorder over the trace of the one run from its
    session; the loop ends. *)
Lemma decode_buffer_session `{!InsnLaws} buf sections opts m su :
  buf <> [] -> sections <> [] -> setup buf sections opts m = Some su ->
  exists l, session_run su l /\ forall fmt,
    decode_buffer buf sections fmt opts m =
      ('(p, ct, col, m) ← record_all fmt sections (trace (su_syms su) l)
                            (profile_init, su_ct su, collapsed_init) (su_mem su);
       ls ← mapM (step_lines fmt opts (opts_tid opts) (su_syms su) (su_ranges su)) l;
       finish fmt opts (DState (foldl count_step no_counts l) p ct col (concat ls) m)).
Proof.
  intros Hb Hs. unfold setup, decode_buffer. destruct buf as [|b buf]; [done|]. destruct sections as [|sec secs]; [done|].
  destruct (calltree_init m) as [[ct m1]|]; cbn [mbind option_bind]; [|done].
  destruct (build_pt_image _ _ m1) as [[[im|] st] m2]; cbn [mbind option_bind]; [|done].
  destruct (build_bin_ranges _ _ m2) as [ranges m3].
  destruct (pt_insn_alloc_decoder _ _) as [d|]; cbn [mbind option_bind]; [|done].
  destruct (pt_insn_set_image d im) as [s1 d1]. destruct (s1 <? 0) eqn:E1; [done|].
  destruct (pt_insn_sync_forward d1) as [s2 d2]. intros [= <-].
  destruct (insn_loop_run (A := unit) (fun _ a => a) (fun _ a => a) (fun _ _ a => Some a) (insn_fuel d2) s2 d2)
    as (l & Hl & _); [unfold insn_fuel; case_bool; lia|].
  exists l. split; [exact Hl|]. intros fmt.
  destruct (insn_loop_run (on_event fmt) on_error
    (on_insn fmt opts (opts_tid opts) st ranges (sec :: secs)) (insn_fuel d2) s2 d2) as (l' & Hl' & Hloop);
    [unfold insn_fuel; case_bool; lia|].
  rewrite (run_functional _ _ _ _ Hl' Hl) in Hloop. unfold opts_tid in Hloop |- *.
  cbn [su_ct su_syms su_ranges su_mem].
  rewrite Hloop, do_steps_decode. cbn [ds_n ds_prof ds_ct ds_col ds_out ds_mem app].
  fold no_counts.
  destruct (record_all _ _ _ _ m3) as [[[[p ct1] col] m4]|]; [|done]. cbn [mbind option_bind].
  by destruct (mapM _ l).
Qed.

(** A session starts from the empty tree, and with memory has memory left. *)
Lemma setup_rep buf sections opts m su :
  setup buf sections opts m = Some su -> exists addr, rep addr (su_ct su) a_init (su_mem su).
Proof.
  unfold setup. destruct (calltree_init m) as [[ct m1]|] eqn:E; cbn [mbind option_bind]; [|done].
  destruct (build_pt_image _ _ m1) as [[[im|] st] m2]; cbn [mbind option_bind]; [|done].
  destruct (build_bin_ranges _ _ m2) as [ranges m3].
  destruct (pt_insn_alloc_decoder _ _) as [d|]; cbn [mbind option_bind]; [|done].
  destruct (pt_insn_set_image d im) as [s1 d1]. case_bool; [done|].
  destruct (pt_insn_sync_forward d1) as [s2 d2]. intros [= <-]. by eapply calltree_init_rep_any.
Qed.

Lemma setup_ok buf sections opts m su :
  mem_ok m -> setup buf sections opts m = Some su ->
  mem_ok (su_mem su) /\ ct_prev_class (su_ct su) = ptic_error /\
  exists addr, rep addr (su_ct su) a_init (su_mem su).
Proof.
  intros Hm Hsu. pose proof (setup_rep _ _ _ _ _ Hsu) as Hr. revert Hsu.
  unfold setup. destruct (calltree_init_ok m Hm) as (ct & m1 & E & Hm1 & Hp). rewrite E.
  cbn [mbind option_bind]. pose proof (build_pt_image_mem sections sym_table_init m1 Hm1) as Hm2.
  destruct (build_pt_image _ _ m1) as [[[im|] st] m2]; cbn [mbind option_bind snd] in *; [|done].
  pose proof (build_bin_ranges_mem sections MAX_BIN_RANGES m2 Hm2) as Hm3.
  destruct (build_bin_ranges _ _ m2) as [ranges m3]. cbn [snd] in Hm3.
  destruct (pt_insn_alloc_decoder _ _) as [d|]; cbn [mbind option_bind]; [|done].
  destruct (pt_insn_set_image d im) as [s1 d1]. case_bool; [done|].
  destruct (pt_insn_sync_forward d1) as [s2 d2]. intros [= <-]. split_and!; done.
Qed.

(** The aggregate formats print nothing on the way. *)
Lemma aggregate_lines fmt opts tid st ranges l :
  fmt <> FMT_TEXT -> fmt <> FMT_JSON ->
  exists ls, mapM (step_lines fmt opts tid st ranges) l = Some ls /\ concat ls = [].
Proof.
  intros Ht Hj. induction l as [|x l (ls & IH & E)]; [by exists []|]. exists ([] :: ls). cbn [mapM concat app].
  rewrite IH. split; [|done]. by destruct x as [[]| |], fmt.
Qed.

(** An instruction has a line, with no null name in the filter. *)
Lemma lines_total fmt opts tid st ranges l :
  filter_ok opts -> is_Some (mapM (step_lines fmt opts tid st ranges) l).
Proof.
  intros Hf. apply mapM_is_Some, Forall_true. intros [[]|insn t|e]; try (by eexists).
  assert (is_Some (insn_line fmt opts tid st ranges insn (t_now t))).
  { unfold insn_line. destruct (insn_class_str _); [|by eexists]. cbv zeta.
    match goal with |- context [filter_matches opts ?n] => destruct (filter_matches_total opts n Hf) as [b ->] end.
    cbn [mbind option_bind]. case_match; by eexists. }
  destruct fmt; try done; by eexists.
Qed.

(** A decode in an aggregate format is its recorder over the trace of its
    session, and the report. *)
Lemma decode_buffer_aggregate `{!InsnLaws} buf sections opts m su :
  buf <> [] -> sections <> [] -> setup buf sections opts m = Some su ->
  exists l, session_run su l /\ forall fmt, fmt <> FMT_TEXT -> fmt <> FMT_JSON ->
    decode_buffer buf sections fmt opts m =
      ('(p, ct, col, m) ← record_all fmt sections (trace (su_syms su) l)
                            (profile_init, su_ct su, collapsed_init) (su_mem su);
       finish fmt opts (DState (foldl count_step no_counts l) p ct col [] m)).
Proof.
  intros Hb Hs Hsu. destruct (decode_buffer_session _ _ _ _ _ Hb Hs Hsu) as (l & Hl & Hd).
  exists l. split; [done|]. intros fmt Ht Hj. rewrite Hd.
  destruct (aggregate_lines fmt opts (opts_tid opts) (su_syms su) (su_ranges su) l Ht Hj) as (ls & -> & E).
  destruct (record_all _ _ _ _ _) as [[[[p ct] col] m1]|]; cbn [mbind option_bind]; [|done]. by rewrite E.
Qed.

(** ** The counters *)

Definition count_where (P : step -> bool) (l : list step) : Z := Z.of_nat (length (List.filter P l)).

Definition is_insn (s : step) : bool := match s with StepInsn _ _ => true | _ => false end.
Definition of_class (cs : list pt_insn_class) (s : step) : bool :=
  match s with StepInsn insn _ => existsb (fun c => bool_decide (iclass insn = c)) cs | _ => false end.
Definition is_error (nomap : bool) (s : step) : bool :=
  match s with StepError e => Bool.eqb (e =? insn_nomap) nomap | _ => false end.
Definition is_overflow (s : step) : bool := match s with StepEvent ptev_overflow => true | _ => false end.

(** The counters that the summary of a run shows. *)
Definition tallied (l : list step) (n : insn_counts) : Prop :=
  ic_total n = count_where is_insn l /\
  ic_calls n = count_where (of_class [ptic_call]) l /\
  ic_branches n = count_where (of_class [ptic_jump; ptic_cond_jump]) l /\
  ic_returns n = count_where (of_class [ptic_return]) l /\
  ic_syscalls n = count_where (of_class [ptic_far_call]) l /\
  ic_nomaps n = count_where (is_error true) l /\
  ic_errors n = count_where (is_error false) l /\
  ic_ovf n = count_where is_overflow l.

Lemma count_where_snoc P l x : count_where P (l ++ [x]) = count_where P l + one (P x).
Proof.
  unfold count_where. rewrite List.filter_app, length_app. simpl. destruct (P x); simpl; lia.
Qed.

Lemma tallied_steps l : tallied l (foldl count_step no_counts l).
Proof.
  induction l as [|x l IH] using rev_ind; [done|]. rewrite foldl_app. cbn [foldl].
  destruct IH as (E1 & E2 & E3 & E4 & E5 & E6 & E7 & E8). unfold tallied. rewrite !count_where_snoc.
  rewrite <- E1, <- E2, <- E3, <- E4, <- E5, <- E6, <- E7, <- E8.
  destruct x as [[]|[ip cls] t|e]; cbn [count_step is_insn of_class is_error is_overflow one iclass].
  1-3: split_and!; cbn; lia.
  - unfold count_insn, one. cbn [existsb]. rewrite !orb_false_r. split_and!; cbn; repeat case_match; lia.
  - unfold count_error, one. destruct (e =? insn_nomap); split_and!; cbn; lia.
Qed.

Lemma total_steps l : ic_total (foldl count_step no_counts l) = count_where is_insn l.
Proof. apply tallied_steps. Qed.

Definition thread_head (tid : Z) : list string := if 0 <=? tid then ["Thread " +:+ fmt_d tid +:+ ":"] else [].

(** The result of a run that printed [out]. *)
Definition result_of (l : list step) (out : list string) : decoded :=
  {| dec_rc := if 0 <? count_where is_insn l then 0 else -1; dec_out := out;
     dec_sum := InsnSummary (foldl count_step no_counts l) |}.

(** ** What each format shows *)

(** C7: The call tree that is printed, or folded into the caller view, is the call
    tree of the run: the decode ends, and the node of each path of callers has the calls and the time
    which that path has in the trace. *)
Theorem decode_tree_exact `{!InsnLaws} buf sections opts m su fmt :
  mem_ok m -> buf <> [] -> sections <> [] -> setup buf sections opts m = Some su ->
  fmt = FMT_TREE \/ fmt = FMT_CALLERS /\ filter_ok opts ->
  exists l ct t out m1 m2, session_run su l /\
    tree_of (S (size (heap ct))) ct (root ct) = Some t /\
    (forall pi, let A := a_record_all ptic_error (trace (su_syms su) l) a_init in
       match node_at ct pi with
       | Some n => n_count n = a_count A pi /\ n_total n = a_total A pi
       | None => a_count A pi = 0 /\ a_total A pi = 0
       end) /\
    (if bool_decide (fmt = FMT_TREE) then out = calltree_print t /\ m2 = m1
     else callers_print t opts m1 = Some (out, m2)) /\
    decode_buffer buf sections fmt opts m = Some (result_of l (thread_head (opts_tid opts) ++ out), m2).
Proof.
  intros Hm Hb Hs Hsu Hfmt. destruct (setup_ok _ _ _ _ _ Hm Hsu) as (Hm1 & Hp & addr & Hr).
  destruct (decode_buffer_aggregate _ _ _ _ _ Hb Hs Hsu) as (l & Hl & Hd). exists l.
  destruct (calltree_record_all_rep (trace (su_syms su) l) _ _ _ _ Hr) as (ct & m' & addr' & A' & Hrec & Hr' & HA).
  destruct (HA Hm1) as [-> Hm']. rewrite Hp in Hr'.
  destruct (tree_of_total addr' ct m' (S (size (heap ct))) [] PRoot (root ct)) as [t Ht];
    [apply Hr'|apply (sh_root _ _ _ (rep_shape _ _ _ _ Hr'))|done|simpl; lia|].
  destruct (calltree_free_rep addr' ct _ m' Hr') as (cf & Hcf & _). exists ct, t.
  assert (Hn : forall pi, let A := a_record_all ptic_error (trace (su_syms su) l) a_init in
    match node_at ct pi with
    | Some n => n_count n = a_count A pi /\ n_total n = a_total A pi
    | None => a_count A pi = 0 /\ a_total A pi = 0
    end) by (intros pi; by apply (node_count addr' _ _ m')).
  destruct Hfmt as [-> | [-> Hf]].
  - exists (calltree_print t), m', m'. split_and!; [done|done|done|done|]. rewrite Hd by done. unfold finish, result_of.
    cbn [record_all]. rewrite Hrec. cbn [mbind option_bind report ds_ct]. rewrite Ht.
    cbn [mbind option_bind ds_n ds_out ds_mem ds_ct app]. rewrite Hcf. cbn [mbind option_bind]. by rewrite total_steps.
  - destruct (callers_print_total t opts m' Hf Hm') as (out & m2 & Hc & _).
    exists out, m', m2. split_and!; [done|done|done|done|]. rewrite Hd by done. unfold finish, result_of.
    cbn [record_all]. rewrite Hrec. cbn [mbind option_bind report ds_ct]. rewrite Ht.
    cbn [mbind option_bind ds_n ds_out ds_mem ds_ct app]. rewrite Hc. cbn [mbind option_bind]. rewrite Hcf.
    cbn [mbind option_bind]. by rewrite total_steps.
Qed.

(** The run has no gap, and every instruction has a symbol. *)
Definition gapless (st : sym_table) (l : list step) : Prop :=
  (forall status, StepError status ∉ l) /\ Forall (fun ev => is_Some (ev_sym ev)) (trace st l).

(** C12: The profile that is printed: the decode ends, and over a run without
    gaps in which every instruction has a symbol, each function has as calls
    the pairs of neighbouring instructions of which the first calls and the
    second is at its start (a jump there is none), and as returns and branches
    those of its instructions.  Outside those runs the recorder can count a
    jump as a call: it keeps the class of an earlier instruction over one
    without a symbol and over a gap, contrary to the comment at decode.c:792. *)
Theorem decode_profile_exact `{!InsnLaws} buf sections opts m su :
  mem_ok m -> filter_ok opts -> buf <> [] -> sections <> [] -> setup buf sections opts m = Some su ->
  exists l p out m', session_run su l /\
    (gapless (su_syms su) l -> let evs := trace (su_syms su) l in
       forall k, counts p k = (function_calls k evs, function_returns k evs, function_branches k evs)) /\
    profile_print p opts = Some out /\
    decode_buffer buf sections FMT_PROFILE opts m = Some (result_of l (thread_head (opts_tid opts) ++ out), m').
Proof.
  intros Hm Hf Hb Hs Hsu. destruct (setup_ok _ _ _ _ _ Hm Hsu) as (Hm1 & _ & addr & Hr).
  destruct (calltree_free_rep _ _ _ _ Hr) as (cf & Hcf & _).
  destruct (decode_buffer_aggregate _ _ _ _ _ Hb Hs Hsu) as (l & Hl & Hd). exists l.
  pose proof (fun k => profile_record_all_counts (trace (su_syms su) l) profile_init (Some sections) (su_mem su) k Hm1) as Hc.
  destruct (profile_record_all profile_init (trace (su_syms su) l) (Some sections) (su_mem su)) as [p m'] eqn:Ep.
  destruct (profile_print_total p opts Hf) as [out Ho]. exists p, out, m'. split_and!; [done| |done|].
  - intros [_ Hsym] evs k. specialize (Hc k). change (counts profile_init k) with (0, 0, 0) in Hc.
    cbn [fst p_prev_class profile_init] in Hc. by rewrite Hc, tally_plain.
  - rewrite Hd by done. cbn [record_all]. rewrite Ep. unfold finish, result_of.
    cbn [mbind option_bind report ds_prof ds_ct ds_n ds_out ds_mem app]. rewrite Ho. cbn [mbind option_bind].
    rewrite Hcf. cbn [mbind option_bind]. by rewrite total_steps.
Qed.

(** C13: The collapsed stacks and the speedscope export have one sample for each
    return, of the stack of active calls at that return, so a chain main, foo,
    bar that returns has three samples, bar's and those of its two prefixes,
    and not the one sample that the comment at decode.c:1256 announces.  This
    holds with memory, while at most 256 calls are active, every stack text
    fits the 8192 bytes of its buffer and there are at most 4096 different
    stacks; the decode then ends. *)
Theorem decode_collapsed_exact `{!InsnLaws} buf sections opts m su fmt l :
  mem_ok m -> filter_ok opts -> buf <> [] -> sections <> [] -> setup buf sections opts m = Some su ->
  fmt = FMT_COLLAPSED \/ fmt = FMT_SPEEDSCOPE -> session_run su l ->
  let evs := trace (su_syms su) l in
  Forall (fun s => (length s <= MAX_STACK_DEPTH)%nat) (active [] ptic_error evs) ->
  let ss := returned_stacks evs in
  Forall (fun s => (String.length s < STACK_BUF)%nat) ss ->
  Z.of_nat (size (list_to_set ss : gset string)) <= MAX_COLLAPSED_STACKS ->
  exists col out m1 m2,
    (forall s, stack_count (c_entries col) s = Z.of_nat (count_occ string_dec ss s)) /\
    (if bool_decide (fmt = FMT_COLLAPSED) then collapsed_print col opts m1 else speedscope_print col m1) =
      Some (out, m2) /\
    decode_buffer buf sections fmt opts m = Some (result_of l out, m2).
Proof.
  intros Hm Hf Hb Hs Hsu Hfmt Hrun evs Hdep ss Hlen Hsz.
  destruct (setup_ok _ _ _ _ _ Hm Hsu) as (Hm1 & _ & addr & Hr).
  destruct (calltree_free_rep _ _ _ _ Hr) as (cf & Hcf & _).
  destruct (decode_buffer_aggregate _ _ _ _ _ Hb Hs Hsu) as (l' & Hl & Hd).
  pose proof (run_functional _ _ _ _ Hl Hrun) as ->.
  pose proof (returned_stacks_sampled evs Hdep) as Es. fold ss in Es.
  destruct (record_all_counts evs collapsed_init (su_mem su) ss) as (col & m1 & Hrec & Hm1' & Hc);
    [done|split_and!; [constructor|by intros e He%elem_of_nil|done|done|done]|by cbn; rewrite Es|by cbn; rewrite Es|done|].
  cbn [names c_prev_class collapsed_init] in Hc. rewrite Es in Hc.
  assert (Hp : exists out m2, (if bool_decide (fmt = FMT_COLLAPSED) then collapsed_print col opts m1
                               else speedscope_print col m1) = Some (out, m2)).
  { case_bool_decide; [destruct (collapsed_print_total col opts m1 Hf Hm1') as (out & m2 & E & _)
                      |destruct (speedscope_print_total col m1 Hm1') as (out & m2 & E & _)]; by exists out, m2. }
  destruct Hp as (out & m2 & Hp). exists col, out, m1, m2. split_and!; [intros s; by rewrite Hc|done|].
  rewrite Hd by (by destruct Hfmt as [-> | ->]). unfold finish, result_of.
  destruct Hfmt as [-> | ->]; cbn [record_all]; fold evs; rewrite Hrec;
    (case_bool_decide; try done); cbn [mbind option_bind report ds_col ds_ct ds_n ds_out ds_mem app];
    rewrite Hp; cbn [mbind option_bind]; rewrite Hcf; cbn [mbind option_bind]; by rewrite total_steps.
Qed.


Lemma decode_buffer_counts `{!InsnLaws} buf sections opts m su :
  buf <> [] -> sections <> [] -> setup buf sections opts m = Some su ->
  exists l, session_run su l /\ forall fmt d m', decode_buffer buf sections fmt opts m = Some (d, m') ->
    exists n, dec_sum d = InsnSummary n /\ tallied l n /\
      dec_rc d = if 0 <? count_where is_insn l then 0 else -1.
Proof.
  intros Hb Hs Hsu. destruct (decode_buffer_session _ _ _ _ _ Hb Hs Hsu) as (l & Hl & Hd).
  exists l. split; [done|]. intros fmt d m'. rewrite Hd.
  destruct (record_all _ _ _ _ _) as [[[[p ct] col] m1]|]; cbn [mbind option_bind]; [|done].
  destruct (mapM _ l) as [ls|]; cbn [mbind option_bind]; [|done].
  unfold finish. destruct (report _ _ _ _) as [[out m2]|]; cbn [mbind option_bind ds_n ds_ct ds_out ds_mem]; [|done].
  destruct (calltree_free ct); cbn [mbind option_bind]; [|done].
  intros [= <- _]. exists (foldl count_step no_counts l). cbn [dec_sum dec_rc].
  split_and!; [done|apply tallied_steps|by rewrite total_steps].
Qed.

(** C10: The summary counts what the run met, whatever the format, and the decode
    succeeds exactly when it read an instruction. *)
Theorem decode_summary_exact `{!InsnLaws} buf sections opts m su fmt d m' :
  buf <> [] -> sections <> [] -> setup buf sections opts m = Some su ->
  decode_buffer buf sections fmt opts m = Some (d, m') ->
  exists l n, session_run su l /\ dec_sum d = InsnSummary n /\ tallied l n /\
    (dec_rc d = 0 <-> exists insn t, StepInsn insn t ∈ l).
Proof.
  intros Hb Hs Hsu Hd. destruct (decode_buffer_counts _ _ _ _ _ Hb Hs Hsu) as (l & Hl & Hc).
  destruct (Hc _ _ _ Hd) as (n & Hsum & Hn & Hrc). exists l, n. split_and!; [done|done|done|].
  rewrite Hrc. clear Hc Hrc. unfold count_where.
  destruct (0 <? _) eqn:E; to_prop; (split; [intros Hx|intros (insn & t & Hin)]); try done.
  - destruct (List.filter is_insn l) as [|x xs] eqn:Ef; [simpl in E; lia|].
    assert (Hx2 : In x (List.filter is_insn l)) by (rewrite Ef; by left).
    apply filter_In in Hx2 as [Hin Hi]. apply list_elem_of_In in Hin. destruct x as [|insn t|]; try done. by exists insn, t.
  - assert (Hx : In (StepInsn insn t) (List.filter is_insn l)) by (apply filter_In; split; [by apply list_elem_of_In|done]).
    destruct (List.filter is_insn l); [done|simpl in E; lia].
Qed.

(** ** The probe *)

Definition is_hit (st : sym_table) (ranges : list bin_range) (exec_bins : list string) (s : step) : bool :=
  match s with StepInsn insn _ => probe_hit st ranges exec_bins insn | _ => false end.

Lemma existsb_count P l : existsb P l = (0 <? count_where P l).
Proof.
  unfold count_where. induction l as [|x l IH]; [done|]. cbn [existsb List.filter].
  destruct (P x); cbn [orb length]; [symmetry; apply Z.ltb_lt; lia|exact IH].
Qed.

Lemma do_steps_probe st ranges bins l : forall pr,
  do_steps (fun _ pr => pr) (fun _ pr => pr) (fun insn _ pr => Some (probe_insn st ranges bins insn pr)) l pr =
  Some {| pr_total := pr_total pr + count_where is_insn l;
          pr_exec_hits := pr_exec_hits pr + count_where (is_hit st ranges bins) l |}.
Proof.
  unfold count_where. induction l as [|x l IH]; intros [t h]; cbn [do_steps do_step mbind option_bind pr_total pr_exec_hits].
  { by rewrite !Z.add_0_r. }
  destruct x as [ev|insn t1|e]; cbn [do_step mbind option_bind List.filter is_insn is_hit]; rewrite IH;
    cbn [pr_total pr_exec_hits probe_insn length]; [done| |done].
  destruct (probe_hit _ _ _ _); cbn [length]; do 2 f_equal; lia.
Qed.

(** The binary an address is attributed to: its symbol's, else the one of the
    first range that holds it. *)
Definition code_of (st : sym_table) (ranges : list bin_range) (ip : Z) (b : string) : Prop :=
  match sym_table_lookup st ip with
  | Some sym => b = chars (s_binary sym)
  | None => exists i r, ranges !! i = Some r /\ b = name r /\ lo r <= ip < hi r /\
              forall j r', (j < i)%nat -> ranges !! j = Some r' -> ~ lo r' <= ip < hi r'
  end.

(** The step is an instruction of one of the named binaries. *)
Definition own_code (st : sym_table) (ranges : list bin_range) (names : list string) (s : step) : Prop :=
  match s with
  | StepInsn insn _ => exists b, b <> EmptyString /\ code_of st ranges (insn_ip insn) b /\ b ∈ names
  | _ => False
  end.

Lemma code_of_range st ranges ip b :
  sym_table_lookup st ip = None ->
  code_of st ranges ip b <-> fst <$> find_binary_for_ip ranges ip = Some b.
Proof.
  intros Hl. unfold code_of. rewrite Hl. pose proof (find_binary_spec ranges ip) as Hs.
  destruct (find_binary_for_ip ranges ip) as [[n off]|]; cbn [fmap option_fmap option_map fst].
  - destruct Hs as (i & r & Hi & -> & _ & Hin & Hlt). split.
    + intros (i2 & r2 & Hi2 & -> & Hin2 & Hlt2). destruct (lt_eq_lt_dec i i2) as [[Hc|Hc]|Hc].
      * by destruct (Hlt2 _ _ Hc Hi).
      * subst i2. by simplify_eq.
      * by destruct (Hlt _ _ Hc Hi2).
    + intros [= <-]. by exists i, r.
  - split; [|done]. intros (i & r & Hi & _ & Hin & _). by destruct (Hs r (list_elem_of_lookup_2 _ _ _ Hi)).
Qed.

Lemma is_hit_own sections st ranges s :
  Forall (fun n => (String.length n < 64)%nat) (exec_names sections) ->
  (size (list_to_set (exec_names sections) : gset string) <= EXEC_BINS)%nat ->
  is_hit st ranges (collect_exec_binaries sections EXEC_BINS []) s = true <->
  own_code st ranges (exec_names sections) s.
Proof.
  intros Hlen Hsz. destruct s as [ev|insn t|e]; [done| |done]. cbn [is_hit own_code]. unfold probe_hit.
  assert (Hb : forall b, is_exec_binary (Some b) (collect_exec_binaries sections EXEC_BINS []) = true <->
    b <> EmptyString /\ b ∈ exec_names sections).
  { intros b. destruct (decide (b = EmptyString)) as [->|Hne]; [by split; [|intros []]|].
    rewrite (is_exec_binary_exact sections EXEC_BINS b Hlen Hsz Hne). naive_solver. }
  destruct (sym_table_lookup st (insn_ip insn)) as [sym|] eqn:El.
  { unfold code_of. rewrite El, Hb. naive_solver. }
  setoid_rewrite (code_of_range st ranges (insn_ip insn) _ El).
  destruct (find_binary_for_ip ranges (insn_ip insn)) as [[n off]|]; cbn [fmap option_fmap option_map fst].
  - rewrite Hb. naive_solver.
  - naive_solver.
Qed.

(** C8: The probe against the decode, for a decode that assumes no MTC frequency
    (under -C the decode gives libipt one and the probe does not): the probe
    ends, meets the run of the decode, counts as many instructions as the
    decode's summary, fails exactly when there are none, and its hits are the
    instructions whose binary (the symbol's, else that of the first range that
    holds the address) is the file of an EXEC section, for at most 16 such
    files with names under 64 characters. *)
Theorem probe_agrees_with_decode `{!InsnLaws} buf sections opts m m2 su :
  mem_ok m -> mem_ok m2 -> buf <> [] -> sections <> [] ->
  match opts with Some o => opt_mtc_freq o = 0 | None => True end ->
  setup buf sections opts m = Some su ->
  Forall (fun n => (String.length n < 64)%nat) (exec_names sections) ->
  (size (list_to_set (exec_names sections) : gset string) <= EXEC_BINS)%nat ->
  let '(_, st, m3) := build_pt_image sections sym_table_init m2 in
  let '(ranges, _) := build_bin_ranges sections MAX_BIN_RANGES m3 in
  exists l hit, session_run su l /\
    (forall s, hit s = true <-> own_code st ranges (exec_names sections) s) /\
    (probe_buffer buf sections m2).1 =
      Some (if existsb is_insn l
            then Some {| pr_total := count_where is_insn l; pr_exec_hits := count_where hit l |}
            else None) /\
    forall fmt d m', decode_buffer buf sections fmt opts m = Some (d, m') ->
      exists n, dec_sum d = InsnSummary n /\ ic_total n = count_where is_insn l.
Proof.
  intros Hm Hm2 Hb Hs Hmtc Hsu Hlen Hsz.
  destruct (decode_buffer_counts _ _ _ _ _ Hb Hs Hsu) as (l0 & Hl0 & Hcnt).
  unfold setup in Hsu. destruct (calltree_init_ok m Hm) as (ct & m1 & E & Hm1 & _).
  rewrite E in Hsu. cbn [mbind option_bind] in Hsu.
  pose proof (build_pt_image_indep sections sym_table_init sym_table_init m1 m2 Hm1 Hm2) as Him.
  unfold probe_buffer. destruct buf as [|b buf]; [done|]. destruct sections as [|sec secs]; [done|].
  destruct (build_pt_image _ _ m1) as [[im st1] n1].
  destruct (build_pt_image _ _ m2) as [[im' st] m3]. cbn [fst] in Him. subst im'.
  destruct im as [im|]; cbn [mbind option_bind] in Hsu; [|done].
  destruct (build_bin_ranges _ _ n1) as [ranges1 n2]. destruct (build_bin_ranges _ _ m3) as [ranges m4].
  assert ((match opts with Some o => opt_mtc_freq o | None => 0 end) = 0) as E0 by by destruct opts.
  rewrite E0 in Hsu.
  destruct (pt_insn_alloc_decoder _ _) as [d|]; cbn [mbind option_bind] in Hsu; [|done].
  destruct (pt_insn_set_image d im) as [s1 d1]. destruct (s1 <? 0); [done|].
  destruct (pt_insn_sync_forward d1) as [s2 d2]. injection Hsu as <-. unfold session_run in Hl0 |- *. cbn [su_status su_dec] in *.
  match goal with |- context [insn_loop ?f ?g ?h] =>
    destruct (insn_loop_run f g h (insn_fuel d2) s2 d2) as (l & Hl & Hloop);
      [unfold insn_fuel; case_bool; lia|] end.
  pose proof (run_functional _ _ _ _ Hl0 Hl) as ->.
  exists l, (is_hit st ranges (collect_exec_binaries (sec :: secs) EXEC_BINS [])).
  split_and!; [exact Hl|intros s; by apply is_hit_own| |].
  - cbn [fst]. rewrite Hloop, do_steps_probe. cbn [mbind option_bind pr_total]. by rewrite existsb_count.
  - intros fmt d3 m' Hd. destruct (Hcnt _ _ _ Hd) as (n & Hn & Ht & _). exists n. split; [done|apply Ht].
Qed.

(** ** Failures *)

(** Without a session a decode falls back to packets when there is no image,
    and fails otherwise. *)
Lemma decode_buffer_unready buf sections fmt opts m :
  mem_ok m -> buf <> [] -> sections <> [] -> setup buf sections opts m = None ->
  exists m', mem_ok m' /\
    decode_buffer buf sections fmt opts m =
      match (build_pt_image sections sym_table_init m).1.1 with
      | None => packet_fallback buf fmt m'
      | Some _ => failed m'
      end.
Proof.
  intros Hm Hb Hs Hsu. unfold decode_buffer. destruct buf as [|b buf]; [done|]. destruct sections as [|sec secs]; [done|].
  unfold setup in Hsu. destruct (calltree_init_ok m Hm) as (ct & m1 & E & Hm1 & _). rewrite E in Hsu |- *.
  cbn [mbind option_bind] in Hsu |- *.
  rewrite (build_pt_image_indep (sec :: secs) sym_table_init sym_table_init m m1 Hm Hm1).
  pose proof (build_pt_image_mem (sec :: secs) sym_table_init m1 Hm1) as Hm2.
  destruct (build_pt_image _ _ m1) as [[[im|] st] m2]; cbn [mbind option_bind fst snd] in *; [|by exists m2].
  pose proof (build_bin_ranges_mem (sec :: secs) MAX_BIN_RANGES m2 Hm2) as Hm3.
  destruct (build_bin_ranges _ _ m2) as [ranges m3]. cbn [snd] in Hm3. exists m3. split; [done|].
  destruct (pt_insn_alloc_decoder _ _) as [d|]; cbn [mbind option_bind] in Hsu; [|done].
  destruct (pt_insn_set_image d im) as [s d1]. destruct (s <? 0); [done|].
  by destruct (pt_insn_sync_forward d1).
Qed.

(** C9: Every way not to reach the loop, with memory: an empty buffer fails;
    without sections text and JSON fall back to packets and the aggregate
    formats fail; with sections that hold no code every format falls back to
    packets, the aggregate ones too; a decoder that libipt refuses fails.  A
    failure prints nothing. *)
Theorem decode_failures buf sections fmt opts m :
  mem_ok m -> buf = [] \/ sections = [] \/ setup buf sections opts m = None ->
  exists m', mem_ok m' /\
    decode_buffer buf sections fmt opts m =
      if bool_decide (buf = []) then failed m'
      else if bool_decide (sections = []) then
        if bool_decide (fmt = FMT_TEXT \/ fmt = FMT_JSON) then packet_fallback buf fmt m' else failed m'
      else match (build_pt_image sections sym_table_init m).1.1 with
           | None => packet_fallback buf fmt m'
           | Some _ => failed m'
           end.
Proof.
  intros Hm Hcase. destruct (decide (buf = [])) as [->|Hb]; [by exists m|].
  rewrite bool_decide_eq_false_2 by done. destruct (decide (sections = [])) as [->|Hs].
  { exists m. split; [done|]. destruct buf; [done|]. by destruct fmt. }
  rewrite bool_decide_eq_false_2 by done. destruct Hcase as [|[|Hsu]]; [done|done|].
  by apply decode_buffer_unready.
Qed.

Lemma packet_fallback_total `{!PacketLaws} buf fmt m :
  exists d, packet_fallback buf fmt m = Some (d, m).
Proof.
  unfold packet_fallback. destruct (decode_pt_buffer_total buf fmt) as [[[rc out] [[t s] e]] ->]. by eexists.
Qed.

(** With memory a run is recorded and reported, in the formats that stay in
    bounds. *)
Lemma recorded_total fmt opts sections evs ct m (out : list string) (n : insn_counts) :
  builds_stacks fmt = false -> filter_ok opts -> mem_ok m -> (exists addr, rep addr ct a_init m) ->
  exists d m', ('(p, ct, col, m) ← record_all fmt sections evs (profile_init, ct, collapsed_init) m;
                finish fmt opts (DState n p ct col out m)) = Some (d, m') /\ mem_ok m'.
Proof.
  intros Hf Hfo Hm [addr Hr]. unfold record_all.
  destruct (calltree_record_all_rep evs _ _ _ _ Hr) as (ct' & m' & addr' & A' & Hrec & Hr' & HA).
  destruct (HA Hm) as [_ Hm'].
  destruct (tree_of_total addr' ct' m' (S (size (heap ct'))) [] PRoot (root ct')) as [t Ht];
    [apply Hr'|apply (sh_root _ _ _ (rep_shape _ _ _ _ Hr'))|done|simpl; lia|].
  pose proof (profile_record_all_mem evs profile_init (Some sections) m Hm) as Hp.
  destruct (calltree_free_rep _ _ _ _ Hr) as (c0 & Hc0 & _), (calltree_free_rep _ _ _ _ Hr') as (c1 & Hc1 & _).
  destruct (callers_print_total t opts m' Hfo Hm') as (lc & mc & Hpc & Hmc).
  destruct fmt; try done; rewrite ?Hrec; cbn [mbind option_bind];
    try destruct (profile_record_all _ _ _ m) as [p m2]; unfold finish;
    cbn [report ds_ct ds_prof ds_mem]; rewrite ?Ht; cbn [mbind option_bind ds_ct ds_mem];
    try (destruct (profile_print_total p opts Hfo) as [lp ->]); rewrite ?Hpc;
    cbn [mbind option_bind ds_ct ds_mem]; rewrite ?Hc0, ?Hc1; by eexists _, _.
Qed.

(** The decode ends, whatever it is given, and leaves memory. *)
Lemma decode_buffer_ends `{!InsnLaws, !PacketLaws} buf sections fmt opts m :
  builds_stacks fmt = false -> filter_ok opts -> mem_ok m ->
  exists d m', decode_buffer buf sections fmt opts m = Some (d, m') /\ mem_ok m'.
Proof.
  intros Hf Hfo Hm.
  destruct (decide (buf = [])) as [->|Hb]; [by eexists _, _|].
  assert (Hpk : forall m, mem_ok m -> exists d m', packet_fallback buf fmt m = Some (d, m') /\ mem_ok m').
  { intros m1 Hm1. destruct (packet_fallback_total buf fmt m1) as [d Hd]. by exists d, m1. }
  destruct (decide (sections = [])) as [->|Hs].
  { destruct buf; [done|]. destruct fmt; eauto; by eexists _, _. }
  destruct (setup buf sections opts m) as [su|] eqn:Hsu.
  - destruct (setup_ok _ _ _ _ _ Hm Hsu) as (Hm1 & _ & Hr).
    destruct (decode_buffer_session _ _ _ _ _ Hb Hs Hsu) as (l & _ & ->).
    destruct (lines_total fmt opts (opts_tid opts) (su_syms su) (su_ranges su) l Hfo) as [ls ->].
    by apply recorded_total.
  - destruct (decode_buffer_unready buf sections fmt opts m Hm Hb Hs Hsu) as (m1 & Hm1 & ->).
    destruct (build_pt_image _ _ m).1.1; [by eexists _, _|by apply Hpk].
Qed.

Lemma probe_buffer_mem buf sections m : mem_ok m -> mem_ok (probe_buffer buf sections m).2.
Proof.
  intros Hm. unfold probe_buffer. destruct buf as [|b buf]; [done|]. destruct sections as [|sec secs]; [done|].
  pose proof (build_pt_image_mem (sec :: secs) sym_table_init m Hm) as Hm2.
  destruct (build_pt_image _ _ m) as [[[im|] st] m2]; [|done]. cbn [snd] in Hm2.
  pose proof (build_bin_ranges_mem (sec :: secs) MAX_BIN_RANGES m2 Hm2) as Hm3.
  destruct (build_bin_ranges _ _ m2) as [ranges m3]. destruct (pt_insn_alloc_decoder _ _) as [d|]; [|done].
  destruct (pt_insn_set_image d im) as [s d1]. case_bool; [done|]. by destruct (pt_insn_sync_forward d1).
Qed.
End outcome.

(** ** The decoder trace.c uses *)

#[export] Instance pt_decoder `{LibElf, PtInsnDecoder, QSort, DwarfLines, PtPacketDecoder} : Decoder := {
  decode_pt_probe buf ss m := let '(r, m) := probe_buffer buf ss m in (default None r, m);
  decode_pt_insn := decode_buffer;
}.

(** decode.c keeps what trace.c relies on. *)
#[export] Instance pt_decoder_laws `{LibElf, PtInsnDecoder, QSort, DwarfLines, PtPacketDecoder}
    `{!InsnLaws, !PacketLaws} : DecoderLaws.
Proof.
  split.
  - intros buf ss m Hm. pose proof (probe_buffer_mem buf ss m Hm) as Hp. simpl. by destruct (probe_buffer buf ss m).
  - intros buf ss fmt opts m. apply decode_buffer_ends.
Qed.
