(* ===== verification/Commands.v ===== *)
(** cmd_list.c and cmd_decode.c: the commands that trace nothing.

    [Reading] is what the kernel and the standard library give a command that
    reads files, and [HostInfo] the sysctl answers that list prints.  A
    command's outcome is its exit code, its lines on stdout and the state. *)

From Stdlib Require Import ZArith Lia Ascii String.
From stdpp Require Import base list strings sets gmap sorting.
From S2P Require Import Prelude CLib Types Elf Meta Resolve Hwt Trace Profile Snapshot Options.

(** * The system *)

(** One thread of [struct kinfo_proc]. *)
Record kinfo_thread := { ki_comm : string; ki_tid : Z; ki_tdname : string }.

Class HostInfo := {
  sysctlbyname : string -> option string;
  proc_threads_size : Z -> option Z;                    (* the first call of list_threads *)
  proc_threads : Z -> option (list kinfo_thread);       (* the second *)
}.

(** The text of a file opened for reading, [None] when it cannot be, and the
    size [fstat] tells. *)
Class Reading `{Kernel} := {
  file_text : string -> kernel -> option string;
  k_fstat : Z -> kernel -> option Z;
}.

(** * list *)

(** Printed on stdout; what is reported on stderr is left out. *)
Definition list_threads `{HostInfo} (pid : Z) (m : mem) : list string * mem :=
  match proc_threads_size pid with
  | None => ([], m)
  | Some _ =>
      let '(p, m) := malloc m in
      match p with
      | None => ([], m)
      | Some _ =>
          match proc_threads pid with
          | None | Some [] => ([], m)
          | Some ((t0 :: _) as ts) =>
              (["Threads for PID " +:+ fmt_d pid +:+ " (" +:+ ki_comm t0 +:+ "):";
                "  " +:+ padr 6 "INDEX" +:+ "  " +:+ padr 6 "TID" +:+ "  NAME"] ++
               imap (fun i t => "  " +:+ padr 6 (fmt_u (Z.of_nat i)) +:+ "  " +:+ padr 6 (fmt_d (ki_tid t)) +:+
                                "  " +:+ (if String.eqb (ki_tdname t) EmptyString then "(unnamed)"
                                          else ki_tdname t)) ts, m)
          end
      end
  end.

(** The value, if it fits the buffer with its terminator. *)
Definition sysctl_string `{HostInfo} (nm : string) (bufsz : nat) : option string :=
  match sysctlbyname nm with
  | Some v => if (String.length v <? bufsz)%nat then Some v else None
  | None => None
  end.

Fixpoint rule (n : nat) : string := match n with O => EmptyString | S n => "─" +:+ rule n end.

Definition backend_lines `{SysInfo} (backend : string) : list string :=
  ["Backend: " +:+ backend; rule 40] ++
  (if String.eqb backend "pt" then
     let '(mtc, cyc) := hwt_pt_default_timing in
     ["  Type:           Intel Processor Trace"; "  Modes:          thread, cpu";
      "  Features:       branch tracing" +:+
        (if (0 <? mtc) && (0 <? cyc) then ", timing, cycle-accurate"
         else if 0 <? mtc then ", timing" else EmptyString)]
   else if String.eqb backend "coresight" then
     ["  Type:           ARM CoreSight ETM"; "  Modes:          thread, cpu";
      "  Features:       branch tracing, timestamps"]
   else if String.eqb backend "spe" then
     ["  Type:           ARM Statistical Profiling Extension"; "  Modes:          thread, cpu";
      "  Features:       statistical sampling, latency, events"]
   else ["  Type:           unknown"]).

(** What to load. *)
Definition advice_lines (hwt_avail : bool) (backend : option string) (machine : string) : list string :=
  if negb hwt_avail then
    [""; "To enable HWT:"; "  sudo kldload hwt"] ++
    (if String.eqb machine "amd64" then ["  sudo kldload pt"]
     else if String.eqb machine "aarch64" then ["  sudo kldload coresight"] else [])
  else match backend with
  | Some _ => []
  | None =>
      [""; "hwt.ko is loaded but no backend driver found."] ++
      (if String.eqb machine "amd64" then
         ["  sudo kldload pt"; "  # If pt.ko is missing, build from source:";
          "  # cd /usr/src/sys/modules/pt && sudo make && sudo make install"]
       else if String.eqb machine "aarch64" then ["  sudo kldload coresight  # or: sudo kldload spe"] else [])
  end.

Definition hooks_lines : list string :=
  [""; "The running kernel lacks HWT_HOOKS.";
   "  HWT_IOC_ALLOC can still create a context, but exec/mmap records and scheduler-driven tracing are not available.";
   "  Boot a kernel built with:"; "    options HWT_HOOKS"].

Definition list_text `{SysInfo} (hwt_avail : bool) (hooks : Z) (backend : option string)
    (cpu_model machine : string) : list string :=
  ["HWT Framework"; rule 40;
   "  /dev/hwt:       " +:+ (if hwt_avail then "available" else "not found (kldload hwt)");
   "  Kernel hooks:   " +:+ (if 0 <? hooks then "enabled"
                             else if hooks =? 0 then "missing (boot kernel with HWT_HOOKS)" else "unknown");
   "  Backend:        " +:+ default "none loaded" backend;
   "  CPU:            " +:+ cpu_model; "  Architecture:   " +:+ machine] ++
  match backend with Some b => "" :: backend_lines b | None => [] end ++
  advice_lines hwt_avail backend machine ++
  (if hooks =? 0 then hooks_lines else []).

Definition json_bool (b : bool) : string := if b then "true" else "false".

Definition list_json (hwt_avail : bool) (hooks : Z) (backend : option string)
    (cpu_model machine : string) : string :=
  dq "{'hwt_available':" +:+ json_bool hwt_avail +:+
  dq ",'kernel_hooks':" +:+
    (if 0 <? hooks then "true" else if hooks =? 0 then "false" else "null") +:+
  dq ",'backend':" +:+ match backend with Some b => dq "'" +:+ b +:+ dq "'" | None => "null" end +:+
  dq ",'cpu_model':'" +:+ cpu_model +:+ dq "','machine':'" +:+ machine +:+
  dq "','intel_pt':" +:+
    json_bool (String.eqb machine "amd64" && bool_decide (backend = Some "pt")) +:+ "}".

(** [argv] is what follows the command's name. *)
Definition cmd_list `{Kernel, SysInfo, HostInfo} (argv : list string) (m : mem) (k : kernel)
    : option (Z * list string * mem * kernel) :=
  r ← parse_args list_optstring list_option argv {| l_fmt := FMT_TEXT; l_pid := 0 |};
  r ← r;
  match r with
  | inr rc => Some (rc, [], m, k)
  | inl (o, _) =>
      let '(hwt_avail, k) := hwt_available k in
      let '(hooks, m) := hwt_hooks_enabled m in
      let '(backend, m) := hwt_detect_backend m in
      let backend := chars <$> backend in
      let cpu_model := default "unknown" (sysctl_string "hw.model" 256) in
      let machine := default "unknown" (sysctl_string "hw.machine" 64) in
      let out := if bool_decide (l_fmt o = FMT_JSON) then [list_json hwt_avail hooks backend cpu_model machine]
                 else list_text hwt_avail hooks backend cpu_model machine in
      let '(threads, m) := if 0 <? l_pid o then list_threads (l_pid o) m else ([], m) in
      Some (0, out ++ threads, m, k)
  end.

(** * decode *)

(** The locals that decode's options set. *)
Record decode_options := {
  d_fmt : bsdtrace_fmt; d_meta_path : string; d_explicit : bool;
  d_sections : list pt_image_info; d_filter : list (option string) }.

Definition decode_optstring : string := "f:m:F:h".

Definition decode_start : decode_options :=
  {| d_fmt := FMT_TEXT; d_meta_path := EmptyString; d_explicit := false; d_sections := []; d_filter := [] |}.

Section decode.
Context `{Reading}.

(** The sidecar of [-m] is read at once; [None] is the crash of [-F]. *)
Definition decode_option (k : kernel) (c : ascii) (optarg : string) (s : decode_options * mem)
    : option ((decode_options * mem) + Z) :=
  let '(o, m) := s in
  match c with
  | "f" =>
      match parse_fmt optarg with
      | Some f => Some (inl ({| d_fmt := f; d_meta_path := d_meta_path o; d_explicit := d_explicit o;
                          d_sections := d_sections o; d_filter := d_filter o |}, m))
      | None => Some (inr 1)
      end
  | "m" =>
      let '(ss, m) := meta_read_sections (file_text optarg k) m in
      match ss with
      | Some ss => Some (inl ({| d_fmt := d_fmt o; d_meta_path := strlcpy MAXPATHLEN optarg; d_explicit := true;
                           d_sections := ss; d_filter := d_filter o |}, m))
      | None => Some (inr 1)
      end
  | "F" =>
      '(l, m) ← comma_list optarg m;
      Some (inl ({| d_fmt := d_fmt o; d_meta_path := d_meta_path o; d_explicit := d_explicit o;
                    d_sections := d_sections o; d_filter := l |}, m))
  | "h" => Some (inr 0)
  | _ => Some (inr 1)
  end%char.

(** The sidecar's name and sections. *)
Definition decode_sections (pt_path : string) (o : decode_options) (m : mem) (k : kernel)
    : option (string * list pt_image_info) * mem :=
  if d_explicit o then (Some (d_meta_path o, d_sections o), m)
  else
    let meta_path := derive_meta_path pt_path MAXPATHLEN in
    let '(ss, m) := meta_read_sections (file_text meta_path k) m in
    ((fun ss => (meta_path, ss)) <$> ss, m).

(** The bytes of the .pt file, mapped: its address and its size. *)
Definition map_pt (pt_path : string) (k : kernel) : option (Z * Z) * kernel :=
  let '(fd, k) := k_open pt_path k in
  match fd with
  | None => (None, k)
  | Some fd =>
      match k_fstat fd k with
      | None => (None, k_close fd k)
      | Some size =>
          if size =? 0 then (None, k_close fd k)
          else
            let '(buf, k) := k_mmap fd size k in
            ((fun b => (b, size)) <$> buf, k_close fd k)
      end
  end.

Definition replay_opts (meta_path : string) (funcs : list (option string)) (k : kernel) : pt_decode_opts :=
  let f := file_text meta_path k in
  let some := negb (String.eqb meta_path EmptyString) in
  {| opt_tid := if some then meta_read_tid f else -1;
     opt_mtc_freq := if some then u8 (meta_read_mtc_freq f) else 0;
     opt_cyc_thresh := if some then u8 (meta_read_cyc_thresh f) else 0;
     filter_funcs := funcs |}.

(** [None] is a crash of the decoder, or of [-F] without memory. *)
Definition cmd_decode `{Decoder} (argv : list string) (m : mem) (k : kernel)
    : option (Z * list string * mem * kernel) :=
  r ← parse_args decode_optstring (decode_option k) argv (decode_start, m);
  r ← r;
  match r with
  | inr rc => Some (rc, [], m, k)
  | inl ((o, m), []) => Some (1, [], m, k)
  | inl ((o, m), pt_path :: _) =>
      let '(r, m) := decode_sections pt_path o m k in
      match r with
      | None => Some (1, [], m, k)
      | Some (meta_path, sections) =>
          let '(buf, k) := map_pt pt_path k in
          match buf with
          | None => Some (1, [], m, k)
          | Some (buf, size) =>
              '(d, m) ← decode_pt_insn (take (Z.to_nat size) (k_bytes buf k)) sections (d_fmt o)
                          (Some (replay_opts meta_path (d_filter o) k)) m;
              Some (if dec_rc d =? 0 then 0 else 1, dec_out d, m, k_munmap buf k)
          end
      end
  end.
End decode.

(** * Helpers of bsdtrace.c *)

(** The name [process_exe_fullpath] finds, without its directory. *)
Definition process_name `{ProcInfo} (pid : Z) : option string :=
  (fun p => default p (after_last "/" p)) <$> process_exe_fullpath pid.

(** * Properties *)

(** Opening a file for reading, closing it and mapping it leave the text of
    the others alone. *)
Class ReadingLaws `{Reading} := {
  open_text : forall p q k, p <> q -> file_text p (k_open q k).2 = file_text p k;
  close_text : forall p fd k, file_text p (k_close fd k) = file_text p k;
  mmap_text : forall p fd len k, file_text p (k_mmap fd len k).2 = file_text p k;
}.

Lemma map_pt_text `{ReadingLaws} p q k : p <> q -> file_text p (map_pt q k).2 = file_text p k.
Proof.
  intros Hpq. unfold map_pt. pose proof (open_text p q k Hpq) as E0.
  destruct (k_open q k) as [[fd|] k1]; [|done]. cbn [snd] in E0.
  destruct (k_fstat fd k1) as [size|]; [|cbn; by rewrite close_text].
  case_bool; [cbn; by rewrite close_text|]. pose proof (mmap_text p fd size k1) as E1.
  destruct (k_mmap fd size k1) as [buf k2]. cbn [snd] in *. rewrite close_text. congruence.
Qed.

Lemma map_pt_fds `{KL : KernelLaws} `{!Reading} p k : fds (map_pt p k).2 = fds k.
Proof.
  unfold map_pt. pose proof (open_gains p k) as G.
  destruct (k_open p k) as [[fd|] k1]; [|done]. cbn [fst snd] in G.
  destruct (k_fstat fd k1) as [size|]; [|cbn; by eapply open_close_fds].
  case_bool; [cbn; by eapply open_close_fds|]. pose proof (mmap_fds fd size k1) as E1.
  destruct (k_mmap fd size k1) as [buf k2]. cbn [snd] in *. by eapply open_close_fds.
Qed.

(** ** Replay *)

(** The trace states that sessions reach: exec starts with no sections,
    trace with those of the process's mappings, and both process the records
    the kernel delivers. *)
Inductive live `{ProcInfo} (pid tid mtc cyc : Z) : trace_state -> Prop :=
  | live_exec recs m ts m' :
      mem_ok m -> Forall recordable recs ->
      process_all (trace_state_init (meta_start pid tid mtc cyc)) recs m = (ts, m') ->
      live pid tid mtc cyc ts
  | live_trace len kves recs rc ts0 m m0 ts m' :
      mem_ok m -> Forall recordable recs ->
      vmmap_size pid = Some len -> vmmap pid (len * 4 / 3) = Some kves ->
      Forall writable (map mmap_section (List.filter exec_vnode (map_entries kves))) ->
      trace_state_seed_process_mmaps (trace_state_init (meta_start pid tid mtc cyc)) pid m = (rc, ts0, m0) ->
      process_all ts0 recs m0 = (ts, m') ->
      live pid tid mtc cyc ts.

(** The sidecar of a session tells its reader the sections the session
    holds, the thread, and the timing. *)
Lemma live_sidecar `{ProcInfo} pid tid mtc cyc ts :
  is_i32 pid -> is_i32 tid -> 0 <= mtc < 256 -> 0 <= cyc < 256 -> live pid tid mtc cyc ts ->
  synced (ts_meta ts) (ts_sections ts) /\
  meta_read_tid (ts_meta ts) = tid /\ meta_read_mtc_freq (ts_meta ts) = mtc /\
  meta_read_cyc_thresh (ts_meta ts) = cyc.
Proof.
  intros Hp Ht Hmt Hcy Hlive. set (w := meta_start pid tid mtc cyc) in *.
  assert (Hw0 : synced w []) by (apply meta_start_synced; unfold is_u64; (done || lia)).
  assert (Hgo : forall ts0 m0 recs ts m', mem_ok m0 -> synced (ts_meta ts0) (ts_sections ts0) ->
    (exists t, ts_meta ts0 = put w t /\ quiet t) -> Forall recordable recs ->
    process_all ts0 recs m0 = (ts, m') ->
    synced (ts_meta ts) (ts_sections ts) /\ exists t, ts_meta ts = put w t /\ quiet t).
  { intros ts0 m0 recs ts1 m1 Hm Hs (t & Et & Hq) Hr Ep.
    destruct (process_all_sections recs ts0 m0 Hm) as (ts2 & m2 & E2 & _ & Hsec & Hmeta).
    rewrite Ep in E2. injection E2 as <- <-. rewrite Hsec, Hmeta. split; [by apply records_synced|].
    destruct (records_quiet recs (ts_meta ts0) Hr) as (t2 & -> & Hq2). rewrite Et, put_put.
    eexists. split; [done|by apply quiet_app]. }
  assert (Hl : synced (ts_meta ts) (ts_sections ts) /\ exists t, ts_meta ts = put w t /\ quiet t).
  { destruct Hlive as [recs m ts m' Hm Hr Ep|len kves recs rc ts0 m m0 ts m' Hm Hr Hs Hv Hw Es Ep].
    - apply (Hgo (trace_state_init w) m recs ts m'); [done|exact Hw0| |done|exact Ep].
      exists EmptyString. split; [symmetry; apply put_nothing|apply quiet_nil].
    - pose proof (seed_quiet (trace_state_init w) pid len kves m Hs Hv Hm Hw) as Hq.
      destruct (seed_synced (trace_state_init w) pid len kves m Hs Hv Hm Hw Hw0) as (ts1 & m1 & E & Hm1 & _ & Hsync).
      fold w in Es. rewrite E in Es, Hq. injection Es as <- <- <-. by eapply (Hgo _ _ _ _ _ Hm1 Hsync). }
  destruct Hl as [Hsync (t & Et & Hq)]. split; [done|]. rewrite Et. by apply meta_start_read.
Qed.

(** C1: A saved trace replays as it was decoded live, with memory, for a session
    without [-K] whose paths the sidecar can carry: the paths of its records
    and of the process's mappings have no quote, backslash or control
    character and are at most 1017 characters long.  After any such records
    [bsdtrace decode] on the two files the session left calls the decoder on
    the saved bytes with the very sections, thread index, timing parameters
    and filter that the live decode is given.  (Other paths are lost, and so is
    the kernel section that [-K] adds: see [ensure_kernel_offline_gap].) *)
Theorem decode_replays `{ReadingLaws, ProcInfo, Decoder} c pid ts p fname fmt fl fs mf mf' buf size m k k1 :
  is_i32 pid -> is_i32 (ctx_tid c) -> mem_ok m ->
  live pid (ctx_tid c) (u8 (mtc_freq c)) (u8 (cyc_thresh c)) ts ->
  file_text (derive_meta_path p MAXPATHLEN) k = ts_meta ts ->
  derive_meta_path p MAXPATHLEN <> p -> operands [p] = Some [p] ->
  map_pt p k = (Some (buf, size), k1) -> parse_fmt fname = Some fmt ->
  mem_ok mf -> comma_list fl mf = Some (fs, mf') ->
  let opts := {| opt_tid := ctx_tid c; opt_mtc_freq := 0; opt_cyc_thresh := 0;
                 filter_funcs := fs |} in
  exists m', mem_ok m' /\
    cmd_decode ["-f"; fname; "-F"; fl; p] m k =
      '(d, m') ← decode_pt_insn (take (Z.to_nat size) (k_bytes buf k1)) (ts_sections ts) fmt
                   (Some (snapshot_opts c (Some opts))) m';
      Some (if dec_rc d =? 0 then 0 else 1, dec_out d, m', k_munmap buf k1).
Proof.
  intros Hp Ht Hm Hlive Hf Hne Hop Hmap Hfmt Hmf Hfl opts.
  assert (Hu8 : forall x, 0 <= u8 x < 256) by (intros x; unfold u8; pose proof (Z.mod_pos_bound x 256); lia).
  destruct (live_sidecar pid (ctx_tid c) _ _ ts Hp Ht (Hu8 _) (Hu8 _) Hlive) as (Hsync & Hrt & Hrm & Hrc).
  destruct (comma_list_words fl mf Hmf) as (mf1 & Ef & _). rewrite Ef in Hfl. injection Hfl as <- <-.
  destruct (comma_list_words fl m Hm) as (m0 & Ef0 & Hm0).
  pose proof (meta_read_mem (ts_meta ts) m0 Hm0) as Hmem. pose proof (synced_read _ _ m0 Hsync Hm0) as Hread.
  exists (meta_read_sections (ts_meta ts) m0).2. split; [exact Hmem|].
  unfold cmd_decode, parse_args.
  pose proof (getopt_loop_items decode_optstring (decode_option k) [Separate "f" fname; Separate "F" fl] [p] [p]
    ltac:(repeat constructor; done) Hop) as Hgo.
  cbn [map concat render_item app] in Hgo. rewrite Hgo by lia. clear Hgo.
  cbn [items_apply item_apply decode_option]. rewrite Hfmt. cbn [items_apply item_apply decode_option mbind option_bind].
  rewrite Ef0. cbn [mbind option_bind].
  unfold decode_sections, decode_start. cbn [d_explicit d_meta_path d_sections d_filter d_fmt]. rewrite Hf.
  destruct (meta_read_sections (ts_meta ts) m0) as [r m'].
  cbn [fst snd] in *. subst r. cbn [fmap option_fmap option_map]. rewrite Hmap.
  cbn [d_fmt d_filter]. unfold replay_opts.
  pose proof (map_pt_text (derive_meta_path p MAXPATHLEN) p k Hne) as E. rewrite Hmap in E. cbn [snd] in E.
  rewrite E, Hf.
  assert (String.eqb (derive_meta_path p MAXPATHLEN) EmptyString = false) as ->.
  { apply String.eqb_neq. unfold derive_meta_path. destruct (pt_base p); discriminate. }
  cbn [negb]. rewrite Hrt, Hrm, Hrc. unfold snapshot_opts. cbn [opt_tid filter_funcs opts].
  assert (Hu : forall x, u8 (u8 x) = u8 x) by (intros x; unfold u8; by rewrite Z.mod_mod).
  by rewrite !Hu.
Qed.

(** ** Every path *)

(** With memory, options that leave memory and a filter without null names. *)
Definition decode_settings (s : decode_options * mem) : Prop := mem_ok s.2 /\ Forall is_Some (d_filter s.1).

Lemma decode_option_mem `{Reading} k c optarg s :
  decode_settings s ->
  match decode_option k c optarg s with Some (inl s') => decode_settings s' | Some (inr _) => True | None => False end.
Proof.
  destruct s as [o m]. intros [Hm Hfl]. cbn [fst snd] in *. unfold decode_option.
  pose proof (meta_read_mem (file_text optarg k) m Hm) as Hr.
  destruct (comma_list_mem optarg m Hm) as (l & m2 & El & Hm2 & Hl).
  destruct (meta_read_sections (file_text optarg k) m) as [ss m1]. cbn [snd] in Hr. rewrite El. cbn [mbind option_bind].
  destruct c as [[] [] [] [] [] [] [] []]; try done; repeat case_match; simplify_eq; try done; by split.
Qed.

Lemma decode_option_rc `{Reading} k c optarg s rc :
  decode_option k c optarg s = Some (inr rc) -> rc = 0 \/ rc = 1.
Proof.
  destruct s as [o m]. unfold decode_option.
  destruct (meta_read_sections (file_text optarg k) m) as [ss m1].
  destruct (comma_list optarg m) as [[l m2]|]; cbn [mbind option_bind];
    destruct c as [[] [] [] [] [] [] [] []]; repeat case_match; intros [= <-]; auto.
Qed.

(** C15: With memory, and in every format but collapsed and speedscope (whose
    recorder can write past its buffer), [bsdtrace decode] ends with code 0 or
    1 and gives back the descriptor of the trace, whatever the other options,
    the files and the kernel's answers. *)
Theorem cmd_decode_ends `{KL : KernelLaws} `{!Reading} `{DL : DecoderLaws} argv m k :
  mem_ok m ->
  (forall s rest, parse_args decode_optstring (decode_option k) argv (decode_start, m) = Some (Some (inl (s, rest))) ->
     builds_stacks (d_fmt s.1) = false) ->
  exists rc out m' k', cmd_decode argv m k = Some (rc, out, m', k') /\
    fds k' = fds k /\ (rc = 0 \/ rc = 1).
Proof.
  intros Hm Hfmt. unfold cmd_decode.
  destruct (parse_args_total decode_optstring (decode_option k) argv (decode_start, m)) as [r Er].
  rewrite Er. cbn [mbind option_bind].
  assert (Hst0 : decode_settings (decode_start, m)) by by split.
  destruct r as [[[[o m1] rest]|rc]|]; cbn [mbind option_bind].
  3:{ by destruct (getopt_loop_runs decode_settings _ _ _ _ _ (decode_option_mem k) Hst0 Er). }
  2:{ eexists _, _, _, _. split; [done|]. split; [done|].
      eapply (getopt_loop_rc (fun rc => rc = 0 \/ rc = 1)); [apply (decode_option_rc k)|by right|exact Er]. }
  specialize (Hfmt _ _ Er). cbn [fst] in Hfmt.
  assert (Hinv : forall c a s s', decode_settings s -> decode_option k c a s = Some (inl s') -> decode_settings s').
  { intros c a s s' Hs Hc. pose proof (decode_option_mem k c a s Hs) as Hd. by rewrite Hc in Hd. }
  destruct (getopt_loop_inv decode_settings _ _ _ _ _ _ Hinv Hst0 Er) as [Hm1 Hfl]. cbn [fst snd] in Hm1, Hfl.
  destruct rest as [|p rest]; [eexists _, _, _, _; split; [done|]; auto|].
  assert (Hs : mem_ok (decode_sections p o m1 k).2).
  { unfold decode_sections. case_bool; [done|].
    pose proof (meta_read_mem (file_text (derive_meta_path p MAXPATHLEN) k) m1 Hm1) as Hr.
    by destruct (meta_read_sections _ m1). }
  destruct (decode_sections p o m1 k) as [[[mp ss]|] m2]; [|eexists _, _, _, _; split; [done|]; auto].
  pose proof (map_pt_fds p k) as Hf.
  destruct (map_pt p k) as [[[buf size]|] k1]; [|eexists _, _, _, _; split; [done|]; auto].
  cbn [snd] in *.
  match goal with |- context [decode_pt_insn ?b ss ?f ?o m2] =>
    destruct (decode_ends b ss f o m2 Hfmt Hfl Hs) as (d & m3 & -> & _) end.
  cbn [mbind option_bind]. eexists _, _, _, _. split; [done|]. rewrite munmap_fds. split; [done|].
  case_bool; auto.
Qed.

(** So does [bsdtrace list]. *)
Theorem cmd_list_ends `{KL : KernelLaws} `{!SysInfo} `{!HostInfo} argv m k :
  exists rc out m' k', cmd_list argv m k = Some (rc, out, m', k') /\ fds k' = fds k /\ (rc = 0 \/ rc = 1).
Proof.
  unfold cmd_list.
  destruct (parse_args_total list_optstring list_option argv {| l_fmt := FMT_TEXT; l_pid := 0 |}) as [r Er].
  rewrite Er. cbn [mbind option_bind].
  assert (Hsw : forall c a o, match list_option c a o with Some (inl _) => True | Some (inr _) => True | None => False end).
  { intros c a o. unfold list_option. destruct c as [[] [] [] [] [] [] [] []]; repeat case_match; done. }
  destruct r as [[[o rest]|rc]|]; cbn [mbind option_bind].
  3:{ by destruct (getopt_loop_runs (fun _ => True) _ _ _ _ _ (fun c a o _ => Hsw c a o) I Er). }
  - assert (Ea : fds (hwt_available k).2 = fds k).
    { unfold hwt_available. pose proof (open_gains "/dev/hwt" k) as G.
      destruct (k_open "/dev/hwt" k) as [[fd|] k1]; [|done]. cbn. by eapply open_close_fds. }
    destruct (hwt_available k) as [av k1]. destruct (hwt_hooks_enabled m) as [hk m1].
    destruct (hwt_detect_backend m1) as [bk m2]. cbn [snd] in Ea.
    destruct (if 0 <? l_pid o then _ else _) as [th m3]. eexists _, _, _, _. split; [done|]. auto.
  - eexists _, _, _, _. split; [done|]. split; [done|].
    eapply (getopt_loop_rc (fun rc => rc = 0 \/ rc = 1)); [|by right|exact Er].
    intros c optarg a rc'. unfold list_option.
    destruct c as [[] [] [] [] [] [] [] []]; repeat case_match; intros [= <-]; auto.
Qed.
