(* ===== verification/Session.v ===== *)
(** cmd_exec.c, cmd_trace.c and bsdtrace.c's main: a tracing session, from
    the command line to the exit code, and the dispatch of the commands.

    [Processes] is what the two commands ask of the system beyond [Kernel]:
    fork, wait, kill, signals, clocks.  The duration is a C double, computed
    with the Standard Library's IEEE 754 operations.  Each command's loop is
    a step function run by [session_loop] with fuel; the properties show
    that some fuel is enough when the target exits after finitely many
    polls. *)

From Stdlib Require Import ZArith Lia Ascii String SpecFloat.
From stdpp Require Import base list strings sets gmap sorting.
From S2P Require Import Prelude CLib Types Elf Format Meta Resolve Hwt Trace Profile Snapshot.
From S2P Require Import Kept Options Commands.

(** * Doubles *)

Definition double : Type := spec_float.

Definition of_long (z : Z) : double := binary_normalize 53 1024 z 0 false.

(** The double nearest to [n / d]. *)
Definition of_ratio (neg : bool) (n d : Z) : double :=
  if n =? 0 then S754_zero neg
  else let '(q, e, l) := SFdiv_core_binary 53 1024 n 0 d 0 in binary_round_aux 53 1024 neg q e l.

(** Digits in base [b] with at most one point: the digits as an integer, how
    many follow the point, whether there is any. *)
Fixpoint scan_point (b a frac : Z) (point some : bool) (s : string) : Z * Z * bool * string :=
  match s with
  | EmptyString => (a, frac, some, s)
  | String c s' =>
      match digit_val b c with
      | Some d => scan_point b (a * b + d) (if point then frac + 1 else frac) point true s'
      | None => if Ascii.eqb c "." && negb point then scan_point b a frac true some s' else (a, frac, some, s)
      end
  end.

(** The exponent after its letter, 0 when there is none. *)
Definition scan_exponent (letter : ascii) (s : string) : Z :=
  match s with
  | String c s =>
      if Ascii.eqb (tolower c) letter then
        let '(neg, s) := scan_sign s in
        match scan_digits 10 0 false s with Some (e, _) => if neg then - e else e | None => 0 end
      else 0
  | EmptyString => 0
  end.

Definition scaled (neg : bool) (m base e : Z) : double :=
  if 0 <=? e then of_ratio neg (m * base ^ e) 1 else of_ratio neg m (base ^ (- e)).

Definition lower (s : string) : string := String.concat EmptyString (map (fun c => String (tolower c) EmptyString) (list_ascii_of_string s)).

(** [atof(s)]. *)
Definition atof (s : string) : double :=
  let '(neg, s) := scan_sign (skip_space s) in
  if has_prefix "inf" (lower s) then S754_infinity neg
  else if has_prefix "nan" (lower s) then S754_nan
  else
    let '(m, f, some, r) := scan_point 16 0 0 false false (str_drop 2 s) in
    if has_prefix "0x" (lower s) && some then scaled neg m 2 (scan_exponent "p" r - 4 * f)
    else
      let '(m, f, some, r) := scan_point 10 0 0 false false s in
      if some then scaled neg m 10 (scan_exponent "e" r - f) else S754_zero false.

(** [struct timespec]. *)
Record timespec := { tv_sec : Z; tv_nsec : Z }.

Definition elapsed (start now : timespec) : double :=
  SFadd 53 1024 (of_long (tv_sec now - tv_sec start))
    (SFdiv 53 1024 (of_long (tv_nsec now - tv_nsec start)) (of_long 1000000000)).

(** [duration > 0], and then [elapsed >= duration]. *)
Definition positive (d : double) : bool := SFltb (S754_zero false) d.
Definition expired (d : double) (start now : timespec) : bool := SFleb d (elapsed start now).

Example atof_half : atof " 0.5s" = of_ratio false 1 2. Proof. reflexivity. Qed.
Example atof_exponent : atof "25e-1" = of_ratio false 5 2 /\ atof "0x1.8p1" = of_long 3. Proof. split; reflexivity. Qed.

(** * The system *)

Inductive wait_status := Exited (code : Z) | Signaled (sig : Z) | Stopped.
Inductive wait_mode := WAIT | WNOHANG | WUNTRACED.
Inductive signal := SIG0 | SIGKILL | SIGCONT | SIGINT | SIGPIPE.
Inductive disposition := SIG_DFL | SIG_IGN | Handler.

Class Processes `{Kernel} := {
  HWT_MODE_THREAD : Z;
  (** The child has its ASLR disabled or not, stops itself and then executes
      the words. *)
  k_fork : bool -> list string -> kernel -> option Z * kernel;
  (** [None] for an error or, with [WNOHANG], nothing to report. *)
  k_waitpid : Z -> wait_mode -> kernel -> option wait_status * kernel;
  k_kill : Z -> signal -> kernel -> bool * kernel;
  k_signal : signal -> disposition -> kernel -> kernel;
  trace_interrupted : kernel -> bool;           (* SIGINT since its handler was installed *)
  k_clock : kernel -> timespec * kernel;
  k_now : kernel -> nat -> tm;                  (* local time, as records are printed *)
  k_usleep : Z -> kernel -> kernel;
  executable : string -> kernel -> bool;        (* stat succeeds and tells S_IXUSR *)
  env_PATH : option string;
}.

(** * Steps the two commands share *)

Definition MAX_POLL_RECORDS : Z := 256.

(** The options written into the context. *)
Definition configured (o : options) (f : ip_filter) (mtc cyc : Z) (c : hwt_ctx) : hwt_ctx :=
  {| ctl_fd := ctl_fd c; ctx_fd := ctx_fd c; kq_fd := kq_fd c; ident := ident c;
     ctx_mode := ctx_mode c; ctx_tid := ctx_tid c; ctx_pid := ctx_pid c;
     backend_name := backend_name c; bufsize := bufsize c; trace_buf := trace_buf c;
     filter := f; psb_freq := o_psb o; mtc_freq := mtc; cyc_thresh := cyc;
     ptwrite := o_ptwrite o; os_trace := o_os o; all_threads := o_all_threads o;
     requested_tids := if bool_decide (o_requested o = []) then requested_tids c else o_requested o;
     threads := threads c |}.

(** [None] when the processor has no timing packets for [-C]. *)
Definition apply_options `{SysInfo} (o : options) (f : ip_filter) (c : hwt_ctx) : option hwt_ctx :=
  let mtc := if 0 <? o_mtc o then o_mtc o else mtc_freq c in
  let cyc := if 0 <? o_cyc o then o_cyc o else cyc_thresh c in
  if o_timing o && (mtc =? 0) && (cyc =? 0) then
    let '(mtc, cyc) := hwt_pt_default_timing in
    if (mtc =? 0) && (cyc =? 0) then None else Some (configured o f mtc cyc c)
  else Some (configured o f mtc cyc c).

Definition pt_output_path (o : options) (pid : Z) : string :=
  match o_pt_output o with Some p => p | None => str_take 63 ("bsdtrace-" +:+ fmt_d pid +:+ ".pt") end.

Definition open_sidecar `{Files} (p : string) (m : mem) (k : kernel) : meta_writer * mem * kernel :=
  match (malloc m).1 with
  | None => (meta_writer_open false m, k)
  | Some _ => let '(ok, k) := k_fopen p k in (meta_writer_open ok m, k)
  end.

(** The sidecar opened, its header and timing written, and an empty state. *)
Definition start_state `{Files} (o : options) (pid : Z) (c : hwt_ctx) (m : mem) (k : kernel)
    : trace_state * mem * kernel :=
  let '(mw, m, k) := open_sidecar (derive_meta_path (pt_output_path o pid) MAXPATHLEN) m k in
  let mw := meta_writer_header mw pid (o_tid o) in
  let mw := meta_writer_timing mw (u8 (mtc_freq c)) (u8 (cyc_thresh c)) in
  (trace_state_init mw, m, k).

(** What the loop keeps: whether the target is gone, the exit code, the
    records and the empty polls since, the context and the trace state, and
    what was printed. *)
Record loop_state := {
  lp_done : bool; lp_code : Z; lp_total : Z; lp_empty : Z; lp_ctx : hwt_ctx; lp_ts : trace_state;
  lp_out : list (option string) }.

Definition loop_start (c : hwt_ctx) (ts : trace_state) : loop_state :=
  {| lp_done := false; lp_code := 0; lp_total := 0; lp_empty := 0; lp_ctx := c; lp_ts := ts; lp_out := [] |}.

Definition target_done (code : Z) (s : loop_state) : loop_state :=
  {| lp_done := true; lp_code := code; lp_total := lp_total s; lp_empty := lp_empty s;
     lp_ctx := lp_ctx s; lp_ts := lp_ts s; lp_out := lp_out s |}.

(** The records of a poll, the count of empty ones, and the pause; whether to
    go on. *)
Definition after_poll `{Processes} (o : options) (pid : Z) (recs : list bsdtrace_record) (s : loop_state)
    (m : mem) (k : kernel) : bool * loop_state * mem * kernel :=
  let '(out, c, ts, m, k) := emit_all (k_now k) recs pid (o_fmt o) (o_pause o) (lp_ctx s) (lp_ts s) m k in
  let empty := if lp_done s then (if bool_decide (recs = []) then lp_empty s + 1 else 0) else lp_empty s in
  let s := {| lp_done := lp_done s; lp_code := lp_code s; lp_total := lp_total s + Z.of_nat (length recs);
              lp_empty := empty; lp_ctx := c; lp_ts := ts; lp_out := lp_out s ++ out |} in
  if lp_done s && bool_decide (recs = []) && (5 <=? empty) then (false, s, m, k)
  else (true, s, m, k_usleep (if bool_decide (recs = []) then 5000 else 100) k).

Fixpoint session_loop `{Kernel} (fuel : nat) (step : loop_state -> mem -> kernel -> bool * loop_state * mem * kernel)
    (s : loop_state) (m : mem) (k : kernel) : option (loop_state * mem * kernel) :=
  match fuel with
  | O => None
  | S fuel =>
      let '(go, s, m, k) := step s m k in
      if go then session_loop fuel step s m k else Some (s, m, k)
  end.

(** The exit code, what was printed on stdout, the warnings and the kernel;
    the process ends here and its memory with it. *)
Record session `{Kernel} := {
  se_code : Z; se_records : list (option string); se_lines : list string; se_warnings : list warning;
  se_kernel : kernel }.

Definition ended `{Kernel} (code : Z) (k : kernel) : session :=
  {| se_code := code; se_records := []; se_lines := []; se_warnings := []; se_kernel := k |}.

(** [trace_finalize] with the session's own options, and the sidecar closed. *)
Definition finalize_session `{Decoder, Files, SysInfo, !Processes} (fuel : nat) (o : options) (pid : Z) (s : loop_state)
    (m : mem) (k : kernel) : option finalized :=
  let p := pt_output_path o pid in
  let opts := {| opt_tid := ctx_tid (lp_ctx s); opt_mtc_freq := 0; opt_cyc_thresh := 0;
                 filter_funcs := o_filter o |} in
  f ← trace_finalize fuel (k_now k) (lp_ctx s) (lp_ts s) p pid (o_fmt o) (lp_total s) (Some opts) m k;
  let k := match fin_meta f with
           | Some text => k_fclose (derive_meta_path p MAXPATHLEN) text (fin_kernel f)
           | None => fin_kernel f
           end in
  Some {| fin_result := fin_result f; fin_records := lp_out s ++ fin_records f; fin_decoded := fin_decoded f;
          fin_warnings := fin_warnings f; fin_meta := fin_meta f; fin_ctx := fin_ctx f; fin_kernel := k |}.

(** * exec *)

Definition DEFAULT_DURATION : double := of_long 30.

(** The child stopped before its exec. *)
Definition fork_stopped `{Processes} (args : list string) (no_aslr : bool) (k : kernel) : option Z * kernel :=
  let '(pid, k) := k_fork no_aslr args k in
  match pid with
  | None => (None, k)
  | Some pid =>
      let '(status, k) := k_waitpid pid WUNTRACED k in
      match status with
      | Some Stopped => (Some pid, k)
      | _ => (None, (k_waitpid pid WAIT (k_kill pid SIGKILL k).2).2)
      end
  end.

Definition kill_and_wait `{Processes} (pid : Z) (k : kernel) : kernel :=
  (k_waitpid pid WAIT (k_kill pid SIGKILL k).2).2.

(** The first directory of PATH that holds an executable of the name; the
    search stops at an empty last component. *)
Fixpoint search_path `{Processes} (cmd dir p : string) (k : kernel) : option string :=
  let candidate := str_take (MAXPATHLEN - 1) (dir +:+ "/" +:+ cmd) in
  match p with
  | EmptyString => if executable candidate k then Some candidate else None
  | String c p =>
      if Ascii.eqb c ":" then
        if executable candidate k then Some candidate
        else match p with EmptyString => None | _ => search_path cmd EmptyString p k end
      else search_path cmd (dir +:+ String c EmptyString) p k
  end.

Definition has_slash (s : string) : bool := negb (str_forall (fun c => negb (Ascii.eqb c "/")) s).

Definition exe_for_symbols `{Processes} (cmd : string) (k : kernel) : string :=
  if has_slash cmd then cmd
  else match env_PATH with
       | None | Some EmptyString => cmd
       | Some p => default cmd (search_path cmd EmptyString p k)
       end.

(** The ranges of [-r], and whether the child's ASLR has to be disabled. *)
Definition exec_filter `{Processes, LibElf, ProcInfo} (o : options) (cmd : string) (m : mem) (k : kernel)
    : option (ip_filter * bool) * mem :=
  match o_specs o with
  | [] => (Some ([], o_no_aslr o), m)
  | specs =>
      let '(r, m) := resolve_range_specs specs 0 (Some (exe_for_symbols cmd k)) true m in
      ((fun '(f, need) => (f, o_no_aslr o || need)) <$> r, m)
  end.

(** The exit code that a wait status gives, [old] when it gives none. *)
Definition exit_code (w : wait_status) (old : Z) : Z :=
  match w with Exited c => c | Signaled n => 128 + n | Stopped => old end.

(** One turn of exec's loop: whether to go on. *)
Definition exec_step `{Processes} (o : options) (child : Z) (start : timespec) (s : loop_state) (m : mem)
    (k : kernel) : bool * loop_state * mem * kernel :=
  let duration := match o_duration o with Some d => atof d | None => DEFAULT_DURATION end in
  let '(now, k) := k_clock k in
  if positive duration && expired duration start now then (false, s, m, (k_kill child SIGKILL k).2)
  else if (0 <? o_maxrecords o) && (o_maxrecords o <=? lp_total s) then
    (false, s, m, (k_kill child SIGKILL k).2)
  else
    let '(w, k) := k_waitpid child WNOHANG k in
    let s := match w with Some w => target_done (exit_code w (lp_code s)) s | None => s end in
    let '(recs, m, k) := hwt_ctx_poll_records (lp_ctx s) MAX_POLL_RECORDS false m k in
    match recs with
    | None =>
        if lp_done s then (false, s, m, k)
        else
          let '(w, k) := k_waitpid child WAIT (k_kill child SIGKILL k).2 in
          (false, target_done (match w with Some (Signaled n) => 128 + n | _ => 1 end) s, m, k)
    | Some recs => after_poll o child recs s m k
    end.

(** The child reaped if the loop left it; a failed wait leaves the status 0. *)
Definition reap `{Processes} (child : Z) (s : loop_state) (k : kernel) : Z * kernel :=
  if lp_done s then (lp_code s, k)
  else
    let '(w, k) := k_waitpid child WAIT k in
    (match w with Some w => exit_code w (lp_code s) | None => 0 end, k).

(** From the start of tracing on; [c] is configured. *)
Definition exec_run `{Decoder, Files, SysInfo, !Processes} (fuel drain_fuel : nat) (o : options) (child : Z)
    (c : hwt_ctx) (m : mem) (k : kernel) : option session :=
  let '(ok, k) := hwt_ctx_start c k in
  if negb ok then Some (ended 1 (kill_and_wait child (hwt_ctx_close c k).2))
  else
    let '(ts, m, k) := start_state o child c m k in
    let k := k_signal SIGPIPE SIG_IGN k in
    let '(_, k) := k_kill child SIGCONT k in
    let '(start, k) := k_clock k in
    '(s, m, k) ← session_loop fuel (exec_step o child start) (loop_start c ts) m k;
    let '(code, k) := reap child s k in
    f ← finalize_session drain_fuel o child s m k;
    Some {| se_code := code; se_records := fin_records f; se_lines := fin_decoded f;
            se_warnings := fin_warnings f; se_kernel := fin_kernel f |}.

(** With the child stopped: the context, its settings, the dry run. *)
Definition exec_setup `{Decoder, Files, SysInfo, !Processes} (fuel drain_fuel : nat) (o : options) (child : Z)
    (f : ip_filter) (backend : option string) (m : mem) (k : kernel) : option session :=
  let '(ok, c, k) := hwt_ctx_alloc HWT_MODE_THREAD child (o_tid o) (parse_size (o_bufsize_str o)) backend k in
  if negb ok then Some (ended 1 (kill_and_wait child k))
  else match apply_options o f c with
  | None => Some (ended 1 (hwt_ctx_close c (kill_and_wait child k)).2)
  | Some c =>
      let '(ok, k) := hwt_ctx_set_config c (o_pause o) k in
      if negb ok then Some (ended 1 (kill_and_wait child (hwt_ctx_close c k).2))
      else if o_dryrun o then Some (ended 0 (kill_and_wait child (hwt_ctx_close c k).2))
      else exec_run fuel drain_fuel o child c m k
  end.

Definition cmd_exec `{Decoder, Files, SysInfo, !Processes, LibElf, ProcInfo} (fuel drain_fuel : nat)
    (argv : list string) (m : mem) (k : kernel) : option session :=
  r ← parse_args exec_optstring exec_option argv (default_options, m);
  r ← r;
  match r with
  | inr rc => Some (ended rc k)
  | inl ((o, m), args) =>
      let args := match args with "--" :: rest => rest | _ => args end in
      match args with
      | [] => Some (ended 1 k)
      | cmd :: _ =>
          let '(f, m) := exec_filter o cmd m k in
          match f with
          | None => Some (ended 1 k)
          | Some (f, no_aslr) =>
              let '(backend, _, m, k) := resolve_backend (o_backend o) m k in
              match backend with
              | None => Some (ended 1 k)
              | Some _ =>
                  let '(rc, m) := check_hwt_hooks (o_dryrun o) m in
                  if negb (rc =? 0) then Some (ended (if o_dryrun o then 0 else 1) k)
                  else
                    let '(child, k) := fork_stopped args no_aslr k in
                    match child with
                    | None => Some (ended 1 k)
                    | Some child => exec_setup fuel drain_fuel o child f backend m k
                    end
              end
          end
      end
  end.

(** * trace *)

(** One turn of trace's loop. *)
Definition trace_step `{Processes} (o : options) (pid : Z) (start : timespec) (s : loop_state) (m : mem)
    (k : kernel) : bool * loop_state * mem * kernel :=
  let duration := match o_duration o with Some d => atof d | None => S754_zero false end in
  if trace_interrupted k then (false, s, m, k)
  else
    let '(over, k) :=
      if negb (lp_done s) && positive duration then
        let '(now, k) := k_clock k in (expired duration start now, k)
      else (false, k) in
    if over then (false, s, m, k)
    else if negb (lp_done s) && (0 <? o_maxrecords o) && (o_maxrecords o <=? lp_total s) then (false, s, m, k)
    else
      let '(alive, k) := if lp_done s then (true, k) else k_kill pid SIG0 k in
      let s := if alive then s else target_done (lp_code s) s in
      let '(recs, m, k) := hwt_ctx_poll_records (lp_ctx s) MAX_POLL_RECORDS false m k in
      match recs with
      | None => (false, s, m, k)
      | Some recs => after_poll o pid recs s m k
      end.

Definition trace_run `{Decoder, Files, SysInfo, !Processes, ProcInfo} (fuel drain_fuel : nat) (o : options)
    (pid : Z) (c : hwt_ctx) (m : mem) (k : kernel) : option session :=
  let k := k_signal SIGPIPE SIG_IGN (k_signal SIGINT Handler k) in
  let '(ok, k) := hwt_ctx_start c k in
  if negb ok then Some (ended 1 (hwt_ctx_close c k).2)
  else
    let '(ts, m, k) := start_state o pid c m k in
    let '(_, ts, m) := trace_state_seed_process_mmaps ts pid m in
    let '(start, k) := k_clock k in
    '(s, m, k) ← session_loop fuel (trace_step o pid start) (loop_start c ts) m k;
    f ← finalize_session drain_fuel o pid s m k;
    let k := k_signal SIGPIPE SIG_DFL (k_signal SIGINT SIG_DFL (fin_kernel f)) in
    Some {| se_code := if fin_result f <? 0 then 1 else 0; se_records := fin_records f;
            se_lines := fin_decoded f; se_warnings := fin_warnings f; se_kernel := k |}.

Definition trace_setup `{Decoder, Files, SysInfo, !Processes, ProcInfo} (fuel drain_fuel : nat) (o : options)
    (pid : Z) (f : ip_filter) (backend : option string) (m : mem) (k : kernel) : option session :=
  let '(ok, c, k) := hwt_ctx_alloc HWT_MODE_THREAD pid (o_tid o) (parse_size (o_bufsize_str o)) backend k in
  if negb ok then Some (ended 1 k)
  else match apply_options o f c with
  | None => Some (ended 1 (hwt_ctx_close c k).2)
  | Some c =>
      let '(ok, k) := hwt_ctx_set_config c (o_pause o) k in
      if negb ok then Some (ended 1 (hwt_ctx_close c k).2)
      else if o_dryrun o then Some (ended 0 (hwt_ctx_close c k).2)
      else trace_run fuel drain_fuel o pid c m k
  end.

Definition trace_filter `{LibElf, ProcInfo} (o : options) (pid : Z) (m : mem) : option ip_filter * mem :=
  match o_specs o with
  | [] => (Some [], m)
  | specs =>
      match process_exe_fullpath pid with
      | None => (None, m)
      | Some p => let '(r, m) := resolve_range_specs specs pid (Some p) false m in (fst <$> r, m)
      end
  end.

Definition cmd_trace `{Decoder, Files, SysInfo, !Processes, LibElf, ProcInfo} (fuel drain_fuel : nat)
    (argv : list string) (m : mem) (k : kernel) : option session :=
  r ← parse_args trace_optstring trace_option argv (default_options, m);
  r ← r;
  match r with
  | inr rc => Some (ended rc k)
  | inl (_, []) => Some (ended 1 k)
  | inl ((o, m), arg :: _) =>
      let pid := atoi arg in
      if pid <=? 0 then Some (ended 1 k)
      else
        let '(exists_, k) := k_kill pid SIG0 k in
        if negb exists_ then Some (ended 1 k)
        else
          let '(backend, _, m, k) := resolve_backend (o_backend o) m k in
          match backend with
          | None => Some (ended 1 k)
          | Some _ =>
              let '(rc, m) := check_hwt_hooks (o_dryrun o) m in
              if negb (rc =? 0) then Some (ended (if o_dryrun o then 0 else 1) k)
              else
                let '(f, m) := trace_filter o pid m in
                match f with
                | None => Some (ended 1 k)
                | Some f => trace_setup fuel drain_fuel o pid f backend m k
                end
          end
  end.

(** * bsdtrace *)

Definition BSDTRACE_VERSION : string := "0.1.0".

(** What list and decode end with. *)
Definition told `{Kernel} (r : option (Z * list string * mem * kernel)) : option session :=
  '(rc, out, _, k) ← r;
  Some {| se_code := rc; se_records := []; se_lines := out; se_warnings := []; se_kernel := k |}.

(** [argv] is what follows the program's name; a usage error is code 1. *)
Definition main `{Reading, Decoder, !Files, SysInfo, HostInfo, !Processes, LibElf, ProcInfo} (fuel drain_fuel : nat)
    (argv : list string) (m : mem) (k : kernel) : option session :=
  match argv with
  | [] => Some (ended 1 k)
  | cmd :: rest =>
      if String.eqb cmd "list" then told (cmd_list rest m k)
      else if String.eqb cmd "exec" then cmd_exec fuel drain_fuel rest m k
      else if String.eqb cmd "trace" then cmd_trace fuel drain_fuel rest m k
      else if String.eqb cmd "decode" then told (cmd_decode rest m k)
      else if String.eqb cmd "-v" || String.eqb cmd "--version" then
        told (Some (0, ["bsdtrace " +:+ BSDTRACE_VERSION], m, k))
      else Some (ended 1 k)
  end.

(** * What the commands rely on *)

(** The child processes not yet reaped, the contexts the kernel has a
    configuration for, and whether it has panicked.  Tracing calls do not
    touch processes; starting a context without its configuration is what
    panics the kernel. *)
Class ProcessLaws `{Files, !Processes, !FdTable} := {
  children : kernel -> gset Z;
  has_config : Z -> kernel -> bool;
  panicked : kernel -> bool;
  children_kept :: Kept children;
  panicked_kept :: Kept panicked;
  config_children : forall fd b a k, children (k_set_config fd b a k).2 = children k;
  config_panicked : forall fd b a k, panicked (k_set_config fd b a k).2 = panicked k;
  config_set : forall fd b a k, (k_set_config fd b a k).1 = true -> has_config fd (k_set_config fd b a k).2 = true;
  start_children : forall fd k, children (k_start fd k).2 = children k;
  start_panicked : forall fd k, has_config fd k = true -> panicked (k_start fd k).2 = panicked k;
  signal_config : forall fd s d k, has_config fd (k_signal s d k) = has_config fd k;
  signal_same : forall s d k, fds (k_signal s d k) = fds k /\
    children (k_signal s d k) = children k /\ panicked (k_signal s d k) = panicked k;
  kill_same : forall p s k, fds (k_kill p s k).2 = fds k /\
    children (k_kill p s k).2 = children k /\ panicked (k_kill p s k).2 = panicked k;
  clock_same : forall k, fds (k_clock k).2 = fds k /\
    children (k_clock k).2 = children k /\ panicked (k_clock k).2 = panicked k;
  usleep_same : forall n k, fds (k_usleep n k) = fds k /\
    children (k_usleep n k) = children k /\ panicked (k_usleep n k) = panicked k;
  fork_gains : forall b l k, fds (k_fork b l k).2 = fds k /\ panicked (k_fork b l k).2 = panicked k /\
    match (k_fork b l k).1 with
    | Some pid => (pid ∉ children k) /\ children (k_fork b l k).2 = {[ pid ]} ∪ children k
    | None => children (k_fork b l k).2 = children k
    end;
  wait_loses : forall p w k, fds (k_waitpid p w k).2 = fds k /\ panicked (k_waitpid p w k).2 = panicked k /\
    children (k_waitpid p w k).2 =
      match (k_waitpid p w k).1 with
      | Some (Exited _) | Some (Signaled _) => children k ∖ {[ p ]}
      | Some Stopped | None => children k
      end;
  no_hang_ends : forall p k, (k_waitpid p WNOHANG k).1 <> Some Stopped;
}.

(** Waiting without flags for a child of one's own does not fail: no other
    wait takes the child, and exec catches no signal that could interrupt it;
    it returns when the child has terminated. *)
Class ChildWaits `{ProcessLaws} := {
  child_waits : forall p k, p ∈ children k -> exists w, (k_waitpid p WAIT k).1 = Some w /\ w <> Stopped;
}.

(** The target exits after finitely many polls and leaves finitely many
    records: the polls that still find it running, and the records. *)
Class TargetExits `{ProcessLaws} := {
  polls_left : kernel -> nat;
  left_open : forall p k, (polls_left (k_open p k).2 <= polls_left k)%nat;
  left_wakeup : forall fd k, (polls_left (k_wakeup fd k).2 <= polls_left k)%nat;
  left_clock : forall k, (polls_left (k_clock k).2 <= polls_left k)%nat;
  left_usleep : forall n k, (polls_left (k_usleep n k) <= polls_left k)%nat;
  left_wait : forall p w k, (polls_left (k_waitpid p w k).2 <= polls_left k)%nat;
  left_records : forall fd n w k es k',
    k_record_get fd n w k = (Some es, k') -> (polls_left k' + length es <= polls_left k)%nat;
  left_running : forall p k k', k_waitpid p WNOHANG k = (None, k') -> p ∈ children k ->
    (polls_left k' < polls_left k)%nat;
  left_alive : forall p k k', k_kill p SIG0 k = (true, k') -> (polls_left k' < polls_left k)%nat;
  left_gone : forall p k k', k_kill p SIG0 k = (false, k') -> (polls_left k' <= polls_left k)%nat;
}.

(** * Properties *)

(** ** Settings *)

(** C14: The configuration given to the kernel is the one the options ask for:
    the ranges of [-r] with their modes, the encodings of [-P], [-M] and
    [-Y], or of the processor's fastest timing for a bare [-C], and the
    control bits of [-W] and [-K]. *)
Theorem config_of_options `{SysInfo} o f md pid name size c :
  apply_options o f (ctx_init md pid (o_tid o) name size) = Some c ->
  let timing := if o_timing o && (o_mtc o =? 0) && (o_cyc o =? 0) then hwt_pt_default_timing
                else (o_mtc o, o_cyc o) in
  options_ok o -> (length f <= 2)%nat ->
  pt_config c =
    {| rtit_ctl := rtit_ctl (pt_config c); nranges := Z.of_nat (length f); ip_ranges := f;
       cfg_mtc_freq := timing.1; cfg_cyc_thresh := timing.2; cfg_psb_freq := o_psb o |} /\
  Z.testbit (rtit_ctl (pt_config c)) 2 = o_os o /\ Z.testbit (rtit_ctl (pt_config c)) 12 = o_ptwrite o /\
  Z.testbit (rtit_ctl (pt_config c)) 10 = ((0 <? timing.1) || (0 <? timing.2)) /\
  (o_timing o = true -> 0 < timing.1 \/ 0 < timing.2).
Proof.
  intros Hc timing Ho Hf.
  assert (E : c = configured o f timing.1 timing.2 (ctx_init md pid (o_tid o) name size) /\
              (o_timing o = true -> timing.1 <> 0 \/ timing.2 <> 0)).
  { revert Hc. unfold apply_options, timing. cbn [mtc_freq cyc_thresh ctx_init].
    assert (Em : (if 0 <? o_mtc o then o_mtc o else 0) = o_mtc o) by (destruct Ho; case_bool; to_prop; lia).
    assert (Ec : (if 0 <? o_cyc o then o_cyc o else 0) = o_cyc o) by (destruct Ho; case_bool; to_prop; lia).
    rewrite Em, Ec. destruct (o_timing o) eqn:Et; cbn [andb].
    - destruct ((o_mtc o =? 0) && (o_cyc o =? 0)) eqn:E0.
      + destruct hwt_pt_default_timing as [a b]. destruct ((a =? 0) && (b =? 0)) eqn:E1; [done|].
        intros [= <-]. split; [done|]. intros _. cbn. apply andb_false_iff in E1 as [?|?]; to_prop; auto.
      + intros [= <-]. split; [done|]. intros _. cbn. apply andb_false_iff in E0 as [?|?]; to_prop; auto.
    - intros [= <-]. by split. }
  assert (Hnn : 0 <= timing.1 /\ 0 <= timing.2).
  { unfold timing. case_bool; [|destruct Ho; cbn; lia]. unfold hwt_pt_default_timing.
    destruct cpuid_14_1 as [a b]. cbn [fst snd].
    destruct (lowest_from_spec (Z.land (Z.shiftr a 16) 65535) 1 15 ltac:(lia)) as [[-> _]|(? & _)],
      (lowest_from_spec (Z.land b 65535) 1 15 ltac:(lia)) as [[-> _]|(? & _)]; lia. }
  clearbody timing. destruct E as [-> Ht]. rewrite !pt_config_bits by lia.
  split_and!; [|cbn [os_trace ptwrite mtc_freq cyc_thresh configured];
    destruct (o_os o), (o_ptwrite o), ((0 <? timing.1) || (0 <? timing.2)); reflexivity..|intros [?|?]%Ht; lia].
  unfold pt_config. cbn [filter mtc_freq cyc_thresh psb_freq configured]. by rewrite firstn_all2.
Qed.

(** ** Loops *)

Section sessions.
Context `{KL : KernelLaws} `{!WriteLaws} `{!RecordQueue} `{!Files} `{!FileLaws} `{DL : DecoderLaws} `{!SysInfo}.
Context `{!Processes} `{PL : !ProcessLaws} `{TE : !TargetExits}.

(** Settings that a session can be finished with: a format whose recorder
    stays in bounds, and no null name in the filter. *)
Definition printable (o : options) : Prop :=
  builds_stacks (o_fmt o) = false /\ Forall is_Some (o_filter o).

(** What a loop does not change: the descriptors of its context, processes
    and the kernel's health. *)
Record loop_ok (before : gset Z) (kids : gset Z) (s : loop_state) (m : mem) (k : kernel) : Prop := {
  lk_ctx : ctx_ok before (lp_ctx s) k; lk_mem : mem_ok m;
  lk_kids : children k = kids; lk_panic : panicked k = false }.

Definition loop_measure (s : loop_state) (k : kernel) : nat := 6 * polls_left k + Z.to_nat (5 - lp_empty s).

Lemma session_loop_ends step (I Q : loop_state -> mem -> kernel -> Prop) :
  (forall s m k, I s m k -> let '(go, s', m', k') := step s m k in
     if go : bool then I s' m' k' /\ (loop_measure s' k' < loop_measure s k)%nat else Q s' m' k') ->
  forall fuel s m k, I s m k -> (loop_measure s k < fuel)%nat ->
  exists s' m' k', session_loop fuel step s m k = Some (s', m', k') /\ Q s' m' k'.
Proof.
  intros Hstep. induction fuel as [|fuel IH]; intros s m k Hi Hf; [lia|]. cbn [session_loop].
  specialize (Hstep s m k Hi). destruct (step s m k) as [[[[] s'] m'] k'].
  - destruct Hstep as [Hi' Hlt]. apply IH; [done|lia].
  - by eexists _, _, _.
Qed.

Lemma emit_left now rec pid fmt pause c ts m k :
  (polls_left (emit_and_process now rec pid fmt pause c ts m k).2 <= polls_left k)%nat.
Proof.
  unfold emit_and_process. set (k1 := if (pause && _)%bool then _ else k).
  assert (E1 : (polls_left k1 <= polls_left k)%nat) by (subst k1; case_bool; [apply left_wakeup|done]). clearbody k1.
  assert (E2 : (polls_left (hwt_ctx_open_thread c (r_thread_id rec) k1).2 <= polls_left k1)%nat).
  { unfold hwt_ctx_open_thread. repeat (case_bool; [done|]).
    pose proof (left_open (devpath (ident c) (r_thread_id rec)) k1) as Eo. by destruct (k_open _ k1) as [[fd|] k2]. }
  destruct (hwt_ctx_open_thread c (r_thread_id rec) k1) as [[r c1] k2].
  destruct (trace_state_process ts rec m) as [ts1 m1]. cbn [snd] in *. repeat case_bool; cbn [snd]; lia.
Qed.

Lemma emit_all_left recs : forall now pid fmt pause c ts m k,
  (polls_left (emit_all now recs pid fmt pause c ts m k).2 <= polls_left k)%nat.
Proof.
  induction recs as [|rec recs IH]; intros now pid fmt pause c ts m k; [done|]. cbn [emit_all].
  pose proof (emit_left (now 0%nat) rec pid fmt pause c ts m k) as E1.
  destruct (emit_and_process _ rec pid fmt pause c ts m k) as [[[[o c1] ts1] m1] k1]. cbn [snd] in E1.
  pose proof (IH (fun i => now (S i)) pid fmt pause c1 ts1 m1 k1) as E2.
  destruct (emit_all _ recs pid fmt pause c1 ts1 m1 k1) as [[[[os c2] ts2] m2] k2]. cbn [snd] in *. lia.
Qed.

Lemma poll_left c m k recs m' k' :
  hwt_ctx_poll_records c MAX_POLL_RECORDS false m k = (Some recs, m', k') ->
  (polls_left k' + length recs <= polls_left k)%nat.
Proof.
  unfold hwt_ctx_poll_records. destruct (malloc m) as [[l|] m1]; [|done].
  match goal with |- context [k_record_get ?a ?b ?d k] =>
    pose proof (left_records a b d k) as E; destruct (k_record_get a b d k) as [[es|] k1] end; [|done].
  intros [= <- <- <-]. rewrite length_map. by apply E.
Qed.

Lemma poll_ok before kids s m k :
  loop_ok before kids s m k ->
  let '(r, m', k') := hwt_ctx_poll_records (lp_ctx s) MAX_POLL_RECORDS false m k in
  loop_ok before kids s m' k'.
Proof.
  intros [Hc Hm Hk Hp]. pose proof (poll_fds (lp_ctx s) MAX_POLL_RECORDS false m k) as Ef.
  pose proof (poll_kept (f := children) (lp_ctx s) MAX_POLL_RECORDS false m k) as Ek.
  pose proof (poll_kept (f := panicked) (lp_ctx s) MAX_POLL_RECORDS false m k) as Ep.
  destruct (hwt_ctx_poll_records _ _ false m k) as [[r m'] k'] eqn:E. cbn [snd] in *.
  pose proof (poll_mem _ _ _ _ _ _ _ _ E Hm). constructor; [by eapply ctx_ok_fds|done|congruence|congruence].
Qed.

Lemma after_poll_ok before kids o pid recs s m k :
  loop_ok before kids s m k -> 0 <= lp_empty s < 5 ->
  let '(go, s', m', k') := after_poll o pid recs s m k in
  loop_ok before kids s' m' k' /\ lp_done s' = lp_done s /\
  (go = true -> 0 <= lp_empty s' < 5 /\ (polls_left k' <= polls_left k)%nat /\
     (lp_done s = false -> lp_empty s' = lp_empty s) /\
     (lp_done s = true -> recs = [] -> lp_empty s' = lp_empty s + 1)).
Proof.
  intros [Hc Hm Hk Hp] He. unfold after_poll.
  pose proof (emit_all_ok before recs (k_now k) pid (o_fmt o) (o_pause o) (lp_ctx s) (lp_ts s) m k Hc Hm) as Ho.
  pose proof (emit_all_kept (f := children) recs (k_now k) pid (o_fmt o) (o_pause o) (lp_ctx s) (lp_ts s) m k) as Ek.
  pose proof (emit_all_kept (f := panicked) recs (k_now k) pid (o_fmt o) (o_pause o) (lp_ctx s) (lp_ts s) m k) as Ep.
  pose proof (emit_all_left recs (k_now k) pid (o_fmt o) (o_pause o) (lp_ctx s) (lp_ts s) m k) as El.
  destruct (emit_all _ recs pid _ _ _ _ m k) as [[[[out c] ts] m1] k1]. cbn [snd] in *. destruct Ho as [Hc1 Hm1].
  assert (Hl : forall s' k2, lp_ctx s' = c -> fds k2 = fds k1 -> children k2 = children k1 ->
    panicked k2 = panicked k1 -> loop_ok before kids s' m1 k2).
  { intros s' k2 Hcx Hf1 Hf2 Hf3. constructor; [rewrite Hcx; by eapply ctx_ok_fds|done|congruence|congruence]. }
  assert (Hs : forall s' n, lp_ctx s' = c -> loop_ok before kids s' m1 (k_usleep n k1)).
  { intros s' n Hcx. destruct (usleep_same n k1) as (? & ? & ?). by apply Hl. }
  pose proof (fun n => left_usleep n k1) as Ul.
  cbn [lp_done lp_empty]. destruct (lp_done s) eqn:Ed, (bool_decide (recs = [])) eqn:Er; cbn [andb];
    try (case_bool; to_prop); (split; [by first [apply Hs|apply Hl]|]; split; [done|]); try done;
    intros _; cbn [lp_empty]; try apply bool_decide_eq_false in Er;
    (split; [lia|]); (split; [by etrans; [apply Ul|]|]); done.
Qed.
Lemma loop_ok_same before kids kids' s s' m k k' :
  loop_ok before kids s m k -> lp_ctx s' = lp_ctx s -> fds k' = fds k -> panicked k' = panicked k ->
  children k' = kids' -> loop_ok before kids' s' m k'.
Proof. intros [Hc Hm Hk Hp] Hcx Hf Hpn Hch. constructor; [rewrite Hcx; by eapply ctx_ok_fds|done|done|congruence]. Qed.

(** The processes left when the loop is in a state: the child is one of them
    until it is reaped. *)
Definition kids_of (child : Z) (kids : gset Z) (s : loop_state) : gset Z :=
  if lp_done s then kids else {[ child ]} ∪ kids.

(** Waiting without flags for a child reaps it. *)
Lemma wait_blocks `{!ChildWaits} p kids k :
  p ∉ kids -> children k = {[ p ]} ∪ kids -> children (k_waitpid p WAIT k).2 = kids.
Proof.
  intros Hn Hk. destruct (child_waits p k) as (w & Ew & Hw); [set_solver|].
  destruct (wait_loses p WAIT k) as (_ & _ & ->). rewrite Ew, Hk. destruct w; [set_solver|set_solver|done].
Qed.

Lemma exec_wait before child kids s m k :
  loop_ok before (kids_of child kids s) s m k -> child ∉ kids ->
  let '(w, k') := k_waitpid child WNOHANG k in
  let s' := match w with Some w => target_done (exit_code w (lp_code s)) s | None => s end in
  loop_ok before (kids_of child kids s') s' m k' /\ (polls_left k' <= polls_left k)%nat /\
  (lp_done s' = false -> (polls_left k' < polls_left k)%nat).
Proof.
  intros Hl Hn. destruct (wait_loses child WNOHANG k) as (Wf & Wp & Wk).
  pose proof (no_hang_ends child k) as Hst. pose proof (left_wait child WNOHANG k) as Wl.
  pose proof (left_running child k) as Wr.
  assert (E : children k ∖ {[ child ]} = kids).
  { rewrite (lk_kids _ _ _ _ _ Hl). unfold kids_of. case_bool; set_solver. }
  destruct (k_waitpid child WNOHANG k) as [[w|] k']; cbn [fst snd] in *.
  - split; [|by split]. eapply loop_ok_same; [exact Hl|done|done|done|].
    destruct w; [by rewrite Wk|by rewrite Wk|done].
  - split; [eapply loop_ok_same; [exact Hl|done|done|done|]; rewrite Wk; apply (lk_kids _ _ _ _ _ Hl)|].
    split; [done|]. intros Hd. apply (Wr k'); [done|]. rewrite (lk_kids _ _ _ _ _ Hl).
    unfold kids_of. rewrite Hd. set_solver.
Qed.

(** What is left of the measure after a poll that goes on. *)
Lemma poll_measure s s' (recs : list bsdtrace_record) k0 k1 k2 :
  (polls_left k1 + length recs <= polls_left k0)%nat -> (polls_left k2 <= polls_left k1)%nat ->
  (lp_done s = false -> (polls_left k1 < polls_left k0)%nat) -> 0 <= lp_empty s < 5 ->
  0 <= lp_empty s' < 5 -> (lp_done s = false -> lp_empty s' = lp_empty s) ->
  (lp_done s = true -> recs = [] -> lp_empty s' = lp_empty s + 1) ->
  (6 * polls_left k2 + Z.to_nat (5 - lp_empty s') < 6 * polls_left k0 + Z.to_nat (5 - lp_empty s))%nat.
Proof.
  intros Hr Hk Hrun He He' Hsame Hnext. destruct (lp_done s); [|specialize (Hrun eq_refl); lia].
  destruct recs; [rewrite (Hnext eq_refl eq_refl)|cbn [length] in Hr]; lia.
Qed.

Lemma exec_step_ok `{!ChildWaits} before child kids o start s m k :
  child ∉ kids -> loop_ok before (kids_of child kids s) s m k -> 0 <= lp_empty s < 5 ->
  let '(go, s', m', k') := exec_step o child start s m k in
  loop_ok before (kids_of child kids s') s' m' k' /\
  (go = true -> 0 <= lp_empty s' < 5 /\ (loop_measure s' k' < loop_measure s k)%nat).
Proof.
  intros Hn Hl He. unfold exec_step. destruct (clock_same k) as (Cf & Ck & Cp). pose proof (left_clock k) as Cl.
  destruct (k_clock k) as [now k0]. cbn [snd] in *.
  assert (Hl0 : loop_ok before (kids_of child kids s) s m k0)
    by (eapply loop_ok_same; [exact Hl|done..|]; rewrite Ck; apply (lk_kids _ _ _ _ _ Hl)).
  assert (Hkill : loop_ok before (kids_of child kids s) s m (k_kill child SIGKILL k0).2).
  { destruct (kill_same child SIGKILL k0) as (Kf & Kk & Kp).
    eapply loop_ok_same; [exact Hl0|done..|]. rewrite Kk. apply (lk_kids _ _ _ _ _ Hl0). }
  case_bool; [by split|]. case_bool; [by split|].
  pose proof (exec_wait before child kids s m k0 Hl0 Hn) as Hw.
  destruct (k_waitpid child WNOHANG k0) as [w k1]. cbv zeta in *.
  set (s1 := match w with Some w => _ | None => s end) in *. destruct Hw as (Hl1 & Wl & Wr).
  assert (He1 : lp_empty s1 = lp_empty s) by (subst s1; by destruct w).
  pose proof (poll_ok before _ s1 m k1 Hl1) as Hp. pose proof (poll_left (lp_ctx s1) m k1) as Hpl.
  destruct (hwt_ctx_poll_records (lp_ctx s1) MAX_POLL_RECORDS false m k1) as [[[recs|] m2] k2].
  - pose proof (after_poll_ok before _ o child recs s1 m2 k2 Hp ltac:(lia)) as Ha.
    destruct (after_poll o child recs s1 m2 k2) as [[[go s3] m3] k3]. destruct Ha as (Hl3 & Hd3 & Hgo).
    split; [unfold kids_of in *; by rewrite Hd3|]. intros Hg. destruct (Hgo Hg) as (He3 & Hk3 & Hsame & Hnext).
    split; [done|]. specialize (Hpl recs m2 k2 eq_refl). unfold loop_measure. rewrite <- He1.
    apply (poll_measure s1 s3 recs k k2 k3); [lia|done| |lia|done..]. intros Hd. specialize (Wr Hd). lia.
  - case_bool; [by split|]. destruct (kill_same child SIGKILL k2) as (Kf & Kk & Kp).
    destruct (wait_loses child WAIT (k_kill child SIGKILL k2).2) as (Wf & Wp & _).
    assert (Hb : children (k_waitpid child WAIT (k_kill child SIGKILL k2).2).2 = kids).
    { apply wait_blocks; [done|]. rewrite Kk, (lk_kids _ _ _ _ _ Hp). unfold kids_of. by rewrite E1. }
    destruct (k_waitpid child WAIT (k_kill child SIGKILL k2).2) as [w' k3]. cbn [fst snd] in *.
    split; [|done]. eapply loop_ok_same; [exact Hp|done|congruence|congruence|]. exact Hb.
Qed.

Lemma trace_step_ok before kids o pid start s m k :
  loop_ok before kids s m k -> 0 <= lp_empty s < 5 ->
  let '(go, s', m', k') := trace_step o pid start s m k in
  loop_ok before kids s' m' k' /\
  (go = true -> 0 <= lp_empty s' < 5 /\ (loop_measure s' k' < loop_measure s k)%nat).
Proof.
  intros Hl He. unfold trace_step. cbv zeta. case_bool; [by split|].
  set (p := if negb (lp_done s) && positive _ then _ else _).
  assert (Hc : loop_ok before kids s m p.2 /\ (polls_left p.2 <= polls_left k)%nat).
  { subst p. case_bool; [|by split]. destruct (clock_same k) as (Cf & Ck & Cp). pose proof (left_clock k) as Cl.
    destruct (k_clock k) as [now k0]. cbn [snd] in *. split; [|done].
    eapply loop_ok_same; [exact Hl|done..|]. rewrite Ck. apply (lk_kids _ _ _ _ _ Hl). }
  destruct p as [over k0]. cbn [snd] in Hc. destruct Hc as [Hl0 Cl]. case_bool; [by split|]. case_bool; [by split|].
  set (q := if lp_done s then _ else k_kill pid SIG0 k0).
  assert (Hq : loop_ok before kids s m q.2 /\ (polls_left q.2 <= polls_left k0)%nat /\
    (lp_done (if q.1 then s else target_done (lp_code s) s) = false -> (polls_left q.2 < polls_left k0)%nat)).
  { subst q. destruct (lp_done s) eqn:Ed; [by cbn; rewrite Ed|].
    destruct (kill_same pid SIG0 k0) as (Kf & Kk & Kp). pose proof (left_alive pid k0) as Ka.
    pose proof (left_gone pid k0) as Kg. destruct (k_kill pid SIG0 k0) as [[] k1]; cbn [fst snd] in *.
    - specialize (Ka k1 eq_refl). split; [|lia].
      eapply loop_ok_same; [exact Hl0|done..|]. rewrite Kk. apply (lk_kids _ _ _ _ _ Hl0).
    - specialize (Kg k1 eq_refl). split; [|done].
      eapply loop_ok_same; [exact Hl0|done..|]. rewrite Kk. apply (lk_kids _ _ _ _ _ Hl0). }
  destruct q as [alive k1]. cbn [fst snd] in Hq. set (s1 := if alive then s else _) in *.
  destruct Hq as (Hl1' & Ql & Qr). assert (He1 : lp_empty s1 = lp_empty s) by (subst s1; by destruct alive).
  assert (Hl1 : loop_ok before kids s1 m k1) by (subst s1; destruct alive; [done|by destruct Hl1'; constructor]).
  pose proof (poll_ok before _ s1 m k1 Hl1) as Hp. pose proof (poll_left (lp_ctx s1) m k1) as Hpl.
  destruct (hwt_ctx_poll_records (lp_ctx s1) MAX_POLL_RECORDS false m k1) as [[[recs|] m2] k2]; [|by split].
  pose proof (after_poll_ok before _ o pid recs s1 m2 k2 Hp ltac:(lia)) as Ha.
  destruct (after_poll o pid recs s1 m2 k2) as [[[go s3] m3] k3]. destruct Ha as (Hl3 & Hd3 & Hgo).
  split; [done|]. intros Hg. destruct (Hgo Hg) as (He3 & Hk3 & Hsame & Hnext).
  split; [done|]. specialize (Hpl recs m2 k2 eq_refl). unfold loop_measure. rewrite <- He1.
  apply (poll_measure s1 s3 recs k k2 k3); [lia|done| |lia|done..]. intros Hd. specialize (Qr Hd). lia.
Qed.
(** ** Whole sessions *)

Definition clean (before kids : gset Z) (k : kernel) : Prop :=
  fds k = before /\ children k = kids /\ panicked k = false.

(** The state between two calls. *)
Definition holds (before kids : gset Z) (c : hwt_ctx) (k : kernel) : Prop :=
  ctx_ok before c k /\ children k = kids /\ panicked k = false.

Lemma holds_same before kids c k k' :
  fds k' = fds k -> children k' = children k -> panicked k' = panicked k ->
  holds before kids c k -> holds before kids c k'.
Proof. intros Hf Hc Hp (? & ? & ?). split_and!; [by eapply ctx_ok_fds|congruence|congruence]. Qed.

Lemma close_clean before kids c k : holds before kids c k -> clean before kids (hwt_ctx_close c k).2.
Proof.
  intros ([Ho _] & Hk & Hp). split_and!; [by apply close_owned|by rewrite (ctx_close_kept (f := children))|].
  by rewrite (ctx_close_kept (f := panicked)).
Qed.

Lemma kill_clean `{!ChildWaits} before kids child k :
  child ∉ kids -> clean before ({[ child ]} ∪ kids) k -> clean before kids (kill_and_wait child k).
Proof.
  intros Hn (Hf & Hk & Hp). unfold kill_and_wait. destruct (kill_same child SIGKILL k) as (Kf & Kk & Kp).
  destruct (wait_loses child WAIT (k_kill child SIGKILL k).2) as (Wf & Wp & _).
  split_and!; [congruence|apply wait_blocks; [done|congruence]|congruence].
Qed.

Lemma finalize_session_ok before kids o pid s m k :
  printable o -> loop_ok before kids s m k ->
  exists fuel f, finalize_session fuel o pid s m k = Some f /\ clean before kids (fin_kernel f).
Proof.
  intros [Hfmt Hfl] [Hc Hm Hk Hp]. unfold finalize_session.
  match goal with |- context [trace_finalize _ ?n ?c ?ts ?p pid ?fm ?t ?o m k] =>
    destruct (finalize_ends_clean before n c ts p pid fm t o m k Hfmt Hfl Hc Hm) as (fuel & fin & Ef & Hf);
    pose proof (finalize_kept (f := children) fuel n c ts p pid fm t o m k fin Ef) as Ek;
    pose proof (finalize_kept (f := panicked) fuel n c ts p pid fm t o m k fin Ef) as Ep end.
  exists fuel. rewrite Ef. cbn [mbind option_bind]. eexists. split; [done|]. cbn [fin_kernel].
  destruct (fin_meta fin); (split_and!;
    [by rewrite ?fclose_fds|by rewrite ?(kept_fclose (f := children)), ?Ek|by rewrite ?(kept_fclose (f := panicked)), ?Ep]).
Qed.

Lemma start_state_ok before kids o pid c m k :
  holds before kids c k -> mem_ok m ->
  let '(ts, m', k') := start_state o pid c m k in holds before kids c k' /\ mem_ok m'.
Proof.
  intros Hh Hm. unfold start_state, open_sidecar.
  destruct (malloc_ok m Hm) as (m1 & E & _ & Hm1). rewrite E. cbn [fst].
  match goal with |- context [k_fopen ?p k] =>
    pose proof (fopen_fds p k) as Ff; pose proof (kept_fopen (f := children) p k) as Fk;
    pose proof (kept_fopen (f := panicked) p k) as Fp; destruct (k_fopen p k) as [ok k1] end.
  cbn [fst snd] in *. unfold meta_writer_open. rewrite E. split; [by eapply holds_same|done].
Qed.

Lemma apply_options_ok before kids o f c c' k :
  apply_options o f c = Some c' -> holds before kids c k ->
  holds before kids c' k /\ ctx_fd c' = ctx_fd c.
Proof.
  intros Ha Hh. assert (exists mtc cyc, c' = configured o f mtc cyc c) as (mtc & cyc & ->).
  { revert Ha. unfold apply_options. destruct hwt_pt_default_timing as [a b].
    case_bool; [case_bool; [done|]|]; intros [= <-]; by eexists _, _. }
  by destruct Hh.
Qed.

Lemma alloc_holds md pid tid size backend k :
  panicked k = false ->
  let '(ok, c, k') := hwt_ctx_alloc md pid tid size backend k in
  if ok : bool then holds (fds k) (children k) c k' else clean (fds k) (children k) k'.
Proof.
  intros Hp. pose proof (hwt_ctx_alloc_post md pid tid size backend k) as Ha.
  pose proof (ctx_alloc_kept (f := children) md pid tid size backend k) as Ek.
  pose proof (ctx_alloc_kept (f := panicked) md pid tid size backend k) as Ep.
  destruct (hwt_ctx_alloc md pid tid size backend k) as [[[] c] k1]; cbn [snd alloc_post] in *.
  - destruct Ha as (Ho & _ & Ht). split_and!; [|done|congruence]. split; [done|].
    unfold threads_ok. rewrite Ht. split; [cbn; lia|constructor].
  - split_and!; [done|done|congruence].
Qed.

(** Configuring, and starting what is configured. *)
Lemma config_holds before kids c b k :
  holds before kids c k ->
  let '(ok, k') := hwt_ctx_set_config c b k in
  holds before kids c k' /\ (ok = true -> has_config (ctx_fd c) k' = true).
Proof.
  intros Hh. unfold hwt_ctx_set_config, hwt_ctx_set_config_on_fd. case_bool; [done|]. case_bool; [|done].
  match goal with |- context [k_set_config ?a ?b ?d k] =>
    pose proof (set_config_fds a b d k) as Cf; pose proof (config_children a b d k) as Ck;
    pose proof (config_panicked a b d k) as Cp; pose proof (config_set a b d k) as Cs;
    destruct (k_set_config a b d k) as [ok k1] end.
  cbn [fst snd] in *. split; [by eapply holds_same|done].
Qed.

Lemma start_holds before kids c k :
  holds before kids c k -> has_config (ctx_fd c) k = true -> holds before kids c (hwt_ctx_start c k).2.
Proof.
  intros Hh Hc. unfold hwt_ctx_start. eapply holds_same; [apply start_fds|apply start_children| |done].
  by apply start_panicked.
Qed.

Lemma exec_run_ok `{!ChildWaits} before kids o child c m k :
  printable o -> child ∉ kids -> holds before ({[ child ]} ∪ kids) c k -> mem_ok m ->
  has_config (ctx_fd c) k = true ->
  exists fuel drain r, exec_run fuel drain o child c m k = Some r /\ clean before kids (se_kernel r).
Proof.
  intros Hfmt Hn Hh Hm Hcfg. unfold exec_run.
  pose proof (start_holds before _ c k Hh Hcfg) as Hs. destruct (hwt_ctx_start c k) as [ok k1]. cbn [snd] in Hs.
  destruct ok; cbn [negb]; [|exists 0%nat, 0%nat; eexists; split; [done|]; by apply kill_clean, close_clean].
  pose proof (start_state_ok before _ o child c m k1 Hs Hm) as Ht.
  destruct (start_state o child c m k1) as [[ts m2] k2]. destruct Ht as [Hh2 Hm2].
  destruct (signal_same SIGPIPE SIG_IGN k2) as (Sf & Sk & Sp). set (k3 := k_signal SIGPIPE SIG_IGN k2) in *.
  destruct (kill_same child SIGCONT k3) as (Kf & Kk & Kp). destruct (k_kill child SIGCONT k3) as [b k4].
  destruct (clock_same k4) as (Cf & Ck & Cp). destruct (k_clock k4) as [start k5]. cbn [snd] in *.
  assert (Hl : loop_ok before (kids_of child kids (loop_start c ts)) (loop_start c ts) m2 k5).
  { destruct (holds_same before _ c k2 k5 ltac:(congruence) ltac:(congruence) ltac:(congruence) Hh2) as (? & ? & ?).
    by constructor. }
  destruct (session_loop_ends (exec_step o child start)
    (fun s m k => loop_ok before (kids_of child kids s) s m k /\ 0 <= lp_empty s < 5)
    (fun s m k => loop_ok before (kids_of child kids s) s m k)) with
    (fuel := S (loop_measure (loop_start c ts) k5)) (s := loop_start c ts) (m := m2) (k := k5)
    as (s & m6 & k6 & El & Hl6); [|by split; [|cbn; lia]|lia|].
  { intros s0 m0 k0 [Hs0 He0]. pose proof (exec_step_ok before child kids o start s0 m0 k0 Hn Hs0 He0) as Hst.
    destruct (exec_step o child start s0 m0 k0) as [[[[] s'] m'] k']; naive_solver. }
  assert (Hr : loop_ok before kids s m6 (reap child s k6).2).
  { unfold reap, kids_of in *. case_bool; [done|]. destruct (wait_loses child WAIT k6) as (Wf & Wp & _).
    pose proof (wait_blocks child kids k6 Hn (lk_kids _ _ _ _ _ Hl6)) as Hb.
    destruct (k_waitpid child WAIT k6) as [w k7]. cbn [fst snd] in *. by eapply loop_ok_same; [exact Hl6|..]. }
  destruct (reap child s k6) as [code k7] eqn:Er. cbn [snd] in Hr.
  destruct (finalize_session_ok before kids o child s m6 k7 Hfmt Hr) as (drain & f & Ef & Hclean).
  exists (S (loop_measure (loop_start c ts) k5)), drain. rewrite El. cbn [mbind option_bind]. rewrite Er, Ef.
  by eexists.
Qed.

Lemma exec_setup_ok `{!ChildWaits} kids o child f backend m k :
  printable o -> child ∉ kids -> children k = {[ child ]} ∪ kids -> panicked k = false ->
  mem_ok m ->
  exists fuel drain r, exec_setup fuel drain o child f backend m k = Some r /\ clean (fds k) kids (se_kernel r).
Proof.
  intros Hfmt Hn Hk Hp Hm. unfold exec_setup.
  pose proof (alloc_holds HWT_MODE_THREAD child (o_tid o) (parse_size (o_bufsize_str o)) backend k Hp) as Ha.
  rewrite Hk in Ha. destruct (hwt_ctx_alloc _ child _ _ _ k) as [[[] c] k1]; cbn [negb];
    [|exists 0%nat, 0%nat; eexists; split; [done|]; by apply kill_clean].
  destruct (apply_options o f c) as [c'|] eqn:Eo.
  - destruct (apply_options_ok _ _ _ _ _ _ k1 Eo Ha) as [Hh Hfd].
    pose proof (config_holds _ _ c' (o_pause o) k1 Hh) as Hc.
    destruct (hwt_ctx_set_config c' (o_pause o) k1) as [[] k2]; destruct Hc as [Hh2 Hcfg]; cbn [negb];
      [|exists 0%nat, 0%nat; eexists; split; [done|]; by apply kill_clean, close_clean].
    case_bool; [exists 0%nat, 0%nat; eexists; split; [done|]; by apply kill_clean, close_clean|].
    by apply (exec_run_ok (fds k) kids); [..|apply Hcfg].
  - exists 0%nat, 0%nat. eexists. split; [done|]. cbn [se_kernel ended]. apply close_clean.
    destruct Ha as (Hc & Hkk & Hpp). destruct (kill_clean (fds k1) kids child k1 Hn ltac:(done)) as (? & ? & ?).
    split_and!; [by eapply ctx_ok_fds|done|done].
Qed.

(** The child is stopped, or it is gone. *)
Lemma fork_stopped_ok `{!ChildWaits} args aslr k :
  panicked k = false ->
  let '(pid, k') := fork_stopped args aslr k in
  fds k' = fds k /\ panicked k' = false /\
  match pid with
  | Some pid => (pid ∉ children k) /\ children k' = {[ pid ]} ∪ children k
  | None => children k' = children k
  end.
Proof.
  intros Hp. unfold fork_stopped. destruct (fork_gains aslr args k) as (Ff & Fp & Fk).
  destruct (k_fork aslr args k) as [[pid|] k1]; cbn [fst snd] in *; [|split_and!; congruence].
  destruct Fk as [Hn Hk]. destruct (wait_loses pid WUNTRACED k1) as (Wf & Wp & Wk).
  destruct (k_waitpid pid WUNTRACED k1) as [w k2]. cbn [fst snd] in *.
  assert (Hkw : forall k3, k3 = k2 -> children k2 = {[ pid ]} ∪ children k \/ children k2 = children k ->
    fds (kill_and_wait pid k3) = fds k /\ panicked (kill_and_wait pid k3) = false /\
    children (kill_and_wait pid k3) = children k).
  { intros k3 -> Hc. unfold kill_and_wait. destruct (kill_same pid SIGKILL k2) as (Kf & Kk & Kp).
    destruct (wait_loses pid WAIT (k_kill pid SIGKILL k2).2) as (Vf & Vp & Vk).
    split_and!; [congruence|congruence|]. destruct Hc as [Hc|Hc]; [apply wait_blocks; [done|congruence]|].
    rewrite Vk, Kk, Hc. destruct (k_waitpid pid WAIT _).1 as [[| |]|]; set_solver. }
  unfold kill_and_wait in Hkw.
  destruct w as [[code|sig|]|]; try (apply Hkw; [done|]; rewrite Wk, Hk; first [by left|right; set_solver]).
  split_and!; [congruence|congruence|done|congruence].
Qed.

Lemma resolve_backend_same b m k :
  mem_ok m -> let '(_, _, m', k') := resolve_backend b m k in
  fds k' = fds k /\ children k' = children k /\ panicked k' = panicked k /\ mem_ok m'.
Proof.
  intros Hm. unfold resolve_backend, hwt_available.
  pose proof (open_gains "/dev/hwt" k) as G. pose proof (kept_open (f := children) "/dev/hwt" k) as Gk.
  pose proof (kept_open (f := panicked) "/dev/hwt" k) as Gp.
  destruct (k_open "/dev/hwt" k) as [[fd|] k1]; cbn [fst snd negb] in *; [|by destruct b].
  assert (Hc : fds (k_close fd k1) = fds k /\ children (k_close fd k1) = children k /\
               panicked (k_close fd k1) = panicked k).
  { rewrite (kept_close (f := children)), (kept_close (f := panicked)). split_and!; [by eapply open_close_fds|done..]. }
  destruct b; [by destruct Hc as (? & ? & ?)|].
  unfold hwt_detect_backend. destruct (List.find kldfind backends) as [b|]; [|by destruct Hc as (? & ? & ?)].
  destruct (strdup_ok b m Hm) as (m1 & -> & _ & Hm1). by destruct Hc as (? & ? & ?).
Qed.

Lemma hooks_mem dry m : mem_ok m -> mem_ok (check_hwt_hooks dry m).2.
Proof.
  intros Hm. unfold check_hwt_hooks, hwt_hooks_enabled.
  destruct conftxt as [[|ch t]|]; [done| |done]. by destruct (malloc_ok m Hm) as (m1 & -> & _ & Hm1).
Qed.

Lemma read_vmmap_mem `{ProcInfo} pid m : mem_ok m -> mem_ok (read_vmmap pid m).2.
Proof.
  intros Hm. unfold read_vmmap. destruct (vmmap_size pid); [|done].
  destruct (malloc_ok m Hm) as (m1 & -> & _ & Hm1). by destruct (vmmap pid _).
Qed.

Lemma resolve_mem `{LibElf, ProcInfo} specs pid p b m : mem_ok m -> mem_ok (resolve_range_specs specs pid p b m).2.
Proof.
  intros Hm. unfold resolve_range_specs. case_bool; [|done]. destruct p as [[|c p]|]; [done| |done].
  assert (E1 : mem_ok (compute_slide (String c p) pid b m).2).
  { unfold compute_slide. case_bool; [done|]. destruct (open_elf _) as [elf|]; [|done].
    destruct b; [destruct (elf_etype elf); [by case_bool|done]|]. destruct (elf_base_vaddr elf); [|done].
    unfold process_load_addr. pose proof (read_vmmap_mem pid m Hm) as Ev.
    destruct (read_vmmap pid m) as [[kves|] m1]; [|done]. by destruct (load_addr_loop _ kves). }
  destruct (compute_slide _ pid b m) as [[[slide need]|] m1]; done.
Qed.

Lemma seed_mem `{ProcInfo} ts pid m : mem_ok m -> mem_ok (trace_state_seed_process_mmaps ts pid m).2.
Proof.
  intros Hm. unfold trace_state_seed_process_mmaps, process_exec_mmaps.
  pose proof (read_vmmap_mem pid m Hm) as E. destruct (read_vmmap pid m) as [[kves|] m1]; [|done]. cbn [snd] in E.
  destruct (exec_mmaps_loop_ok kves [] 0 m1 E) as (m2 & -> & Hm2). destruct (_ ++ _) as [|s0 ss] eqn:Ess; [done|].
  rewrite <- Ess. clear Ess s0 ss. set (ss := _ ++ _). clearbody ss.
  assert (Ha : forall ss ts m, mem_ok m -> mem_ok (add_all ts ss m).2).
  { clear. intros ss. induction ss as [|s ss IH]; intros ts m Hm; [done|]. cbn [add_all].
    unfold trace_state_add_section. repeat case_bool; try by apply IH.
    destruct (malloc_ok m Hm) as (m1 & -> & _ & Hm1). by apply IH. }
  match goal with |- context [add_all ?t ss m2] => pose proof (Ha ss t m2 Hm2) as Hx; by destruct (add_all t ss m2) end.
Qed.

(** C4: [bsdtrace exec] ends, with memory and in every format but collapsed and
    speedscope (whose recorder can write past its buffer), whatever its other
    options and the answers of the system: if the child exits after finitely
    many polls and a wait for it does not fail, then the loop stops, the
    descriptors are those from before, the child is reaped, and the kernel was
    never made to start an unconfigured context. *)
Theorem cmd_exec_clean `{!ChildWaits, LibElf, ProcInfo} argv m k :
  mem_ok m -> panicked k = false ->
  (forall o m' rest, parse_args exec_optstring exec_option argv (default_options, m) = Some (Some (inl ((o, m'), rest))) ->
     builds_stacks (o_fmt o) = false) ->
  exists fuel drain r, cmd_exec fuel drain argv m k = Some r /\
    fds (se_kernel r) = fds k /\ children (se_kernel r) = children k /\ panicked (se_kernel r) = false.
Proof.
  intros Hm0 Hp Hfmt. unfold cmd_exec.
  destruct (parse_args_mem exec_optstring exec_option argv m exec_option_mem Hm0)
    as [(o & m0 & args & Er & Hm & Hfl)|[rc Er]]; rewrite Er; cbn [mbind option_bind];
    [|by exists 0%nat, 0%nat; eexists].
  assert (Ho : printable o) by (split; [by eapply Hfmt|done]). clear Hfmt Hfl Er Hm0.
  destruct (match args with "--" :: rest => rest | _ => args end) as [|cmd rest] eqn:Ea;
    [by exists 0%nat, 0%nat; eexists|]. rewrite <- Ea.
  assert (Hf : mem_ok (exec_filter o cmd m0 k).2).
  { unfold exec_filter. destruct (o_specs o) as [|sp l]; [done|].
    pose proof (resolve_mem (sp :: l) 0 (Some (exe_for_symbols cmd k)) true m0 Hm) as E.
    by destruct (resolve_range_specs _ _ _ _ m0). }
  destruct (exec_filter o cmd m0 k) as [[[f aslr]|] m1]; [|by exists 0%nat, 0%nat; eexists]. cbn [snd] in Hf.
  pose proof (resolve_backend_same (o_backend o) m1 k Hf) as Hb.
  destruct (resolve_backend (o_backend o) m1 k) as [[[b d] m2] k2]. destruct Hb as (Bf & Bk & Bp & Hm2).
  destruct b as [b|]; [|exists 0%nat, 0%nat; eexists; split_and!; [done|done|done|cbn; congruence]].
  pose proof (hooks_mem (o_dryrun o) m2 Hm2) as Hm3. destruct (check_hwt_hooks (o_dryrun o) m2) as [rc m3].
  cbn [snd] in Hm3. case_bool; [exists 0%nat, 0%nat; eexists; split_and!; [done|done|done|cbn; congruence]|].
  pose proof (fork_stopped_ok (match args with "--" :: rest => rest | _ => args end) aslr k2 ltac:(congruence)) as Hk.
  destruct (fork_stopped _ aslr k2) as [[child|] k3]; destruct Hk as (Kf & Kp & Kc);
    [|exists 0%nat, 0%nat; eexists; split_and!; [done|cbn; congruence..]].
  destruct Kc as [Hn Kc].
  destruct (exec_setup_ok (children k2) o child f (Some b) m3 k3 Ho Hn Kc Kp Hm3)
    as (fuel & drain & r & Es & Hf4 & Hk4 & Hp4).
  exists fuel, drain, r. split_and!; [done|congruence|congruence|done].
Qed.

Lemma trace_run_ok `{ProcInfo} before kids o pid c m k :
  printable o -> holds before kids c k -> mem_ok m -> has_config (ctx_fd c) k = true ->
  exists fuel drain r, trace_run fuel drain o pid c m k = Some r /\ clean before kids (se_kernel r).
Proof.
  intros Hfmt Hh Hm Hcfg. unfold trace_run. destruct (signal_same SIGINT Handler k) as (Sf & Sk & Sp).
  destruct (signal_same SIGPIPE SIG_IGN (k_signal SIGINT Handler k)) as (Vf & Vk & Vp).
  set (k0 := k_signal SIGPIPE SIG_IGN _) in *.
  assert (Hh0 : holds before kids c k0) by (eapply holds_same; [..|exact Hh]; congruence).
  assert (Hc0 : has_config (ctx_fd c) k0 = true) by (subst k0; by rewrite !signal_config).
  pose proof (start_holds before _ c k0 Hh0 Hc0) as Hs. destruct (hwt_ctx_start c k0) as [ok k1]. cbn [snd] in Hs.
  destruct ok; cbn [negb]; [|exists 0%nat, 0%nat; eexists; split; [done|]; by apply close_clean].
  pose proof (start_state_ok before _ o pid c m k1 Hs Hm) as Ht.
  destruct (start_state o pid c m k1) as [[ts m2] k2]. destruct Ht as [Hh2 Hm2].
  pose proof (seed_mem ts pid m2 Hm2) as Hm3. destruct (trace_state_seed_process_mmaps ts pid m2) as [[rc ts3] m3].
  cbn [snd] in Hm3. destruct (clock_same k2) as (Cf & Ck & Cp). destruct (k_clock k2) as [start k5]. cbn [snd] in *.
  assert (Hl : loop_ok before kids (loop_start c ts3) m3 k5).
  { destruct (holds_same before _ c k2 k5 Cf Ck Cp Hh2) as (? & ? & ?). by constructor. }
  destruct (session_loop_ends (trace_step o pid start)
    (fun s m k => loop_ok before kids s m k /\ 0 <= lp_empty s < 5)
    (fun s m k => loop_ok before kids s m k)) with
    (fuel := S (loop_measure (loop_start c ts3) k5)) (s := loop_start c ts3) (m := m3) (k := k5)
    as (s & m6 & k6 & El & Hl6); [|by split; [|cbn; lia]|lia|].
  { intros s0 m0 k7 [Hs0 He0]. pose proof (trace_step_ok before kids o pid start s0 m0 k7 Hs0 He0) as Hst.
    destruct (trace_step o pid start s0 m0 k7) as [[[[] s'] m'] k']; naive_solver. }
  destruct (finalize_session_ok before kids o pid s m6 k6 Hfmt Hl6) as (drain & f & Ef & Hf1 & Hf2 & Hf3).
  exists (S (loop_measure (loop_start c ts3) k5)), drain. rewrite El. cbn [mbind option_bind]. rewrite Ef.
  cbn [mbind option_bind]. eexists. split; [done|]. cbn [se_kernel].
  destruct (signal_same SIGINT SIG_DFL (fin_kernel f)) as (? & ? & ?).
  destruct (signal_same SIGPIPE SIG_DFL (k_signal SIGINT SIG_DFL (fin_kernel f))) as (? & ? & ?).
  split_and!; congruence.
Qed.

Lemma trace_setup_ok `{ProcInfo} o pid f backend m k :
  printable o -> panicked k = false -> mem_ok m ->
  exists fuel drain r, trace_setup fuel drain o pid f backend m k = Some r /\
    clean (fds k) (children k) (se_kernel r).
Proof.
  intros Hfmt Hp Hm. unfold trace_setup.
  pose proof (alloc_holds HWT_MODE_THREAD pid (o_tid o) (parse_size (o_bufsize_str o)) backend k Hp) as Ha.
  destruct (hwt_ctx_alloc _ pid _ _ _ k) as [[[] c] k3]; cbn [negb]; [|by exists 0%nat, 0%nat; eexists].
  destruct (apply_options o f c) as [c'|] eqn:Eo; [|exists 0%nat, 0%nat; eexists; split; [done|]; by apply close_clean].
  destruct (apply_options_ok _ _ _ _ _ _ k3 Eo Ha) as [Hh Hfd].
  pose proof (config_holds _ _ c' (o_pause o) k3 Hh) as Hc.
  destruct (hwt_ctx_set_config c' (o_pause o) k3) as [[] k4]; destruct Hc as [Hh2 Hcfg]; cbn [negb];
    [|exists 0%nat, 0%nat; eexists; split; [done|]; by apply close_clean].
  case_bool; [exists 0%nat, 0%nat; eexists; split; [done|]; by apply close_clean|].
  by apply trace_run_ok; [..|apply Hcfg].
Qed.

(** C5: [bsdtrace trace] ends too, with memory and in every format but collapsed
    and speedscope, whatever its other options and the answers of the system,
    if the target exits after finitely many polls: interrupted, at its limits,
    or when the target has exited, with the descriptors of before, no process
    reaped, and no unconfigured context started. *)
Theorem cmd_trace_clean `{LibElf, ProcInfo} argv m k :
  mem_ok m -> panicked k = false ->
  (forall o m' rest, parse_args trace_optstring trace_option argv (default_options, m) = Some (Some (inl ((o, m'), rest))) ->
     builds_stacks (o_fmt o) = false) ->
  exists fuel drain r, cmd_trace fuel drain argv m k = Some r /\
    fds (se_kernel r) = fds k /\ children (se_kernel r) = children k /\ panicked (se_kernel r) = false.
Proof.
  intros Hm0 Hp Hfmt. unfold cmd_trace.
  destruct (parse_args_mem trace_optstring trace_option argv m session_option_mem Hm0)
    as [(o & m0 & args & Er & Hm & Hfl)|[rc Er]]; rewrite Er; cbn [mbind option_bind];
    [|by exists 0%nat, 0%nat; eexists].
  assert (Ho : printable o) by (split; [by eapply Hfmt|done]). clear Hfmt Hfl Er Hm0.
  destruct args as [|arg rest]; [by exists 0%nat, 0%nat; eexists|]. case_bool; [by exists 0%nat, 0%nat; eexists|].
  destruct (kill_same (atoi arg) SIG0 k) as (Kf & Kk & Kp). destruct (k_kill (atoi arg) SIG0 k) as [ex k1].
  cbn [snd] in *. destruct ex; cbn [negb]; [|exists 0%nat, 0%nat; eexists; split_and!; [done|cbn; congruence..]].
  pose proof (resolve_backend_same (o_backend o) m0 k1 Hm) as Hb.
  destruct (resolve_backend (o_backend o) m0 k1) as [[[b d] m2] k2]. destruct Hb as (Bf & Bk & Bp & Hm2).
  destruct b as [b|]; [|exists 0%nat, 0%nat; eexists; split_and!; [done|cbn; congruence..]].
  pose proof (hooks_mem (o_dryrun o) m2 Hm2) as Hm3. destruct (check_hwt_hooks (o_dryrun o) m2) as [rc m3].
  cbn [snd] in Hm3. case_bool; [exists 0%nat, 0%nat; eexists; split_and!; [done|cbn; congruence..]|].
  assert (Hf : mem_ok (trace_filter o (atoi arg) m3).2).
  { unfold trace_filter. destruct (o_specs o) as [|sp l]; [done|]. destruct (process_exe_fullpath _) as [p|]; [|done].
    pose proof (resolve_mem (sp :: l) (atoi arg) (Some p) false m3 Hm3) as Ex.
    by destruct (resolve_range_specs _ _ _ _ m3). }
  destruct (trace_filter o (atoi arg) m3) as [[f|] m4];
    [|exists 0%nat, 0%nat; eexists; split_and!; [done|cbn; congruence..]]. cbn [snd] in Hf.
  destruct (trace_setup_ok o (atoi arg) f (Some b) m4 k2 Ho ltac:(congruence) Hf)
    as (fuel & drain & r & Es & Hf4 & Hk4 & Hp4).
  exists fuel, drain, r. split_and!; [done|congruence|congruence|done].
Qed.

(** When its time is up while the records of an exited child are drained,
    exec sends SIGKILL to a process it has already reaped: the number may by
    then be another process's.  trace checks that its target is still there. *)
Theorem exec_kills_reaped o child start s m k :
  lp_done s = true -> positive (match o_duration o with Some d => atof d | None => DEFAULT_DURATION end) = true ->
  expired (match o_duration o with Some d => atof d | None => DEFAULT_DURATION end) start (k_clock k).1 = true ->
  exec_step o child start s m k = (false, s, m, (k_kill child SIGKILL (k_clock k).2).2).
Proof. intros _ Hd He. unfold exec_step. destruct (k_clock k) as [now k1]. cbn [fst snd] in *. by rewrite Hd, He. Qed.
End sessions.
