(* ===== verification/Sim.v ===== *)
(** A simulated system: one concrete instance of each interface of the
    development ([Kernel] with its laws, [Files], [SysInfo], [LibElf],
    [ProcInfo], [DwarfLines], libipt's [PtInsnDecoder] and [PtPacketDecoder]
    with theirs), which shows that the laws can hold and lets the theorems be
    evaluated.  The decoder of trace.c is Decode.v's. *)

From Stdlib Require Import ZArith Lia Ascii String.
From stdpp Require Import base list strings sets gmap sorting.
From S2P Require Import Prelude CLib Types Elf Format Resolve Hwt Trace Profile Snapshot.
From S2P Require Import Packets Decode Dwarf Kept Options Commands Session.

(** * Kernel *)

(** The processes: the children, the configured contexts, whether an
    unconfigured one was started, and how many more polls find a process
    running. *)
Record procs := { sp_children : list Z; sp_config : list Z; sp_panic : bool; sp_ticks : nat }.

Definition no_procs : procs := {| sp_children := []; sp_config := []; sp_panic := false; sp_ticks := 3 |}.

(** The open descriptors, the records waiting, what was written to each
    descriptor, the buffer's bytes, and the processes. *)
Record sim := {
  sim_open : list Z;
  sim_queue : list hwt_record_user_entry;
  sim_written : list (Z * list Z);
  sim_bytes : list Z;
  sim_ps : procs;
}.

Definition with_procs (p : procs) (k : sim) : sim :=
  {| sim_open := sim_open k; sim_queue := sim_queue k; sim_written := sim_written k;
     sim_bytes := sim_bytes k; sim_ps := p |}.

Definition sim_set_config (fd : Z) (k : sim) : bool * sim :=
  let p := sim_ps k in
  (true, with_procs {| sp_children := sp_children p; sp_config := fd :: sp_config p; sp_panic := sp_panic p;
                       sp_ticks := sp_ticks p |} k).

Definition sim_configured (fd : Z) (k : sim) : bool := existsb (Z.eqb fd) (sp_config (sim_ps k)).

Definition sim_start (fd : Z) (k : sim) : bool * sim :=
  let p := sim_ps k in
  (true, with_procs {| sp_children := sp_children p; sp_config := sp_config p;
                       sp_panic := sp_panic p || negb (sim_configured fd k); sp_ticks := sp_ticks p |} k).

Definition fresh_fd (l : list Z) : Z := foldr Z.max 0 l + 1.

Lemma fresh_fd_max l x : x ∈ l -> x < fresh_fd l.
Proof.
  unfold fresh_fd. induction l as [|y l IH]; intros H; [by apply elem_of_nil in H|].
  apply elem_of_cons in H as [->|H]; simpl; [lia|]. specialize (IH H). lia.
Qed.

Lemma fresh_fd_pos l : 0 < fresh_fd l.
Proof. unfold fresh_fd. induction l; simpl; lia. Qed.

Definition sim_new (k : sim) : option Z * sim :=
  let fd := fresh_fd (sim_open k) in
  (Some fd, {| sim_open := fd :: sim_open k; sim_queue := sim_queue k;
               sim_written := sim_written k; sim_bytes := sim_bytes k;
     sim_ps := sim_ps k |}).

Definition sim_close (fd : Z) (k : sim) : sim :=
  {| sim_open := List.filter (fun x => negb (x =? fd)) (sim_open k); sim_queue := sim_queue k;
     sim_written := sim_written k; sim_bytes := sim_bytes k;
     sim_ps := sim_ps k |}.

Definition written_to (fd : Z) (k : sim) : list Z :=
  concat (map snd (List.filter (fun q => fst q =? fd) (sim_written k))).

(** At most 64 bytes at a time. *)
Definition sim_write (fd : Z) (d : list Z) (k : sim) : option nat * sim :=
  (Some (length (take 64 d)),
   {| sim_open := sim_open k; sim_queue := sim_queue k;
      sim_written := sim_written k ++ [(fd, take 64 d)]; sim_bytes := sim_bytes k;
     sim_ps := sim_ps k |}).

Definition sim_record_get (n : Z) (k : sim) : option (list hwt_record_user_entry) * sim :=
  (Some (take (Z.to_nat n) (sim_queue k)),
   {| sim_open := sim_open k; sim_queue := drop (Z.to_nat n) (sim_queue k);
      sim_written := sim_written k; sim_bytes := sim_bytes k;
     sim_ps := sim_ps k |}).

#[export] Instance sim_kernel : Kernel := {
  kernel := sim;
  HWT_BACKEND_MAXNAMELEN := 64;
  k_open := fun _ => sim_new;
  k_kqueue := sim_new;
  k_close := sim_close;
  k_mmap := fun _ _ k => (Some 4096, k);
  k_munmap := fun _ k => k;
  k_bytes := fun _ => sim_bytes;
  k_write := sim_write;
  k_alloc := fun _ _ k => (Some 1, k);
  k_set_config := fun fd _ _ => sim_set_config fd;
  k_start := sim_start;
  k_stop := fun _ k => (true, k);
  k_wakeup := fun _ k => (true, k);
  k_record_get := fun _ n _ => sim_record_get n;
  k_bufptr_get := fun _ k => (Some (0, 0), k);
}.

#[export] Instance sim_fds : FdTable := fun k => list_to_set (sim_open k).

Lemma sim_new_gains (k : sim) : gains (sim_new k).1 k (sim_new k).2.
Proof.
  unfold gains, sim_new, fds, sim_fds. simpl. split_and!.
  - pose proof (fresh_fd_pos (sim_open k)). lia.
  - rewrite elem_of_list_to_set. intros Hin%fresh_fd_max. lia.
  - done.
Qed.

#[export] Instance sim_laws : KernelLaws.
Proof.
  split; try done; try (intros; apply sim_new_gains).
  intros fd k. apply set_eq. intros x. unfold fds, sim_fds. simpl.
  rewrite elem_of_difference, !elem_of_list_to_set, elem_of_singleton, !list_elem_of_In, filter_In.
  rewrite negb_true_iff, Z.eqb_neq. done.
Qed.

Lemma sim_write_progress fd d (k : sim) nw k' :
  sim_write fd d k = (Some nw, k') -> d <> [] ->
  (0 < nw <= length d)%nat /\ written_to fd k' = written_to fd k ++ take nw d.
Proof.
  intros [= <- <-] Hd. rewrite length_take. split.
  - destruct d; [done|cbn [length]; lia].
  - unfold written_to. cbn [sim_written]. rewrite List.filter_app, map_app, concat_app.
    cbn [List.filter fst snd map concat]. rewrite Z.eqb_refl. cbn [map concat snd].
    rewrite app_nil_r. f_equal. destruct (Nat.le_ge_cases (length d) 64) as [E|E].
    + by rewrite Nat.min_r, firstn_all, firstn_all2 by done.
    + by rewrite Nat.min_l by done.
Qed.

#[export] Instance sim_write_laws : WriteLaws :=
  { written := written_to; write_progress := sim_write_progress }.

Lemma sim_pending (fd n : Z) (w : bool) (k : sim) es k' :
  sim_record_get n k = (Some es, k') -> (length (sim_queue k') + length es <= length (sim_queue k))%nat.
Proof. intros [= <- <-]. simpl. rewrite length_take, length_drop. lia. Qed.

#[export] Instance sim_queue_laws : RecordQueue :=
  { pending := fun k => length (sim_queue k); record_get_pending := sim_pending }.

#[export] Instance sim_files : Files := {
  k_fopen := fun _ k => (true, k);
  k_fclose := fun _ _ k => k;
}.

#[export] Instance sim_file_laws : FileLaws.
Proof. by split. Qed.

(** * Processes *)

Definition sim_children (k : sim) : list Z := sp_children (sim_ps k).

Definition with_children (l : list Z) (ticks : nat) (k : sim) : sim :=
  let p := sim_ps k in
  with_procs {| sp_children := l; sp_config := sp_config p; sp_panic := sp_panic p; sp_ticks := ticks |} k.

Definition sim_fork (k : sim) : option Z * sim :=
  let pid := fresh_fd (sim_children k) in
  (Some pid, with_children (pid :: sim_children k) (sp_ticks (sim_ps k)) k).

Definition sim_reap (pid : Z) (st : wait_status) (k : sim) : option wait_status * sim :=
  (Some st, with_children (List.filter (fun x => negb (x =? pid)) (sim_children k)) (sp_ticks (sim_ps k)) k).

(** A child stops first, then exits with code 3 after [sp_ticks] polls. *)
Definition sim_wait (pid : Z) (w : wait_mode) (k : sim) : option wait_status * sim :=
  match w with
  | WUNTRACED => (Some Stopped, k)
  | WAIT => sim_reap pid (Exited 3) k
  | WNOHANG =>
      match sp_ticks (sim_ps k) with
      | O => if existsb (Z.eqb pid) (sim_children k) then sim_reap pid (Exited 3) k else (None, k)
      | S n => (None, with_children (sim_children k) n k)
      end
  end.

Definition sim_kill (s : signal) (k : sim) : bool * sim :=
  match s, sp_ticks (sim_ps k) with
  | SIG0, O => (false, k)
  | SIG0, S n => (true, with_children (sim_children k) n k)
  | _, _ => (true, k)
  end.

Definition noon (n : nat) : tm := Build_tm 126 0 1 12 0 0 (Z.of_nat n).

#[export] Instance sim_processes : Processes := {
  HWT_MODE_THREAD := 1;
  k_fork := fun _ _ => sim_fork;
  k_waitpid := sim_wait;
  k_kill := fun _ => sim_kill;
  k_signal := fun _ _ k => k;
  trace_interrupted := fun _ => false;
  k_clock := fun k => ({| tv_sec := 1; tv_nsec := 0 |}, k);
  k_now := fun _ => noon;
  k_usleep := fun _ k => k;
  executable := fun p _ => String.eqb p "/bin/prog";
  env_PATH := Some "/sbin:/bin";
}.

Definition sim_kids (k : sim) : gset Z := list_to_set (sim_children k).

#[export] Instance sim_kept_kids : @Kept sim_kernel sim_files _ sim_kids.
Proof. by split. Qed.

#[export] Instance sim_kept_panic : @Kept sim_kernel sim_files _ (fun k => sp_panic (sim_ps k)).
Proof. by split. Qed.

Lemma sim_reap_kids pid st k : sim_kids (sim_reap pid st k).2 = sim_kids k ∖ {[ pid ]}.
Proof.
  apply set_eq. intros x. unfold sim_kids, sim_children. cbn.
  rewrite elem_of_difference, !elem_of_list_to_set, elem_of_singleton, !list_elem_of_In, filter_In.
  by rewrite negb_true_iff, Z.eqb_neq.
Qed.

#[export, refine] Instance sim_process_laws : @ProcessLaws sim_kernel sim_files sim_processes sim_fds := {
  children := sim_kids; has_config := sim_configured; panicked := fun k => sp_panic (sim_ps k);
  children_kept := sim_kept_kids; panicked_kept := sim_kept_panic; config_children := _;
  config_panicked := _; config_set := _; start_children := _; start_panicked := _; signal_config := _;
  signal_same := _; kill_same := _; clock_same := _; usleep_same := _; fork_gains := _; wait_loses := _;
  no_hang_ends := _ }.
Proof.
  all: try done.
  - intros fd b a k _. unfold sim_configured. cbn. by rewrite Z.eqb_refl.
  - intros fd k Hc. cbn in *. rewrite Hc. apply orb_false_r.
  - intros p s k. cbn. unfold sim_kill. destruct s, (sp_ticks (sim_ps k)); done.
  - intros b l k. cbn. split; [done|]. split; [done|]. split; [|done].
    unfold sim_kids. rewrite elem_of_list_to_set. intros Hin%fresh_fd_max. lia.
  - intros p w k. destruct w; cbn [k_waitpid sim_processes sim_wait]; [|destruct (sp_ticks (sim_ps k)); [case_bool|]|];
      (split; [done|]; split; [done|]); rewrite ?sim_reap_kids; done.
  - intros p k. cbn [k_waitpid sim_processes sim_wait]. destruct (sp_ticks (sim_ps k)); [case_bool|]; done.
Defined.

#[export] Instance sim_child_waits : @ChildWaits sim_kernel sim_files sim_processes sim_fds sim_process_laws.
Proof. split. intros p k _. by exists (Exited 3). Qed.

#[export, refine] Instance sim_exits : @TargetExits sim_kernel sim_files sim_processes sim_fds sim_process_laws := {
  polls_left := fun k => (sp_ticks (sim_ps k) + length (sim_queue k))%nat;
  left_open := _; left_wakeup := _; left_clock := _; left_usleep := _; left_wait := _; left_records := _;
  left_running := _; left_alive := _; left_gone := _ }.
Proof.
  all: try done; try (intros; cbn; lia).
  - intros p w k. destruct w; cbn [k_waitpid sim_processes sim_wait]; [|destruct (sp_ticks (sim_ps k)) eqn:E; [case_bool|]|];
      cbn; lia.
  - intros fd n w k es k' [= <- <-]. cbn. rewrite length_take, length_drop. lia.
  - intros p k k'. cbn [k_waitpid sim_processes sim_wait children sim_process_laws].
    destruct (sp_ticks (sim_ps k)) eqn:E; [case_bool|]; intros [= <-] Hin; [exfalso|cbn; lia].
    unfold sim_kids in Hin. rewrite elem_of_list_to_set in Hin.
    assert (existsb (Z.eqb p) (sim_children k) = true); [|congruence].
    apply existsb_exists. exists p. by rewrite Z.eqb_refl, <- list_elem_of_In.
  - intros p k k'. cbn. unfold sim_kill. destruct (sp_ticks (sim_ps k)) eqn:E; intros [= <-]; cbn; lia.
  - intros p k k'. cbn. unfold sim_kill. destruct (sp_ticks (sim_ps k)) eqn:E; intros [= <-]; cbn; lia.
Defined.

(** * System information *)

#[export] Instance sim_sysinfo : SysInfo := {
  conftxt := None; kldfind := fun _ => true; cpuid_14_1 := (589824, 16383);
  kern_base_address := Some 1048576;
}.

(** Two rows of the program's line table. *)
#[export] Instance sim_libdwarf : LibDwarf := fun p =>
  if String.eqb p "/bin/prog"
  then Some [NoLines; Lines [{| dwarf_lineaddr := Some 2102784; dwarf_linesrc := Some "/src/prog.c"; dwarf_lineno := Some 10 |};
                             {| dwarf_lineaddr := Some 2102800; dwarf_linesrc := Some "/src/prog.c"; dwarf_lineno := Some 12 |}]]
  else None.

#[export] Instance sim_dwarf : DwarfLines := dwarf_lines.

#[export] Instance sim_hostinfo : HostInfo := {
  sysctlbyname := fun n => if String.eqb n "hw.machine" then Some "amd64" else Some "Simulated CPU";
  proc_threads_size := fun _ => None; proc_threads := fun _ => None;
}.

(** * Files and processes *)

(** A program as lld lays it out: a read-only segment, then the code. *)
Definition phdr (flags off vaddr size : Z) : option GElf_Phdr :=
  Some {| p_type := 1; p_flags := flags; p_offset := off; p_vaddr := vaddr; p_filesz := size |}.

Definition prog_phdrs : list (option GElf_Phdr) := [phdr 4 0 2097152 1536; phdr 5 1536 2102784 1024].

Definition prog_sym : GElf_Sym := {| st_name := 1; st_info := 18; st_value := 2102784; st_size := 16 |}.

Definition prog : Elf := {|
  elf_phdrs := Some prog_phdrs;
  elf_scns := [{| scn_shdr := Some {| sh_type := 2; sh_entsize := 24; sh_link := 1 |};
                  scn_data := [{| d_size := 24; d_getsym := fun _ => Some prog_sym |}] |}];
  elf_strptr := fun _ _ => Some "main";
  elf_etype := Some 2 |}.

#[export] Instance sim_elf : LibElf := {
  elf_version_ok := true;
  open_file := fun p => if String.eqb p "/bin/prog"
                        then Some {| f_bytes := EmptyString; f_elf := Some prog |} else None;
}.

(** The code of process 7 is mapped at 0x800000000. *)
Definition prog_map : list kinfo_vmentry :=
  [{| kve_structsize := 1; kve_type := 2; kve_protection := 1; kve_path := "/bin/prog";
      kve_start := 34359734272 |};
   {| kve_structsize := 1; kve_type := 2; kve_protection := 5; kve_path := "/bin/prog";
      kve_start := 34359738368 |}].

#[export] Instance sim_proc : ProcInfo := {
  proc_pathname := fun _ => Some "/bin/prog";
  vmmap_size := fun _ => Some 2304;
  vmmap := fun _ _ => Some prog_map;
}.

(** * libipt *)

(** An image of at most 64 segments, which refuses empty ones. *)
#[export] Instance sim_image : PtImage := {
  pt_image := list segment;
  pt_image_empty := [];
  pt_image_add_file := fun im p off size v =>
    if (size <=? 0) || (64 <=? Z.of_nat (length im)) then (-1, im) else (0, im ++ [(p, off, size, v)]);
}.

(** ** Instructions

    A trace is a script of bytes.  A synchronization consumes one; 254 and
    253 are events (an overflow, a PTWRITE), 255 and 252 are errors (a corrupt
    byte, an address that is not mapped), and any other byte is an
    instruction: its class in the high half, its address in the low half. *)

Definition sim_pending_bit (l : list Z) : Z :=
  match l with b :: _ => if (b =? 254) || (b =? 253) then 1 else 0 | [] => 0 end.

Definition sim_sync (l : list Z) : Z * list Z :=
  match l with [] => (-1, []) | _ :: l => (sim_pending_bit l, l) end.

Definition sim_event (l : list Z) : Z * pt_event * list Z :=
  match l with
  | [] => (-1, ptev_other, [])
  | b :: l =>
      (sim_pending_bit l,
       if b =? 254 then ptev_overflow else if b =? 253 then ptev_ptwrite 7 2102784 else ptev_other, l)
  end.

Definition sim_class (b : Z) : pt_insn_class :=
  if b =? 1 then ptic_call else if b =? 2 then ptic_return else if b =? 3 then ptic_jump
  else if b =? 4 then ptic_far_call else ptic_other.

Definition sim_insn (b : Z) : pt_insn :=
  {| insn_ip := 4199936 + b mod 16; iclass := sim_class (b / 16) |}.

Definition sim_next (l : list Z) : Z * pt_insn * list Z :=
  match l with
  | [] => (-1, sim_insn 0, [])
  | b :: l =>
      if b =? 255 then (-2, sim_insn 0, l) else if b =? 252 then (-3, sim_insn 0, l)
      else (sim_pending_bit l, sim_insn b, l)
  end.

#[export] Instance sim_insn_decoder : PtInsnDecoder := {
  insn_decoder := list Z;
  pts_event_pending := 1;
  insn_eos := -1;
  insn_nomap := -3;
  pt_insn_alloc_decoder := fun buf _ => Some buf;
  pt_insn_set_image := fun d _ => (0, d);
  pt_insn_sync_forward := sim_sync;
  pt_insn_event := sim_event;
  pt_insn_next := sim_next;
  pt_insn_time := fun d => {| t_now := 1000 - Z.of_nat (length d); t_lost_mtc := 0; t_lost_cyc := 0 |};
  insn_left := @length Z;
}.

#[export] Instance sim_insn_laws : InsnLaws.
Proof.
  split.
  - done.
  - intros [|b d]; cbn; [lia|]. case_bool; lia.
  - intros [|b d]; cbn; [lia|]. case_bool; lia.
  - intros [|b d]; cbn; [lia|]. destruct (b =? 255); [cbn; lia|]. destruct (b =? 252); [cbn; lia|].
    case_bool; lia.
Qed.

(** ** Packets *)

(** 255 is an error, 1 a PSB, 2 a time stamp, another byte an MTC packet. *)
Definition sim_packet (l : list Z) : Z * pt_packet * list Z :=
  match l with
  | [] => (-1, ppt_pad, [])
  | b :: l =>
      if b =? 255 then (-2, ppt_pad, l)
      else (0, if b =? 1 then ppt_psb else if b =? 2 then ppt_tsc 500 else ppt_mtc b, l)
  end.

#[export] Instance sim_packet_decoder : PtPacketDecoder := {
  pkt_decoder := list Z;
  pkt_eos := -1;
  pt_pkt_alloc_decoder := fun buf => Some buf;
  pt_pkt_sync_forward := sim_sync;
  pt_pkt_next := sim_packet;
  pkt_left := @length Z;
}.

#[export] Instance sim_packet_laws : PacketLaws.
Proof.
  split.
  - intros [|b d]; cbn; [lia|]. case_bool; lia.
  - intros [|b d]; cbn; [lia|]. destruct (b =? 255); cbn; lia.
Qed.
