(* ===== verification/Witness.v ===== *)
(** The theorems at work: each one whose statement has hypotheses is applied
    to concrete data, on the simulated system of Sim.v where it needs one. *)

From Stdlib Require Import ZArith Lia Ascii String.
From stdpp Require Import base list strings sets gmap sorting.
From S2P Require Import Prelude CLib Types Elf Symbols Format Meta Resolve Hwt Trace CallTree.
From S2P Require Import Profile Collapsed Callers Packets Image Snapshot Decode Dwarf Options Commands Session Sim.

(** Memory that never runs out. *)
Definition mem0 : mem := Mem 1 [].

Lemma mem0_ok : mem_ok mem0.
Proof. constructor. Defined.

(** Solves bounds on literals. *)
Ltac bounds := unfold is_u64, is_i32; lia.

Definition rec_of (ty : hwt_record_type) (p : string) (a : Z) : bsdtrace_record :=
  {| r_type := ty; r_fullpath := p; r_addr := a; r_baseaddr := 0; r_buf_id := 0; r_curpage := 0;
     r_offset := 0; r_thread_id := 0 |}.

Definition sec_of (ty : hwt_record_type) (p : string) (a : Z) : pt_image_info :=
  {| path := p; load_addr := a; base_addr := 0; type := ty |}.

Lemma rec_of_ok ty p a : is_u64 a -> p = EmptyString \/ plain_path p -> recordable (rec_of ty p a).
Proof. intros Ha Hp. split; [split; simpl; done || bounds|done]. Defined.

(** Decides [plain_path] of a literal. *)
Ltac plain := split; [discriminate|split; [reflexivity|vm_compute; lia]].

Lemma sec_of_writable ty p a :
  is_u64 a -> plain_path p ->
  ty = HWT_RECORD_EXECUTABLE \/ ty = HWT_RECORD_KERNEL \/ ty = HWT_RECORD_MMAP ->
  writable (sec_of ty p a).
Proof. intros Ha Hp Ht. split_and!; simpl; [exact Hp|exact Ha|bounds|exact Ht]. Defined.

(** * Sidecars *)

Definition two_records : list bsdtrace_record :=
  [rec_of HWT_RECORD_MMAP "/lib/libc.so.7" 34393292800; rec_of HWT_RECORD_BUFFER "" 0].

Lemma two_records_ok : Forall recordable two_records.
Proof.
  constructor; [apply rec_of_ok; [bounds|right; plain]|].
  constructor; [apply rec_of_ok; [bounds|by left]|constructor].
Defined.

Lemma seeded_writable :
  Forall writable (map mmap_section (List.filter exec_vnode (map_entries prog_map))).
Proof.
  constructor; [|constructor].
  apply (sec_of_writable HWT_RECORD_MMAP "/bin/prog" 34359738368); [bounds|plain|auto].
Defined.

Lemma live_offline_agree_witness :
  let '(_, ts, m1) := trace_state_seed_process_mmaps
                        (trace_state_init (meta_start 7 0 3 1)) 7 mem0 in
  let '(ts, _) := process_all ts two_records m1 in
  (meta_read_sections (ts_meta ts) mem0).1 = Some (ts_sections ts) /\
  ts_sections ts =
    foldl then_section (map mmap_section (List.filter exec_vnode (map_entries prog_map)))
      (concat (map record_section two_records)).
Proof.
  apply (live_offline_agree 7 0 3 1 2304 prog_map two_records mem0 mem0);
    [bounds|bounds|bounds|bounds|exact mem0_ok|exact mem0_ok|reflexivity|reflexivity
    |exact seeded_writable|exact two_records_ok].
Defined.

Definition two_sections : list pt_image_info :=
  [sec_of HWT_RECORD_EXECUTABLE "/bin/prog" 2097152; sec_of HWT_RECORD_MMAP "/lib/libc.so.7" 34393292800].

Lemma two_sections_ok : Forall writable two_sections.
Proof.
  constructor; [apply sec_of_writable; [bounds|plain|auto]|].
  constructor; [apply sec_of_writable; [bounds|plain|auto]|constructor].
Defined.

Lemma two_sections_head : exec_at_head two_sections.
Proof. constructor; [discriminate|constructor]. Defined.

Lemma meta_sections_roundtrip_witness :
  (meta_read_sections
     (meta_writer_sections
        (meta_writer_timing (meta_writer_header (Some EmptyString) 7 0) 3 1) two_sections) mem0).1 =
  Some two_sections.
Proof.
  apply (meta_sections_roundtrip 7 0 3 1 two_sections mem0);
    [bounds|bounds|bounds|bounds|exact two_sections_ok|exact two_sections_head|exact mem0_ok].
Defined.

Lemma meta_timing_roundtrip_witness :
  let f := put (meta_writer_timing (meta_writer_header (Some EmptyString) 7 0) 3 1) "" in
  meta_read_mtc_freq f = 3 /\ meta_read_cyc_thresh f = 1.
Proof. apply (meta_timing_roundtrip 7 0 3 1 ""); [bounds|bounds|lia|lia|lia]. Defined.

Definition ctx0 : hwt_ctx := set_fds 3 4 5 (ctx_init 1 7 0 "pt" 8192).
Definition ts0 : trace_state := with_sections two_sections 32 (trace_state_init (Some EmptyString)).

Lemma thread_meta_replays_witness :
  meta_read_tid (thread_meta ctx0 ts0 2) = 2 /\
  (meta_read_sections (thread_meta ctx0 ts0 2) mem0).1 = Some two_sections.
Proof.
  apply (thread_meta_replays ctx0 ts0 2 mem0);
    [simpl; bounds|bounds|exact two_sections_ok|exact two_sections_head|exact mem0_ok].
Defined.

Lemma sidecar_paths_witness :
  derive_meta_path "out.pt" MAXPATHLEN = "out.meta" /\
  thread_pt_path "out.pt" 2 = "out-tid2.pt" /\
  derive_meta_path (thread_pt_path "out.pt" 2) MAXPATHLEN = "out-tid2.meta".
Proof. apply (sidecar_paths "out" 2); [discriminate|simpl; lia|bounds]. Defined.

(** * Recorders *)

(** main calls helper, which returns. *)
Definition sym_of (n : nat) (nm : string) : sym_entry :=
  {| s_addr := Z.of_nat n * 16; s_size := 16; s_slide := 0; s_name := CStr n nm; s_binary := CStr 0 "prog" |}.

Definition ev_at (s : sym_entry) (off : Z) (c : pt_insn_class) : insn_event :=
  {| ev_sym := Some s; ev_ip := s_addr s + off; ev_class := c; ev_tsc := 0 |}.

Definition run1 : list insn_event :=
  [ev_at (sym_of 1 "main") 4 ptic_call; ev_at (sym_of 2 "helper") 0 ptic_cond_jump;
   ev_at (sym_of 2 "helper") 8 ptic_return; ev_at (sym_of 1 "main") 8 ptic_call;
   ev_at (sym_of 2 "helper") 0 ptic_other; ev_at (sym_of 2 "helper") 8 ptic_return].

Lemma calltree_refines_witness :
  exists ct0 m0 ct m1,
    calltree_init mem0 = Some (ct0, m0) /\
    calltree_record_all ct0 run1 m0 = Some (ct, m1) /\
    forall pi,
      let A := a_record_all ptic_error run1 a_init in
      match node_at ct pi with
      | Some n => n_count n = a_count A pi /\ n_total n = a_total A pi
      | None => a_count A pi = 0 /\ a_total A pi = 0
      end.
Proof. apply (calltree_refines mem0 run1). exact mem0_ok. Defined.

Lemma calltree_no_dangling_witness :
  (calltree_init mem0 = None <-> (malloc mem0).1 = None) /\
  match calltree_init mem0 with
  | Some (ct, m') => is_Some (calltree_record_all ct run1 m')
  | None => False
  end.
Proof.
  split; [apply (calltree_no_dangling mem0 run1)|].
  destruct (calltree_init mem0) as [[ct m']|] eqn:E; [|discriminate E].
  apply (calltree_no_dangling mem0 run1). exact E.
Defined.

Lemma calltree_walk_ends_witness :
  match calltree_init mem0 with
  | Some (ct0, m0) =>
      match calltree_record_all ct0 run1 m0 with
      | Some (ct, _) => is_Some (tree_of (S (size (heap ct))) ct (root ct))
      | None => False
      end
  | None => False
  end.
Proof.
  destruct (calltree_init mem0) as [[ct0 m0]|] eqn:E; [|discriminate E].
  destruct (calltree_record_all ct0 run1 m0) as [[ct m1]|] eqn:E1.
  - apply (calltree_walk_ends mem0 ct0 m0 run1 ct m1 E E1).
  - injection E as <- <-. vm_compute in E1. discriminate E1.
Defined.

Lemma profile_counts_witness :
  counts (profile_record_all profile_init run1 None mem0).1 (2%nat, 0%nat) = (2, 2, 1).
Proof. rewrite (profile_counts run1 None mem0 (2%nat, 0%nat)); [reflexivity|exact mem0_ok]. Defined.

(** The two paths of the run: main from the root is never pushed (no call
    enters it), helper sits below the root. *)
Lemma profile_tree_agree_witness :
  match calltree_init mem0 with
  | Some (ct0, m0) =>
      match calltree_record_all ct0 run1 m0 with
      | Some (ct, _) =>
          (counts (profile_record_all profile_init run1 None mem0).1 (2%nat, 0%nat)).1.1 =
          sum_on (fun pi => default 0 (n_count <$> node_at ct pi))
            (base.filter (ends_in (2%nat, 0%nat)) [[(2%nat, 0%nat)]; []])
      | None => False
      end
  | None => False
  end.
Proof.
  destruct (calltree_init mem0) as [[ct0 m0]|] eqn:E; [|discriminate E].
  destruct (calltree_record_all ct0 run1 m0) as [[ct m1]|] eqn:E1.
  - apply (profile_tree_agree run1 None mem0 mem0 (2%nat, 0%nat) [[(2%nat, 0%nat)]; []] ct0 m0 ct m1);
      [exact mem0_ok|exact mem0_ok|repeat constructor; discriminate|exact E|exact E1| |].
    + constructor; [|constructor; [|constructor]]; intros Hin; vm_compute in Hin; set_solver.
    + injection E as <- <-. vm_compute in E1. injection E1 as <- <-.
      intros pi Hpi. induction pi as [|k pi IH]; [by right; left|]. cbn [node_at] in Hpi.
      match type of Hpi with context [node_at ?c pi] => set (T := c) in * end.
      destruct (node_at T pi) as [n|] eqn:En; [|done].
      specialize (IH ltac:(discriminate)). apply elem_of_cons in IH as [->|IH].
      * vm_compute in En. injection En as <-. vm_compute in Hpi. done.
      * apply list_elem_of_singleton in IH as ->. vm_compute in En. injection En as <-.
        assert (Hk : forall o : option (list ct_node),
                  o = Some [Build_ct_node (CStr 2 "helper") (CStr 0 "prog") 2 0 0 None 0] ->
                  (l ← o; List.find (fun c => bool_decide (node_key c = k)) l) <> None ->
                  k = (2%nat, 0%nat)).
        { intros o -> Hf. simpl in Hf. case_bool_decide as Hb; [|done]. by rewrite <- Hb. }
        rewrite (Hk _ ltac:(vm_compute; reflexivity) Hpi). by left.
  - injection E as <- <-. vm_compute in E1. discriminate E1.
Defined.

Lemma collapsed_counts_witness :
  let ss := sampled [] ptic_error run1 in
  ss = ["helper"; "helper"] /\
  exists col m',
    collapsed_record_all collapsed_init run1 mem0 = Some (col, m') /\
    forall s, stack_count (c_entries col) s = Z.of_nat (count_occ string_dec ss s).
Proof.
  split; [reflexivity|].
  apply (collapsed_counts run1 mem0);
    [exact mem0_ok| |vm_compute; discriminate].
  constructor; [by apply Nat.ltb_lt|constructor; [by apply Nat.ltb_lt|constructor]].
Defined.

(** Forty frames with names of 255 characters: too long for the buffer. *)
Definition deep : collapsed :=
  {| c_entries := []; c_capacity := 0;
     names := repeat (zeros 255) 40; c_prev_class := ptic_error |}.

Lemma build_stack_bounds_witness :
  match collapsed_build_stack deep with
  | NoStack => False
  | Built s => String.length s = (STACK_BUF - 1)%nat
  | OutOfBounds i => (STACK_BUF <= i)%nat
  end.
Proof. apply (build_stack_bounds deep). discriminate. Defined.

(** * Sessions *)

Definition k0 : kernel := Build_sim [] [] [] (repeat 0 4096) no_procs.

(** A session of process 7 with two threads: allocate, configure, start,
    poll, snapshot. *)
Definition session_ops : list ctx_op :=
  [OpConfig true; OpStart; OpThread 1; OpThread 2; OpPoll 100 false; OpMap; OpBufptr;
   OpSnapshot "out.pt" 0 64; OpStop].

Lemma session_no_leak_witness :
  match hwt_ctx_alloc 1 7 0 8192 (Some "pt") k0 with
  | (true, c, k1) =>
      let '(c2, _, k2) := run_ops session_ops (c, mem0, k1) in
      threads_ok c2 /\ fds (hwt_ctx_close c2 k2).2 = fds k0
  | (false, _, k1) => fds k1 = fds k0
  end.
Proof. exact (@session_no_leak sim_kernel sim_fds sim_laws sim_write_laws 1 7 0 8192 (Some "pt") session_ops mem0 k0). Defined.

Definition k1 : kernel := Build_sim [5; 4; 3] [] [] (repeat 0 4096) no_procs.

Lemma ctx0_ok : ctx_ok ∅ ctx0 k1.
Proof.
  split; [split|split].
  - apply set_eq. intros x. unfold fds, sim_fds, ctx_fds. simpl. set_solver.
  - set_solver.
  - simpl. lia.
  - constructor.
Defined.

Lemma drain_terminates_witness :
  exists total ts' m' k' rss,
    trace_state_drain_post_stop (41 * pending k1 + 41) ctx0 ts0 mem0 k1 = Some (total, ts', m', k') /\
    ts' = (process_all ts0 (concat rss) mem0).1 /\ total = Z.of_nat (length (concat rss)) /\
    exists kl, polled ctx0 rss k1 kl /\ drained ctx0 0 rss kl k'.
Proof. apply (@drain_terminates sim_kernel sim_queue_laws ctx0 ts0 mem0 k1). exact mem0_ok. Defined.

(** A buffer whose first page was written. *)
Definition page1 : list Z := repeat 1 64 ++ repeat 0 5000.

Lemma choose_len_spec_witness :
  let n := (choose_snapshot_len page1 0 [] mem0).1 in
  let base := Z.min 0 (Z.of_nat (length page1)) in
  let scan := Z.of_nat (pt_scan_last_nonzero page1) in
  (0 <= n <= Z.of_nat (length page1)) /\
  (n = base \/ n = scan) /\
  (n = 0 -> base = 0 /\ forall i, (i < length page1)%nat -> page1 !! i = Some 0) /\
  (base < PAGE_SIZE -> base < scan -> n = scan).
Proof. apply (choose_len_spec page1 0 [] mem0). lia. Defined.

Lemma choose_len_probe_witness :
  let base := Z.min 4096 (Z.of_nat (length page1)) in
  let scan := Z.of_nat (pt_scan_last_nonzero page1) in
  let n := (choose_snapshot_len page1 4096 two_sections mem0).1 in
  let '(b, m1) := decode_pt_probe (take (Z.to_nat base) page1) two_sections mem0 in
  let '(s, _) := decode_pt_probe (take (Z.to_nat scan) page1) two_sections m1 in
  match b, s with
  | Some b, Some s => n = (if probe_result_better s b then scan else base)
  | Some _, None => n = base
  | None, Some _ => n = scan
  | None, None => n = Z.min base scan
  end.
Proof.
  apply (choose_len_probe page1 4096 two_sections mem0);
    [discriminate|reflexivity|vm_compute; reflexivity|vm_compute; discriminate|vm_compute; discriminate].
Defined.

(** The first 100 bytes, which the simulated [write] takes in two calls. *)
Lemma snapshot_saves_prefix_witness :
  let c := set_bufs (Some 4096) [] ctx0 in
  let total := Z.min (u64 (0 * PAGE_SIZE + 100)) (bufsize c) in
  exists n c' k', hwt_ctx_snapshot_buffer c "out.pt" 0 100 k1 = (Some n, c', k') /\
    (n = 0 /\ (0 < 0 \/ total = 0) \/
     n = -1 /\ ((mapping c k1).1 = None \/ (k_open "out.pt" (mapping c k1).2).1 = None) \/
     exists buf ka fd kb, mapping c k1 = (Some buf, ka) /\ k_open "out.pt" ka = (Some fd, kb) /\
       0 <= 0 /\ 0 < total /\
       let data := take (Z.to_nat total) (k_bytes buf kb) in
       exists kc, k' = k_close fd kc /\
         (n = total /\ written fd kc = written fd kb ++ data \/
          n = -1 /\ exists i ki, (i < length data)%nat /\ written fd ki = written fd kb ++ take i data /\
                    k_write fd (drop i data) ki = (None, kc))).
Proof. apply (@snapshot_saves_prefix sim_kernel sim_write_laws (set_bufs (Some 4096) [] ctx0) "out.pt" 0 100 k1). cbn. lia. Defined.

Lemma pt_config_bits_witness :
  Z.testbit (rtit_ctl (pt_config ctx0)) 13 = true.
Proof. rewrite (pt_config_bits ctx0 13); [reflexivity|lia]. Defined.

(** A queue with an image record and a buffer record. *)
Definition entries0 : list hwt_record_user_entry :=
  [Build_hwt_record_user_entry HWT_RECORD_MMAP "/lib/libc.so.7" 34393292800 0 0 0 0 0;
   Build_hwt_record_user_entry HWT_RECORD_BUFFER "" 0 0 0 3 128 0].
Definition k2 : kernel := Build_sim [5; 4; 3] entries0 [] [] no_procs.

Lemma poll_records_spec_witness :
  match hwt_ctx_poll_records ctx0 100 false mem0 k2 with
  | (Some rs, _, k') =>
      exists entries,
        k_record_get (ctx_fd ctx0) (Z.min 100 1024) false k2 = (Some entries, k') /\
        map r_type rs = map e_record_type entries /\ Forall own_fields rs
  | (None, _, _) => False
  end.
Proof.
  destruct (hwt_ctx_poll_records ctx0 100 false mem0 k2) as [[[rs|] m'] k'] eqn:E;
    [|vm_compute in E; discriminate E].
  apply (@poll_records_spec sim_kernel ctx0 100 false mem0 k2 rs m' k' E).
Defined.

Lemma round_bufsize_spec_witness :
  (5000 <= round_bufsize 5000 < 5000 + PAGE_SIZE) /\ round_bufsize 5000 mod PAGE_SIZE = 0.
Proof. apply (round_bufsize_spec 5000). unfold PAGE_SIZE. lia. Defined.

Lemma buffer_extent_witness :
  let recs := [rec_of HWT_RECORD_BUFFER "" 0; rec_of HWT_RECORD_OVERFLOW "" 0] in
  let ts := (process_all (trace_state_init None) recs mem0).1 in
  let pages := buffer_pages recs in
  last_buf_page ts = default (-1) (last pages) /\ max_buf_page ts = fold_right Z.max (-1) pages /\
  (buf_wrapped ts = true <-> goes_back pages) /\ overflow_count ts = Z.of_nat (length (overflows recs)).
Proof.
  apply (buffer_extent None [rec_of HWT_RECORD_BUFFER "" 0; rec_of HWT_RECORD_OVERFLOW "" 0] mem0).
  constructor; [reflexivity || lia|constructor].
Defined.

Lemma idle_primary_drops_threads_witness :
  snapshot_and_decode (set_bufs (Some 4096) [] ctx0) ts0 "out.pt" FMT_TEXT None mem0 k1 =
  Some (0, [], set_bufs (Some 4096) [] ctx0, mem0, k1).
Proof.
  apply (@idle_primary_drops_threads pt_decoder sim_kernel sim_files (set_bufs (Some 4096) [] ctx0) ts0
           "out.pt" FMT_TEXT None mem0 k1 4096);
    [reflexivity| |reflexivity|reflexivity].
  intros i Hi. change (k_bytes 4096 _) with (repeat 0 4096) in *. rewrite repeat_length in Hi.
  destruct (repeat 0 4096 !! i) as [x|] eqn:E.
  - f_equal. apply (repeat_spec 4096 0), list_elem_of_In. by apply list_elem_of_lookup_2 in E.
  - apply lookup_ge_None in E. rewrite repeat_length in E. lia.
Defined.

Lemma ensure_kernel_offline_gap_witness :
  let ts := trace_state_init (meta_start 7 0 3 1) in
  let ts' := (trace_state_ensure_kernel ts mem0).1 in
  ts_sections ts' =
    ts_sections ts ++ [{| path := kernel_path; load_addr := 1048576; base_addr := 0;
                          type := HWT_RECORD_KERNEL |}] /\
  (meta_read_sections (ts_meta ts') mem0).1 = Some (ts_sections ts).
Proof.
  apply (@ensure_kernel_offline_gap sim_sysinfo (trace_state_init (meta_start 7 0 3 1)) 1048576 mem0);
    [exact mem0_ok|reflexivity|apply meta_start_synced; bounds|constructor].
Defined.

(** * Program files *)

(** The symbol main at its runtime address 0x800000600: the range given to the
    hardware starts one page above it. *)
Lemma trace_symbol_runtime_witness :
  match (process_load_addr 7 "/bin/prog" mem0).1, (compute_slide "/bin/prog" 7 false mem0).1 with
  | Some load, Some (slide, aslr) =>
      let runtime := u64 (load + (st_value prog_sym - 2101248)) in
      aslr = false /\
      (symbol_range slide prog_sym).1 = u64 (runtime + (2101248 - 2097152)) /\
      ((symbol_range slide prog_sym).1 = runtime <-> u64 (2101248 - 2097152) = 0)
  | _, _ => False
  end.
Proof.
  destruct (process_load_addr 7 "/bin/prog" mem0).1 as [load|] eqn:E1; [|vm_compute in E1; discriminate E1].
  destruct (compute_slide "/bin/prog" 7 false mem0).1 as [[slide aslr]|] eqn:E2;
    [|vm_compute in E2; discriminate E2].
  apply (@trace_symbol_runtime sim_elf sim_proc "/bin/prog" 7 prog 2097152 2101248 load slide aslr prog_sym mem0);
    [reflexivity|reflexivity|reflexivity|reflexivity|exact E1|exact E2].
Defined.

Lemma resolve_symbol_first_witness :
  resolve_symbol_in_elf "/bin/prog" 0 "main" =
  symbol_range 0 <$>
    head (named_functions prog "main" SHT_SYMTAB ++ named_functions prog "main" SHT_DYNSYM).
Proof. apply (@resolve_symbol_first sim_elf "/bin/prog" 0 "main" prog); reflexivity. Defined.

Lemma sym_table_add_elf_complete_witness :
  map entry_view (entries (sym_table_add_elf (sym_table_init) "/bin/prog" 4096 mem0).1) =
  [symbol_view 4096 (basename "/bin/prog") (2102784, 16, "main")].
Proof.
  rewrite (@sym_table_add_elf_complete sim_elf sym_table_init "/bin/prog" prog 4096 mem0);
    [reflexivity|reflexivity|reflexivity|exact mem0_ok].
Defined.

Lemma mmap_load_addr_correct_witness :
  match elf_effective_load_addr prog HWT_RECORD_MMAP 34359738368 with
  | Some load =>
      relocate load 2097152 2101248 = 34359738368 /\
      forall ph_vaddr, relocate load 2097152 ph_vaddr = u64 (34359738368 + (ph_vaddr - 2101248))
  | None => False
  end.
Proof.
  destruct (elf_effective_load_addr prog HWT_RECORD_MMAP 34359738368) as [load|] eqn:E;
    [|vm_compute in E; discriminate E].
  apply (mmap_load_addr_correct prog 34359738368 load 2097152 2101248);
    [bounds|reflexivity|reflexivity|exact E].
Defined.

(** Three images of one library and one of a program. *)
Definition images : list pt_image_info :=
  [sec_of HWT_RECORD_MMAP "/lib/a" 12288; sec_of HWT_RECORD_EXECUTABLE "/bin/prog" 0;
   sec_of HWT_RECORD_MMAP "/lib/a" 4096; sec_of HWT_RECORD_MMAP "/lib/a" 8192].

Lemma section_should_use_unique_witness :
  exists i,
    image_at images "/lib/a" i /\ section_should_use images i = true /\
    (forall j, image_at images "/lib/a" j -> section_should_use images j = true -> j = i) /\
    (typed_at images HWT_RECORD_EXECUTABLE "/lib/a" i ->
     forall j, typed_at images HWT_RECORD_EXECUTABLE "/lib/a" j -> (i <= j)%nat) /\
    (typed_at images HWT_RECORD_MMAP "/lib/a" i -> forall j, image_at images "/lib/a" j ->
       typed_at images HWT_RECORD_MMAP "/lib/a" j /\ load_at images i <= load_at images j).
Proof. apply (section_should_use_unique images "/lib/a" 0); [discriminate|by right]. Defined.

Lemma build_bin_ranges_ok_witness :
  ranges_ok [sec_of HWT_RECORD_MMAP "/bin/prog" 34359738368] 256
    (build_bin_ranges [sec_of HWT_RECORD_MMAP "/bin/prog" 34359738368] 256 mem0).1.
Proof. apply (build_bin_ranges_ok [sec_of HWT_RECORD_MMAP "/bin/prog" 34359738368] 256 mem0). lia. Defined.

(** * Text *)

Lemma json_escape_sound_witness :
  (String.length (json_escape 64 "a/b c") < 64)%nat /\
  (exists n, json_unescape (json_escape 64 "a/b c") = Some (str_take n "a/b c")) /\
  ((String.length (json_chars "a/b c") + 7 <= 64)%nat ->
   json_unescape (json_escape 64 "a/b c") = Some "a/b c").
Proof. apply (json_escape_sound 64 "a/b c"). lia. Defined.

Lemma fmt_record_json_complete_witness :
  let r := rec_of HWT_RECORD_MMAP "/lib/libc.so.7" 34393292800 in
  fmt_record_json (noon 0) r 7 = Some (json_head (noon 0) r 7 +:+ json_body r +:+ "}" +:+ nl).
Proof.
  apply (fmt_record_json_complete (noon 0) (rec_of HWT_RECORD_MMAP "/lib/libc.so.7" 34393292800) 7).
  - unfold tm_wf, is_i32. simpl. lia.
  - constructor; [constructor; simpl; bounds|bounds|simpl; bounds].
Defined.

Lemma parse_range_roundtrip_witness :
  parse_range_spec ("stop:" +:+ show_range 4096 8192) =
  Some {| is_symbol := false; start := 4096; stop := 8192; symbol := EmptyString;
          mode := PT_RANGE_TRACESTOP |}.
Proof. apply (parse_range_roundtrip 4096 8192 true); bounds. Defined.

(** * The decoder *)

(** main calls itself and returns, an event, an error, and two more. *)
Definition script : list Z := [0; 17; 0; 36; 254; 53; 255; 0; 5; 252; 9; 6].

Definition prog_only : list pt_image_info := [sec_of HWT_RECORD_EXECUTABLE "/bin/prog" 2097152].

Lemma script_setup : exists su, setup script prog_only None mem0 = Some su.
Proof. by eexists. Defined.

Lemma decode_tree_exact_witness :
  exists su l ct t out m1 m2, setup script prog_only None mem0 = Some su /\ session_run su l /\
    tree_of (S (size (heap ct))) ct (root ct) = Some t /\
    (forall pi, let A := a_record_all ptic_error (trace (su_syms su) l) a_init in
       match node_at ct pi with
       | Some n => n_count n = a_count A pi /\ n_total n = a_total A pi
       | None => a_count A pi = 0 /\ a_total A pi = 0
       end) /\
    (if bool_decide (FMT_CALLERS = FMT_TREE) then out = calltree_print t /\ m2 = m1
     else callers_print t None m1 = Some (out, m2)) /\
    decode_buffer script prog_only FMT_CALLERS None mem0 =
      Some (result_of l (thread_head (opts_tid None) ++ out), m2).
Proof.
  destruct script_setup as [su Hsu]. exists su.
  destruct (decode_tree_exact script prog_only None mem0 su FMT_CALLERS) as (l & ct & t & out & m1 & m2 & H);
    [exact mem0_ok|discriminate|discriminate|exact Hsu|right; by split|]. by exists l, ct, t, out, m1, m2.
Defined.

(** The run of the script, by its constructors. *)
Ltac sign := vm_compute; first [discriminate | reflexivity].
Ltac run_script :=
  repeat first
    [ eapply run_event; [sign|reflexivity|reflexivity|sign|]
    | eapply run_insn; [sign|reflexivity|reflexivity|sign|]
    | eapply run_eos; [sign|reflexivity|reflexivity|sign]
    | eapply run_error; [sign|reflexivity|reflexivity|sign|discriminate|reflexivity|]
    | apply run_end; sign ].

(** main calls itself and returns, without a gap: one call, one return, one
    branch. *)
Definition gapless_script : list Z := [0; 17; 0; 36; 254; 53; 0].

Lemma gapless_run :
  exists su l, setup gapless_script prog_only None mem0 = Some su /\ session_run su l /\
    gapless (su_syms su) l /\
    let evs := trace (su_syms su) l in
    exists k, (function_calls k evs, function_returns k evs, function_branches k evs) = (1, 1, 1).
Proof.
  eexists _, _. split; [reflexivity|]. split; [unfold session_run; run_script|].
  split; [split|].
  - intros status Hin. repeat (apply elem_of_cons in Hin as [Hin|Hin]; [discriminate Hin|]).
    by apply elem_of_nil in Hin.
  - apply (bool_decide_unpack _). vm_compute. exact I.
  - exists (5%nat, 6%nat). vm_compute. reflexivity.
Defined.

Lemma decode_profile_exact_witness :
  exists su k p out, setup gapless_script prog_only None mem0 = Some su /\
    counts p k = (1, 1, 1) /\ profile_print p None = Some out /\
    (fun r => dec_out r.1) <$> decode_buffer gapless_script prog_only FMT_PROFILE None mem0 = Some out.
Proof.
  destruct gapless_run as (su & l & Hsu & Hr & Hg & k & Hk).
  destruct (decode_profile_exact gapless_script prog_only None mem0 su) as (l' & p & out & m' & Hr' & Hc & Ho & Hd);
    [exact mem0_ok|exact I|discriminate|discriminate|exact Hsu|].
  rewrite (run_functional _ _ _ _ Hr' Hr) in Hc. exists su, k, p, out. split; [exact Hsu|].
  split; [rewrite (Hc Hg k); exact Hk|]. split; [exact Ho|]. by rewrite Hd.
Defined.

Lemma script_stacks :
  exists su l, setup script prog_only None mem0 = Some su /\ session_run su l /\
    let evs := trace (su_syms su) l in
    Forall (fun s => (length s <= MAX_STACK_DEPTH)%nat) (active [] ptic_error evs) /\
    let ss := returned_stacks evs in
    ss = ["main"] /\
    Forall (fun s => (String.length s < STACK_BUF)%nat) ss /\
    Z.of_nat (size (list_to_set ss : gset string)) <= MAX_COLLAPSED_STACKS.
Proof.
  eexists _, _. split; [reflexivity|]. split; [unfold session_run; run_script|].
  split; [apply (bool_decide_unpack _); vm_compute; exact I|].
  split; [vm_compute; reflexivity|]. split.
  - apply (bool_decide_unpack _). vm_compute. exact I.
  - vm_compute. discriminate.
Defined.

Lemma decode_collapsed_exact_witness :
  exists su l, setup script prog_only None mem0 = Some su /\ session_run su l /\
    let ss := returned_stacks (trace (su_syms su) l) in
    exists col out m1 m2,
      (forall s, stack_count (c_entries col) s = Z.of_nat (count_occ string_dec ss s)) /\
      (if bool_decide (FMT_COLLAPSED = FMT_COLLAPSED) then collapsed_print col None m1
       else speedscope_print col m1) = Some (out, m2) /\
      decode_buffer script prog_only FMT_COLLAPSED None mem0 = Some (result_of l out, m2).
Proof.
  destruct script_stacks as (su & l & Hsu & Hr & Hdep & _ & Hlen & Hsz). exists su, l. split; [exact Hsu|].
  split; [exact Hr|].
  apply (decode_collapsed_exact script prog_only None mem0 su FMT_COLLAPSED l);
    [exact mem0_ok|exact I|discriminate|discriminate|exact Hsu|by left|exact Hr|exact Hdep|exact Hlen|exact Hsz].
Defined.


Lemma decode_summary_exact_witness :
  exists su l n d m', setup script prog_only None mem0 = Some su /\
    decode_buffer script prog_only FMT_TEXT None mem0 = Some (d, m') /\
    session_run su l /\ dec_sum d = InsnSummary n /\ tallied l n /\
    (dec_rc d = 0 <-> exists insn t, StepInsn insn t ∈ l).
Proof.
  destruct script_setup as [su Hsu]. exists su.
  destruct (decode_buffer script prog_only FMT_TEXT None mem0) as [[d m']|] eqn:Ed;
    [|vm_compute in Ed; discriminate Ed].
  destruct (decode_summary_exact script prog_only None mem0 su FMT_TEXT d m') as (l & n & H);
    [discriminate|discriminate|exact Hsu|exact Ed|]. by exists l, n, d, m'.
Defined.

Lemma probe_agrees_with_decode_witness :
  exists su, setup script prog_only None mem0 = Some su /\
  let '(_, st, m3) := build_pt_image prog_only sym_table_init mem0 in
  let '(ranges, _) := build_bin_ranges prog_only MAX_BIN_RANGES m3 in
  exists l hit, session_run su l /\
    (forall s, hit s = true <-> own_code st ranges (exec_names prog_only) s) /\
    (probe_buffer script prog_only mem0).1 =
      Some (if existsb is_insn l
            then Some {| pr_total := count_where is_insn l; pr_exec_hits := count_where hit l |}
            else None) /\
    forall fmt d m', decode_buffer script prog_only fmt None mem0 = Some (d, m') ->
      exists n, dec_sum d = InsnSummary n /\ ic_total n = count_where is_insn l.
Proof.
  destruct script_setup as [su Hsu]. exists su. split; [exact Hsu|].
  apply (probe_agrees_with_decode script prog_only None mem0 mem0 su);
    [exact mem0_ok|exact mem0_ok|discriminate|discriminate|exact I|exact Hsu| |vm_compute; lia].
  constructor; [vm_compute; lia|constructor].
Defined.

Lemma decode_failures_witness :
  exists m', mem_ok m' /\
    decode_buffer script [sec_of HWT_RECORD_EXECUTABLE "/bin/none" 2097152] FMT_TREE None mem0 =
      packet_fallback script FMT_TREE m'.
Proof.
  assert (Hsu : setup script [sec_of HWT_RECORD_EXECUTABLE "/bin/none" 2097152] None mem0 = None)
    by reflexivity.
  pose proof (decode_failures script [sec_of HWT_RECORD_EXECUTABLE "/bin/none" 2097152] FMT_TREE None mem0
                mem0_ok (or_intror (or_intror Hsu))) as (m' & Hm & E).
  exists m'. split; [exact Hm|]. rewrite E. reflexivity.
Defined.

Lemma decode_pt_buffer_spec_witness :
  exists l, stretches 0 [1; 7; 255; 0; 2] l /\
    let pkts := concat (map fst l) in
    decode_pt_buffer [0; 1; 7; 255; 0; 2] FMT_JSON =
      Some (if bool_decide (pkts = []) then -1 else 0, concat (map (packet_line FMT_JSON) pkts),
            (Z.of_nat (length pkts), Z.of_nat (length l), failed_stretches l)).
Proof.
  apply (@decode_pt_buffer_spec sim_packet_decoder sim_packet_laws [0; 1; 7; 255; 0; 2] FMT_JSON
           [0; 1; 7; 255; 0; 2] 0 [1; 7; 255; 0; 2]);
    [discriminate|reflexivity|reflexivity].
Defined.

Example decode_pt_buffer_prints :
  (fun r => r.1.2) <$> decode_pt_buffer [0; 1; 7; 255; 0; 2] FMT_JSON =
  Some [dq "{'pkt':'psb'}"; dq "{'pkt':'tsc','tsc':500}"].
Proof. vm_compute. reflexivity. Qed.

Lemma calltree_free_all_witness :
  exists ct ct', (match calltree_init mem0 with
                  | Some (ct0, m0) => fst <$> calltree_record_all ct0 run1 m0
                  | None => None end) = Some ct /\
    calltree_free ct = Some ct' /\ heap ct' = ∅ /\ stack ct' = [] /\ n_children (root ct') = None.
Proof.
  destruct (calltree_init mem0) as [[ct0 m0]|] eqn:E; [|vm_compute in E; discriminate E].
  destruct (calltree_record_all ct0 run1 m0) as [[ct m1]|] eqn:Er.
  2:{ vm_compute in E. injection E as <- <-. vm_compute in Er. discriminate Er. }
  destruct (calltree_free_all mem0 ct0 m0 run1 ct m1 E Er) as (ct' & H). by exists ct, ct'.
Defined.


Lemma image_symbols_witness :
  let files := loads prog_only (seq 0 (length prog_only)) in
  exists im st' m', build_pt_image prog_only sym_table_init mem0 = (Some im, st', m') /\
    im = image_adds pt_image_empty (concat (map load_segments files)) /\
    accepted pt_image_empty (concat (map load_segments files)) <> 0 /\
    addr_sorted (entries st') /\
    map entry_view (entries st') ≡ₚ concat (map load_functions files).
Proof.
  intros files. destruct (build_pt_image prog_only sym_table_init mem0) as [[[im|] st'] m'] eqn:E;
    [|vm_compute in E; discriminate E].
  exists im, st', m'. split; [reflexivity|].
  apply (image_symbols prog_only mem0 im st' m' mem0_ok E).
Defined.

Lemma tnt_str_exact_witness :
  Z.of_nat (String.length (tnt_str TNT_BUF 5 4)) = 4 /\ tnt_value 0 (tnt_str TNT_BUF 5 4) = 5 mod 2 ^ 4.
Proof. apply (tnt_str_exact 5 4); lia. Defined.

Lemma is_exec_binary_exact_witness :
  is_exec_binary (Some "prog") (collect_exec_binaries prog_only 16 []) = true <-> "prog" ∈ exec_names prog_only.
Proof.
  apply (is_exec_binary_exact prog_only 16 "prog"); [|vm_compute; lia|discriminate].
  constructor; [vm_compute; lia|constructor].
Defined.

(** * Source lines *)

Lemma source_lines_transparent_witness :
  exists cs k', source_lines [("/bin/prog", 2097152, 4199940); ("/bin/prog", 2097152, 4199960)] [] k0 =
    Some ([Some ("/src/prog.c", 10); Some ("/src/prog.c", 12)], cs, k').
Proof.
  apply (@source_lines_transparent sim_kernel sim_libdwarf (fun _ => 2097152) {[ "/bin/prog" ]}
    [("/bin/prog", 2097152, 4199940); ("/bin/prog", 2097152, 4199960)] k0).
  - intros p ->%elem_of_singleton. vm_compute. lia.
  - intros p k _. by eexists.
  - rewrite size_singleton. vm_compute. lia.
  - repeat constructor; set_solver.
Defined.

Lemma source_lines_close_witness :
  exists rs cs k', source_lines [("/bin/prog", 2097152, 4199940); ("/bin/ls", 0, 16)] [] k0 = Some (rs, cs, k') /\
    length rs = 2%nat /\ (length cs <= MAX_DWARF_CACHES)%nat /\ fds (dwarf_cache_close_all cs k').2 = fds k0.
Proof.
  exact (@source_lines_close sim_kernel sim_libdwarf sim_fds sim_laws
    [("/bin/prog", 2097152, 4199940); ("/bin/ls", 0, 16)] k0).
Defined.

(** * Command lines *)

(** A tree of a program run with two filters, a range by address and one by
    symbol, and two of the encodings. *)
Definition asked : options :=
  with_filter [Some "main"; Some "helper"]
    (with_psb 3 (with_mtc 4 (with_no_aslr true (with_ptwrite true (with_fmt FMT_TREE
      (with_specs [{| is_symbol := false; start := 4096; stop := 8192; symbol := EmptyString; mode := PT_RANGE_FILTER |};
                   {| is_symbol := true; start := 0; stop := 0; symbol := "main"; mode := PT_RANGE_TRACESTOP |}]
        default_options)))))).

Lemma parse_args_render_witness :
  render_options asked ++ ["--"; "/bin/prog"; "-x"] =
    ["-f"; "tree"; "-s"; "64m"; "-T"; "0"; "-r"; "0x1000:0x2000"; "-r"; "stop:main"; "-A"; "-P3"; "-M4"; "-W";
     "-F"; "main,helper,"; "--"; "/bin/prog"; "-x"] /\
  exists m', parse_args exec_optstring exec_option (render_options asked ++ ["--"; "/bin/prog"; "-x"])
               (default_options, mem0) =
    Some (Some (inl ((asked, m'), ["/bin/prog"; "-x"]))) /\ mem_ok m'.
Proof.
  split; [reflexivity|].
  apply (parse_args_render asked ["--"; "/bin/prog"; "-x"] ["/bin/prog"; "-x"] mem0); [|exact mem0_ok|reflexivity].
  constructor; cbn; [bounds|bounds|exact I| |lia|lia|lia|].
  - split; [lia|]. constructor; [|constructor; [|constructor]].
    + split; [by left|]. split_and!; [reflexivity|vm_compute; split; [discriminate|reflexivity]..].
    + split; [by right|]. split_and!; [reflexivity|reflexivity|discriminate|vm_compute; lia|reflexivity|reflexivity].
  - constructor; [|constructor; [|constructor]]; (split; [discriminate|reflexivity]).
Defined.

Lemma parse_size_exact_witness :
  parse_size "16k" = 16384 /\ parse_size "-16k" = 4096 /\ parse_size EmptyString = 4.
Proof.
  destruct (parse_size_exact 16 "k" ltac:(lia) ltac:(split_and!; [reflexivity|discriminate..]))
    as (E1 & _ & E2 & E3).
  split; [exact E1|]. split; [apply E2; discriminate|exact E3].
Defined.

(** * Commands *)

(** The context that [-M 3 -Y 1] configures for thread 0 of process 7. *)
Definition ctx_timed : hwt_ctx := configured default_options [] 3 1 (ctx_init 1 7 0 "pt" 8192).

(** The sidecar that the session of [live_offline_agree_witness] leaves. *)
Definition left_meta : trace_state * mem :=
  let '(_, ts, m1) := trace_state_seed_process_mmaps (trace_state_init (meta_start 7 0 3 1)) 7 mem0 in
  process_all ts two_records m1.

#[export] Instance sim_reading : Reading := {
  file_text := fun p _ => if String.eqb p "t.meta" then ts_meta left_meta.1 else None;
  k_fstat := fun _ k => Some 64;
}.

#[export] Instance sim_reading_laws : ReadingLaws.
Proof. by split. Qed.

Lemma decode_replays_witness :
  exists m', mem_ok m' /\
    cmd_decode ["-f"; "tree"; "-F"; "main"; "t.pt"] mem0 k0 =
      '(d, m') ← decode_pt_insn (repeat 0 64) (ts_sections left_meta.1) FMT_TREE
                   (Some (snapshot_opts ctx_timed (Some {| opt_tid := 0; opt_mtc_freq := 0; opt_cyc_thresh := 0;
                                                           filter_funcs := [Some "main"] |}))) m';
      Some (if dec_rc d =? 0 then 0 else 1, dec_out d, m', k0).
Proof.
  destruct (comma_list "main" mem0) as [[fs mf']|] eqn:Ef; [|vm_compute in Ef; discriminate Ef].
  assert (fs = [Some "main"]) as -> by (vm_compute in Ef; by injection Ef).
  apply (@decode_replays sim_kernel sim_reading sim_reading_laws sim_proc pt_decoder ctx_timed 7
    left_meta.1 "t.pt" "tree" FMT_TREE "main" [Some "main"] mem0 mf' 4096 64 mem0 k0 k0);
    [bounds|cbn; bounds|exact mem0_ok| |reflexivity|discriminate|reflexivity|reflexivity|reflexivity|exact mem0_ok|exact Ef].
  eapply (live_trace _ _ _ _ 2304 prog_map two_records);
    [exact mem0_ok|exact two_records_ok|reflexivity|reflexivity|exact seeded_writable|reflexivity|reflexivity].
Defined.

Lemma cmd_decode_ends_witness :
  exists rc out m' k', cmd_decode ["-f"; "tree"; "t.pt"] mem0 k0 = Some (rc, out, m', k') /\
    fds k' = fds k0 /\ (rc = 0 \/ rc = 1).
Proof.
  apply (@cmd_decode_ends sim_kernel sim_fds sim_laws sim_reading pt_decoder pt_decoder_laws); [exact mem0_ok|].
  intros s rest H. vm_compute in H. injection H as <- _. reflexivity.
Defined.

Definition timed_options : options := with_timing true (with_psb 2 default_options).

Lemma config_of_options_witness :
  pt_config (configured timed_options [] 3 1 (ctx_init 1 7 0 "pt" 8192)) =
    {| rtit_ctl := rtit_ctl (pt_config (configured timed_options [] 3 1 (ctx_init 1 7 0 "pt" 8192)));
       nranges := 0; ip_ranges := []; cfg_mtc_freq := 3; cfg_cyc_thresh := 1; cfg_psb_freq := 2 |}.
Proof.
  refine (proj1 (config_of_options timed_options [] 1 7 "pt" 8192 _ _ _ _)); [reflexivity| |cbn; lia].
  destruct default_options_ok. by constructor.
Defined.

(** Processes are left as they were. *)
Lemma cmd_exec_clean_witness :
  exists fuel drain r, cmd_exec fuel drain ["-f"; "tree"; "--"; "/bin/prog"] mem0 k0 = Some r /\
    fds (se_kernel r) = fds k0 /\ children (se_kernel r) = children k0 /\ panicked (se_kernel r) = false.
Proof.
  apply (@cmd_exec_clean sim_kernel sim_fds sim_laws sim_write_laws sim_queue_laws sim_files sim_file_laws
    pt_decoder pt_decoder_laws sim_sysinfo sim_processes sim_process_laws sim_exits sim_child_waits sim_elf sim_proc);
    [exact mem0_ok|reflexivity|].
  intros o m' rest H. vm_compute in H. injection H as <- _ _. reflexivity.
Defined.

Lemma cmd_trace_clean_witness :
  exists fuel drain r, cmd_trace fuel drain ["-f"; "profile"; "7"] mem0 k0 = Some r /\
    fds (se_kernel r) = fds k0 /\ children (se_kernel r) = children k0 /\ panicked (se_kernel r) = false.
Proof.
  apply (@cmd_trace_clean sim_kernel sim_fds sim_laws sim_write_laws sim_queue_laws sim_files sim_file_laws
    pt_decoder pt_decoder_laws sim_sysinfo sim_processes sim_process_laws sim_exits sim_elf sim_proc);
    [exact mem0_ok|reflexivity|].
  intros o m' rest H. vm_compute in H. injection H as <- _ _. reflexivity.
Defined.

(** A run of exec: the child's exit code, the tree on stdout. *)
Example exec_runs :
  match cmd_exec 20 200 ["-f"; "tree"; "--"; "/bin/prog"] mem0 k0 with Some r => se_code r | None => -1 end = 3.
Proof. vm_compute. reflexivity. Qed.

(** The commands by name. *)
Example main_runs :
  (se_code <$> main 20 200 ["trace"; "-f"; "profile"; "7"] mem0 k0) = Some 0 /\
  (se_code <$> main 20 200 ["list"; "-f"; "json"] mem0 k0) = Some 0 /\
  (se_lines <$> main 20 200 ["-v"] mem0 k0) = Some ["bsdtrace 0.1.0"] /\
  (se_code <$> main 20 200 ["attach"] mem0 k0) = Some 1.
Proof. vm_compute. auto. Qed.
